(** * Panora unified API: sync, pagination, password reset and ticket mapping

    A shallow embedding of the services of the repository and the
    properties that its specification states about them.

    - [Js]: the fragment of JavaScript values and coercions the services use
      (truthiness, [??], [||], ASCII case conversion, base64 of a Buffer).
    - [Eff]: asynchronous service methods as state-passing computations that
      either resolve with a value or reject with an exception; the store is
      kept on rejection, since nothing in the services opens a transaction.
    - [Prisma]: a table is the list of its rows in insertion order;
      [findFirst], [update] by primary key and [create] act on that list.
    - one module per source file. *)

From Stdlib Require Import String Ascii List ZArith Lia Bool Arith PeanoNat.
From Stdlib Require Import Permutation Sorted DecimalString.
From Stdlib Require DecimalNat DecimalFacts.
Import ListNotations.
Open Scope string_scope.
Open Scope list_scope.

Set Implicit Arguments.

(* ===================================================================== *)
(** ** JavaScript values *)
(* ===================================================================== *)

Module Js.

(** A value of type [T | null | undefined]. *)
Inductive nullable (A : Type) : Type :=
| Undefined
| Null
| Val (a : A).
Arguments Undefined {A}.
Arguments Null {A}.
Arguments Val {A} a.

(** [Boolean(s)] for a string: every string but the empty one. *)
Definition truthy_string (s : string) : bool :=
  negb (String.eqb s "").

(** [Boolean(x)] for [x : string | null | undefined]. *)
Definition truthy_nstring (x : nullable string) : bool :=
  match x with
  | Val s => truthy_string s
  | _ => false
  end.

(** [Boolean(x)] for an optional string ([None] is [undefined]). *)
Definition truthy_ostring (x : option string) : bool :=
  match x with
  | Some s => truthy_string s
  | None => false
  end.

(** [Boolean(b)] for [b?: boolean]. *)
Definition truthy_obool (x : option bool) : bool :=
  match x with
  | Some b => b
  | None => false
  end.

(** [Boolean(n)] for [n?: number] (integers only: no NaN). *)
Definition truthy_onumber (x : option Z) : bool :=
  match x with
  | Some n => negb (Z.eqb n 0)
  | None => false
  end.

(** [Boolean(o)] for an optional object or array: objects are truthy. *)
Definition truthy_oobject {A : Type} (x : option A) : bool :=
  match x with
  | Some _ => true
  | None => false
  end.

(** [x ?? d]. *)
Definition nullish {A : Type} (x : option A) (d : A) : A :=
  match x with
  | Some a => a
  | None => d
  end.

(** What is left to the engine that runs the code: the case mappings of a
    text that has characters outside ASCII, which follow the Unicode
    tables, and [String(n)] of an integer beyond the safe ones, which
    rounds it and, from [1e21], writes it with an exponent. *)
Class Engine : Type := {
  toLowerCase_beyond_ascii : string -> string;
  toUpperCase_beyond_ascii : string -> string;
  String_of_unsafe_integer : Z -> string
}.

(** [Number.MAX_SAFE_INTEGER] and [Number.isSafeInteger(n)]. *)
Definition MAX_SAFE_INTEGER : Z := 9007199254740991%Z.

Definition isSafeInteger (n : Z) : bool :=
  (Z.abs n <=? MAX_SAFE_INTEGER)%Z.

(** The decimal digits of an integer, after a minus sign when it is
    negative. *)
Definition decimal (n : Z) : string :=
  NilZero.string_of_int (Z.to_int n).

(** [String(n)] for a number that holds an integer: its decimal digits
    when the integer is safe. *)
Definition String_of_number {engine : Engine} (n : Z) : string :=
  if isSafeInteger n then decimal n else String_of_unsafe_integer n.

Definition is_upper (c : ascii) : bool :=
  let n := nat_of_ascii c in (65 <=? n)%nat && (n <=? 90)%nat.

Definition is_lower (c : ascii) : bool :=
  let n := nat_of_ascii c in (97 <=? n)%nat && (n <=? 122)%nat.

Definition lower_char (c : ascii) : ascii :=
  if is_upper c then ascii_of_nat (nat_of_ascii c + 32) else c.

Definition upper_char (c : ascii) : ascii :=
  if is_lower c then ascii_of_nat (nat_of_ascii c - 32) else c.

Fixpoint map_string (f : ascii -> ascii) (s : string) : string :=
  match s with
  | EmptyString => EmptyString
  | String c r => String (f c) (map_string f r)
  end.

(** A text all of whose characters are ASCII. *)
Fixpoint is_ascii (s : string) : bool :=
  match s with
  | EmptyString => true
  | String c r => (nat_of_ascii c <? 128)%nat && is_ascii r
  end.

(** [s.toLowerCase()] and [s.toUpperCase()]: on ASCII text the letters
    [A-Z] and [a-z] change case and the other characters are kept. *)
Definition toLowerCase {engine : Engine} (s : string) : string :=
  if is_ascii s then map_string lower_char s
  else toLowerCase_beyond_ascii s.

Definition toUpperCase {engine : Engine} (s : string) : string :=
  if is_ascii s then map_string upper_char s
  else toUpperCase_beyond_ascii s.

(** A [Map] with string keys: its entries in insertion order. *)
Definition Map (V : Type) : Type := list (string * V).

(** [m.set(k, v)]: replaces the value of an existing key in place, appends
    a new key. *)
Fixpoint Map_set {V : Type} (m : Map V) (k : string) (v : V) : Map V :=
  match m with
  | [] => [(k, v)]
  | (k', v') :: r =>
      if String.eqb k' k then (k, v) :: r else (k', v') :: Map_set r k v
  end.

(** A plain object used as a dictionary: its own enumerable string-keyed
    properties as [Object.entries] lists them, the keys that are array
    indices first, in ascending order, and then the other keys in the
    order of their creation. *)
Definition object (V : Type) : Type := list (string * V).

Definition is_digit (c : ascii) : bool :=
  let n := nat_of_ascii c in (48 <=? n)%nat && (n <=? 57)%nat.

Fixpoint digits_value (s : string) (acc : N) : option N :=
  match s with
  | EmptyString => Some acc
  | String c r =>
      if is_digit c
      then digits_value r (10 * acc + (N_of_ascii c - 48))%N
      else None
  end.

(** The array index that a key is, if any: the key is the canonical
    writing of an integer from [0] to [2^32 - 2]. *)
Definition array_index (k : string) : option N :=
  match k with
  | EmptyString => None
  | String c r =>
      if Ascii.eqb c "0"%char && negb (String.eqb r "")
      then None
      else match digits_value k 0%N with
           | Some n => if (n <=? 4294967294)%N then Some n else None
           | None => None
           end
  end.

(** Whether a new key [k] is listed before the key [k'] that the object
    has. *)
Definition listed_before (k k' : string) : bool :=
  match array_index k, array_index k' with
  | Some n, Some n' => (n <? n')%N
  | Some _, None => true
  | None, _ => false
  end.

Definition hasOwn {V : Type} (o : object V) (k : string) : bool :=
  existsb (fun e => String.eqb (fst e) k) o.

Definition obj_replace {V : Type} (o : object V) (k : string) (v : V)
  : object V :=
  List.map (fun e => if String.eqb (fst e) k then (k, v) else e) o.

Fixpoint obj_define {V : Type} (o : object V) (k : string) (v : V)
  : object V :=
  match o with
  | [] => [(k, v)]
  | (k', v') :: r =>
      if listed_before k k' then (k, v) :: o
      else (k', v') :: obj_define r k v
  end.

(** [o[k] = v] on an object whose prototype is [Object.prototype]: the
    value of an own property is replaced where it is; a key that the
    object does not have becomes a new own property, but for
    [__proto__], which the setter of the prototype takes, leaving the
    own properties as they are. *)
Definition obj_set {V : Type} (o : object V) (k : string) (v : V)
  : object V :=
  if hasOwn o k then obj_replace o k v
  else if String.eqb k "__proto__" then o
  else obj_define o k v.

End Js.

Import Js.

(* ===================================================================== *)
(** ** Exceptions and effects *)
(* ===================================================================== *)

Inductive exn : Type :=
| ReferenceError (msg : string)
| TypeError (msg : string)
| BadRequestException (msg : string)
| RemoteError (msg : string).

Inductive outcome (A : Type) : Type :=
| Ok (a : A)
| Throw (e : exn).
Arguments Ok {A} a.
Arguments Throw {A} e.

Definition obind {A B : Type} (x : outcome A) (k : A -> outcome B) : outcome B :=
  match x with
  | Ok a => k a
  | Throw e => Throw e
  end.

Declare Scope outcome_scope.
Delimit Scope outcome_scope with outcome.
Notation "'await' x '<-' c ';' k" := (obind c (fun x => k))
  (at level 10, x name, c at level 100, k at level 200) : outcome_scope.

(** A value of type [T | T[]]. *)
Inductive one_or_array (A : Type) : Type :=
| One (a : A)
| Array (l : list A).
Arguments One {A} a.
Arguments Array {A} l.

(** [Promise.all(list.map(f))] for calls that read but do not write: the
    results in list order when every call resolves, and otherwise the
    rejection of the first call of the list that rejects. *)
Module Promise.

Fixpoint all {A B : Type} (f : A -> outcome B) (l : list A)
  : outcome (list B) :=
  match l with
  | [] => Ok []
  | a :: rest =>
      (await b <- f a;
       await bs <- all f rest;
       Ok (b :: bs))%outcome
  end.

End Promise.

(* ===================================================================== *)
(** ** class ZendeskTicketMapper
    (src/packages/api/src/ticketing/comment/types/model.unified.ts) *)
(* ===================================================================== *)

Module ZendeskTicketMapper.

(** A [Date], in milliseconds since the epoch. *)
Definition Date := Z.

Inductive creator : Type := creator_user | creator_contact.

Record UnifiedCommentInput : Type := {
  body : string;
  html_body : option string;
  is_private : option bool;
  created_at : Date;
  modified_at : Date;
  creator_type : option creator;
  ticket_id : string;
  contact_id : option string;
  user_id : option string
}.

(** The fields of [UnifiedTicketInput] that [desunify] reads. *)
Record UnifiedTicketInput : Type := {
  name : string;
  description : string;
  comment : UnifiedCommentInput;
  attachments : option (list string);
  assigned_to : option (list string);
  due_date : option Date;
  priority : option string;
  status : option string;
  tags : option (list string);
  type : option string;
  field_mappings : option (Js.object string)
}.

Record mapping : Type := {
  slug : string;
  remote_id : string
}.

Record CustomField : Type := {
  id : string;
  value : string
}.

Record ZendeskComment : Type := {
  zc_body : option string;
  zc_public : bool;
  zc_uploads : list string;
  zc_html_body : option string
}.

Record ZendeskTicketInput : Type := {
  zi_description : string;
  zi_subject : string;
  zi_comment : ZendeskComment;
  zi_assignee_email : option string;
  zi_due_at : option string;
  zi_priority : option string;
  zi_status : option string;
  zi_tags : option (list string);
  zi_type : option string;
  zi_custom_fields : option (list CustomField)
}.

(** Property assignments on [result]. *)
Definition set_html_body (v : string) (r : ZendeskTicketInput) :=
  {| zi_description := zi_description r; zi_subject := zi_subject r;
     zi_comment :=
       {| zc_body := zc_body (zi_comment r);
          zc_public := zc_public (zi_comment r);
          zc_uploads := zc_uploads (zi_comment r);
          zc_html_body := Some v |};
     zi_assignee_email := zi_assignee_email r; zi_due_at := zi_due_at r;
     zi_priority := zi_priority r; zi_status := zi_status r;
     zi_tags := zi_tags r; zi_type := zi_type r;
     zi_custom_fields := zi_custom_fields r |}.

Definition set_assignee_email (v : string) (r : ZendeskTicketInput) :=
  {| zi_description := zi_description r; zi_subject := zi_subject r;
     zi_comment := zi_comment r;
     zi_assignee_email := Some v; zi_due_at := zi_due_at r;
     zi_priority := zi_priority r; zi_status := zi_status r;
     zi_tags := zi_tags r; zi_type := zi_type r;
     zi_custom_fields := zi_custom_fields r |}.

Definition set_due_at (v : string) (r : ZendeskTicketInput) :=
  {| zi_description := zi_description r; zi_subject := zi_subject r;
     zi_comment := zi_comment r;
     zi_assignee_email := zi_assignee_email r; zi_due_at := Some v;
     zi_priority := zi_priority r; zi_status := zi_status r;
     zi_tags := zi_tags r; zi_type := zi_type r;
     zi_custom_fields := zi_custom_fields r |}.

Definition set_priority (v : string) (r : ZendeskTicketInput) :=
  {| zi_description := zi_description r; zi_subject := zi_subject r;
     zi_comment := zi_comment r;
     zi_assignee_email := zi_assignee_email r; zi_due_at := zi_due_at r;
     zi_priority := Some v; zi_status := zi_status r;
     zi_tags := zi_tags r; zi_type := zi_type r;
     zi_custom_fields := zi_custom_fields r |}.

Definition set_status (v : string) (r : ZendeskTicketInput) :=
  {| zi_description := zi_description r; zi_subject := zi_subject r;
     zi_comment := zi_comment r;
     zi_assignee_email := zi_assignee_email r; zi_due_at := zi_due_at r;
     zi_priority := zi_priority r; zi_status := Some v;
     zi_tags := zi_tags r; zi_type := zi_type r;
     zi_custom_fields := zi_custom_fields r |}.

Definition set_tags (v : list string) (r : ZendeskTicketInput) :=
  {| zi_description := zi_description r; zi_subject := zi_subject r;
     zi_comment := zi_comment r;
     zi_assignee_email := zi_assignee_email r; zi_due_at := zi_due_at r;
     zi_priority := zi_priority r; zi_status := zi_status r;
     zi_tags := Some v; zi_type := zi_type r;
     zi_custom_fields := zi_custom_fields r |}.

Definition set_type (v : string) (r : ZendeskTicketInput) :=
  {| zi_description := zi_description r; zi_subject := zi_subject r;
     zi_comment := zi_comment r;
     zi_assignee_email := zi_assignee_email r; zi_due_at := zi_due_at r;
     zi_priority := zi_priority r; zi_status := zi_status r;
     zi_tags := zi_tags r; zi_type := Some v;
     zi_custom_fields := zi_custom_fields r |}.

Definition set_custom_fields (v : list CustomField) (r : ZendeskTicketInput) :=
  {| zi_description := zi_description r; zi_subject := zi_subject r;
     zi_comment := zi_comment r;
     zi_assignee_email := zi_assignee_email r; zi_due_at := zi_due_at r;
     zi_priority := zi_priority r; zi_status := zi_status r;
     zi_tags := zi_tags r; zi_type := zi_type r;
     zi_custom_fields := Some v |}.

(** [customFieldMappings.find((mapping) => mapping.slug === k)]. *)
Definition find_mapping (ms : list mapping) (k : string) : option mapping :=
  List.find (fun m => String.eqb (slug m) k) ms.

(** The loop over [Object.entries(source.field_mappings)]. *)
Fixpoint desunify_fields (ms : list mapping) (entries : Js.object string)
         (res : list CustomField) : list CustomField :=
  match entries with
  | [] => res
  | (k, v) :: rest =>
      match find_mapping ms k with
      | Some m =>
          desunify_fields ms rest (res ++ [{| id := remote_id m; value := v |}])
      | None => desunify_fields ms rest res
      end
  end.

(** The option object built before the unified ticket: each branch of
    [mapSingleTicketToUnified] assigns a fresh object literal to [opts]. *)
Record TicketOpts (Tag : Type) : Type := {
  o_assigned_to : option (list string);
  o_type : option string;
  o_tags : option (list Tag)
}.

(** The fields of [ZendeskTicketOutput] that the mapper reads. *)
Record ZendeskTicketOutput : Type := {
  zo_id : Z;
  zo_subject : string;
  zo_status : string;
  zo_description : string;
  zo_due_at : option string;
  zo_updated_at : string;
  zo_priority : string;
  zo_custom_fields : list CustomField;
  zo_assignee_id : option Z;
  zo_type : option string;
  zo_tags : option (list string)
}.

Record UnifiedTicketOutput (Tag : Type) : Type := {
  u_remote_id : string;
  u_name : string;
  u_status : string;
  u_description : string;
  u_due_date : option Date;
  u_parent_ticket : option string;
  u_completed_at : Date;
  u_priority : string;
  u_field_mappings : Js.object string;
  u_assigned_to : option (list string);
  u_type : option string;
  u_tags : option (list Tag)
}.

Section Mapper.

Context {engine : Js.Engine}.

(** Collaborators injected in the constructor. *)
Variable Tag : Type.
Variable getAssigneeMetadataFromUuid : string -> outcome string.
Variable getUserUuidFromRemoteId : string -> string -> outcome (option string).
Variable unify_tags : list string -> string -> outcome (list Tag).
(** [Date.prototype.toISOString] and [new Date(string)]. *)
Variable toISOString : Date -> string.
Variable new_Date : string -> Date.

Definition desunify (source : UnifiedTicketInput)
           (customFieldMappings : option (list mapping))
  : outcome ZendeskTicketInput :=
  (let result :=
     {| zi_description := description source;
        zi_subject := name source;
        zi_comment :=
          {| zc_body :=
               if truthy_string (body (comment source))
               then Some (body (comment source)) else None;
             zc_public :=
               negb (truthy_obool (is_private (comment source))) || true;
             zc_uploads := nullish (attachments source) [];
             zc_html_body := None |};
        zi_assignee_email := None; zi_due_at := None;
        zi_priority := None; zi_status := None; zi_tags := None;
        zi_type := None; zi_custom_fields := None |} in
   let result :=
     match html_body (comment source) with
     | Some h => if truthy_string h then set_html_body h result else result
     | None => result
     end in
   await result <-
     match assigned_to source with
     | Some (a :: _) =>
         await email <- getAssigneeMetadataFromUuid a;
         Ok (set_assignee_email email result)
     | _ => Ok result
     end;
   let result :=
     match due_date source with
     | Some d => set_due_at (toISOString d) result
     | None => result
     end in
   let result :=
     match priority source with
     | Some p =>
         if truthy_string p
         then set_priority
                (if String.eqb p "MEDIUM" then "normal" else toLowerCase p)
                result
         else result
     | None => result
     end in
   let result :=
     match status source with
     | Some s =>
         if truthy_string s then set_status (toLowerCase s) result
         else result
     | None => result
     end in
   let result :=
     match tags source with
     | Some t => set_tags t result
     | None => result
     end in
   let result :=
     match type source with
     | Some t =>
         if truthy_string t then set_type (toLowerCase t) result
         else result
     | None => result
     end in
   let result :=
     match customFieldMappings, field_mappings source with
     | Some ms, Some fm => set_custom_fields (desunify_fields ms fm []) result
     | _, _ => result
     end in
   Ok result)%outcome.

(** [ticket.custom_fields.find((field) => field.id === mapping.remote_id)]. *)
Definition find_custom_field (fs : list CustomField) (rid : string)
  : option CustomField :=
  List.find (fun f => String.eqb (id f) rid) fs.

Fixpoint unify_fields (ms : list mapping) (fs : list CustomField)
         (acc : Js.object string) : Js.object string :=
  match ms with
  | [] => acc
  | m :: rest =>
      match find_custom_field fs (remote_id m) with
      | Some f => unify_fields rest fs (obj_set acc (slug m) (value f))
      | None => unify_fields rest fs acc
      end
  end.

(** [{ ...base, ...opts }] for the three optional properties. *)
Definition spread_opts (opts : option (TicketOpts Tag))
           (base : UnifiedTicketOutput Tag) : UnifiedTicketOutput Tag :=
  match opts with
  | None => base
  | Some o =>
      {| u_remote_id := u_remote_id base; u_name := u_name base;
         u_status := u_status base; u_description := u_description base;
         u_due_date := u_due_date base;
         u_parent_ticket := u_parent_ticket base;
         u_completed_at := u_completed_at base;
         u_priority := u_priority base;
         u_field_mappings := u_field_mappings base;
         u_assigned_to :=
           match o_assigned_to o with
           | Some a => Some a
           | None => u_assigned_to base
           end;
         u_type :=
           match o_type o with
           | Some t => Some t
           | None => u_type base
           end;
         u_tags :=
           match o_tags o with
           | Some t => Some t
           | None => u_tags base
           end |}
  end.

Definition mapSingleTicketToUnified (ticket : ZendeskTicketOutput)
           (connectionId : string)
           (customFieldMappings : option (list mapping))
  : outcome (UnifiedTicketOutput Tag) :=
  (let field_mappings :=
     match customFieldMappings with
     | Some ms => unify_fields ms (zo_custom_fields ticket) []
     | None => []
     end in
   let opts : option (TicketOpts Tag) := None in
   await opts <-
     (if truthy_onumber (zo_assignee_id ticket)
      then
        await user_id <-
          getUserUuidFromRemoteId
            (String_of_number (nullish (zo_assignee_id ticket) 0%Z))
            connectionId;
        Ok (if truthy_ostring user_id
            then Some {| o_assigned_to := Some [nullish user_id ""];
                         o_type := None; o_tags := None |}
            else opts)
      else Ok opts);
   let opts :=
     match zo_type ticket with
     | Some t =>
         if truthy_string t
         then Some {| o_assigned_to := None;
                      o_type :=
                        Some (if String.eqb t "incident" then "PROBLEM"
                              else toUpperCase t);
                      o_tags := None |}
         else opts
     | None => opts
     end in
   await opts <-
     match zo_tags ticket with
     | Some ts =>
         await tags <- unify_tags ts connectionId;
         Ok (Some {| o_assigned_to := None; o_type := None;
                     o_tags := Some tags |})
     | None => Ok opts
     end;
   let unifiedTicket :=
     spread_opts opts
       {| u_remote_id := String_of_number (zo_id ticket);
          u_name := zo_subject ticket;
          u_status :=
            if String.eqb (zo_status ticket) "new"
               || String.eqb (zo_status ticket) "open"
            then "OPEN" else "CLOSED";
          u_description := zo_description ticket;
          u_due_date :=
            match zo_due_at ticket with
            | Some d => if truthy_string d then Some (new_Date d) else None
            | None => None
            end;
          u_parent_ticket := None;
          u_completed_at := new_Date (zo_updated_at ticket);
          u_priority := zo_priority ticket;
          u_field_mappings := field_mappings;
          u_assigned_to := None; u_type := None; u_tags := None |} in
   Ok unifiedTicket)%outcome.

(** [Array.isArray(source)] decides between one ticket and the array. *)
Definition unify (source : one_or_array ZendeskTicketOutput)
           (connectionId : string)
           (customFieldMappings : option (list mapping))
  : outcome (one_or_array (UnifiedTicketOutput Tag)) :=
  match source with
  | One ticket =>
      (await u <-
         mapSingleTicketToUnified ticket connectionId customFieldMappings;
       Ok (One u))%outcome
  | Array source =>
      (await us <-
         Promise.all
           (fun ticket =>
              mapSingleTicketToUnified ticket connectionId
                                       customFieldMappings)
           source;
       Ok (Array us))%outcome
  end.

End Mapper.

End ZendeskTicketMapper.

(* ===================================================================== *)
(** ** class GitlabTicketMapper
    (src/packages/api/src/ticketing/comment/types/model.unified.ts) *)
(* ===================================================================== *)

Module GitlabTicketMapper.

Definition Date := Z.

Record mapping : Type := {
  slug : string;
  remote_id : string
}.

(** The fields of [UnifiedTicketInput] that [desunify] reads. *)
Record UnifiedTicketInput : Type := {
  name : string;
  description : option string;
  collections : option (list string);
  status : option string;
  assigned_to : option (list string);
  tags : option (list string)
}.

Record GitlabAssignee (Num : Type) : Type := {
  assignee_id : Num
}.

Record GitlabTicketInput (Num : Type) : Type := {
  gi_title : string;
  gi_description : option string;
  gi_project_id : Num;
  gi_type : option string;
  gi_assignee : option (GitlabAssignee Num);
  gi_labels : option (list string)
}.

(** The fields of [GitlabTicketOutput] that the mapper reads by name. *)
Record GitlabTicketOutput (Assignee : Type) : Type := {
  go_id : Z;
  go_title : string;
  go_description : option string;
  go_created_at : string;
  go_type : option string;
  go_assignee : option Assignee;
  go_labels : option (list string);
  go_project_id : option Z
}.

(** The object that the branches of [mapSingleTicketToUnified] build. *)
Record TicketOpts (Tag : Type) : Type := {
  o_type : option string;
  o_assigned_to : option (list string);
  o_tags : option (list Tag);
  o_collections : option (list string)
}.

Record UnifiedTicketOutput (Tag Any Assignee : Type) : Type := {
  u_remote_id : string;
  u_remote_data : GitlabTicketOutput Assignee;
  u_name : string;
  u_description : option string;
  u_due_date : Date;
  u_field_mappings : Js.object Any;
  u_type : option string;
  u_assigned_to : option (list string);
  u_tags : option (list Tag);
  u_collections : option (list string)
}.

Section Mapper.

Context {engine : Js.Engine}.

(** Numbers with [Number(x)], any value with the property access
    [ticket[key]], and the assignee of a GitLab issue with its
    truthiness and [String(x)]. *)
Variable Num : Type.
Variable Number_ : option string -> Num.
Variable Any : Type.
Variable Assignee : Type.
Variable truthy_assignee : Assignee -> bool.
Variable String_of_assignee : Assignee -> string.
Variable property : GitlabTicketOutput Assignee -> string -> Any.
Variable new_Date : string -> Date.

(** Collaborators injected in the constructor. *)
Variable Tag : Type.
Variable getCollectionRemoteIdFromUuid :
  option string -> outcome (option string).
Variable getAsigneeRemoteIdFromUserUuid :
  string -> outcome (option string).
Variable getUserUuidFromRemoteId :
  string -> string -> outcome (option string).
Variable getCollectionUuidFromRemoteId :
  string -> string -> outcome (option string).
Variable unify_tags : list string -> string -> outcome (list Tag).

Definition set_type (v : string) (r : GitlabTicketInput Num) :=
  {| gi_title := gi_title r; gi_description := gi_description r;
     gi_project_id := gi_project_id r; gi_type := Some v;
     gi_assignee := gi_assignee r; gi_labels := gi_labels r |}.

Definition set_assignee (v : GitlabAssignee Num)
           (r : GitlabTicketInput Num) :=
  {| gi_title := gi_title r; gi_description := gi_description r;
     gi_project_id := gi_project_id r; gi_type := gi_type r;
     gi_assignee := Some v; gi_labels := gi_labels r |}.

Definition set_labels (v : list string) (r : GitlabTicketInput Num) :=
  {| gi_title := gi_title r; gi_description := gi_description r;
     gi_project_id := gi_project_id r; gi_type := gi_type r;
     gi_assignee := gi_assignee r; gi_labels := Some v |}.

Definition desunify (source : UnifiedTicketInput)
           (customFieldMappings : option (list mapping))
  : outcome (GitlabTicketInput Num) :=
  (match collections source with
   | None =>
       Throw (TypeError
         "Cannot read properties of undefined (reading '0')")
   | Some cs =>
       await remote_project_id <-
         getCollectionRemoteIdFromUuid (List.nth_error cs 0);
       let result :=
         {| gi_title := name source;
            gi_description :=
              if truthy_ostring (description source)
              then description source else None;
            gi_project_id := Number_ remote_project_id;
            gi_type := None; gi_assignee := None; gi_labels := None |} in
       let result :=
         match status source with
         | Some st =>
             if truthy_string st
             then set_type
                    (if String.eqb st "OPEN" then "opened" else "closed")
                    result
             else result
         | None => result
         end in
       await result <-
         match assigned_to source with
         | Some (a :: _) =>
             await data <- getAsigneeRemoteIdFromUserUuid a;
             Ok (set_assignee {| assignee_id := Number_ data |} result)
         | _ => Ok result
         end;
       let result :=
         match tags source with
         | Some t => set_labels t result
         | None => result
         end in
       Ok result
   end)%outcome.

(** [field_mappings[mapping.slug] = ticket[mapping.remote_id]] for each
    mapping. *)
Fixpoint unify_fields (ms : list mapping)
         (ticket : GitlabTicketOutput Assignee) (acc : Js.object Any)
  : Js.object Any :=
  match ms with
  | [] => acc
  | m :: rest =>
      unify_fields rest ticket
        (obj_set acc (slug m) (property ticket (remote_id m)))
  end.

Definition no_opts : TicketOpts Tag :=
  {| o_type := None; o_assigned_to := None; o_tags := None;
     o_collections := None |}.

(** [{ ...opts }] of an [opts] that may still be [undefined]. *)
Definition spread (opts : option (TicketOpts Tag)) : TicketOpts Tag :=
  match opts with
  | Some o => o
  | None => no_opts
  end.

(** [{ ...base, ...opts }] for the four optional properties. *)
Definition spread_opts (opts : option (TicketOpts Tag))
           (base : UnifiedTicketOutput Tag Any Assignee)
  : UnifiedTicketOutput Tag Any Assignee :=
  match opts with
  | None => base
  | Some o =>
      {| u_remote_id := u_remote_id base;
         u_remote_data := u_remote_data base;
         u_name := u_name base;
         u_description := u_description base;
         u_due_date := u_due_date base;
         u_field_mappings := u_field_mappings base;
         u_type :=
           match o_type o with
           | Some t => Some t
           | None => u_type base
           end;
         u_assigned_to :=
           match o_assigned_to o with
           | Some a => Some a
           | None => u_assigned_to base
           end;
         u_tags :=
           match o_tags o with
           | Some t => Some t
           | None => u_tags base
           end;
         u_collections :=
           match o_collections o with
           | Some c => Some c
           | None => u_collections base
           end |}
  end.

Definition mapSingleTicketToUnified (ticket : GitlabTicketOutput Assignee)
           (connectionId : string)
           (customFieldMappings : option (list mapping))
  : outcome (UnifiedTicketOutput Tag Any Assignee) :=
  (let field_mappings :=
     match customFieldMappings with
     | Some ms => unify_fields ms ticket []
     | None => []
     end in
   let opts : option (TicketOpts Tag) := None in
   let opts :=
     match go_type ticket with
     | Some t =>
         if truthy_string t
         then Some {| o_type :=
                        Some (if String.eqb t "opened" then "OPEN"
                              else "CLOSED");
                      o_assigned_to := o_assigned_to (spread opts);
                      o_tags := o_tags (spread opts);
                      o_collections := o_collections (spread opts) |}
         else opts
     | None => opts
     end in
   await opts <-
     match go_assignee ticket with
     | Some a =>
         if truthy_assignee a
         then
           await user_id <-
             getUserUuidFromRemoteId (String_of_assignee a) connectionId;
           Ok (if truthy_ostring user_id
               then Some {| o_type := o_type (spread opts);
                            o_assigned_to := Some [nullish user_id ""];
                            o_tags := o_tags (spread opts);
                            o_collections := o_collections (spread opts) |}
               else opts)
         else Ok opts
     | None => Ok opts
     end;
   await opts <-
     match go_labels ticket with
     | Some labels =>
         await tags <- unify_tags labels connectionId;
         Ok (Some {| o_type := None; o_assigned_to := None;
                     o_tags := Some tags; o_collections := None |})
     | None => Ok opts
     end;
   await opts <-
     (if truthy_onumber (go_project_id ticket)
      then
        await tcg_collection_id <-
          getCollectionUuidFromRemoteId
            (String_of_number (nullish (go_project_id ticket) 0%Z))
            connectionId;
        Ok (if truthy_ostring tcg_collection_id
            then Some {| o_type := o_type (spread opts);
                         o_assigned_to := o_assigned_to (spread opts);
                         o_tags := o_tags (spread opts);
                         o_collections :=
                           Some [nullish tcg_collection_id ""] |}
            else opts)
      else Ok opts);
   let unifiedTicket :=
     spread_opts opts
       {| u_remote_id := String_of_number (go_id ticket);
          u_remote_data := ticket;
          u_name := go_title ticket;
          u_description :=
            if truthy_ostring (go_description ticket)
            then go_description ticket else None;
          u_due_date := new_Date (go_created_at ticket);
          u_field_mappings := field_mappings;
          u_type := None; u_assigned_to := None; u_tags := None;
          u_collections := None |} in
   Ok unifiedTicket)%outcome.

(** [Array.isArray(source) ? source : [source]]: the result is always
    an array. *)
Definition unify
           (source : one_or_array (GitlabTicketOutput Assignee))
           (connectionId : string)
           (customFieldMappings : option (list mapping))
  : outcome (list (UnifiedTicketOutput Tag Any Assignee)) :=
  let sourcesArray :=
    match source with
    | One ticket => [ticket]
    | Array l => l
    end in
  Promise.all
    (fun ticket =>
       mapSingleTicketToUnified ticket connectionId customFieldMappings)
    sourcesArray.

End Mapper.

End GitlabTicketMapper.

(* ===================================================================== *)
(** ** Buffer.from(s).toString('base64') *)
(* ===================================================================== *)

Module Base64.

Definition alphabet : string :=
  "ABCDEFGHIJKLMNOPQRSTUVWXYZabcdefghijklmnopqrstuvwxyz0123456789+/".

Definition pad : ascii := "="%char.

(** The character of a 6-bit group. *)
Definition digit (n : N) : ascii :=
  match String.get (N.to_nat n) alphabet with
  | Some c => c
  | None => pad
  end.

(** Three bytes give four characters; one or two trailing bytes are padded. *)
Fixpoint encode_bytes (l : list N) : string :=
  match l with
  | [] => EmptyString
  | [a] =>
      let n := N.shiftl a 16 in
      String (digit (N.land (N.shiftr n 18) 63))
        (String (digit (N.land (N.shiftr n 12) 63))
           (String pad (String pad EmptyString)))
  | [a; b] =>
      let n := N.lor (N.shiftl a 16) (N.shiftl b 8) in
      String (digit (N.land (N.shiftr n 18) 63))
        (String (digit (N.land (N.shiftr n 12) 63))
           (String (digit (N.land (N.shiftr n 6) 63))
              (String pad EmptyString)))
  | a :: b :: c :: r =>
      let n := N.lor (N.lor (N.shiftl a 16) (N.shiftl b 8)) c in
      String (digit (N.land (N.shiftr n 18) 63))
        (String (digit (N.land (N.shiftr n 12) 63))
           (String (digit (N.land (N.shiftr n 6) 63))
              (String (digit (N.land n 63)) (encode_bytes r))))
  end.

(** The bytes of a string (a Rocq string is a sequence of 8-bit bytes). *)
Definition bytes (s : string) : list N :=
  List.map N_of_ascii (list_ascii_of_string s).

Definition encode (s : string) : string := encode_bytes (bytes s).

End Base64.

(* ===================================================================== *)
(** ** The database schema (the tables and columns the services touch) *)
(* ===================================================================== *)

(** The Prisma schema is not among the sources: a table has the columns
    that the services read or write, with the types the code gives them. *)

Definition Date := Z.

Module Users.
Record row : Type := {
  id_user : string;
  email : string;
  first_name : string;
  password_hash : string;
  reset_token : option string;
  reset_token_expiry : option Date
}.
End Users.

Module Projects.
Record row : Type := {
  id_project : string;
  id_user : string
}.
End Projects.

Module LinkedUsers.
Record row : Type := {
  id_linked_user : string;
  id_project : string
}.
End LinkedUsers.

Module Connections.
Record row : Type := {
  id_connection : string;
  id_linked_user : string;
  provider_slug : string;
  vertical : string
}.
End Connections.

Module FsGroups.
Record row : Type := {
  id_fs_group : string;
  created_at : Date;
  modified_at : Date;
  remote_id : option string;
  id_connection : option string;
  name : option string;
  users : option (list string);
  remote_was_deleted : option bool
}.
End FsGroups.

(** The source names the identifier [id_ats_candidate_attachment] in the
    [where] of the update, which the generated client types, and
    [id_ats_attachment] in the data of the create and where it reads the
    saved row, both through values of type [any].  The Prisma schema is not
    among the sources: which of the two columns the table has, and whether
    it fills [id_ats_candidate_attachment] by itself in a row created
    without it, are parameters of the service, and a row has [None] for a
    column that its table lacks. *)
Module AtsAttachments.
Record columns : Type := {
  has_id_ats_candidate_attachment : bool;
  has_id_ats_attachment : bool;
  generates_id_ats_candidate_attachment : bool
}.

Record row : Type := {
  id_ats_candidate_attachment : option string;
  id_ats_attachment : option string;
  file_url : option string;
  file_name : option string;
  file_type : option string;
  remote_created_at : option string;
  remote_modified_at : option string;
  candidate_id : option string;
  modified_at : Date;
  created_at : Date;
  remote_id : option string;
  id_connection : option string
}.
End AtsAttachments.

Module AtsInterviews.
Record row : Type := {
  id_ats_interview : string;
  status : option string;
  id_ats_application : option string;
  id_ats_job_interview_stage : option string;
  organized_by : option string;
  interviewers : list string;
  location : option string;
  start_at : option Date;
  end_at : option Date;
  remote_created_at : option Date;
  remote_updated_at : option Date;
  remote_id : option string;
  created_at : Date;
  modified_at : Date;
  id_connection : string
}.
End AtsInterviews.

Module Entity.
Record row : Type := {
  id_entity : string;
  ressource_owner_id : string
}.
End Entity.

Module Attribute.
Record row : Type := {
  id_attribute : string;
  slug : string;
  source : string;
  id_consumer : string
}.
End Attribute.

Module Value.
Record row : Type := {
  id_value : string;
  data : string;
  id_attribute : string;
  id_entity : string
}.
End Value.

Module RemoteData.
Record row : Type := {
  id_remote_data : string;
  ressource_owner_id : string;
  format : string;
  data : option string;
  created_at : Date
}.
End RemoteData.

Module Events.
Record row : Type := {
  id_event : string;
  status : string;
  type : string;
  method : string;
  url : string;
  provider : string;
  direction : string;
  timestamp : Date;
  id_linked_user : string
}.
End Events.

(** What [WebhookService.handleWebhook(data, type, id_project, id_event)] is
    called with.  The webhook service is not among the sources: the model
    records its calls. *)
Module Webhook.
Record call : Type := {
  payload : list FsGroups.row;
  event_type : string;
  id_project : string;
  id_event : string
}.
End Webhook.

Module Db.

(** The store behind [PrismaService], the webhook calls made so far and the
  two sources of non-determinism of the process: the wall clock read by
  [new Date()] and the random generator behind [uuidv4()] and bcrypt's salt.
  Each is a sequence of readings with the number of readings consumed. *)
Record World : Type := {
users : list Users.row;
projects : list Projects.row;
linked_users : list LinkedUsers.row;
connections : list Connections.row;
fs_groups : list FsGroups.row;
ats_candidate_attachments : list AtsAttachments.row;
ats_interviews : list AtsInterviews.row;
entity : list Entity.row;
attribute : list Attribute.row;
value : list Value.row;
remote_data : list RemoteData.row;
events : list Events.row;
webhooks : list Webhook.call;
sys_clock : nat -> Date;
clock_reads : nat;
sys_uuid : nat -> string;
uuid_draws : nat
}.

Definition with_users (v : list Users.row) (w : World) : World :=
{| users := v; projects := projects w; linked_users := linked_users w;
   connections := connections w; fs_groups := fs_groups w;
   ats_candidate_attachments := ats_candidate_attachments w;
   ats_interviews := ats_interviews w; entity := entity w;
   attribute := attribute w; value := value w;
   remote_data := remote_data w; events := events w;
   webhooks := webhooks w; sys_clock := sys_clock w;
   clock_reads := clock_reads w; sys_uuid := sys_uuid w;
   uuid_draws := uuid_draws w |}.

Definition with_fs_groups (v : list FsGroups.row) (w : World) : World :=
{| users := users w; projects := projects w; linked_users := linked_users w;
   connections := connections w; fs_groups := v;
   ats_candidate_attachments := ats_candidate_attachments w;
   ats_interviews := ats_interviews w; entity := entity w;
   attribute := attribute w; value := value w;
   remote_data := remote_data w; events := events w;
   webhooks := webhooks w; sys_clock := sys_clock w;
   clock_reads := clock_reads w; sys_uuid := sys_uuid w;
   uuid_draws := uuid_draws w |}.

Definition with_ats_candidate_attachments (v : list AtsAttachments.row)
         (w : World) : World :=
{| users := users w; projects := projects w; linked_users := linked_users w;
   connections := connections w; fs_groups := fs_groups w;
   ats_candidate_attachments := v;
   ats_interviews := ats_interviews w; entity := entity w;
   attribute := attribute w; value := value w;
   remote_data := remote_data w; events := events w;
   webhooks := webhooks w; sys_clock := sys_clock w;
   clock_reads := clock_reads w; sys_uuid := sys_uuid w;
   uuid_draws := uuid_draws w |}.

Definition with_entity (v : list Entity.row) (w : World) : World :=
{| users := users w; projects := projects w; linked_users := linked_users w;
   connections := connections w; fs_groups := fs_groups w;
   ats_candidate_attachments := ats_candidate_attachments w;
   ats_interviews := ats_interviews w; entity := v;
   attribute := attribute w; value := value w;
   remote_data := remote_data w; events := events w;
   webhooks := webhooks w; sys_clock := sys_clock w;
   clock_reads := clock_reads w; sys_uuid := sys_uuid w;
   uuid_draws := uuid_draws w |}.

Definition with_value (v : list Value.row) (w : World) : World :=
{| users := users w; projects := projects w; linked_users := linked_users w;
   connections := connections w; fs_groups := fs_groups w;
   ats_candidate_attachments := ats_candidate_attachments w;
   ats_interviews := ats_interviews w; entity := entity w;
   attribute := attribute w; value := v;
   remote_data := remote_data w; events := events w;
   webhooks := webhooks w; sys_clock := sys_clock w;
   clock_reads := clock_reads w; sys_uuid := sys_uuid w;
   uuid_draws := uuid_draws w |}.

Definition with_remote_data (v : list RemoteData.row) (w : World) : World :=
{| users := users w; projects := projects w; linked_users := linked_users w;
   connections := connections w; fs_groups := fs_groups w;
   ats_candidate_attachments := ats_candidate_attachments w;
   ats_interviews := ats_interviews w; entity := entity w;
   attribute := attribute w; value := value w;
   remote_data := v; events := events w;
   webhooks := webhooks w; sys_clock := sys_clock w;
   clock_reads := clock_reads w; sys_uuid := sys_uuid w;
   uuid_draws := uuid_draws w |}.

Definition with_events (v : list Events.row) (w : World) : World :=
{| users := users w; projects := projects w; linked_users := linked_users w;
   connections := connections w; fs_groups := fs_groups w;
   ats_candidate_attachments := ats_candidate_attachments w;
   ats_interviews := ats_interviews w; entity := entity w;
   attribute := attribute w; value := value w;
   remote_data := remote_data w; events := v;
   webhooks := webhooks w; sys_clock := sys_clock w;
   clock_reads := clock_reads w; sys_uuid := sys_uuid w;
   uuid_draws := uuid_draws w |}.

Definition with_webhooks (v : list Webhook.call) (w : World) : World :=
{| users := users w; projects := projects w; linked_users := linked_users w;
   connections := connections w; fs_groups := fs_groups w;
   ats_candidate_attachments := ats_candidate_attachments w;
   ats_interviews := ats_interviews w; entity := entity w;
   attribute := attribute w; value := value w;
   remote_data := remote_data w; events := events w;
   webhooks := v; sys_clock := sys_clock w;
   clock_reads := clock_reads w; sys_uuid := sys_uuid w;
   uuid_draws := uuid_draws w |}.

Definition with_clock_reads (v : nat) (w : World) : World :=
{| users := users w; projects := projects w; linked_users := linked_users w;
   connections := connections w; fs_groups := fs_groups w;
   ats_candidate_attachments := ats_candidate_attachments w;
   ats_interviews := ats_interviews w; entity := entity w;
   attribute := attribute w; value := value w;
   remote_data := remote_data w; events := events w;
   webhooks := webhooks w; sys_clock := sys_clock w;
   clock_reads := v; sys_uuid := sys_uuid w;
   uuid_draws := uuid_draws w |}.

Definition with_uuid_draws (v : nat) (w : World) : World :=
{| users := users w; projects := projects w; linked_users := linked_users w;
   connections := connections w; fs_groups := fs_groups w;
   ats_candidate_attachments := ats_candidate_attachments w;
   ats_interviews := ats_interviews w; entity := entity w;
   attribute := attribute w; value := value w;
   remote_data := remote_data w; events := events w;
   webhooks := webhooks w; sys_clock := sys_clock w;
   clock_reads := clock_reads w; sys_uuid := sys_uuid w;
   uuid_draws := v |}.

End Db.

Abbreviation World := Db.World.

(* ===================================================================== *)
(** ** Asynchronous methods *)
(* ===================================================================== *)

Module Eff.

(** An async method: from the world it starts in to the value it resolves
    with, or the exception it rejects with, and the world it leaves. *)
Definition M (A : Type) : Type := World -> outcome A * World.

Definition ret {A : Type} (a : A) : M A := fun w => (Ok a, w).

Definition throw {A : Type} (e : exn) : M A := fun w => (Throw e, w).

Definition bind {A B : Type} (c : M A) (k : A -> M B) : M B :=
  fun w =>
    match c w with
    | (Ok a, w') => k a w'
    | (Throw e, w') => (Throw e, w')
    end.

(** A read of the store. *)
Definition query {A : Type} (f : World -> A) : M A := fun w => (Ok (f w), w).

(** A write to the store. *)
Definition exec (f : World -> World) : M unit := fun w => (Ok tt, f w).

(** A pure computation that may throw. *)
Definition lift {A : Type} (x : outcome A) : M A := fun w => (x, w).

(** [new Date()]. *)
Definition new_Date : M Date :=
  fun w => (Ok (Db.sys_clock w (Db.clock_reads w)),
            Db.with_clock_reads (S (Db.clock_reads w)) w).

(** [uuidv4()]. *)
Definition uuidv4 : M string :=
  fun w => (Ok (Db.sys_uuid w (Db.uuid_draws w)),
            Db.with_uuid_draws (S (Db.uuid_draws w)) w).

End Eff.

Import Eff.

Declare Scope eff_scope.
Delimit Scope eff_scope with eff.
Notation "'let*' x ':=' c 'in' k" := (Eff.bind c (fun x => k))
  (at level 10, x name, c at level 100, k at level 200) : eff_scope.
Notation "c ';;' k" := (Eff.bind c (fun _ => k))
  (at level 61, right associativity) : eff_scope.

(* ===================================================================== *)
(** ** Prisma client operations on a table *)
(* ===================================================================== *)

Module Prisma.

Section Table.
Variable Row : Type.

(** [findFirst({ where })]: the first row that satisfies the filter. *)
Definition findFirst (where_ : Row -> bool) (t : list Row) : option Row :=
  List.find where_ t.

(** [findMany({ where })]. *)
Definition findMany (where_ : Row -> bool) (t : list Row) : list Row :=
  List.filter where_ t.

(** [create({ data })]. *)
Definition create (r : Row) (t : list Row) : list Row := t ++ [r].

(** [update({ where, data })] on a unique column: rewrites the row
    selected by [where_] where it stands and returns it with the table;
    [None] when no row is selected (Prisma then rejects). *)
Fixpoint update (where_ : Row -> bool) (data : Row -> Row) (t : list Row)
  : option (Row * list Row) :=
  match t with
  | [] => None
  | r :: t' =>
      if where_ r then Some (data r, data r :: t')
      else
        match update where_ data t' with
        | Some (res, t'') => Some (res, r :: t'')
        | None => None
        end
  end.

End Table.

Definition RecordNotFound : exn :=
  RemoteError "Record to update not found.".

(** What the client throws, before it reaches the database, for an
    argument that names no column of the table and for a [where] whose
    only argument is [undefined] ([PrismaClientValidationError]). *)
Definition UnknownArgument (name : string) : exn :=
  RemoteError ("Unknown argument `" ++ name ++ "`.").

Definition MissingArgument (name : string) : exn :=
  RemoteError ("Argument `" ++ name ++ "` is missing.").

End Prisma.

(** Equality of nullable columns with a filter value. *)
Definition col_eqb (c : option string) (v : string) : bool :=
  match c with
  | Some s => String.eqb s v
  | None => false
  end.

Module PrismaPage.

Section Page.
Variable Row : Type.
Variable order_key : Row -> Z.

(** [orderBy: { column: 'asc' }]: rows with equal keys keep their table
    order. *)
Fixpoint insert_asc (r : Row) (l : list Row) : list Row :=
  match l with
  | [] => [r]
  | x :: l' =>
      if (order_key x <=? order_key r)%Z then x :: insert_asc r l'
      else r :: x :: l'
  end.

Definition orderBy_asc (l : list Row) : list Row :=
  List.fold_left (fun acc r => insert_asc r acc) l [].

(** [cursor: { id }]: the result set starts at the row the cursor
    selects. *)
Fixpoint from_cursor (is_cursor : Row -> bool) (l : list Row) : list Row :=
  match l with
  | [] => []
  | x :: l' => if is_cursor x then x :: l' else from_cursor is_cursor l'
  end.

(** [findMany({ take, cursor, orderBy, where })]. *)
Definition findMany (take : nat) (cursor : option (Row -> bool))
           (where_ : Row -> bool) (t : list Row) : list Row :=
  let ordered := orderBy_asc (List.filter where_ t) in
  let positioned :=
    match cursor with
    | Some c => from_cursor c ordered
    | None => ordered
    end in
  List.firstn take positioned.

End Page.

End PrismaPage.

(* ===================================================================== *)
(** ** The other tables, the mailer, and exceptions by class *)
(* ===================================================================== *)

Module ApiKeys.
Record row : Type := {
  id_api_key : string;
  api_key_hash : string;
  name : string;
  id_project : string;
  id_user : string
}.
End ApiKeys.

Module AtsScorecards.
Record row : Type := {
  id_ats_scorecard : string;
  overall_recommendation : option string;
  id_ats_application : option string;
  id_ats_interview : option string;
  remote_created_at : option Date;
  submitted_at : option Date;
  remote_id : option string;
  created_at : Date;
  modified_at : Date;
  id_connection : string
}.
End AtsScorecards.

(** What [MailerService.sendMail] is called with. *)
Module Mail.
Record message : Type := {
  to : string;
  subject : string;
  template : string;
  context_name : string;
  context_resetUrl : string
}.
End Mail.

(** The store above with the tables that only the services below use, and
    the messages handed to the mailer so far. *)
Module Store.

Record t : Type := {
world : World;
api_keys : list ApiKeys.row;
ats_scorecards : list AtsScorecards.row;
outbox : list Mail.message
}.

Definition with_world (v : World) (s : t) : t :=
{| world := v; api_keys := api_keys s;
   ats_scorecards := ats_scorecards s; outbox := outbox s |}.

Definition with_api_keys (v : list ApiKeys.row) (s : t) : t :=
{| world := world s; api_keys := v;
   ats_scorecards := ats_scorecards s; outbox := outbox s |}.

Definition with_outbox (v : list Mail.message) (s : t) : t :=
{| world := world s; api_keys := api_keys s;
   ats_scorecards := ats_scorecards s; outbox := v |}.

End Store.

(** Async methods over that store.  An exception is the name of its class
    and its message, which covers [Error], the HTTP exceptions of the
    framework and what the libraries throw. *)
Module Svc.

Record error : Type := {
  name : string;
  message : string
}.

Definition of_exn (e : exn) : error :=
  match e with
  | ReferenceError m => {| name := "ReferenceError"; message := m |}
  | TypeError m => {| name := "TypeError"; message := m |}
  | BadRequestException m =>
      {| name := "BadRequestException"; message := m |}
  | RemoteError m => {| name := "RemoteError"; message := m |}
  end.

(** [new Error(m)], [new NotFoundException(m)], [new ConflictException(m)]. *)
Definition Error_ (m : string) : error :=
  {| name := "Error"; message := m |}.
Definition NotFoundException (m : string) : error :=
  {| name := "NotFoundException"; message := m |}.
Definition ConflictException (m : string) : error :=
  {| name := "ConflictException"; message := m |}.

(** What the Prisma client throws when a unique constraint fails and when
    the record of a [delete] or an [update] does not exist. *)
Definition UniqueConstraintFailed : error :=
  {| name := "PrismaClientKnownRequestError";
     message := "Unique constraint failed" |}.
Definition RecordNotFound : error :=
  {| name := "PrismaClientKnownRequestError";
     message := "Record not found" |}.

(** [String(e)], that is [Error.prototype.toString]. *)
Definition toString (e : error) : string :=
  if String.eqb (name e) "" then message e
  else if String.eqb (message e) "" then name e
  else (name e ++ ": " ++ message e)%string.

Inductive result (A : Type) : Type :=
| Resolved (a : A)
| Rejected (e : error).
Arguments Resolved {A} a.
Arguments Rejected {A} e.

Definition M (A : Type) : Type := Store.t -> result A * Store.t.

Definition ret {A : Type} (a : A) : M A := fun s => (Resolved a, s).

Definition throw {A : Type} (e : error) : M A := fun s => (Rejected e, s).

Definition bind {A B : Type} (c : M A) (k : A -> M B) : M B :=
  fun s =>
    match c s with
    | (Resolved a, s') => k a s'
    | (Rejected e, s') => (Rejected e, s')
    end.

(** [try { await c } catch (error) { h(error) }]. *)
Definition catch {A : Type} (c : M A) (h : error -> M A) : M A :=
  fun s =>
    match c s with
    | (Resolved a, s') => (Resolved a, s')
    | (Rejected e, s') => h e s'
    end.

Definition query {A : Type} (f : Store.t -> A) : M A :=
  fun s => (Resolved (f s), s).

Definition exec (f : Store.t -> Store.t) : M unit :=
  fun s => (Resolved tt, f s).

(** A method of the services above, run on the store it knows. *)
Definition lift {A : Type} (c : Eff.M A) : M A :=
  fun s =>
    match c (Store.world s) with
    | (Ok a, w') => (Resolved a, Store.with_world w' s)
    | (Throw e, w') => (Rejected (of_exn e), Store.with_world w' s)
    end.

(** A library call that reads nothing of the store. *)
Definition call {A : Type} (x : result A) : M A := fun s => (x, s).

End Svc.

Declare Scope svc_scope.
Delimit Scope svc_scope with svc.
Notation "'let*' x ':=' c 'in' k" := (Svc.bind c (fun x => k))
  (at level 10, x name, c at level 100, k at level 200) : svc_scope.
Notation "c ';;' k" := (Svc.bind c (fun _ => k))
  (at level 61, right associativity) : svc_scope.

(* ===================================================================== *)
(** ** class ActionService
    (src/packages/api/src/marketingautomation/action/services/action.service.ts) *)
(* ===================================================================== *)

Module ActionService.

Section Service.
(** The unified action classes are declared in another file. *)
Variable UnifiedActionInput : Type.
Variable UnifiedActionOutput : Type.

(** Every method body is [return;]: the promise resolves with
    [undefined], here [None]. *)
Definition addAction (unifiedActionData : UnifiedActionInput)
           (connectionId integrationId linkedUserId : string)
           (remote_data : option bool) : M (option UnifiedActionOutput) :=
  ret None.

Definition getAction (id_actioning_action : string)
           (remote_data : option bool) : M (option UnifiedActionOutput) :=
  ret None.

Definition getActions (connection_id integrationId linkedUserId : string)
           (limit : nat) (remote_data : option bool)
           (cursor : option string)
  : M (option (list UnifiedActionOutput)) :=
  ret None.

End Service.

End ActionService.

(* ===================================================================== *)
(** ** class InterviewService
    (src/packages/api/src/filestorage/folder/folder.controller.ts) *)
(* ===================================================================== *)

Module InterviewService.

Import AtsInterviews.

Section Service.
(** Parsed JSON, [JSON.parse] and [String(date)]. *)
Variable Json : Type.
Variable JSON_parse : option string -> outcome Json.
Variable String_of_Date : option Date -> string.
Variable UnifiedInterviewInput : Type.

Record UnifiedInterviewOutput : Type := {
  u_id : string;
  u_status : option string;
  u_application_id : option string;
  u_job_interview_stage_id : option string;
  u_organized_by : option string;
  u_interviewers : list string;
  u_location : option string;
  u_start_at : string;
  u_end_at : string;
  u_remote_created_at : string;
  u_remote_updated_at : string;
  u_field_mappings : list (string * string);
  u_remote_id : option string;
  u_created_at : Date;
  u_modified_at : Date;
  u_remote_data : option Json
}.

Record page : Type := {
  data : list UnifiedInterviewOutput;
  prev_cursor : option string;
  next_cursor : option string
}.

(** [value.findMany({ where: { entity: { ressource_owner_id } },
    include: { attribute: true } })]. *)
Definition values_of (w : World) (owner : string)
  : list (Value.row * option Attribute.row) :=
  List.map
    (fun v =>
       (v, Prisma.findFirst
             (fun a => String.eqb (Attribute.id_attribute a)
                                  (Value.id_attribute v))
             (Db.attribute w)))
    (Prisma.findMany
       (fun v =>
          existsb
            (fun e => String.eqb (Entity.id_entity e) (Value.id_entity v)
                      && String.eqb (Entity.ressource_owner_id e) owner)
            (Db.entity w))
       (Db.value w)).

(** [values.forEach((value) => fieldMappingsMap.set(value.attribute.slug,
    value.data))] and [Array.from(fieldMappingsMap, ...)]. *)
Fixpoint fieldMappingsMap (values : list (Value.row * option Attribute.row))
         (acc : Js.Map string) : outcome (Js.Map string) :=
  match values with
  | [] => Ok acc
  | (v, Some a) :: rest =>
      fieldMappingsMap rest (Map_set acc (Attribute.slug a) (Value.data v))
  | (_, None) :: _ =>
      Throw (TypeError "Cannot read properties of null (reading 'slug')")
  end.

Definition to_unified (w : World) (interview : row)
  : outcome UnifiedInterviewOutput :=
  (await field_mappings <-
     fieldMappingsMap (values_of w (id_ats_interview interview)) [];
   Ok {| u_id := id_ats_interview interview;
         u_status := status interview;
         u_application_id := id_ats_application interview;
         u_job_interview_stage_id := id_ats_job_interview_stage interview;
         u_organized_by := organized_by interview;
         u_interviewers := interviewers interview;
         u_location := location interview;
         u_start_at := String_of_Date (start_at interview);
         u_end_at := String_of_Date (end_at interview);
         u_remote_created_at := String_of_Date (remote_created_at interview);
         u_remote_updated_at := String_of_Date (remote_updated_at interview);
         u_field_mappings := field_mappings;
         u_remote_id := remote_id interview;
         u_created_at := created_at interview;
         u_modified_at := modified_at interview;
         u_remote_data := None |})%outcome.

(** [Promise.all(list.map(async ...))] over reads of the store: the
    results in list order, or the first rejection. *)
Fixpoint all {A B : Type} (f : A -> outcome B) (l : list A)
  : outcome (list B) :=
  match l with
  | [] => Ok []
  | a :: rest =>
      (await b <- f a;
       await bs <- all f rest;
       Ok (b :: bs))%outcome
  end.

(** [{ ...interview, remote_data }]. *)
Definition with_remote (w : World) (interview : UnifiedInterviewOutput)
  : outcome UnifiedInterviewOutput :=
  match Prisma.findFirst
          (fun r => String.eqb (RemoteData.ressource_owner_id r)
                               (u_id interview))
          (Db.remote_data w) with
  | None => Throw (TypeError "Cannot read properties of null (reading 'data')")
  | Some resp =>
      (await remote_data <- JSON_parse (RemoteData.data resp);
       Ok {| u_id := u_id interview;
             u_status := u_status interview;
             u_application_id := u_application_id interview;
             u_job_interview_stage_id := u_job_interview_stage_id interview;
             u_organized_by := u_organized_by interview;
             u_interviewers := u_interviewers interview;
             u_location := u_location interview;
             u_start_at := u_start_at interview;
             u_end_at := u_end_at interview;
             u_remote_created_at := u_remote_created_at interview;
             u_remote_updated_at := u_remote_updated_at interview;
             u_field_mappings := u_field_mappings interview;
             u_remote_id := u_remote_id interview;
             u_created_at := u_created_at interview;
             u_modified_at := u_modified_at interview;
             u_remote_data := Some remote_data |})%outcome
  end.

Definition pull_one_event (id_event : string) (integrationId : string)
           (timestamp : Date) (linkedUserId : string) : Events.row :=
  {| Events.id_event := id_event;
     Events.status := "success";
     Events.type := "ats.interview.pull";
     Events.method := "GET";
     Events.url := "/ats/interview";
     Events.provider := integrationId;
     Events.direction := "0";
     Events.timestamp := timestamp;
     Events.id_linked_user := linkedUserId |}.

(** [addInterview] calls it with [undefined] for the linked user and
    the integration. *)
Definition getInterview (id_ats_interview : string)
           (linkedUserId integrationId : option string)
           (remote_data : option bool) : M UnifiedInterviewOutput :=
  (let* interview :=
     query (fun w =>
       Prisma.findFirst
         (fun r => String.eqb (AtsInterviews.id_ats_interview r)
                              id_ats_interview)
         (Db.ats_interviews w)) in
   match interview with
   | None =>
       throw (TypeError
         "Cannot read properties of null (reading 'id_ats_interview')")
   | Some interview =>
       let* unifiedInterview := (fun w => (to_unified w interview, w)) in
       let* res :=
         (if truthy_obool remote_data
          then fun w => (with_remote w unifiedInterview, w)
          else ret unifiedInterview) in
       (if truthy_ostring linkedUserId && truthy_ostring integrationId
        then
          let* id_event := uuidv4 in
          let* timestamp := new_Date in
          exec (fun w =>
            Db.with_events
              (Prisma.create
                 (pull_one_event id_event (nullish integrationId "")
                                 timestamp (nullish linkedUserId ""))
                 (Db.events w)) w)
        else ret tt) ;;
       ret res
   end)%eff.

(** The [findMany] of [getInterviews]. *)
Definition interviews_page (connection_id : string) (limit : nat)
           (cursor : option string) (w : World) : list row :=
  PrismaPage.findMany created_at (limit + 1)
    (if truthy_ostring cursor
     then Some (fun r => String.eqb (id_ats_interview r) (nullish cursor ""))
     else None)
    (fun r => String.eqb (id_connection r) connection_id)
    (Db.ats_interviews w).

Definition pull_event (id_event : string) (integrationId : string)
           (timestamp : Date) (linkedUserId : string) : Events.row :=
  {| Events.id_event := id_event;
     Events.status := "success";
     Events.type := "ats.interview.pull";
     Events.method := "GET";
     Events.url := "/ats/interviews";
     Events.provider := integrationId;
     Events.direction := "0";
     Events.timestamp := timestamp;
     Events.id_linked_user := linkedUserId |}.

Definition getInterviews (connection_id integrationId linkedUserId : string)
           (limit : nat) (remote_data : option bool)
           (cursor : option string) : M page :=
  (let prev_cursor : option string := None in
   let next_cursor : option string := None in
   (if truthy_ostring cursor
    then
      let* isCursorPresent :=
        query (fun w =>
          Prisma.findFirst
            (fun r => String.eqb (id_connection r) connection_id
                      && String.eqb (id_ats_interview r) (nullish cursor ""))
            (Db.ats_interviews w)) in
      match isCursorPresent with
      | None => throw (ReferenceError "The provided cursor does not exist!")
      | Some _ => ret tt
      end
    else ret tt) ;;
   let* interviews := query (interviews_page connection_id limit cursor) in
   let* popped :=
     (if Nat.eqb (List.length interviews) (limit + 1)
      then
        match List.nth_error interviews (List.length interviews - 1) with
        | Some last =>
            ret (List.removelast interviews,
                 Some (Base64.encode (id_ats_interview last)))
        | None =>
            throw (TypeError
              "Cannot read properties of undefined (reading 'id_ats_interview')")
        end
      else ret (interviews, next_cursor)) in
   let interviews := fst popped in
   let next_cursor := snd popped in
   let prev_cursor :=
     if truthy_ostring cursor
     then Some (Base64.encode (nullish cursor ""))
     else prev_cursor in
   let* unifiedInterviews :=
     (fun w => (all (to_unified w) interviews, w)) in
   let* res :=
     (if truthy_obool remote_data
      then fun w => (all (with_remote w) unifiedInterviews, w)
      else ret unifiedInterviews) in
   let* id_event := uuidv4 in
   let* timestamp := new_Date in
   exec (fun w =>
     Db.with_events
       (Prisma.create
          (pull_event id_event integrationId timestamp linkedUserId)
          (Db.events w)) w) ;;
   ret {| data := res;
          prev_cursor := prev_cursor;
          next_cursor := next_cursor |})%eff.

(** [try {} catch (error) {} return;]. *)
Definition updateInterview (id : string)
           (updateInterviewData : UnifiedInterviewInput)
  : M (option UnifiedInterviewOutput) :=
  ret None.

End Service.

End InterviewService.

(* ===================================================================== *)
(** ** class AuthService
    (src/packages/api/src/ats/scorecard/services/scorecard.service.ts) *)
(* ===================================================================== *)

Module AuthService.

Import Users.

Section Service.
(** [bcrypt.hash(password, rounds)] with the salt drawn from the random
    generator. *)
Variable bcrypt_hash : string -> nat -> string -> string.

Definition bcrypt_hash_async (password : string) (rounds : nat) : M string :=
  fun w => (Ok (bcrypt_hash password rounds (Db.sys_uuid w (Db.uuid_draws w))),
            Db.with_uuid_draws (S (Db.uuid_draws w)) w).

(** [reset_token_expiry: { gt: now }]: a null column never matches. *)
Definition expiry_gt (c : option Date) (now : Date) : bool :=
  match c with
  | Some e => (now <? e)%Z
  | None => false
  end.

Definition reset_data (hashedPassword : string) (u : row) : row :=
  {| id_user := id_user u;
     email := email u;
     first_name := first_name u;
     password_hash := hashedPassword;
     reset_token := None;
     reset_token_expiry := None |}.

Definition resetPassword (token newPassword : string) : M string :=
  (let* now := new_Date in
   let* user :=
     query (fun w =>
       Prisma.findFirst
         (fun u => col_eqb (reset_token u) token
                   && expiry_gt (reset_token_expiry u) now)
         (Db.users w)) in
   match user with
   | None => throw (BadRequestException "Invalid or expired reset token")
   | Some user =>
       let* hashedPassword := bcrypt_hash_async newPassword 10 in
       let* updated :=
         query (fun w =>
           Prisma.update
             (fun u => String.eqb (id_user u) (id_user user))
             (reset_data hashedPassword)
             (Db.users w)) in
       match updated with
       | None => throw Prisma.RecordNotFound
       | Some (_, t) =>
           exec (Db.with_users t) ;;
           ret "Password reset successful"
       end
   end)%eff.

(** [crypto.randomBytes(n).toString('hex')], from a reading of the
    random generator. *)
Variable randomBytes_hex : nat -> string -> string.

Definition randomBytes_hex_async (n : nat) : M string :=
  fun w => (Ok (randomBytes_hex n (Db.sys_uuid w (Db.uuid_draws w))),
            Db.with_uuid_draws (S (Db.uuid_draws w)) w).

(** [process.env.WEBAPP_URL] and [process.env.JWT_SECRET]. *)
Variable WEBAPP_URL : option string.
Variable JWT_SECRET : option string.

(** [`${x}`] for a variable of the environment. *)
Definition template_env (x : option string) : string :=
  match x with
  | Some v => v
  | None => "undefined"
  end.

(** The transport behind the mailer: the error with which sending a
    message fails, when it does. *)
Variable transport : Mail.message -> option Svc.error.

(** [mailerService.sendMail(message)]. *)
Definition sendMail (m : Mail.message) : Svc.M unit :=
  match transport m with
  | Some e => Svc.throw e
  | None =>
      Svc.exec (fun s => Store.with_outbox (Store.outbox s ++ [m]) s)
  end.

Definition token_data (resetToken : string) (resetTokenExpiry : Date)
           (u : row) : row :=
  {| id_user := id_user u;
     email := email u;
     first_name := first_name u;
     password_hash := password_hash u;
     reset_token := Some resetToken;
     reset_token_expiry := Some resetTokenExpiry |}.

Definition initiatePasswordRecovery (email_ : string) : Svc.M string :=
  (let* user :=
     Svc.query (fun s =>
       Prisma.findFirst (fun u => String.eqb (email u) email_)
                        (Db.users (Store.world s))) in
   match user with
   | None => Svc.throw (Svc.NotFoundException "User not found")
   | Some user =>
       let* resetToken := Svc.lift (randomBytes_hex_async 32) in
       let* now := Svc.lift new_Date in
       let resetTokenExpiry := (now + 3600000)%Z in
       let* updated :=
         Svc.query (fun s =>
           Prisma.update
             (fun u => String.eqb (id_user u) (id_user user))
             (token_data resetToken resetTokenExpiry)
             (Db.users (Store.world s))) in
       match updated with
       | None => Svc.throw Svc.RecordNotFound
       | Some (_, t) =>
           Svc.lift (exec (Db.with_users t)) ;;
           let resetUrl :=
             (template_env WEBAPP_URL ++ "/reset-password?token="
                           ++ resetToken)%string in
           sendMail {| Mail.to := email user;
                       Mail.subject := "Password Reset Request";
                       Mail.template :=
                         "./../mailer/templates/password-reset";
                       Mail.context_name := first_name user;
                       Mail.context_resetUrl := resetUrl |} ;;
           Svc.ret "Password reset email sent"
       end
   end)%svc.

Definition getUsers : Svc.M (list row) :=
  Svc.query (fun s =>
    Prisma.findMany (fun _ => true) (Db.users (Store.world s))).

(** The request body of [verifyUser], of which the method reads
    [id_user]. *)
Variable VerifyUserDto : Type.
Variable dto_id_user : VerifyUserDto -> string.

Definition verifyUser (verifyUser_ : VerifyUserDto)
  : Svc.M VerifyUserDto :=
  (let* user :=
     Svc.query (fun s =>
       Prisma.findFirst
         (fun u => String.eqb (id_user u) (dto_id_user verifyUser_))
         (Db.users (Store.world s))) in
   match user with
   | None => Svc.throw (Svc.of_exn (ReferenceError "User undefined!"))
   | Some _ => Svc.ret verifyUser_
   end)%svc.

Definition getApiKeys (project_id : string) : Svc.M (list ApiKeys.row) :=
  Svc.query (fun s =>
    Prisma.findMany
      (fun k => String.eqb (ApiKeys.id_project k) project_id)
      (Store.api_keys s)).

(** [jwtService.sign(payload, options)] and
    [jwtService.verify(token, options)]; the claims of a payload are
    strings. *)
Record sign_options : Type := {
  secret : option string;
  expiresIn : option string
}.
Variable jwt_sign : Js.object string -> sign_options -> Svc.result string.
Variable jwt_verify :
  string -> option string -> Svc.result (Js.object string).

(** [String(decoded.claim)]: a claim that is absent reads
    [undefined]. *)
Fixpoint String_of_claim (decoded : Js.object string) (claim : string)
  : string :=
  match decoded with
  | [] => "undefined"
  | (k, v) :: rest =>
      if String.eqb k claim then v else String_of_claim rest claim
  end.

Definition refreshAccessToken
           (projectId id_user_ email_ first_name_ last_name : string)
  : Svc.M string :=
  let payload :=
    [("email", email_); ("sub", id_user_); ("first_name", first_name_);
     ("last_name", last_name); ("id_project", projectId)] in
  Svc.call (jwt_sign payload {| secret := JWT_SECRET; expiresIn := None |}).

(** [crypto.createHash('sha256').update(apiKey).digest('hex')]. *)
Variable sha256_hex : string -> string.

Definition hashApiKey (apiKey : string) : string := sha256_hex apiKey.

Definition generateApiKey (projectId userId : string) : Svc.M string :=
  let jwtPayload := [("sub", userId); ("project_id", projectId)] in
  Svc.call (jwt_sign jwtPayload
                     {| secret := JWT_SECRET; expiresIn := Some "1y" |}).

(** [api_keys.create({ data })]: the identifier is the primary key, and
    [api_key_hash] is a unique column (the service selects by it with
    [findUnique]). *)
Definition create_api_key (k : ApiKeys.row) : Svc.M ApiKeys.row :=
  fun s =>
    if List.existsb
         (fun r => String.eqb (ApiKeys.id_api_key r) (ApiKeys.id_api_key k)
                   || String.eqb (ApiKeys.api_key_hash r)
                                 (ApiKeys.api_key_hash k))
         (Store.api_keys s)
    then (Svc.Rejected Svc.UniqueConstraintFailed, s)
    else (Svc.Resolved k,
          Store.with_api_keys (Prisma.create k (Store.api_keys s)) s).

(** [{ api_key: access_token, ...new_api_key }]. *)
Record generated_key : Type := {
  api_key : string;
  saved : ApiKeys.row
}.

Definition generateApiKeyForUser (userId projectId keyName : string)
  : Svc.M generated_key :=
  (let* foundProject :=
     Svc.query (fun s =>
       Prisma.findFirst
         (fun p => String.eqb (Projects.id_project p) projectId)
         (Db.projects (Store.world s))) in
   match foundProject with
   | None => Svc.throw (Svc.of_exn (ReferenceError "project undefined"))
   | Some _ =>
       let* foundUser :=
         Svc.query (fun s =>
           Prisma.findFirst (fun u => String.eqb (id_user u) userId)
                            (Db.users (Store.world s))) in
       match foundUser with
       | None => Svc.throw (Svc.of_exn (ReferenceError "user undefined"))
       | Some _ =>
           let* access_token := generateApiKey projectId userId in
           let* id := Svc.lift uuidv4 in
           let* new_api_key :=
             create_api_key
               {| ApiKeys.id_api_key := id;
                  ApiKeys.api_key_hash := access_token;
                  ApiKeys.name := keyName;
                  ApiKeys.id_project := projectId;
                  ApiKeys.id_user := userId |} in
           Svc.ret {| api_key := access_token; saved := new_api_key |}
       end
   end)%svc.

(** [api_keys.delete({ where: { id_api_key } })]. *)
Fixpoint delete_by_id (apiKeyId : string) (t : list ApiKeys.row)
  : option (ApiKeys.row * list ApiKeys.row) :=
  match t with
  | [] => None
  | r :: t' =>
      if String.eqb (ApiKeys.id_api_key r) apiKeyId then Some (r, t')
      else
        match delete_by_id apiKeyId t' with
        | Some (d, t'') => Some (d, r :: t'')
        | None => None
        end
  end.

Definition deleteApiKey (apiKeyId : string) : Svc.M ApiKeys.row :=
  fun s =>
    match delete_by_id apiKeyId (Store.api_keys s) with
    | Some (d, t) => (Svc.Resolved d, Store.with_api_keys t s)
    | None => (Svc.Rejected Svc.RecordNotFound, s)
    end.

Definition getProjectIdForApiKey (apiKey : string) : Svc.M string :=
  (let* decoded := Svc.call (jwt_verify apiKey JWT_SECRET) in
   let* saved_api_key :=
     Svc.query (fun s =>
       Prisma.findFirst
         (fun k => String.eqb (ApiKeys.api_key_hash k) apiKey)
         (Store.api_keys s)) in
   match saved_api_key with
   | None =>
       Svc.throw (Svc.of_exn (TypeError
         "Cannot read properties of null (reading 'id_project')"))
   | Some saved_api_key => Svc.ret (ApiKeys.id_project saved_api_key)
   end)%svc.

Definition validateApiKey (apiKey : string) : Svc.M bool :=
  (let* decoded := Svc.call (jwt_verify apiKey JWT_SECRET) in
   let* saved_api_key :=
     Svc.query (fun s =>
       Prisma.findFirst
         (fun k => String.eqb (ApiKeys.api_key_hash k) apiKey)
         (Store.api_keys s)) in
   match saved_api_key with
   | None => Svc.throw (Svc.of_exn (ReferenceError "Api Key undefined"))
   | Some saved_api_key =>
       if negb (String.eqb (String_of_claim decoded "project_id")
                           (ApiKeys.id_project saved_api_key))
       then Svc.throw (Svc.of_exn (ReferenceError
              "Failed to validate API key: projectId mismatch."))
       else if negb (String.eqb (String_of_claim decoded "sub")
                                (ApiKeys.id_user saved_api_key))
       then Svc.throw (Svc.of_exn (ReferenceError
              "Failed to validate API key: userId mismatch."))
       else Svc.ret true
   end)%svc.

End Service.

End AuthService.

(* ===================================================================== *)
(** ** class ScoreCardService
    (src/packages/api/src/ats/scorecard/services/scorecard.service.ts) *)
(* ===================================================================== *)

Module ScoreCardService.

Import AtsScorecards.

Section Service.
(** Parsed JSON, [JSON.parse] and [String(date)]. *)
Variable Json : Type.
Variable JSON_parse : option string -> outcome Json.
Variable String_of_Date : option Date -> string.

Record UnifiedScoreCardOutput : Type := {
  u_id : string;
  u_overall_recommendation : option string;
  u_application_id : option string;
  u_interview_id : option string;
  u_remote_created_at : string;
  u_submitted_at : string;
  u_field_mappings : list (string * string);
  u_remote_id : option string;
  u_created_at : Date;
  u_modified_at : Date;
  u_remote_data : option Json
}.

(** The field mappings are read as the interview service reads them. *)
Definition to_unified (w : World) (scorecard : row)
  : outcome UnifiedScoreCardOutput :=
  (await field_mappings <-
     InterviewService.fieldMappingsMap
       (InterviewService.values_of w (id_ats_scorecard scorecard)) [];
   Ok {| u_id := id_ats_scorecard scorecard;
         u_overall_recommendation := overall_recommendation scorecard;
         u_application_id := id_ats_application scorecard;
         u_interview_id := id_ats_interview scorecard;
         u_remote_created_at := String_of_Date (remote_created_at scorecard);
         u_submitted_at := String_of_Date (submitted_at scorecard);
         u_field_mappings := field_mappings;
         u_remote_id := remote_id scorecard;
         u_created_at := created_at scorecard;
         u_modified_at := modified_at scorecard;
         u_remote_data := None |})%outcome.

(** [{ ...scorecard, remote_data }]. *)
Definition with_remote (w : World) (scorecard : UnifiedScoreCardOutput)
  : outcome UnifiedScoreCardOutput :=
  match Prisma.findFirst
          (fun r => String.eqb (RemoteData.ressource_owner_id r)
                               (u_id scorecard))
          (Db.remote_data w) with
  | None => Throw (TypeError "Cannot read properties of null (reading 'data')")
  | Some resp =>
      (await remote_data <- JSON_parse (RemoteData.data resp);
       Ok {| u_id := u_id scorecard;
             u_overall_recommendation := u_overall_recommendation scorecard;
             u_application_id := u_application_id scorecard;
             u_interview_id := u_interview_id scorecard;
             u_remote_created_at := u_remote_created_at scorecard;
             u_submitted_at := u_submitted_at scorecard;
             u_field_mappings := u_field_mappings scorecard;
             u_remote_id := u_remote_id scorecard;
             u_created_at := u_created_at scorecard;
             u_modified_at := u_modified_at scorecard;
             u_remote_data := Some remote_data |})%outcome
  end.

Definition getScoreCard (id_ats_scorecard_ : string)
           (remote_data : option bool) : Svc.M UnifiedScoreCardOutput :=
  (let* scorecard :=
     Svc.query (fun s =>
       Prisma.findFirst
         (fun r => String.eqb (id_ats_scorecard r) id_ats_scorecard_)
         (Store.ats_scorecards s)) in
   match scorecard with
   | None =>
       Svc.throw (Svc.Error_ ("ScoreCard with ID " ++ id_ats_scorecard_
                                ++ " not found.")%string)
   | Some scorecard =>
       let* unifiedScoreCard :=
         Svc.lift (fun w => (to_unified w scorecard, w)) in
       if truthy_obool remote_data
       then Svc.lift (fun w => (with_remote w unifiedScoreCard, w))
       else Svc.ret unifiedScoreCard
   end)%svc.

(** [limit] and [cursor] are parameters that the body does not read. *)
Definition getScoreCards (connection_id integrationId linkedUserId : string)
           (limit : nat) (remote_data : option bool)
           (cursor : option string)
  : Svc.M (list UnifiedScoreCardOutput) :=
  (let* scorecards :=
     Svc.query (fun s =>
       Prisma.findMany
         (fun r => String.eqb (id_connection r) connection_id)
         (Store.ats_scorecards s)) in
   let* unifiedScoreCards :=
     Svc.lift (fun w => (Promise.all (to_unified w) scorecards, w)) in
   if truthy_obool remote_data
   then Svc.lift (fun w => (Promise.all (with_remote w) unifiedScoreCards, w))
   else Svc.ret unifiedScoreCards)%svc.

End Service.

End ScoreCardService.

(* ===================================================================== *)
(** ** class FolderController
    (src/packages/api/src/filestorage/folder/folder.controller.ts) *)
(* ===================================================================== *)

Module FolderController.

Record FetchObjectsQueryDto : Type := {
  remote_data : option bool;
  limit : nat;
  cursor : option string
}.

Record ConnectionMetadata : Type := {
  linkedUserId : string;
  remoteSource : string;
  connectionId : string
}.

Section Controller.
Variable UnifiedFolderInput : Type.
Variable UnifiedFolderOutput : Type.
Variable Folders : Type.

(** [ConnectionUtils] and [FolderService]. *)
Variable getConnectionMetadataFromConnectionToken :
  string -> Svc.M ConnectionMetadata.
Variable getFolders :
  string -> string -> string -> nat -> option bool -> option string ->
  Svc.M Folders.
Variable getFolder : string -> option bool -> Svc.M UnifiedFolderOutput.
Variable addFolder :
  UnifiedFolderInput -> string -> string -> string -> option bool ->
  Svc.M UnifiedFolderOutput.

(** The [try] block awaits the lookup of the token; the promise of the
    folder service is returned without [await], and so settles outside
    the [catch]. *)
Definition list (connection_token : string) (query : FetchObjectsQueryDto)
  : Svc.M Folders :=
  (let* metadata :=
     Svc.catch
       (getConnectionMetadataFromConnectionToken connection_token)
       (fun error => Svc.throw (Svc.Error_ (Svc.toString error))) in
   getFolders (connectionId metadata) (remoteSource metadata)
              (linkedUserId metadata) (limit query) (remote_data query)
              (cursor query))%svc.

Definition retrieve (id : string) (remote_data_ : option bool)
  : Svc.M UnifiedFolderOutput :=
  getFolder id remote_data_.

Definition create (unifiedFolderData : UnifiedFolderInput)
           (connection_token : string) (remote_data_ : option bool)
  : Svc.M UnifiedFolderOutput :=
  (let* metadata :=
     Svc.catch
       (getConnectionMetadataFromConnectionToken connection_token)
       (fun error => Svc.throw (Svc.Error_ (Svc.toString error))) in
   addFolder unifiedFolderData (connectionId metadata)
             (remoteSource metadata) (linkedUserId metadata)
             remote_data_)%svc.

End Controller.

End FolderController.

(* ===================================================================== *)
(** ** Unified objects handed to the sync services *)
(* ===================================================================== *)

Module Unified.

(** What the save loops observe of [field_mappings]: its [length] property
    when that is a number, and [Object.entries]. *)
Record field_mappings : Type := {
  length_prop : option Z;
  entries : Js.object string
}.

(** [fm && fm.length > 0]. *)
Definition has_items (fm : option field_mappings) : bool :=
  match fm with
  | Some f =>
      match length_prop f with
      | Some n => (0 <? n)%Z
      | None => false
      end
  | None => false
  end.

Record mapping : Type := {
  slug : string;
  remote_id : string
}.

(** A template literal [`${x}`] of a nullable string. *)
Definition template (x : nullable string) : string :=
  match x with
  | Undefined => "undefined"
  | Null => "null"
  | Val s => s
  end.

(** [!originId || originId === '']. *)
Definition origin_missing (originId : nullable string) : bool :=
  negb (truthy_nstring originId)
  || match originId with
     | Val s => String.eqb s ""
     | _ => false
     end.

(** The string behind a nullable that passed the test above. *)
Definition origin_string (originId : nullable string) : string :=
  match originId with
  | Val s => s
  | _ => ""
  end.

End Unified.

(* ===================================================================== *)
(** ** The cron fan-out shared by the sync services *)
(* ===================================================================== *)

(** [syncGroups] and [syncAttachments] are the same text but for the list of
    providers and the method called for each linked user.

    The callbacks given to [linkedUsers.map] are async and their promises are
    not awaited: the method goes on while they run, and settles whether or
    not they have finished.  The order in which the method and the started
    callbacks take their turns is not fixed by the code; it is a parameter of
    the model, the schedule.  A turn of a callback is one call of the method
    it awaits, taken as a whole: the calls of two callbacks follow one
    another in any order, and what they would do to each other between the
    awaits inside one call is not part of the model.  A rejection inside a
    callback ends that callback only.  The list of the calls made so far is
    bookkeeping of the model. *)
Module FanOut.

Record invocation : Type := {
  inv_provider : string;
  inv_linked_user : string;
  inv_project : string;
  inv_resolved : bool
}.

(** A callback of [linkedUsers.map] that has been started: its linked
    user, the project of the loop that started it, and the providers of
    its [for] loop that it has yet to call. *)
Record callback : Type := {
  cb_linked_user : string;
  cb_project : string;
  cb_providers : list string
}.

(** Where the method stands: at the [await] of the projects of the next
    user, at the [await] of the linked users of the next project, or
    settled. *)
Inductive position : Type :=
| AtUsers (users : list (option Users.row))
| AtProjects (projects : list Projects.row) (users : list (option Users.row))
| Settled (r : outcome unit).

Record state : Type := {
  st_world : World;
  st_position : position;
  st_callbacks : list callback;
  st_calls : list invocation
}.

(** Who runs next: the method, or the [n]-th callback started. *)
Inductive turn : Type :=
| Method
| Callback (n : nat).

Definition with_position (p : position) (st : state) : state :=
  {| st_world := st_world st; st_position := p;
     st_callbacks := st_callbacks st; st_calls := st_calls st |}.

Fixpoint replace_nth {A : Type} (n : nat) (x : A) (l : list A) : list A :=
  match l, n with
  | [], _ => []
  | _ :: rest, O => x :: rest
  | a :: rest, S n' => a :: replace_nth n' x rest
  end.

Section Traverse.
Variable providers : list string.
(** Called with the provider, the linked user and the project. *)
Variable callee : string -> string -> string -> M unit.

(** The head of [for (const user of users)]: the loop ends and the
    method resolves, or [user.id_user] throws on the [null] that
    [findUnique] gave for an unknown user, or the projects of the user
    are read. *)
Definition at_users (users : list (option Users.row)) (st : state)
  : state :=
  match users with
  | [] => with_position (Settled (Ok tt)) st
  | None :: _ =>
      with_position
        (Settled (Throw (TypeError
           "Cannot read properties of null (reading 'id_user')"))) st
  | Some user :: rest =>
      let projects :=
        Prisma.findMany
          (fun p => String.eqb (Projects.id_user p) (Users.id_user user))
          (Db.projects (st_world st)) in
      with_position (AtProjects projects rest) st
  end.

(** A turn of the method.  At a project it reads the linked users of the
    project and [linkedUsers.map] starts one callback for each, which
    the method does not await. *)
Definition method_turn (st : state) : state :=
  match st_position st with
  | AtUsers users => at_users users st
  | AtProjects [] users => at_users users st
  | AtProjects (project :: rest) users =>
      let id_project := Projects.id_project project in
      let linkedUsers :=
        Prisma.findMany
          (fun l => String.eqb (LinkedUsers.id_project l) id_project)
          (Db.linked_users (st_world st)) in
      {| st_world := st_world st;
         st_position := AtProjects rest users;
         st_callbacks :=
           st_callbacks st ++
           List.map
             (fun linkedUser =>
                {| cb_linked_user := LinkedUsers.id_linked_user linkedUser;
                   cb_project := id_project;
                   cb_providers := providers |})
             linkedUsers;
         st_calls := st_calls st |}
  | Settled _ => st
  end.

(** A turn of the [n]-th callback:
    [for (const provider of providers) { await callee(...) }], one call
    at a turn; a rejection leaves the loop. *)
Definition callback_turn (n : nat) (st : state) : state :=
  match List.nth_error (st_callbacks st) n with
  | None => st
  | Some cb =>
      match cb_providers cb with
      | [] => st
      | provider :: rest =>
          match callee provider (cb_linked_user cb) (cb_project cb)
                       (st_world st) with
          | (Ok _, w') =>
              {| st_world := w';
                 st_position := st_position st;
                 st_callbacks :=
                   replace_nth n
                     {| cb_linked_user := cb_linked_user cb;
                        cb_project := cb_project cb;
                        cb_providers := rest |}
                     (st_callbacks st);
                 st_calls :=
                   st_calls st ++
                   [{| inv_provider := provider;
                       inv_linked_user := cb_linked_user cb;
                       inv_project := cb_project cb;
                       inv_resolved := true |}] |}
          | (Throw _, w') =>
              {| st_world := w';
                 st_position := st_position st;
                 st_callbacks :=
                   replace_nth n
                     {| cb_linked_user := cb_linked_user cb;
                        cb_project := cb_project cb;
                        cb_providers := [] |}
                     (st_callbacks st);
                 st_calls :=
                   st_calls st ++
                   [{| inv_provider := provider;
                       inv_linked_user := cb_linked_user cb;
                       inv_project := cb_project cb;
                       inv_resolved := false |}] |}
          end
      end
  end.

Definition take_turn (st : state) (t : turn) : state :=
  match t with
  | Method => method_turn st
  | Callback n => callback_turn n st
  end.

(** The method up to its first loop: the users are read, and
    [if (users && users.length > 0)] decides. *)
Definition start (user_id : option string) (w : World) : state :=
  let users :=
    if truthy_ostring user_id
    then [Prisma.findFirst
            (fun u => String.eqb (Users.id_user u) (nullish user_id ""))
            (Db.users w)]
    else List.map Some (Db.users w) in
  {| st_world := w;
     st_position :=
       if (0 <? List.length users)%nat then AtUsers users
       else Settled (Ok tt);
     st_callbacks := [];
     st_calls := [] |}.

(** The method and the callbacks it starts, run in the order that the
    schedule gives. *)
Definition run (user_id : option string) (schedule : list turn)
           (w : World) : state :=
  List.fold_left take_turn schedule (start user_id w).

End Traverse.

(** What the promise of the method has settled with, if it has. *)
Definition outcome_of (st : state) : option (outcome unit) :=
  match st_position st with
  | Settled r => Some r
  | _ => None
  end.

(** Nothing is left to run: the method has settled and every callback has
    left its loop. *)
Definition quiescent (st : state) : bool :=
  match st_position st with
  | Settled _ =>
      List.forallb
        (fun cb => match cb_providers cb with [] => true | _ => false end)
        (st_callbacks st)
  | _ => false
  end.

End FanOut.

(* ===================================================================== *)
(** ** The repeatable jobs of a Bull queue *)
(* ===================================================================== *)

(** The queue keeps its repeatable jobs in a set indexed by a key that it
    derives from the name of the job and its repeat options: adding a job
    whose key is in the set adds no second entry.  The calls are taken to
    resolve (the connection to Redis is up). *)
Module Bull.

Record RepeatableJob : Type := {
  key : string;
  name : string;
  cron : string
}.

Definition Queue : Type := list RepeatableJob.

Section Queue.
(** The key of a job named [name] that repeats on [cron]. *)
Variable repeat_key : string -> string -> string.

(** [queue.getRepeatableJobs()]. *)
Definition getRepeatableJobs (q : Queue) : list RepeatableJob := q.

(** [queue.removeRepeatableByKey(key)]. *)
Definition removeRepeatableByKey (k : string) (q : Queue) : Queue :=
  List.filter (fun j => negb (String.eqb (key j) k)) q.

(** [queue.add(name, {}, { repeat: { cron } })]. *)
Definition add (name_ cron_ : string) (q : Queue) : Queue :=
  let k := repeat_key name_ cron_ in
  if List.existsb (fun j => String.eqb (key j) k) q then q
  else q ++ [{| key := k; name := name_; cron := cron_ |}].

End Queue.

End Bull.

(* ===================================================================== *)
(** ** class SyncService of the file-storage groups (src/unnamed/part_000) *)
(* ===================================================================== *)

Module GroupSync.

Import Unified.

Record UnifiedGroupOutput : Type := {
  g_name : option string;
  g_users : option (list string);
  g_remote_was_deleted : option bool;
  g_remote_id : nullable string;
  g_field_mappings : option field_mappings
}.

Record ApiResponse (A : Type) : Type := {
  resp_data : A;
  resp_message : string;
  resp_statusCode : Z
}.

Section Service.
(** [OriginalGroupOutput] and [JSON.stringify] on it. *)
Variable Original : Type.
Variable JSON_stringify : Original -> string.

(** The provider adapter behind [IGroupService]. *)
Record IGroupService : Type := {
  service_syncGroups :
    string -> list string -> World -> outcome (ApiResponse (list Original))
}.

Record unify_args : Type := {
  sourceObject : list Original;
  targetType : string;
  providerName : string;
  ua_vertical : string;
  customFieldMappings : list mapping
}.

(** Collaborators injected in the constructor and imported constants. *)
Variable getCustomFieldMappings :
  string -> string -> string -> World -> outcome (list mapping).
Variable getService : string -> option IGroupService.
Variable unify : unify_args -> World -> outcome (list UnifiedGroupOutput).
Variable FILESTORAGE_PROVIDERS : list string.
Variable FileStorageObject_group : string.

(** The key that the queue derives for a repeatable job. *)
Variable repeat_key : string -> string -> string.

(** The loop of [scheduleSyncJob] over the jobs read at its start. *)
Fixpoint remove_named (jobName : string) (jobs : list Bull.RepeatableJob)
         (q : Bull.Queue) : Bull.Queue :=
  match jobs with
  | [] => q
  | job :: rest =>
      remove_named jobName rest
        (if String.eqb (Bull.name job) jobName
         then Bull.removeRepeatableByKey (Bull.key job) q
         else q)
  end.

Definition scheduleSyncJob (q : Bull.Queue) : Bull.Queue :=
  let jobName := "filestorage-sync-groups" in
  let jobs := Bull.getRepeatableJobs q in
  let q := remove_named jobName jobs q in
  Bull.add repeat_key jobName "0 0 * * *" q.

Definition onModuleInit (q : Bull.Queue) : Bull.Queue :=
  scheduleSyncJob q.

(** The [data] of the update, applied to the row it selects. *)
Definition update_data (group : UnifiedGroupOutput) (modified_at : Date)
           (r : FsGroups.row) : FsGroups.row :=
  {| FsGroups.id_fs_group := FsGroups.id_fs_group r;
     FsGroups.created_at := FsGroups.created_at r;
     FsGroups.modified_at := modified_at;
     FsGroups.remote_id := FsGroups.remote_id r;
     FsGroups.id_connection := FsGroups.id_connection r;
     FsGroups.name :=
       if truthy_ostring (g_name group) then g_name group
       else FsGroups.name r;
     FsGroups.users :=
       if truthy_oobject (g_users group) then g_users group
       else FsGroups.users r;
     FsGroups.remote_was_deleted :=
       if truthy_obool (g_remote_was_deleted group)
       then g_remote_was_deleted group
       else FsGroups.remote_was_deleted r |}.

(** The [data] of the create. *)
Definition create_data (group : UnifiedGroupOutput) (uuid : string)
           (created_at modified_at : Date) (originId connection_id : string)
  : FsGroups.row :=
  {| FsGroups.id_fs_group := uuid;
     FsGroups.created_at := created_at;
     FsGroups.modified_at := modified_at;
     FsGroups.remote_id := Some originId;
     FsGroups.id_connection := Some connection_id;
     FsGroups.name :=
       if truthy_ostring (g_name group) then g_name group else None;
     FsGroups.users :=
       if truthy_oobject (g_users group) then g_users group else None;
     FsGroups.remote_was_deleted :=
       if truthy_obool (g_remote_was_deleted group)
       then g_remote_was_deleted group else None |}.

(** The loop over [Object.entries(group.field_mappings)]. *)
Fixpoint save_field_values (es : Js.object string)
         (originSource linkedUserId id_entity : string) : M unit :=
  match es with
  | [] => ret tt
  | (slug, value) :: rest =>
      (let* attribute :=
         query (fun w =>
           Prisma.findFirst
             (fun a => String.eqb (Attribute.slug a) slug
                       && String.eqb (Attribute.source a) originSource
                       && String.eqb (Attribute.id_consumer a) linkedUserId)
             (Db.attribute w)) in
       match attribute with
       | Some attribute =>
           let* id_value := uuidv4 in
           exec (fun w =>
             Db.with_value
               (Prisma.create
                  {| Value.id_value := id_value;
                     Value.data :=
                       if truthy_string value then value else "null";
                     Value.id_attribute := Attribute.id_attribute attribute;
                     Value.id_entity := id_entity |}
                  (Db.value w)) w)
       | None => ret tt
       end ;;
       save_field_values rest originSource linkedUserId id_entity)%eff
  end.

(** [remote_data.upsert({ where: { ressource_owner_id }, create, update })]. *)
Definition upsert_remote_data (owner : string) (create_row : RemoteData.row)
           (update_data_ : RemoteData.row -> RemoteData.row)
           (t : list RemoteData.row) : list RemoteData.row :=
  match Prisma.update
          (fun r => String.eqb (RemoteData.ressource_owner_id r) owner)
          update_data_ t with
  | Some (_, t') => t'
  | None => Prisma.create create_row t
  end.

(** The body of the [for] loop of [saveGroupsInDb], for [groups[i]]. *)
Definition saveGroup (connection_id linkedUserId : string)
           (originSource : string) (remote_data : list Original)
           (i : nat) (group : UnifiedGroupOutput) : M FsGroups.row :=
  (let originId := g_remote_id group in
   if origin_missing originId
   then throw (ReferenceError
                 ("Origin id not there, found " ++ template originId))
   else
     let originId := origin_string originId in
     let* existingGroup :=
       query (fun w =>
         Prisma.findFirst
           (fun r => col_eqb (FsGroups.remote_id r) originId
                     && col_eqb (FsGroups.id_connection r) connection_id)
           (Db.fs_groups w)) in
     let* res :=
       match existingGroup with
       | Some existingGroup =>
           let* modified_at := new_Date in
           let* updated :=
             query (fun w =>
               Prisma.update
                 (fun r => String.eqb (FsGroups.id_fs_group r)
                             (FsGroups.id_fs_group existingGroup))
                 (update_data group modified_at)
                 (Db.fs_groups w)) in
           match updated with
           | Some (res, t) => exec (Db.with_fs_groups t) ;; ret res
           | None => throw Prisma.RecordNotFound
           end
       | None =>
           let* uuid := uuidv4 in
           let* created_at := new_Date in
           let* modified_at := new_Date in
           let newGroup :=
             create_data group uuid created_at modified_at
                         originId connection_id in
           exec (fun w =>
             Db.with_fs_groups (Prisma.create newGroup (Db.fs_groups w)) w) ;;
           ret newGroup
       end in
     let unique_fs_group_id := FsGroups.id_fs_group res in
     (if has_items (g_field_mappings group)
      then
        let* id_entity := uuidv4 in
        exec (fun w =>
          Db.with_entity
            (Prisma.create
               {| Entity.id_entity := id_entity;
                  Entity.ressource_owner_id := unique_fs_group_id |}
               (Db.entity w)) w) ;;
        save_field_values
          (match g_field_mappings group with
           | Some fm => entries fm
           | None => []
           end)
          originSource linkedUserId id_entity
      else ret tt) ;;
     let* id_remote_data := uuidv4 in
     let data :=
       option_map JSON_stringify (List.nth_error remote_data i) in
     let* created_at := new_Date in
     let* updated_at := new_Date in
     exec (fun w =>
       Db.with_remote_data
         (upsert_remote_data unique_fs_group_id
            {| RemoteData.id_remote_data := id_remote_data;
               RemoteData.ressource_owner_id := unique_fs_group_id;
               RemoteData.format := "json";
               RemoteData.data := data;
               RemoteData.created_at := created_at |}
            (fun r =>
               {| RemoteData.id_remote_data := RemoteData.id_remote_data r;
                  RemoteData.ressource_owner_id :=
                    RemoteData.ressource_owner_id r;
                  RemoteData.format := RemoteData.format r;
                  RemoteData.data := data;
                  RemoteData.created_at := updated_at |})
            (Db.remote_data w)) w) ;;
     ret res)%eff.

(** [for (let i = 0; i < groups.length; i++)], from index [i] on, with
    the results gathered so far. *)
Fixpoint saveGroups_from (connection_id linkedUserId : string)
         (originSource : string) (remote_data : list Original)
         (i : nat) (groups : list UnifiedGroupOutput)
         (groups_results : list FsGroups.row) : M (list FsGroups.row) :=
  match groups with
  | [] => ret groups_results
  | group :: rest =>
      (let* res :=
         saveGroup connection_id linkedUserId originSource remote_data
                   i group in
       saveGroups_from connection_id linkedUserId originSource remote_data
                       (S i) rest (groups_results ++ [res]))%eff
  end.

Definition saveGroupsInDb (connection_id linkedUserId : string)
           (groups : list UnifiedGroupOutput) (originSource : string)
           (remote_data : list Original) : M (list FsGroups.row) :=
  saveGroups_from connection_id linkedUserId originSource remote_data
                  0 groups [].

Definition pulled_event (id_event integrationId : string)
           (timestamp : Date) (linkedUserId : string) : Events.row :=
  {| Events.id_event := id_event;
     Events.status := "success";
     Events.type := "filestorage.group.pulled";
     Events.method := "PULL";
     Events.url := "/pull";
     Events.provider := integrationId;
     Events.direction := "0";
     Events.timestamp := timestamp;
     Events.id_linked_user := linkedUserId |}.

(** Modelled from the spec: [WebhookService.handleWebhook], whose file
    is not among the sources.  The spec has a service re-emit what it
    pulled as a webhook; the model appends the call
    [(data, type, id_project, id_event)] to the log of emitted
    webhooks and resolves. *)
Definition handleWebhook (data : list FsGroups.row)
           (type id_project id_event : string) : M unit :=
  exec (fun w =>
    Db.with_webhooks
      (Db.webhooks w ++
         [{| Webhook.payload := data; Webhook.event_type := type;
             Webhook.id_project := id_project;
             Webhook.id_event := id_event |}]) w).

Definition syncGroupsForLinkedUser (integrationId linkedUserId : string)
           (id_project : string) : M unit :=
  (let* connection :=
     query (fun w =>
       Prisma.findFirst
         (fun c => String.eqb (Connections.id_linked_user c) linkedUserId
                   && String.eqb (Connections.provider_slug c) integrationId
                   && String.eqb (Connections.vertical c) "filestorage")
         (Db.connections w)) in
   match connection with
   | None => ret tt
   | Some connection =>
       let* customFieldMappings :=
         (fun w =>
            (getCustomFieldMappings integrationId linkedUserId
                                    "filestorage.group" w, w)) in
       let remoteProperties := List.map remote_id customFieldMappings in
       match getService integrationId with
       | None =>
           throw (TypeError
             "Cannot read properties of undefined (reading 'syncGroups')")
       | Some service =>
           let* resp :=
             (fun w =>
                (service_syncGroups service linkedUserId
                                    remoteProperties w, w)) in
           let sourceObject := resp_data resp in
           let* unifiedObject :=
             (fun w =>
                (unify {| sourceObject := sourceObject;
                          targetType := FileStorageObject_group;
                          providerName := integrationId;
                          ua_vertical := "filestorage";
                          customFieldMappings := customFieldMappings |} w,
                 w)) in
           let* groups_data :=
             saveGroupsInDb (Connections.id_connection connection)
                            linkedUserId unifiedObject integrationId
                            sourceObject in
           let* id_event := uuidv4 in
           let* timestamp := new_Date in
           let event :=
             pulled_event id_event integrationId timestamp linkedUserId in
           exec (fun w =>
             Db.with_events (Prisma.create event (Db.events w)) w) ;;
           handleWebhook groups_data "filestorage.group.pulled"
                         id_project (Events.id_event event)
       end
   end)%eff.

(** [syncGroups] under a schedule of its turns and of those of the
    callbacks it starts. *)
Definition syncGroups (user_id : option string)
           (schedule : list FanOut.turn) (w : World) : FanOut.state :=
  FanOut.run FILESTORAGE_PROVIDERS syncGroupsForLinkedUser user_id
             schedule w.

End Service.

End GroupSync.

(* ===================================================================== *)
(** ** class SyncService of the ATS attachments
    (src/packages/api/src/ats/attachment/sync/sync.service.ts) *)
(* ===================================================================== *)

Module AttachmentSync.

Import Unified.

Record UnifiedAttachmentOutput : Type := {
  a_file_url : option string;
  a_file_name : option string;
  a_file_type : option string;
  a_remote_created_at : option string;
  a_remote_modified_at : option string;
  a_remote_id : nullable string;
  a_field_mappings : option field_mappings
}.

Section Service.
Variable Original : Type.
(** The identifier columns of [ats_candidate_attachments]. *)
Variable columns : AtsAttachments.columns.
(** The provider adapter; the sync service only tests that it exists. *)
Variable IAttachmentService : Type.
Variable getService : string -> option IAttachmentService.
(** [IngestDataService], not among the sources; the identifier it is
    given is [res.id_ats_attachment], [undefined] when the saved row
    has no such column. *)
Variable syncForLinkedUser :
  string -> string -> string -> string -> IAttachmentService ->
  list string -> M unit.
Variable processFieldMappings :
  option field_mappings -> option string -> string -> string -> M unit.
Variable processRemoteData : option string -> option Original -> M unit.
Variable ATS_PROVIDERS : list string.

(** [baseData] applied by the update to the row it selects. *)
Definition baseData (attachment : UnifiedAttachmentOutput)
           (candidate_id : option string) (modified_at : Date)
           (r : AtsAttachments.row) : AtsAttachments.row :=
  {| AtsAttachments.id_ats_candidate_attachment :=
       AtsAttachments.id_ats_candidate_attachment r;
     AtsAttachments.id_ats_attachment := AtsAttachments.id_ats_attachment r;
     AtsAttachments.file_url := a_file_url attachment;
     AtsAttachments.file_name := a_file_name attachment;
     AtsAttachments.file_type := a_file_type attachment;
     AtsAttachments.remote_created_at := a_remote_created_at attachment;
     AtsAttachments.remote_modified_at := a_remote_modified_at attachment;
     AtsAttachments.candidate_id := candidate_id;
     AtsAttachments.modified_at := modified_at;
     AtsAttachments.created_at := AtsAttachments.created_at r;
     AtsAttachments.remote_id := AtsAttachments.remote_id r;
     AtsAttachments.id_connection := AtsAttachments.id_connection r |}.

(** [{ ...baseData, id_ats_attachment, created_at, remote_id,
    id_connection }]; [generated] is what the table itself gives to
    [id_ats_candidate_attachment], which the data does not name. *)
Definition create_data (attachment : UnifiedAttachmentOutput)
           (candidate_id : option string) (modified_at : Date)
           (uuid : string) (created_at : Date)
           (originId connection_id : string) (generated : option string)
  : AtsAttachments.row :=
  {| AtsAttachments.id_ats_candidate_attachment := generated;
     AtsAttachments.id_ats_attachment := Some uuid;
     AtsAttachments.file_url := a_file_url attachment;
     AtsAttachments.file_name := a_file_name attachment;
     AtsAttachments.file_type := a_file_type attachment;
     AtsAttachments.remote_created_at := a_remote_created_at attachment;
     AtsAttachments.remote_modified_at := a_remote_modified_at attachment;
     AtsAttachments.candidate_id := candidate_id;
     AtsAttachments.modified_at := modified_at;
     AtsAttachments.created_at := created_at;
     AtsAttachments.remote_id := Some originId;
     AtsAttachments.id_connection := Some connection_id |}.

(** [update({ where: { id_ats_candidate_attachment }, data: baseData })]:
    the client rejects the [where] on a table without that column, and
    a [where] whose identifier is [undefined]. *)
Definition update_attachment (existingAttachment : AtsAttachments.row)
           (data : AtsAttachments.row -> AtsAttachments.row)
  : M AtsAttachments.row :=
  (if AtsAttachments.has_id_ats_candidate_attachment columns
   then
     match AtsAttachments.id_ats_candidate_attachment existingAttachment
     with
     | Some id =>
         let* updated :=
           query (fun w =>
             Prisma.update
               (fun r =>
                  col_eqb (AtsAttachments.id_ats_candidate_attachment r)
                          id)
               data (Db.ats_candidate_attachments w)) in
         match updated with
         | Some (res, t) =>
             exec (Db.with_ats_candidate_attachments t) ;; ret res
         | None => throw Prisma.RecordNotFound
         end
     | None => throw (Prisma.MissingArgument "where")
     end
   else throw (Prisma.UnknownArgument "id_ats_candidate_attachment"))%eff.

(** [create({ data: { ...baseData, id_ats_attachment: uuidv4(), ... } })]:
    the client rejects the data on a table without the column
    [id_ats_attachment].  On a table that has both columns the one that
    the data does not name takes a fresh identifier when the table
    generates it, and the client rejects the data for the argument it
    lacks otherwise. *)
Definition create_attachment
           (data : option string -> AtsAttachments.row)
  : M AtsAttachments.row :=
  (if AtsAttachments.has_id_ats_attachment columns
   then
     let* generated :=
       if AtsAttachments.has_id_ats_candidate_attachment columns
       then
         if AtsAttachments.generates_id_ats_candidate_attachment columns
         then (let* id := uuidv4 in ret (Some id))
         else throw (Prisma.MissingArgument
                       "id_ats_candidate_attachment")
       else ret None in
     let res := data generated in
     exec (fun w =>
       Db.with_ats_candidate_attachments
         (Prisma.create res (Db.ats_candidate_attachments w)) w) ;;
     ret res
   else throw (Prisma.UnknownArgument "id_ats_attachment"))%eff.

Definition updateOrCreateAttachment (connection_id : string)
           (candidate_id : option string)
           (attachment : UnifiedAttachmentOutput) (originId : string)
  : M AtsAttachments.row :=
  (let* existingAttachment :=
     query (fun w =>
       Prisma.findFirst
         (fun r => col_eqb (AtsAttachments.remote_id r) originId
                   && col_eqb (AtsAttachments.id_connection r) connection_id)
         (Db.ats_candidate_attachments w)) in
   let* modified_at := new_Date in
   match existingAttachment with
   | Some existingAttachment =>
       update_attachment existingAttachment
         (baseData attachment candidate_id modified_at)
   | None =>
       let* uuid := uuidv4 in
       let* created_at := new_Date in
       create_attachment
         (create_data attachment candidate_id modified_at uuid created_at
                      originId connection_id)
   end)%eff.

(** The body of the [for] loop of [saveToDb], for [attachments[i]]. *)
Definition saveAttachment (connection_id linkedUserId : string)
           (originSource : string) (remote_data : list Original)
           (candidate_id : option string)
           (i : nat) (attachment : UnifiedAttachmentOutput)
  : M AtsAttachments.row :=
  (let originId := a_remote_id attachment in
   if origin_missing originId
   then throw (ReferenceError
                 ("Origin id not there, found " ++ template originId))
   else
     let* res :=
       updateOrCreateAttachment connection_id candidate_id attachment
                                (origin_string originId) in
     let attachment_id := AtsAttachments.id_ats_attachment res in
     processFieldMappings (a_field_mappings attachment) attachment_id
                          originSource linkedUserId ;;
     processRemoteData attachment_id (List.nth_error remote_data i) ;;
     ret res)%eff.

Fixpoint saveToDb_from (connection_id linkedUserId : string)
         (originSource : string) (remote_data : list Original)
         (candidate_id : option string)
         (i : nat) (attachments : list UnifiedAttachmentOutput)
         (attachments_results : list AtsAttachments.row)
  : M (list AtsAttachments.row) :=
  match attachments with
  | [] => ret attachments_results
  | attachment :: rest =>
      (let* res :=
         saveAttachment connection_id linkedUserId originSource
                        remote_data candidate_id i attachment in
       saveToDb_from connection_id linkedUserId originSource remote_data
                     candidate_id (S i) rest
                     (attachments_results ++ [res]))%eff
  end.

Definition saveToDb (connection_id linkedUserId : string)
           (attachments : list UnifiedAttachmentOutput)
           (originSource : string) (remote_data : list Original)
           (candidate_id : option string) : M (list AtsAttachments.row) :=
  saveToDb_from connection_id linkedUserId originSource remote_data
                candidate_id 0 attachments [].

Definition syncAttachmentsForLinkedUser (integrationId linkedUserId : string)
  : M unit :=
  match getService integrationId with
  | None => ret tt
  | Some service =>
      syncForLinkedUser integrationId linkedUserId "ats" "attachment"
                        service []
  end.

(** [syncAttachments] under a schedule; the project of the traversal is
    not passed on to [syncAttachmentsForLinkedUser]. *)
Definition syncAttachments (user_id : option string)
           (schedule : list FanOut.turn) (w : World) : FanOut.state :=
  FanOut.run ATS_PROVIDERS
    (fun provider id_linked_user _ =>
       syncAttachmentsForLinkedUser provider id_linked_user)
    user_id schedule w.

End Service.

End AttachmentSync.

(* ===================================================================== *)
(** * Vocabulary of the statements *)
(* ===================================================================== *)

(** ** The engine of the examples *)

Module EngineFixtures.

(** The examples hold ASCII text and safe integers only; beyond them this
    engine keeps a text as it is and writes an integer in decimal. *)
Definition sample_engine : Js.Engine :=
  {| Js.toLowerCase_beyond_ascii := fun s => s;
     Js.toUpperCase_beyond_ascii := fun s => s;
     Js.String_of_unsafe_integer := Js.decimal |}.

End EngineFixtures.

(** ** Zendesk ticket mapper: the stages of [desunify] *)

Module ZendeskStages.

Import ZendeskTicketMapper.

(** The [public] flag of the comment of a Zendesk ticket. *)
Definition public_of (r : ZendeskTicketInput) : bool :=
  zc_public (zi_comment r).

(** The object literal [desunify] starts from. *)
Definition initial (source : UnifiedTicketInput) : ZendeskTicketInput :=
  {| zi_description := description source;
     zi_subject := name source;
     zi_comment :=
       {| zc_body :=
            if truthy_string (body (comment source))
            then Some (body (comment source)) else None;
          zc_public :=
            negb (truthy_obool (is_private (comment source))) || true;
          zc_uploads := nullish (attachments source) [];
          zc_html_body := None |};
     zi_assignee_email := None; zi_due_at := None;
     zi_priority := None; zi_status := None; zi_tags := None;
     zi_type := None; zi_custom_fields := None |}.

(** The assignments before the awaited lookup of the assignee. *)
Definition before_await (source : UnifiedTicketInput) : ZendeskTicketInput :=
  match html_body (comment source) with
  | Some h =>
      if truthy_string h then set_html_body h (initial source)
      else initial source
  | None => initial source
  end.

(** The assignments after it. *)
Definition after_await {engine : Js.Engine}
           (toISOString : Date -> string)
           (source : UnifiedTicketInput)
           (cfm : option (list mapping)) (result : ZendeskTicketInput)
  : ZendeskTicketInput :=
  let result :=
    match due_date source with
    | Some d => set_due_at (toISOString d) result
    | None => result
    end in
  let result :=
    match priority source with
    | Some p =>
        if truthy_string p
        then set_priority
               (if String.eqb p "MEDIUM" then "normal" else toLowerCase p)
               result
        else result
    | None => result
    end in
  let result :=
    match status source with
    | Some s =>
        if truthy_string s then set_status (toLowerCase s) result
        else result
    | None => result
    end in
  let result :=
    match tags source with
    | Some t => set_tags t result
    | None => result
    end in
  let result :=
    match type source with
    | Some t =>
        if truthy_string t then set_type (toLowerCase t) result
        else result
    | None => result
    end in
  match cfm, field_mappings source with
  | Some ms, Some fm => set_custom_fields (desunify_fields ms fm []) result
  | _, _ => result
  end.

(** A private comment on a ticket, and a ticket with tags, an assignee and
    a type. *)
Definition private_comment : UnifiedCommentInput :=
  {| body := "internal note"; html_body := None; is_private := Some true;
     created_at := 0%Z; modified_at := 0%Z; creator_type := Some creator_user;
     ticket_id := "t1"; contact_id := None; user_id := None |}.

Definition private_ticket : UnifiedTicketInput :=
  {| name := "Printer"; description := "It is on fire";
     comment := private_comment; attachments := None;
     assigned_to := None; due_date := None; priority := Some "MEDIUM";
     status := Some "OPEN"; tags := None; type := Some "INCIDENT";
     field_mappings := None |}.

Definition tagged_ticket : ZendeskTicketOutput :=
  {| zo_id := 35436%Z; zo_subject := "Printer"; zo_status := "open";
     zo_description := "It is on fire"; zo_due_at := None;
     zo_updated_at := "2024-01-01T00:00:00Z"; zo_priority := "high";
     zo_custom_fields := []; zo_assignee_id := Some 235323%Z;
     zo_type := Some "incident"; zo_tags := Some ["enterprise"; "other"] |}.

End ZendeskStages.

(** ** Sample stores *)

Module Fixtures.

(** A clock that advances by one millisecond at each reading, and a
    generator of identifiers that never repeats. *)
Definition sample_clock (n : nat) : Date := (1000 + Z.of_nat n)%Z.

Definition sample_uuid (n : nat) : string :=
  "uuid-" ++ NilZero.string_of_uint (Nat.to_uint n).

Definition empty_world : World :=
  {| Db.users := []; Db.projects := []; Db.linked_users := [];
     Db.connections := []; Db.fs_groups := [];
     Db.ats_candidate_attachments := []; Db.ats_interviews := [];
     Db.entity := []; Db.attribute := []; Db.value := [];
     Db.remote_data := []; Db.events := []; Db.webhooks := [];
     Db.sys_clock := sample_clock; Db.clock_reads := 0;
     Db.sys_uuid := sample_uuid; Db.uuid_draws := 0 |}.

(** Two users, the second of which asked for a password reset that expires
    at time 5000. *)
Definition alice : Users.row :=
  {| Users.id_user := "alice"; Users.email := "alice@example.com";
     Users.first_name := "Alice"; Users.password_hash := "old-a";
     Users.reset_token := None; Users.reset_token_expiry := None |}.

Definition bob : Users.row :=
  {| Users.id_user := "bob"; Users.email := "bob@example.com";
     Users.first_name := "Bob"; Users.password_hash := "old-b";
     Users.reset_token := Some "tok";
     Users.reset_token_expiry := Some 5000%Z |}.

Definition two_users : World := Db.with_users [alice; bob] empty_world.

Definition sample_bcrypt (password : string) (rounds : nat) (salt : string)
  : string :=
  "$2b$" ++ salt ++ "$" ++ password.

End Fixtures.

(** ** Password reset *)

Module AuthSpec.

(** The reading of the clock that [resetPassword] compares expiries with. *)
Definition now (w : World) : Date := Db.sys_clock w (Db.clock_reads w).

(** A user whose reset token is [token] and has not expired at [now w]. *)
Definition holds_valid_token (w : World) (token : string) (u : Users.row)
  : Prop :=
  Users.reset_token u = Some token
  /\ exists expiry, Users.reset_token_expiry u = Some expiry
                    /\ (now w < expiry)%Z.

(** The salt that [bcrypt.hash] draws in [resetPassword]. *)
Definition salt (w : World) : string := Db.sys_uuid w (Db.uuid_draws w).

End AuthSpec.

(** ** A store with one group already saved *)

Module SyncFixtures.

Definition existing_group : FsGroups.row :=
  {| FsGroups.id_fs_group := "row-1";
     FsGroups.created_at := 10%Z;
     FsGroups.modified_at := 10%Z;
     FsGroups.remote_id := Some "g-1";
     FsGroups.id_connection := Some "conn-1";
     FsGroups.name := Some "Old name";
     FsGroups.users := None;
     FsGroups.remote_was_deleted := None |}.

Definition store : World :=
  Db.with_fs_groups [existing_group] Fixtures.empty_world.

(** Three groups to save: two for the remote group [g-1], the second of
    which has no name, and one for [g-2]. *)
Definition group (remote : nullable string) (name : option string)
  : GroupSync.UnifiedGroupOutput :=
  {| GroupSync.g_name := name;
     GroupSync.g_users := Some ["user-1"];
     GroupSync.g_remote_was_deleted := None;
     GroupSync.g_remote_id := remote;
     GroupSync.g_field_mappings := None |}.

Definition groups : list GroupSync.UnifiedGroupOutput :=
  [group (Val "g-1") (Some "Engineering");
   group (Val "g-2") (Some "Sales");
   group (Val "g-1") None].

Definition attachment (remote : nullable string) (url : string)
  : AttachmentSync.UnifiedAttachmentOutput :=
  {| AttachmentSync.a_file_url := Some url;
     AttachmentSync.a_file_name := Some "cv.pdf";
     AttachmentSync.a_file_type := Some "pdf";
     AttachmentSync.a_remote_created_at := None;
     AttachmentSync.a_remote_modified_at := None;
     AttachmentSync.a_remote_id := remote;
     AttachmentSync.a_field_mappings := None |}.

Definition attachments : list AttachmentSync.UnifiedAttachmentOutput :=
  [attachment (Val "att-1") "https://files/1";
   attachment (Val "att-1") "https://files/1b"].

(** An ingest service that stores nothing. *)
Definition no_field_mappings (fm : option Unified.field_mappings)
           (id : option string) (originSource linkedUserId : string)
  : M unit :=
  Eff.ret tt.

Definition no_remote_data (id : option string) (o : option string)
  : M unit :=
  Eff.ret tt.

(** A row of [att-1] in a table whose identifier column is
    [id_ats_candidate_attachment], and the store that holds it. *)
Definition existing_attachment : AtsAttachments.row :=
  {| AtsAttachments.id_ats_candidate_attachment := Some "att-row-1";
     AtsAttachments.id_ats_attachment := None;
     AtsAttachments.file_url := Some "https://files/0";
     AtsAttachments.file_name := Some "old.pdf";
     AtsAttachments.file_type := Some "pdf";
     AtsAttachments.remote_created_at := Some "2024-01-01";
     AtsAttachments.remote_modified_at := None;
     AtsAttachments.candidate_id := Some "cand-1";
     AtsAttachments.modified_at := 10%Z;
     AtsAttachments.created_at := 10%Z;
     AtsAttachments.remote_id := Some "att-1";
     AtsAttachments.id_connection := Some "conn-1" |}.

Definition attachment_store : World :=
  Db.with_ats_candidate_attachments [existing_attachment] store.

(** The same row in a table whose identifier column is
    [id_ats_attachment]. *)
Definition existing_attachment' : AtsAttachments.row :=
  {| AtsAttachments.id_ats_candidate_attachment := None;
     AtsAttachments.id_ats_attachment := Some "att-row-1";
     AtsAttachments.file_url := Some "https://files/0";
     AtsAttachments.file_name := Some "old.pdf";
     AtsAttachments.file_type := Some "pdf";
     AtsAttachments.remote_created_at := Some "2024-01-01";
     AtsAttachments.remote_modified_at := None;
     AtsAttachments.candidate_id := Some "cand-1";
     AtsAttachments.modified_at := 10%Z;
     AtsAttachments.created_at := 10%Z;
     AtsAttachments.remote_id := Some "att-1";
     AtsAttachments.id_connection := Some "conn-1" |}.

Definition attachment_store' : World :=
  Db.with_ats_candidate_attachments [existing_attachment'] store.

Definition stringify (o : string) : string := o.

End SyncFixtures.

(** ** Pagination of interviews *)

Module InterviewSpec.

Import AtsInterviews.

(** The interviews of a connection by ascending [created_at]. *)
Definition of_connection (connection_id : string) (w : World) : list row :=
  PrismaPage.orderBy_asc created_at
    (List.filter (fun r => String.eqb (id_connection r) connection_id)
                 (Db.ats_interviews w)).

(** The same from the position of the cursor onward; the whole list
    without a cursor. *)
Definition from_position (connection_id : string) (cursor : option string)
           (w : World) : list row :=
  if truthy_ostring cursor
  then PrismaPage.from_cursor
         (fun r => String.eqb (id_ats_interview r) (nullish cursor ""))
         (of_connection connection_id w)
  else of_connection connection_id w.

(** Some interview of the connection has the identifier [c]. *)
Definition cursor_exists (connection_id c : string) (w : World) : Prop :=
  exists r, In r (Db.ats_interviews w)
            /\ id_connection r = connection_id
            /\ id_ats_interview r = c.

(** A cursor argument is supplied when it is a non-empty string: the
    service tests it with [if (cursor)]. *)
Definition supplied (cursor : option string) : Prop :=
  truthy_ostring cursor = true.

(** The identifiers of the interviews are distinct and not empty. *)
Definition interview_ids_wf (w : World) : Prop :=
  NoDup (List.map id_ats_interview (Db.ats_interviews w))
  /\ Forall (fun r => id_ats_interview r <> "") (Db.ats_interviews w).

(** Every value row refers to an attribute row of the store. *)
Definition values_have_attributes (w : World) : Prop :=
  forall v, In v (Db.value w) ->
            exists a, In a (Db.attribute w)
                      /\ Attribute.id_attribute a = Value.id_attribute v.

(** The page and the cursor that [getInterviews] derives from the rows it
    read. *)
Definition popped (limit : nat) (interviews : list row)
  : outcome (list row * option string) :=
  if Nat.eqb (List.length interviews) (limit + 1)
  then
    match List.nth_error interviews (List.length interviews - 1) with
    | Some last =>
        Ok (List.removelast interviews,
            Some (Base64.encode (id_ats_interview last)))
    | None =>
        Throw (TypeError
          "Cannot read properties of undefined (reading 'id_ats_interview')")
    end
  else Ok (interviews, None).

(** The store after [getInterviews] recorded its pull event. *)
Definition after_pull (integrationId linkedUserId : string) (w : World)
  : World :=
  let w1 := Db.with_uuid_draws (S (Db.uuid_draws w)) w in
  let w2 := Db.with_clock_reads (S (Db.clock_reads w1)) w1 in
  Db.with_events
    (Prisma.create
       (InterviewService.pull_event
          (Db.sys_uuid w (Db.uuid_draws w)) integrationId
          (Db.sys_clock w (Db.clock_reads w)) linkedUserId)
       (Db.events w2)) w2.

(** Three interviews of connection [c1] created at times 10, 20 and 30,
    and one of another connection. *)
Definition interview (id connection : string) (created : Date) : row :=
  {| id_ats_interview := id; status := Some "SCHEDULED";
     id_ats_application := None; id_ats_job_interview_stage := None;
     organized_by := None; interviewers := []; location := None;
     start_at := None; end_at := None; remote_created_at := None;
     remote_updated_at := None; remote_id := Some ("remote-" ++ id)%string;
     created_at := created; modified_at := created;
     id_connection := connection |}.

Definition with_ats_interviews (v : list row) (w : World) : World :=
  {| Db.users := Db.users w; Db.projects := Db.projects w;
     Db.linked_users := Db.linked_users w;
     Db.connections := Db.connections w; Db.fs_groups := Db.fs_groups w;
     Db.ats_candidate_attachments := Db.ats_candidate_attachments w;
     Db.ats_interviews := v; Db.entity := Db.entity w;
     Db.attribute := Db.attribute w; Db.value := Db.value w;
     Db.remote_data := Db.remote_data w; Db.events := Db.events w;
     Db.webhooks := Db.webhooks w; Db.sys_clock := Db.sys_clock w;
     Db.clock_reads := Db.clock_reads w; Db.sys_uuid := Db.sys_uuid w;
     Db.uuid_draws := Db.uuid_draws w |}.

Definition three_interviews : World :=
  with_ats_interviews
    [interview "7d3c" "c1" 20%Z; interview "a41f" "c2" 5%Z;
     interview "19be" "c1" 10%Z; interview "e0a2" "c1" 30%Z]
    Fixtures.empty_world.

Definition sample_String_of_Date (d : option Date) : string :=
  match d with
  | Some z => Js.decimal z
  | None => "null"
  end.

Definition sample_JSON_parse (s : option string) : outcome string :=
  match s with
  | Some t => Ok t
  | None => Ok "null"
  end.

End InterviewSpec.

(** ** Saving unified objects *)

Module SyncSpec.

Import Unified.

(** What saving a list of unified objects leaves alone: the tenancy
    tables, the attributes, the events and the webhook calls; the two
    generators are read further but stay the same sequences. *)
Record kept (w w' : World) : Prop := {
  kept_users : Db.users w' = Db.users w;
  kept_projects : Db.projects w' = Db.projects w;
  kept_linked_users : Db.linked_users w' = Db.linked_users w;
  kept_connections : Db.connections w' = Db.connections w;
  kept_attribute : Db.attribute w' = Db.attribute w;
  kept_ats_interviews : Db.ats_interviews w' = Db.ats_interviews w;
  kept_events : Db.events w' = Db.events w;
  kept_webhooks : Db.webhooks w' = Db.webhooks w;
  kept_sys_uuid : Db.sys_uuid w' = Db.sys_uuid w;
  kept_sys_clock : Db.sys_clock w' = Db.sys_clock w;
  kept_uuid_draws : Db.uuid_draws w <= Db.uuid_draws w'
}.

(** The generator of identifiers never repeats, and what it has yet to
    give is the primary key of no row of [ids]. *)
Definition uuid_fresh (w : World) (ids : list string) : Prop :=
  (forall n m, Db.sys_uuid w n = Db.sys_uuid w m -> n = m)
  /\ (forall n, Db.uuid_draws w <= n -> ~ In (Db.sys_uuid w n) ids).


Definition has_remote_id (x : nullable string) : Prop :=
  exists s, x = Val s /\ s <> "".

(** The unique key of the upsert. *)
Definition key : Type := string * string.

(** *** Groups *)

(** [where: { remote_id, id_connection }]. *)
Definition group_matches (k : key) (r : FsGroups.row) : bool :=
  col_eqb (FsGroups.remote_id r) (fst k)
  && col_eqb (FsGroups.id_connection r) (snd k).

Definition group_ids (w : World) : list string :=
  List.map FsGroups.id_fs_group (Db.fs_groups w).

(** Primary keys are distinct and the generator is fresh for them. *)
Definition groups_wf (w : World) : Prop :=
  NoDup (group_ids w) /\ uuid_fresh w (group_ids w).

(** A group row without its [modified_at] stamp. *)
Definition group_unstamped (r : FsGroups.row) : FsGroups.row :=
  {| FsGroups.id_fs_group := FsGroups.id_fs_group r;
     FsGroups.created_at := FsGroups.created_at r;
     FsGroups.modified_at := 0%Z;
     FsGroups.remote_id := FsGroups.remote_id r;
     FsGroups.id_connection := FsGroups.id_connection r;
     FsGroups.name := FsGroups.name r;
     FsGroups.users := FsGroups.users r;
     FsGroups.remote_was_deleted := FsGroups.remote_was_deleted r |}.

(** The update for a group on a row without stamp, and the key under
    which a group is saved for a connection. *)
Definition group_act (group : GroupSync.UnifiedGroupOutput)
           (r : FsGroups.row) : FsGroups.row :=
  GroupSync.update_data group 0%Z r.

Definition group_key (connection_id : string)
           (group : GroupSync.UnifiedGroupOutput) : key :=
  (origin_string (GroupSync.g_remote_id group), connection_id).

(** The first half of the loop body of [saveGroupsInDb]: find the row of
    the key, update it or create one. *)
Definition upsertGroup (connection_id : string)
           (group : GroupSync.UnifiedGroupOutput) (originId : string)
  : M FsGroups.row :=
  (let* existingGroup :=
     query (fun w =>
       Prisma.findFirst
         (fun r => col_eqb (FsGroups.remote_id r) originId
                   && col_eqb (FsGroups.id_connection r) connection_id)
         (Db.fs_groups w)) in
   match existingGroup with
   | Some existingGroup =>
       let* modified_at := new_Date in
       let* updated :=
         query (fun w =>
           Prisma.update
             (fun r => String.eqb (FsGroups.id_fs_group r)
                         (FsGroups.id_fs_group existingGroup))
             (GroupSync.update_data group modified_at)
             (Db.fs_groups w)) in
       match updated with
       | Some (res, t) => exec (Db.with_fs_groups t) ;; ret res
       | None => throw Prisma.RecordNotFound
       end
   | None =>
       let* uuid := uuidv4 in
       let* created_at := new_Date in
       let* modified_at := new_Date in
       let newGroup :=
         GroupSync.create_data group uuid created_at modified_at
                               originId connection_id in
       exec (fun w =>
         Db.with_fs_groups (Prisma.create newGroup (Db.fs_groups w)) w) ;;
       ret newGroup
   end)%eff.

(** The second half: the field mappings and the remote data of the saved
    row. *)
Definition finishGroup (Original : Type) (JSON_stringify : Original -> string)
           (linkedUserId originSource : string) (remote_data : list Original)
           (i : nat) (group : GroupSync.UnifiedGroupOutput)
           (res : FsGroups.row) : M FsGroups.row :=
  (let unique_fs_group_id := FsGroups.id_fs_group res in
   (if has_items (GroupSync.g_field_mappings group)
    then
      let* id_entity := uuidv4 in
      exec (fun w =>
        Db.with_entity
          (Prisma.create
             {| Entity.id_entity := id_entity;
                Entity.ressource_owner_id := unique_fs_group_id |}
             (Db.entity w)) w) ;;
      GroupSync.save_field_values
        (match GroupSync.g_field_mappings group with
         | Some fm => entries fm
         | None => []
         end)
        originSource linkedUserId id_entity
    else ret tt) ;;
   let* id_remote_data := uuidv4 in
   let data :=
     option_map JSON_stringify (List.nth_error remote_data i) in
   let* created_at := new_Date in
   let* updated_at := new_Date in
   exec (fun w =>
     Db.with_remote_data
       (GroupSync.upsert_remote_data unique_fs_group_id
          {| RemoteData.id_remote_data := id_remote_data;
             RemoteData.ressource_owner_id := unique_fs_group_id;
             RemoteData.format := "json";
             RemoteData.data := data;
             RemoteData.created_at := created_at |}
          (fun r =>
             {| RemoteData.id_remote_data := RemoteData.id_remote_data r;
                RemoteData.ressource_owner_id :=
                  RemoteData.ressource_owner_id r;
                RemoteData.format := RemoteData.format r;
                RemoteData.data := data;
                RemoteData.created_at := updated_at |})
          (Db.remote_data w)) w) ;;
   ret res)%eff.

(** What one turn of the loop of [saveGroupsInDb] does to the table, for a
    group whose key is [k]: it rewrites in place the first row of the key
    (no row before it has the key), keeping its identifier, key and
    creation date, or else adds one row of that key with an identifier
    that no row had. *)
Definition group_upserted (k : key) (group : GroupSync.UnifiedGroupOutput)
           (res : FsGroups.row) (t t' : list FsGroups.row) : Prop :=
  match Prisma.findFirst (group_matches k) t with
  | Some existing =>
      exists l1 l2 modified_at,
        t = l1 ++ existing :: l2
        /\ Forall (fun r => group_matches k r = false) l1
        /\ t' = l1 ++ res :: l2
        /\ res = GroupSync.update_data group modified_at existing
  | None =>
      exists uuid created_at modified_at,
        t' = t ++ [res]
        /\ res = GroupSync.create_data group uuid created_at modified_at
                                       (fst k) (snd k)
        /\ ~ In uuid (List.map FsGroups.id_fs_group t)
  end.

(** *** Attachments *)

Definition attachment_matches (k : key) (r : AtsAttachments.row) : bool :=
  col_eqb (AtsAttachments.remote_id r) (fst k)
  && col_eqb (AtsAttachments.id_connection r) (snd k).

Definition attachment_key (connection_id : string)
           (attachment : AttachmentSync.UnifiedAttachmentOutput) : key :=
  (origin_string (AttachmentSync.a_remote_id attachment), connection_id).

(** A table that has the identifier column of the update's [where] and
    not the one of the create's data, and the other way round. *)
Definition candidate_key_only : AtsAttachments.columns :=
  {| AtsAttachments.has_id_ats_candidate_attachment := true;
     AtsAttachments.has_id_ats_attachment := false;
     AtsAttachments.generates_id_ats_candidate_attachment := true |}.

Definition attachment_key_only : AtsAttachments.columns :=
  {| AtsAttachments.has_id_ats_candidate_attachment := false;
     AtsAttachments.has_id_ats_attachment := true;
     AtsAttachments.generates_id_ats_candidate_attachment := false |}.

End SyncSpec.

(** ** Upserts on a table, without the clock *)

(** A table as the save loops see it once the [modified_at] stamps are put
    aside: an update rewrites the first row that matches a key, a create
    adds a row at the end. *)
Module UpsertModel.

Section Model.
Variables Row Item Key : Type.
Variable matches : Key -> Row -> bool.
(** The change that the update for an item makes to a row. *)
Variable act : Item -> Row -> Row.

Fixpoint upd (k : Key) (f : Row -> Row) (t : list Row) : list Row :=
  match t with
  | [] => []
  | r :: t' => if matches k r then f r :: t' else r :: upd k f t'
  end.

Definition has (k : Key) (t : list Row) : bool :=
  List.existsb (matches k) t.

Definition apply_all (xs : list Item) (r : Row) : Row :=
  List.fold_left (fun r x => act x r) xs r.

(** Updates only, one per pair of a key and an item. *)
Definition upds (ops : list (Key * Item)) (t : list Row) : list Row :=
  List.fold_left (fun t o => upd (fst o) (act (snd o)) t) ops t.

(** One turn of a save loop: the key, the item and the row to create
    when the key is absent. *)
Definition step (s : Key * Item * Row) (t : list Row) : list Row :=
  if has (fst (fst s)) t
  then upd (fst (fst s)) (act (snd (fst s))) t
  else t ++ [snd s].

Definition run (steps : list (Key * Item * Row)) (t : list Row)
  : list Row :=
  List.fold_left (fun t s => step s t) steps t.

(** The row that a step creates has the key of the step and is what the
    update for its item would leave. *)
Definition step_ok (s : Key * Item * Row) : Prop :=
  matches (fst (fst s)) (snd s) = true
  /\ act (snd (fst s)) (snd s) = snd s.

End Model.

End UpsertModel.

(** ** Syncing the groups of a linked user, and the fan-out *)

Module FanOutSpec.

(** The connection that [syncGroupsForLinkedUser] looks for. *)
Definition filestorage_connection (integrationId linkedUserId : string)
           (w : World) : option Connections.row :=
  Prisma.findFirst
    (fun c => String.eqb (Connections.id_linked_user c) linkedUserId
              && String.eqb (Connections.provider_slug c) integrationId
              && String.eqb (Connections.vertical c) "filestorage")
    (Db.connections w).

(** The tables that the fan-out reads. *)
Definition tenancy_kept (w w' : World) : Prop :=
  Db.users w' = Db.users w
  /\ Db.projects w' = Db.projects w
  /\ Db.linked_users w' = Db.linked_users w.

(** A method called by the fan-out that leaves those tables alone,
    whether it resolves or rejects. *)
Definition keeps_tenancy (callee : string -> string -> string -> M unit)
  : Prop :=
  forall provider id_linked_user id_project w,
    tenancy_kept w (snd (callee provider id_linked_user id_project w)).

(** The provider, linked user and project of a call. *)
Definition triple (c : FanOut.invocation) : string * string * string :=
  (FanOut.inv_provider c, FanOut.inv_linked_user c, FanOut.inv_project c).

(** The triples of a project: every provider for every linked user of the
    project. *)
Definition triples_of_project (providers : list string) (w : World)
           (p : Projects.row) : list (string * string * string) :=
  List.flat_map
    (fun l =>
       List.map
         (fun provider =>
            (provider, LinkedUsers.id_linked_user l, Projects.id_project p))
         providers)
    (Prisma.findMany
       (fun l => String.eqb (LinkedUsers.id_project l)
                            (Projects.id_project p))
       (Db.linked_users w)).

(** The triples of a user: those of each of the user's projects. *)
Definition triples_of_user (providers : list string) (w : World)
           (u : Users.row) : list (string * string * string) :=
  List.flat_map (triples_of_project providers w)
    (Prisma.findMany
       (fun p => String.eqb (Projects.id_user p) (Users.id_user u))
       (Db.projects w)).

(** The users that a sync traverses: the one user of the given identifier
    when one is given, every user otherwise. *)
Definition traversed_users (user_id : option string) (w : World)
  : list Users.row :=
  if truthy_ostring user_id
  then match Prisma.findFirst
               (fun u => String.eqb (Users.id_user u) (nullish user_id ""))
               (Db.users w) with
       | Some u => [u]
       | None => []
       end
  else Db.users w.

Definition triples (providers : list string) (user_id : option string)
           (w : World) : list (string * string * string) :=
  List.flat_map (triples_of_user providers w) (traversed_users user_id w).

(** The triples that a started callback has yet to call. *)
Definition pending_of_callback (cb : FanOut.callback)
  : list (string * string * string) :=
  List.map (fun provider =>
              (provider, FanOut.cb_linked_user cb, FanOut.cb_project cb))
           (FanOut.cb_providers cb).

(** The triples of the users that the method has yet to reach; the loop
    ends at a [null] user. *)
Fixpoint pending_of_users (providers : list string) (w : World)
         (users : list (option Users.row))
  : list (string * string * string) :=
  match users with
  | Some u :: rest =>
      triples_of_user providers w u ++ pending_of_users providers w rest
  | _ => []
  end.

Definition pending_of_position (providers : list string) (w : World)
           (p : FanOut.position) : list (string * string * string) :=
  match p with
  | FanOut.AtUsers users => pending_of_users providers w users
  | FanOut.AtProjects projects users =>
      List.flat_map (triples_of_project providers w) projects
      ++ pending_of_users providers w users
  | FanOut.Settled _ => []
  end.

(** The triples called so far, those that the started callbacks have yet
    to call, and those of the callbacks yet to be started. *)
Definition accounted (providers : list string) (w : World)
           (st : FanOut.state) : list (string * string * string) :=
  List.map triple (FanOut.st_calls st)
  ++ List.flat_map pending_of_callback (FanOut.st_callbacks st)
  ++ pending_of_position providers w (FanOut.st_position st).

(** No [null] is among the users that the method has yet to reach, and it
    has not rejected. *)
Definition no_null_user (p : FanOut.position) : Prop :=
  match p with
  | FanOut.AtUsers users | FanOut.AtProjects _ users =>
      Forall (fun u => u <> None) users
  | FanOut.Settled r => r = Ok tt
  end.

Definition null_user : exn :=
  TypeError "Cannot read properties of null (reading 'id_user')".

(** Identifiers are primary keys in the three tables. *)
Definition tenancy_wf (w : World) : Prop :=
  NoDup (List.map Users.id_user (Db.users w))
  /\ NoDup (List.map Projects.id_project (Db.projects w))
  /\ NoDup (List.map LinkedUsers.id_linked_user (Db.linked_users w)).

End FanOutSpec.

(** ** A tenant with one project, one linked user and two connections *)

Module TenantFixtures.

Import Fixtures SyncFixtures.

Definition with_tenancy (us : list Users.row) (ps : list Projects.row)
           (ls : list LinkedUsers.row) (cs : list Connections.row)
           (w : World) : World :=
  {| Db.users := us; Db.projects := ps; Db.linked_users := ls;
     Db.connections := cs; Db.fs_groups := Db.fs_groups w;
     Db.ats_candidate_attachments := Db.ats_candidate_attachments w;
     Db.ats_interviews := Db.ats_interviews w; Db.entity := Db.entity w;
     Db.attribute := Db.attribute w; Db.value := Db.value w;
     Db.remote_data := Db.remote_data w; Db.events := Db.events w;
     Db.webhooks := Db.webhooks w; Db.sys_clock := Db.sys_clock w;
     Db.clock_reads := Db.clock_reads w; Db.sys_uuid := Db.sys_uuid w;
     Db.uuid_draws := Db.uuid_draws w |}.

Definition connection (id provider : string) : Connections.row :=
  {| Connections.id_connection := id;
     Connections.id_linked_user := "lu-1";
     Connections.provider_slug := provider;
     Connections.vertical := "filestorage" |}.

Definition tenant : World :=
  with_tenancy
    [alice]
    [{| Projects.id_project := "proj-1"; Projects.id_user := "alice" |}]
    [{| LinkedUsers.id_linked_user := "lu-1";
        LinkedUsers.id_project := "proj-1" |}]
    [connection "conn-1" "box"; connection "conn-2" "onedrive"]
    store.

(** The Box adapter answers with two groups; the OneDrive adapter fails,
    as when the remote API is down. *)
Definition box : GroupSync.IGroupService string :=
  {| GroupSync.service_syncGroups :=
       fun _ _ _ =>
         Ok {| GroupSync.resp_data := ["g-1"; "g-2"];
               GroupSync.resp_message := "Box groups retrieved";
               GroupSync.resp_statusCode := 200%Z |} |}.

Definition onedrive : GroupSync.IGroupService string :=
  {| GroupSync.service_syncGroups :=
       fun _ _ _ => Throw (RemoteError "503 Service Unavailable") |}.

Definition registry (provider : string)
  : option (GroupSync.IGroupService string) :=
  if String.eqb provider "box" then Some box
  else if String.eqb provider "onedrive" then Some onedrive
  else None.

Definition no_mappings (integrationId linkedUserId object : string)
           (w : World) : outcome (list Unified.mapping) :=
  Ok [].

Definition unify_groups (args : GroupSync.unify_args string) (w : World)
  : outcome (list GroupSync.UnifiedGroupOutput) :=
  Ok (List.map (fun o => group (Val o) (Some o))
               (GroupSync.sourceObject args)).

(** The same tenant with a second linked user; both have a connection
    for Box and one for Dropbox, and both adapters answer. *)
Definition connection_of (id lu provider : string) : Connections.row :=
  {| Connections.id_connection := id;
     Connections.id_linked_user := lu;
     Connections.provider_slug := provider;
     Connections.vertical := "filestorage" |}.

Definition two_linked_users : World :=
  with_tenancy
    [alice]
    [{| Projects.id_project := "proj-1"; Projects.id_user := "alice" |}]
    [{| LinkedUsers.id_linked_user := "lu-1";
        LinkedUsers.id_project := "proj-1" |};
     {| LinkedUsers.id_linked_user := "lu-2";
        LinkedUsers.id_project := "proj-1" |}]
    [connection_of "conn-1" "lu-1" "box";
     connection_of "conn-2" "lu-1" "dropbox";
     connection_of "conn-3" "lu-2" "box";
     connection_of "conn-4" "lu-2" "dropbox"]
    store.

Definition answering (provider : string)
  : option (GroupSync.IGroupService string) :=
  Some box.

(** The method takes two turns and starts the two callbacks; the first
    callback makes a call, the method settles, and the callbacks then
    make their other calls in turn. *)
Definition interleaved : list FanOut.turn :=
  [FanOut.Method; FanOut.Method; FanOut.Callback 0; FanOut.Method;
   FanOut.Callback 1; FanOut.Callback 0; FanOut.Callback 1].

End TenantFixtures.
(** ** Objects used as dictionaries *)

Module JsSpec.

(** The value of the own property [k] of [o], [None] when [o] has no own
    property [k]. *)
Fixpoint obj_get {V : Type} (o : Js.object V) (k : string) : option V :=
  match o with
  | [] => None
  | (k', v) :: r => if String.eqb k' k then Some v else obj_get r k
  end.

(** [Object.keys(o)]. *)
Definition keys {V : Type} (o : Js.object V) : list string :=
  List.map fst o.

End JsSpec.

(** ** Zendesk ticket mapper: the unified ticket before the options *)

Module ZendeskUnifySpec.

Import ZendeskTicketMapper.

(** [Object.entries] of the field mappings that [unify] computes. *)
Definition unified_fields (ticket : ZendeskTicketOutput)
           (cfm : option (list mapping)) : Js.object string :=
  match cfm with
  | Some ms => unify_fields ms (zo_custom_fields ticket) []
  | None => []
  end.

(** The object literal of [mapSingleTicketToUnified] without [...opts]. *)
Definition unified_base {engine : Js.Engine} (Tag : Type)
           (new_Date : string -> Date)
           (ticket : ZendeskTicketOutput) (cfm : option (list mapping))
  : UnifiedTicketOutput Tag :=
  {| u_remote_id := String_of_number (zo_id ticket);
     u_name := zo_subject ticket;
     u_status :=
       if String.eqb (zo_status ticket) "new"
          || String.eqb (zo_status ticket) "open"
       then "OPEN" else "CLOSED";
     u_description := zo_description ticket;
     u_due_date :=
       match zo_due_at ticket with
       | Some d => if truthy_string d then Some (new_Date d) else None
       | None => None
       end;
     u_parent_ticket := None;
     u_completed_at := new_Date (zo_updated_at ticket);
     u_priority := zo_priority ticket;
     u_field_mappings := unified_fields ticket cfm;
     u_assigned_to := None; u_type := None; u_tags := None |}.

(** The custom field that [desunify] makes of an entry of the field
    mappings, when the key of the entry is the slug of a mapping. *)
Definition custom_field_of (ms : list mapping) (entry : string * string)
  : list CustomField :=
  match find_mapping ms (fst entry) with
  | Some m => [{| id := remote_id m; value := snd entry |}]
  | None => []
  end.

(** The entries of [acc] are entries of the field mappings [fm] whose
    key is the slug of a mapping. *)
Definition accounted_for (ms : list mapping) (fm acc : Js.object string)
  : Prop :=
  forall k v, JsSpec.obj_get acc k = Some v ->
              In (k, v) fm /\ exists m, find_mapping ms k = Some m.

(** Collaborators for the examples: every lookup resolves. *)
Definition sample_email (uuid : string) : outcome string :=
  Ok "agent@example.com".
Definition sample_user_uuid (remote_id connectionId : string)
  : outcome (option string) :=
  Ok (Some "user-uuid").
Definition sample_tags (ts : list string) (connectionId : string)
  : outcome (list string) :=
  Ok ts.
Definition sample_toISOString (d : Date) : string := "2024-01-01T00:00:00Z".
Definition sample_new_Date (s : string) : Date := 0%Z.

(** A unified ticket with two custom fields, one of them mapped. *)
Definition mappings : list mapping :=
  [{| slug := "region"; remote_id := "360001" |};
   {| slug := "tier"; remote_id := "360002" |}].

Definition source : UnifiedTicketInput :=
  {| name := "Printer"; description := "It is on fire";
     comment := ZendeskStages.private_comment; attachments := None;
     assigned_to := None; due_date := None; priority := Some "HIGH";
     status := Some "OPEN"; tags := None; type := Some "QUESTION";
     field_mappings := Some [("tier", "gold"); ("colour", "red")] |}.

Definition stored : ZendeskTicketOutput :=
  {| zo_id := 35436%Z; zo_subject := "Printer"; zo_status := "open";
     zo_description := "It is on fire"; zo_due_at := None;
     zo_updated_at := "2024-01-01T00:00:00Z"; zo_priority := "high";
     zo_custom_fields := [{| id := "360002"; value := "gold" |}];
     zo_assignee_id := Some 235323%Z;
     zo_type := Some "question"; zo_tags := None |}.

End ZendeskUnifySpec.
(** ** Gitlab ticket mapper: sample issues *)

Module GitlabSpec.

Import GitlabTicketMapper.

(** Stand-ins for the conversions and the lookups: [Number] keeps the
    text it is given, an assignee is the text of its identifier, and the
    issue has one property beside the named ones. *)
Definition sample_Number (x : option string) : option string := x.
Definition sample_truthy (a : string) : bool := true.
Definition sample_String (a : string) : string := a.
Definition sample_property (ticket : GitlabTicketOutput string)
           (key : string) : option string :=
  if String.eqb key "weight" then Some "3" else None.
Definition sample_remote_id (uuid : option string) : outcome (option string) :=
  Ok (Some "42").
Definition sample_assignee_id (uuid : string) : outcome (option string) :=
  Ok (Some "12").
Definition sample_collection_uuid (remote_id connectionId : string)
  : outcome (option string) :=
  Ok (Some "collection-uuid").

Definition source : UnifiedTicketInput :=
  {| name := "Printer"; description := Some "It is on fire";
     collections := Some ["collection-uuid"]; status := Some "OPEN";
     assigned_to := None; tags := None |}.

Definition issue : GitlabTicketOutput string :=
  {| go_id := 7%Z; go_title := "Printer"; go_description := None;
     go_created_at := "2024-01-01T00:00:00Z"; go_type := Some "opened";
     go_assignee := Some "12"; go_labels := None;
     go_project_id := Some 42%Z |}.

Definition labelled_issue : GitlabTicketOutput string :=
  {| go_id := 8%Z; go_title := "Printer"; go_description := None;
     go_created_at := "2024-01-01T00:00:00Z"; go_type := Some "opened";
     go_assignee := Some "12"; go_labels := Some ["bug"];
     go_project_id := Some 42%Z |}.

Definition mappings : list mapping :=
  [{| slug := "weight"; remote_id := "weight" |};
   {| slug := "epic"; remote_id := "epic_iid" |}].

End GitlabSpec.
(** ** Reading interviews *)

Module InterviewReadSpec.
(** The store after [getInterview] recorded its pull event. *)
Definition after_pull_one (integrationId linkedUserId : string) (w : World)
  : World :=
  let w1 := Db.with_uuid_draws (S (Db.uuid_draws w)) w in
  let w2 := Db.with_clock_reads (S (Db.clock_reads w1)) w1 in
  Db.with_events
    (Prisma.create
       (InterviewService.pull_one_event
          (Db.sys_uuid w (Db.uuid_draws w)) integrationId
          (Db.sys_clock w (Db.clock_reads w)) linkedUserId)
       (Db.events w2)) w2.

(** Two stores with the same interviews, values, entities, attributes
    and remote data. *)
Record same_interviews (w w' : World) : Prop := {
  same_ats_interviews : Db.ats_interviews w' = Db.ats_interviews w;
  same_value : Db.value w' = Db.value w;
  same_entity : Db.entity w' = Db.entity w;
  same_attribute : Db.attribute w' = Db.attribute w;
  same_remote_data : Db.remote_data w' = Db.remote_data w
}.
End InterviewReadSpec.

(** ** Vocabulary for the saved groups and the job queue *)

Module GroupSaveSpec.

(** What a save may do to a row of [fs_groups]: the identifier, the
    creation date, the remote identifier and the connection stay, and
    what the row holds is not erased: a set [remote_was_deleted] stays
    set, a non-empty name stays non-empty, users stay present. *)
Record row_evolves (r r' : FsGroups.row) : Prop := {
  same_id : FsGroups.id_fs_group r' = FsGroups.id_fs_group r;
  same_created_at : FsGroups.created_at r' = FsGroups.created_at r;
  same_remote_id : FsGroups.remote_id r' = FsGroups.remote_id r;
  same_connection : FsGroups.id_connection r' = FsGroups.id_connection r;
  deleted_stays :
    FsGroups.remote_was_deleted r = Some true ->
    FsGroups.remote_was_deleted r' = Some true;
  name_stays :
    truthy_ostring (FsGroups.name r) = true ->
    truthy_ostring (FsGroups.name r') = true;
  users_stay : FsGroups.users r <> None -> FsGroups.users r' <> None
}.

(** What a save may do to the table: every row evolves where it stands,
    and rows are added at the end. *)
Definition table_evolves (t t' : list FsGroups.row) : Prop :=
  exists rows added, t' = rows ++ added /\ Forall2 row_evolves t rows.

(** The groups whose field mappings are saved: those that pass the test
    [field_mappings && field_mappings.length > 0]. *)
Definition with_field_mappings (gs : list GroupSync.UnifiedGroupOutput)
  : list GroupSync.UnifiedGroupOutput :=
  List.filter (fun g => Unified.has_items (GroupSync.g_field_mappings g)) gs.

Definition owners (t : list RemoteData.row) : list string :=
  List.map RemoteData.ressource_owner_id t.

End GroupSaveSpec.

Module GroupSaveFixtures.

(** Two groups to save, the first with one field mapping. *)
Definition mapped_groups : list GroupSync.UnifiedGroupOutput :=
  [{| GroupSync.g_name := Some "Engineering";
      GroupSync.g_users := Some ["user-1"];
      GroupSync.g_remote_was_deleted := None;
      GroupSync.g_remote_id := Val "g-1";
      GroupSync.g_field_mappings :=
        Some {| Unified.length_prop := Some 1%Z;
                Unified.entries := [("department", "eng")] |} |};
   SyncFixtures.group (Val "g-2") (Some "Sales")].

End GroupSaveFixtures.

Module QueueSpec.
Definition jobName : string := "filestorage-sync-groups".
Definition named (n : string) (j : Bull.RepeatableJob) : bool :=
  String.eqb (Bull.name j) n.
Definition keys (q : Bull.Queue) : list string := List.map Bull.key q.
(** The job that [scheduleSyncJob] adds. *)
Definition sync_job (repeat_key : string -> string -> string)
  : Bull.RepeatableJob :=
  {| Bull.key := repeat_key jobName "0 0 * * *";
     Bull.name := jobName;
     Bull.cron := "0 0 * * *" |}.
End QueueSpec.

Module QueueFixtures.

Definition repeat_key (name cron : string) : string :=
  (name ++ ":" ++ cron)%string.

(** A queue left by an earlier start that used another schedule, with a
    job of another service. *)
Definition queue : Bull.Queue :=
  [{| Bull.key := "filestorage-sync-groups:0 12 * * *";
      Bull.name := "filestorage-sync-groups";
      Bull.cron := "0 12 * * *" |};
   {| Bull.key := "crm-sync-contacts:0 0 * * *";
      Bull.name := "crm-sync-contacts";
      Bull.cron := "0 0 * * *" |}].

End QueueFixtures.

(** ** Vocabulary for the saved attachments *)

Module AttachmentSaveSpec.

(** A row that holds what the unified attachment holds, and nothing of
    what it does not: each column is the attachment's field, [null] when
    the field is absent, and the candidate is the one given to the
    save. *)
Record carries (candidate_id : option string)
       (a : AttachmentSync.UnifiedAttachmentOutput)
       (r : AtsAttachments.row) : Prop := {
  carries_file_url :
    AtsAttachments.file_url r = AttachmentSync.a_file_url a;
  carries_file_name :
    AtsAttachments.file_name r = AttachmentSync.a_file_name a;
  carries_file_type :
    AtsAttachments.file_type r = AttachmentSync.a_file_type a;
  carries_remote_created_at :
    AtsAttachments.remote_created_at r
    = AttachmentSync.a_remote_created_at a;
  carries_remote_modified_at :
    AtsAttachments.remote_modified_at r
    = AttachmentSync.a_remote_modified_at a;
  carries_candidate_id : AtsAttachments.candidate_id r = candidate_id
}.

End AttachmentSaveSpec.

(** ** Vocabulary and samples for the account and scorecard services *)

Module RecoverySpec.

(** The token that [initiatePasswordRecovery] draws on a store, the time
    it reads, and the message it hands to the mailer. *)
Definition token (randomBytes_hex : nat -> string -> string) (w : World)
  : string :=
  randomBytes_hex 32 (Db.sys_uuid w (Db.uuid_draws w)).

Definition requested_at (w : World) : Date :=
  Db.sys_clock w (Db.clock_reads w).

Definition reset_mail (WEBAPP_URL : option string) (u : Users.row)
           (resetToken : string) : Mail.message :=
  {| Mail.to := Users.email u;
     Mail.subject := "Password Reset Request";
     Mail.template := "./../mailer/templates/password-reset";
     Mail.context_name := Users.first_name u;
     Mail.context_resetUrl :=
       (AuthService.template_env WEBAPP_URL ++ "/reset-password?token="
                                 ++ resetToken)%string |}.

Definition invalid_token : exn :=
  BadRequestException "Invalid or expired reset token".

End RecoverySpec.

Module RecoveryFixtures.

Definition sample_random (n : nat) (seed : string) : string :=
  ("hex-" ++ seed)%string.

Definition delivers (m : Mail.message) : option Svc.error := None.

Definition store : Store.t :=
  {| Store.world := Fixtures.two_users;
     Store.api_keys := [];
     Store.ats_scorecards := [];
     Store.outbox := [] |}.

End RecoveryFixtures.

Module ApiKeySpec.

(** The identifier that [generateApiKeyForUser] draws for the key. *)
Definition drawn_id (s : Store.t) : string :=
  Db.sys_uuid (Store.world s) (Db.uuid_draws (Store.world s)).

(** The row that [generateApiKeyForUser] creates for a token. *)
Definition key_row (s : Store.t) (access_token keyName projectId userId : string)
  : ApiKeys.row :=
  {| ApiKeys.id_api_key := drawn_id s;
     ApiKeys.api_key_hash := access_token;
     ApiKeys.name := keyName;
     ApiKeys.id_project := projectId;
     ApiKeys.id_user := userId |}.

Definition key_undefined : Svc.error :=
  Svc.of_exn (ReferenceError "Api Key undefined").

End ApiKeySpec.

Module ApiKeyFixtures.

(** A signer whose tokens name the user and the project, and a verifier
    that knows the one token of Alice for her project. *)
Definition sample_sign (payload : Js.object string)
           (o : AuthService.sign_options) : Svc.result string :=
  Svc.Resolved ("jwt." ++ AuthService.String_of_claim payload "sub" ++ "."
                       ++ AuthService.String_of_claim payload "project_id")%string.

Definition sample_verify (token : string) (secret : option string)
  : Svc.result (Js.object string) :=
  if String.eqb token "jwt.alice.proj-1"
  then Svc.Resolved [("sub", "alice"); ("project_id", "proj-1");
                     ("iat", "1700000000")]
  else Svc.Rejected {| Svc.name := "JsonWebTokenError";
                       Svc.message := "invalid token" |}.

Definition store : Store.t :=
  {| Store.world := TenantFixtures.tenant;
     Store.api_keys := [];
     Store.ats_scorecards := [];
     Store.outbox := [] |}.

End ApiKeyFixtures.

Module ScoreCardSpec.

(** The scorecards of a connection, in table order. *)
Definition of_connection (connection_id : string) (s : Store.t)
  : list AtsScorecards.row :=
  Prisma.findMany
    (fun r => String.eqb (AtsScorecards.id_connection r) connection_id)
    (Store.ats_scorecards s).

Definition no_remote_data_of (id : string) (w : World) : Prop :=
  Forall (fun r => RemoteData.ressource_owner_id r <> id) (Db.remote_data w).

Definition null_data : Svc.error :=
  Svc.of_exn (TypeError "Cannot read properties of null (reading 'data')").

End ScoreCardSpec.

Module ScoreCardFixtures.

Definition scorecard (id : string) : AtsScorecards.row :=
  {| AtsScorecards.id_ats_scorecard := id;
     AtsScorecards.overall_recommendation := Some "YES";
     AtsScorecards.id_ats_application := Some "app-1";
     AtsScorecards.id_ats_interview := Some "int-1";
     AtsScorecards.remote_created_at := Some 900%Z;
     AtsScorecards.submitted_at := None;
     AtsScorecards.remote_id := Some id;
     AtsScorecards.created_at := 950%Z;
     AtsScorecards.modified_at := 950%Z;
     AtsScorecards.id_connection := "conn-1" |}.

(** Three scorecards of one connection; only the first has remote
    data. *)
Definition store : Store.t :=
  {| Store.world :=
       Db.with_remote_data
         [{| RemoteData.id_remote_data := "rd-1";
             RemoteData.ressource_owner_id := "sc-1";
             RemoteData.format := "json";
             RemoteData.data := Some "{}";
             RemoteData.created_at := 950%Z |}]
         Fixtures.empty_world;
     Store.api_keys := [];
     Store.ats_scorecards :=
       [scorecard "sc-1"; scorecard "sc-2"; scorecard "sc-3"];
     Store.outbox := [] |}.

Definition parse (o : option string) : outcome string :=
  match o with
  | Some s => Ok s
  | None => Throw (TypeError "null is not valid JSON")
  end.

Definition show (d : option Date) : string :=
  match d with
  | Some _ => "date"
  | None => "null"
  end.

End ScoreCardFixtures.


(* ===================================================================== *)
(** * Properties *)
(* ===================================================================== *)

(** ** Zendesk ticket mapper *)

Module ZendeskFacts.

Import ZendeskTicketMapper ZendeskStages.

Section Facts.
Context {engine : Js.Engine}.
Variable Tag : Type.
Variable getAssigneeMetadataFromUuid : string -> outcome string.
Variable getUserUuidFromRemoteId : string -> string -> outcome (option string).
Variable unify_tags : list string -> string -> outcome (list Tag).
Variable toISOString : Date -> string.
Variable new_Date : string -> Date.

Lemma desunify_stages (source : UnifiedTicketInput) cfm :
  desunify getAssigneeMetadataFromUuid toISOString source cfm =
  obind
    match assigned_to source with
    | Some (a :: _) =>
        obind (getAssigneeMetadataFromUuid a)
              (fun email => Ok (set_assignee_email email (before_await source)))
    | _ => Ok (before_await source)
    end
    (fun result => Ok (after_await toISOString source cfm result)).
Proof. reflexivity. Qed.

Lemma public_initial source : public_of (initial source) = true.
Proof. unfold public_of, initial; simpl. apply orb_true_r. Qed.

Lemma public_before_await source : public_of (before_await source) = true.
Proof.
  unfold before_await.
  destruct (html_body (comment source)) as [h|];
    [destruct (truthy_string h)|]; apply public_initial.
Qed.

Lemma public_after_await source cfm r :
  public_of (after_await toISOString source cfm r) = public_of r.
Proof.
  unfold after_await.
  destruct (due_date source), (priority source) as [p|],
    (status source) as [s|], (tags source), (type source) as [t|],
    cfm, (field_mappings source);
    try destruct (truthy_string p); try destruct (truthy_string s);
    try destruct (truthy_string t); reflexivity.
Qed.

(** C8.  Whatever the unified ticket, and in particular when its comment
    is private, the ticket that [desunify] produces has
    [comment.public = true]; [desunify] produces a ticket unless the
    lookup of the assignee's e-mail rejects. *)
Theorem desunify_comment_always_public
        (source : UnifiedTicketInput) (cfm : option (list mapping)) :
  match desunify getAssigneeMetadataFromUuid toISOString source cfm with
  | Ok result => zc_public (zi_comment result) = true
  | Throw e =>
      exists a rest, assigned_to source = Some (a :: rest)
                     /\ getAssigneeMetadataFromUuid a = Throw e
  end.
Proof.
  rewrite desunify_stages.
  destruct (assigned_to source) as [[|a rest]|] eqn:Ha; simpl.
  - fold (public_of (after_await toISOString source cfm (before_await source))).
    rewrite public_after_await. apply public_before_await.
  - destruct (getAssigneeMetadataFromUuid a) as [email|e] eqn:He; simpl.
    + fold (public_of (after_await toISOString source cfm
              (set_assignee_email email (before_await source)))).
      rewrite public_after_await. apply public_before_await.
    + exists a, rest. split; [reflexivity | assumption].
  - fold (public_of (after_await toISOString source cfm (before_await source))).
    rewrite public_after_await. apply public_before_await.
Qed.

(** A private comment goes out public. *)
Example private_comment_goes_public :
  is_private (comment private_ticket) = Some true
  /\ option_map (fun r => zc_public (zi_comment r))
       match desunify getAssigneeMetadataFromUuid toISOString
                      private_ticket None with
       | Ok r => Some r
       | Throw _ => None
       end = Some true.
Proof. split; reflexivity. Qed.

(** C9.  For a Zendesk ticket that has tags, the unified ticket carries
    the unified tags and neither [assigned_to] nor [type], whatever the
    ticket's [assignee_id] and [type]: the object assigned to [opts] for
    the tags replaces the ones assigned before.  The mapper produces a
    ticket unless one of the two lookups it awaits rejects. *)
Theorem unified_ticket_with_tags_has_only_tags
        (ticket : ZendeskTicketOutput) (connectionId : string)
        (cfm : option (list mapping)) (ts : list string)
        (Htags : zo_tags ticket = Some ts) :
  match mapSingleTicketToUnified getUserUuidFromRemoteId unify_tags
                                 new_Date ticket connectionId cfm with
  | Ok u =>
      exists tags,
        unify_tags ts connectionId = Ok tags
        /\ u_tags u = Some tags
        /\ u_assigned_to u = None
        /\ u_type u = None
  | Throw e =>
      (truthy_onumber (zo_assignee_id ticket) = true
       /\ getUserUuidFromRemoteId
            (String_of_number (nullish (zo_assignee_id ticket) 0%Z))
            connectionId = Throw e)
      \/ unify_tags ts connectionId = Throw e
  end.
Proof.
  unfold mapSingleTicketToUnified. rewrite Htags.
  destruct (truthy_onumber (zo_assignee_id ticket)) eqn:Ha.
  - destruct (getUserUuidFromRemoteId _ connectionId) as [user_id|e] eqn:Hu;
      simpl.
    + destruct (unify_tags ts connectionId) as [tags|e] eqn:Ht; simpl.
      * exists tags. repeat split; reflexivity.
      * right. reflexivity.
    + left. split; reflexivity.
  - simpl.
    destruct (unify_tags ts connectionId) as [tags|e] eqn:Ht; simpl.
    + exists tags. repeat split; reflexivity.
    + right. reflexivity.
Qed.

End Facts.

(** The tagged ticket has an assignee and a type; its unified form has
    neither. *)
Lemma unified_ticket_with_tags_witness :
  zo_tags tagged_ticket = Some ["enterprise"; "other"]
  /\ match mapSingleTicketToUnified
              (engine := EngineFixtures.sample_engine)
              (fun _ _ => Ok (Some "user-uuid")) (fun ts _ => Ok ts)
              (fun _ => 0%Z) tagged_ticket "conn" None with
     | Ok u =>
         exists tags,
           Ok ["enterprise"; "other"] = Ok tags
           /\ u_tags u = Some tags
           /\ u_assigned_to u = None
           /\ u_type u = None
     | Throw e =>
         (truthy_onumber (zo_assignee_id tagged_ticket) = true
          /\ Ok (Some "user-uuid") = Throw e)
         \/ Ok ["enterprise"; "other"] = Throw e
     end.
Proof.
  split; [reflexivity |].
  exact (@unified_ticket_with_tags_has_only_tags
           EngineFixtures.sample_engine string
           (fun _ _ => Ok (Some "user-uuid")) (fun ts _ => Ok ts)
           (fun _ => 0%Z) tagged_ticket "conn" None
           ["enterprise"; "other"] eq_refl).
Defined.

End ZendeskFacts.

(** ** Prisma operations *)

Ltac eff :=
  unfold Eff.bind, Eff.ret, Eff.throw, Eff.query, Eff.exec, Eff.lift,
    Eff.new_Date, Eff.uuidv4.

Module PrismaFacts.

Section Table.
Variable Row : Type.

Lemma findFirst_split (p : Row -> bool) (t : list Row) (r : Row) :
  Prisma.findFirst p t = Some r ->
  exists l1 l2,
    t = l1 ++ r :: l2 /\ p r = true /\ Forall (fun x => p x = false) l1.
Proof.
  unfold Prisma.findFirst.
  induction t as [|x t IH]; simpl; [discriminate|].
  destruct (p x) eqn:Hx.
  - intros E; inversion E; subst.
    exists [], t. repeat split; auto.
  - intros E. destruct (IH E) as (l1 & l2 & -> & Hr & Hl).
    exists (x :: l1), l2. repeat split; auto.
Qed.

Lemma findFirst_none (p : Row -> bool) (t : list Row) :
  Prisma.findFirst p t = None <-> Forall (fun x => p x = false) t.
Proof.
  unfold Prisma.findFirst. induction t as [|x t IH]; simpl.
  - split; auto.
  - destruct (p x) eqn:Hx; split; intros H.
    + discriminate.
    + inversion H; congruence.
    + constructor; [assumption | apply IH, H].
    + inversion H; subst. apply IH; assumption.
Qed.

Lemma findFirst_exists (p : Row -> bool) (t : list Row) (x : Row) :
  In x t -> p x = true -> exists r, Prisma.findFirst p t = Some r.
Proof.
  intros Hin Hp.
  destruct (Prisma.findFirst p t) as [r|] eqn:E; [eauto|].
  apply findFirst_none in E. rewrite Forall_forall in E.
  specialize (E x Hin). congruence.
Qed.

Lemma update_split (q : Row -> bool) (f : Row -> Row) l1 r l2 :
  Forall (fun x => q x = false) l1 -> q r = true ->
  Prisma.update q f (l1 ++ r :: l2) = Some (f r, l1 ++ f r :: l2).
Proof.
  induction 1 as [|x l1 Hx Hl IH]; simpl; intros Hr.
  - rewrite Hr. reflexivity.
  - rewrite Hx, (IH Hr). reflexivity.
Qed.

Variable pk : Row -> string.

(** In a table whose primary keys are distinct, the rows before a row
    have other keys. *)
Lemma pk_prefix_differs l1 r l2 :
  NoDup (List.map pk (l1 ++ r :: l2)) ->
  Forall (fun x => String.eqb (pk x) (pk r) = false) l1.
Proof.
  induction l1 as [|x l1 IH]; simpl; intros H; [constructor|].
  inversion H as [|? ? Hni Hnd]; subst.
  constructor; [|apply IH; assumption].
  apply String.eqb_neq. intros E. apply Hni.
  rewrite E, map_app. apply in_or_app. right. left. reflexivity.
Qed.

(** Updating by the primary key of a row of the table rewrites that
    row. *)
Lemma update_by_pk (f : Row -> Row) l1 r l2 :
  NoDup (List.map pk (l1 ++ r :: l2)) ->
  Prisma.update (fun x => String.eqb (pk x) (pk r)) f (l1 ++ r :: l2)
  = Some (f r, l1 ++ f r :: l2).
Proof.
  intros H. apply update_split.
  - apply (pk_prefix_differs _ _ _ H).
  - apply String.eqb_refl.
Qed.

End Table.

End PrismaFacts.

(** ** Services whose methods are not implemented *)

Module StubFacts.

Section Facts.
Variable UnifiedActionInput UnifiedActionOutput : Type.
Variable Json UnifiedInterviewInput : Type.

(** C2, as the code has it.  [addAction], [getAction], [getActions] and
    [updateInterview] are stubs: each resolves with [undefined] and
    leaves the store as it was. *)
Theorem action_and_update_methods_are_stubs
        (w : World) (input : UnifiedActionInput)
        (update : UnifiedInterviewInput)
        (connection integration linkedUser id : string) (limit : nat)
        (remote_data : option bool) (cursor : option string) :
  ActionService.addAction UnifiedActionOutput
    input connection integration linkedUser remote_data w = (Ok None, w)
  /\ ActionService.getAction UnifiedActionOutput id remote_data w
     = (Ok None, w)
  /\ ActionService.getActions UnifiedActionOutput connection integration
       linkedUser limit remote_data cursor w = (Ok None, w)
  /\ InterviewService.updateInterview Json id update w = (Ok None, w).
Proof. repeat split. Qed.

End Facts.

(** C2, as stated, fails: on the empty store, no call of the four methods
    resolves with a unified object. *)
Lemma crud_methods_return_no_object :
  ~ (exists out w',
        ActionService.addAction unit
          tt "conn" "hubspot" "lu" None Fixtures.empty_world
        = (Ok (Some out), w'))
  /\ ~ (exists out w',
           ActionService.getAction unit "action-1" None Fixtures.empty_world
           = (Ok (Some out), w'))
  /\ ~ (exists out w',
           ActionService.getActions unit "conn" "hubspot" "lu" 10 None None
                                    Fixtures.empty_world
           = (Ok (Some out), w'))
  /\ ~ (exists out w',
           InterviewService.updateInterview unit "interview-1" tt
                                            Fixtures.empty_world
           = (Ok (Some out), w')).
Proof.
  repeat split; intros (out & w' & H); discriminate H.
Qed.

End StubFacts.

(** ** Password reset *)

Module AuthFacts.

Import AuthService AuthSpec.

Section Facts.
Variable bcrypt_hash : string -> nat -> string -> string.

Lemma valid_token_filter (w : World) (token : string) (u : Users.row) :
  (col_eqb (Users.reset_token u) token
   && expiry_gt (Users.reset_token_expiry u) (now w) = true)
  <-> holds_valid_token w token u.
Proof.
  unfold holds_valid_token, col_eqb, expiry_gt.
  rewrite andb_true_iff. split.
  - intros [Ht He].
    destruct (Users.reset_token u) as [t|]; [|discriminate].
    apply String.eqb_eq in Ht; subst t. split; [reflexivity|].
    destruct (Users.reset_token_expiry u) as [e|]; [|discriminate].
    exists e. split; [reflexivity | apply Z.ltb_lt; assumption].
  - intros [Ht (e & He & Hlt)]. rewrite Ht, He. split.
    + apply String.eqb_refl.
    + apply Z.ltb_lt; assumption.
Qed.

(** What [resetPassword] does once it has found the user. *)
Lemma resetPassword_found (w : World) (token newPassword : string)
      (u : Users.row) l1 l2 :
  NoDup (List.map Users.id_user (Db.users w)) ->
  Db.users w = l1 ++ u :: l2 ->
  Prisma.findFirst
    (fun u => col_eqb (Users.reset_token u) token
              && expiry_gt (Users.reset_token_expiry u) (now w))
    (Db.users w) = Some u ->
  exists w',
    resetPassword bcrypt_hash token newPassword w
    = (Ok "Password reset successful", w')
    /\ Db.users w'
       = l1 ++ reset_data (bcrypt_hash newPassword 10 (salt w)) u :: l2.
Proof.
  intros Hnd Hsplit Hfind.
  unfold resetPassword. eff. simpl.
  fold (now w). rewrite Hfind.
  unfold bcrypt_hash_async. simpl.
  rewrite Hsplit in Hnd |- *.
  rewrite (PrismaFacts.update_by_pk Users.id_user _ _ _ _ Hnd).
  eexists. split; reflexivity.
Qed.

(** C6.  In a store where user identifiers are distinct,
    [resetPassword token newPassword] resolves exactly when some user
    holds [token] with an expiry after the current time.  When it
    resolves, one such user has got the bcrypt hash of the new password
    and null [reset_token] and [reset_token_expiry], its other columns
    and every other user being as before.  When it does not, it rejects
    with [BadRequestException] and the users are as before. *)
Theorem resetPassword_succeeds_iff_valid_token
        (w : World) (token newPassword : string)
        (Hpk : NoDup (List.map Users.id_user (Db.users w))) :
  ((exists u, In u (Db.users w) /\ holds_valid_token w token u)
   <-> exists msg w',
         resetPassword bcrypt_hash token newPassword w = (Ok msg, w'))
  /\ (forall msg w',
         resetPassword bcrypt_hash token newPassword w = (Ok msg, w') ->
         exists u l1 l2,
           Db.users w = l1 ++ u :: l2
           /\ holds_valid_token w token u
           /\ Db.users w'
              = l1 ++ {| Users.id_user := Users.id_user u;
                         Users.email := Users.email u;
                         Users.first_name := Users.first_name u;
                         Users.password_hash :=
                           bcrypt_hash newPassword 10 (salt w);
                         Users.reset_token := None;
                         Users.reset_token_expiry := None |} :: l2)
  /\ (forall e w',
         resetPassword bcrypt_hash token newPassword w = (Throw e, w') ->
         e = BadRequestException "Invalid or expired reset token"
         /\ Db.users w' = Db.users w).
Proof.
  destruct (Prisma.findFirst
              (fun u => col_eqb (Users.reset_token u) token
                        && expiry_gt (Users.reset_token_expiry u) (now w))
              (Db.users w)) as [u|] eqn:Hfind.
  - destruct (PrismaFacts.findFirst_split _ _ Hfind)
      as (l1 & l2 & Hsplit & Hu & _).
    apply valid_token_filter in Hu.
    destruct (@resetPassword_found w token newPassword u l1 l2 Hpk Hsplit Hfind)
      as (w1 & Hrun & Husers).
    split; [|split].
    + split; intros _.
      * eauto.
      * exists u. split; [|assumption].
        rewrite Hsplit. apply in_or_app. right. left. reflexivity.
    + intros msg w' H. rewrite Hrun in H. inversion H; subst.
      exists u, l1, l2. repeat split; try assumption; apply Hu.
    + intros e w' H. rewrite Hrun in H. discriminate.
  - assert (Hrun : resetPassword bcrypt_hash token newPassword w
                   = (Throw (BadRequestException
                               "Invalid or expired reset token"),
                      Db.with_clock_reads (S (Db.clock_reads w)) w)).
    { unfold resetPassword. eff. simpl. fold (now w). rewrite Hfind.
      reflexivity. }
    split; [|split].
    + split.
      * intros (u & Hin & Hv).
        apply valid_token_filter in Hv.
        destruct (PrismaFacts.findFirst_exists
                    (fun u => col_eqb (Users.reset_token u) token
                              && expiry_gt (Users.reset_token_expiry u)
                                           (now w))
                    _ _ Hin Hv) as (r & Hr).
        congruence.
      * intros (msg & w' & H). rewrite Hrun in H. discriminate.
    + intros msg w' H. rewrite Hrun in H. discriminate.
    + intros e w' H. rewrite Hrun in H. inversion H; subst.
      split; reflexivity.
Qed.

End Facts.

(** Bob's token is valid at time 1000: the reset resolves and rewrites
    Bob's row only. *)
Lemma resetPassword_witness :
  NoDup (List.map Users.id_user (Db.users Fixtures.two_users))
  /\ exists msg w',
       resetPassword Fixtures.sample_bcrypt "tok" "new-password"
                     Fixtures.two_users = (Ok msg, w').
Proof.
  assert (Hpk : NoDup (List.map Users.id_user (Db.users Fixtures.two_users))).
  { simpl. repeat constructor; simpl; intuition discriminate. }
  split; [exact Hpk|].
  apply (proj1 (resetPassword_succeeds_iff_valid_token
                  Fixtures.sample_bcrypt Fixtures.two_users
                  "tok" "new-password" Hpk)).
  exists Fixtures.bob. split.
  - simpl. right. left. reflexivity.
  - split; [reflexivity|].
    exists 5000%Z. split; [reflexivity|]. vm_compute. reflexivity.
Defined.

(** The same run, computed. *)
Example resetPassword_bob :
  option_map Db.users
    match resetPassword Fixtures.sample_bcrypt "tok" "new-password"
                        Fixtures.two_users with
    | (Ok _, w') => Some w'
    | (Throw _, _) => None
    end
  = Some [Fixtures.alice;
          {| Users.id_user := "bob"; Users.email := "bob@example.com";
             Users.first_name := "Bob";
             Users.password_hash := "$2b$uuid-0$new-password";
             Users.reset_token := None;
             Users.reset_token_expiry := None |}].
Proof. vm_compute. reflexivity. Qed.

End AuthFacts.

(** ** Upserts on a table, without the clock *)

Module UpsertFacts.

Import UpsertModel.

Section Facts.
Variables Row Item Key : Type.
Variable matches : Key -> Row -> bool.
Variable act : Item -> Row -> Row.

(** An update keeps the key of the row. *)
Hypothesis act_matches : forall k g r, matches k (act g r) = matches k r.
(** The update for an item hides an earlier update for the same item,
    whatever updates came in between. *)
Hypothesis act_absorbs :
  forall g xs r,
    act g (apply_all act xs (act g r)) = act g (apply_all act xs r).

Abbreviation upd := (UpsertModel.upd matches).
Abbreviation has := (UpsertModel.has matches).
Abbreviation upds := (UpsertModel.upds matches act).
Abbreviation step := (UpsertModel.step matches act).
Abbreviation run := (UpsertModel.run matches act).
Abbreviation all := (UpsertModel.apply_all act).

Lemma all_matches k xs r : matches k (all xs r) = matches k r.
Proof.
  unfold UpsertModel.apply_all. revert r.
  induction xs as [|x xs IH]; intros r; simpl; [reflexivity|].
  rewrite IH. apply act_matches.
Qed.

Lemma upds_nil ops : upds ops [] = [].
Proof. induction ops as [|o ops IH]; simpl; [reflexivity | exact IH]. Qed.

Lemma has_upd k' k g t : has k' (upd k (act g) t) = has k' t.
Proof.
  unfold UpsertModel.has.
  induction t as [|r t IH]; simpl; [reflexivity|].
  destruct (matches k r); simpl.
  - rewrite act_matches. reflexivity.
  - rewrite IH. reflexivity.
Qed.

Lemma has_upds k' ops t : has k' (upds ops t) = has k' t.
Proof.
  unfold UpsertModel.upds.
  revert t. induction ops as [|o ops IH]; intros t; simpl; [reflexivity|].
  rewrite IH. apply has_upd.
Qed.

Lemma has_app k t l : has k (t ++ l) = has k t || has k l.
Proof. apply existsb_app. Qed.

(** The updates that match the first row all land on it; the others go
    to the rows behind. *)
Lemma upds_cons ops x t :
  upds ops (x :: t)
  = all (List.map snd (List.filter (fun o => matches (fst o) x) ops)) x
      :: upds (List.filter (fun o => negb (matches (fst o) x)) ops) t.
Proof.
  unfold UpsertModel.upds, UpsertModel.apply_all.
  revert x t. induction ops as [|[k g] ops IH]; intros x t; simpl;
    [reflexivity|].
  destruct (matches k x) eqn:Hk; simpl.
  - rewrite IH.
    rewrite (filter_ext (fun o => matches (fst o) (act g x))
                        (fun o => matches (fst o) x))
      by (intros o; apply act_matches).
    rewrite (filter_ext (fun o => negb (matches (fst o) (act g x)))
                        (fun o => negb (matches (fst o) x)))
      by (intros o; rewrite act_matches; reflexivity).
    reflexivity.
  - rewrite IH. reflexivity.
Qed.

Lemma upd_absorbs k g ops t :
  upd k (act g) (upds ops (upd k (act g) t))
  = upd k (act g) (upds ops t).
Proof.
  revert ops. induction t as [|r t IH]; intros ops; simpl.
  - rewrite upds_nil. reflexivity.
  - destruct (matches k r) eqn:Hk.
    + rewrite !upds_cons. simpl.
      rewrite !all_matches, act_matches, Hk.
      rewrite (filter_ext (fun o => matches (fst o) (act g r))
                          (fun o => matches (fst o) r))
        by (intros o; apply act_matches).
      rewrite (filter_ext (fun o => negb (matches (fst o) (act g r)))
                          (fun o => negb (matches (fst o) r)))
        by (intros o; rewrite act_matches; reflexivity).
      rewrite act_absorbs. reflexivity.
    + rewrite !upds_cons. simpl.
      rewrite !all_matches, Hk. f_equal. apply IH.
Qed.

Lemma upd_app_has k f t l :
  has k t = true -> upd k f (t ++ l) = upd k f t ++ l.
Proof.
  unfold UpsertModel.has.
  induction t as [|r t IH]; simpl; [discriminate|].
  destruct (matches k r); simpl; intros H; [reflexivity|].
  rewrite IH by exact H. reflexivity.
Qed.

Lemma upd_app_absent k f t l :
  has k t = false -> upd k f (t ++ l) = t ++ upd k f l.
Proof.
  unfold UpsertModel.has.
  induction t as [|r t IH]; simpl; [reflexivity|].
  destruct (matches k r); simpl; intros H; [discriminate|].
  rewrite IH by exact H. reflexivity.
Qed.

Lemma upds_app_present ops t l :
  Forall (fun o => has (fst o) t = true) ops ->
  upds ops (t ++ l) = upds ops t ++ l.
Proof.
  revert t. induction ops as [|[k g] ops IH]; intros t H; simpl;
    [reflexivity|].
  inversion H as [|? ? Hk Hops]; subst. simpl in Hk.
  rewrite upd_app_has by exact Hk.
  unfold UpsertModel.upds in IH. apply IH.
  apply Forall_forall. intros o Ho.
  rewrite has_upd. rewrite Forall_forall in Hops. apply Hops, Ho.
Qed.

Lemma has_step k s t : has k t = true -> has k (step s t) = true.
Proof.
  intros H. unfold UpsertModel.step.
  destruct (has (fst (fst s)) t).
  - rewrite has_upd. exact H.
  - rewrite has_app, H. reflexivity.
Qed.

Lemma has_step_key s t :
  step_ok matches act s -> has (fst (fst s)) (step s t) = true.
Proof.
  intros [Hm _]. unfold UpsertModel.step.
  destruct (has (fst (fst s)) t) eqn:E.
  - rewrite has_upd. exact E.
  - rewrite has_app. simpl. rewrite Hm. apply orb_true_r.
Qed.

Lemma has_run k steps t : has k t = true -> has k (run steps t) = true.
Proof.
  revert t. induction steps as [|s steps IH]; intros t H; simpl;
    [exact H|].
  apply IH, has_step, H.
Qed.

Lemma has_run_keys steps t :
  Forall (step_ok matches act) steps ->
  Forall (fun s => has (fst (fst s)) (run steps t) = true) steps.
Proof.
  intros H. revert t. induction H as [|s steps Hs _ IH]; intros t;
    simpl; constructor.
  - apply has_run, has_step_key, Hs.
  - apply IH.
Qed.

(** A run on a table that has every key only updates. *)
Lemma run_present steps t :
  Forall (fun s => has (fst (fst s)) t = true) steps ->
  run steps t = upds (List.map fst steps) t.
Proof.
  unfold UpsertModel.run, UpsertModel.upds.
  revert t. induction steps as [|s steps IH]; intros t H; simpl;
    [reflexivity|].
  inversion H as [|? ? Hs Hsteps]; subst.
  rewrite IH.
  - f_equal. unfold UpsertModel.step. rewrite Hs. reflexivity.
  - apply Forall_forall. intros s' Hs'.
    apply has_step. rewrite Forall_forall in Hsteps. apply Hsteps, Hs'.
Qed.

(** After a run, doing the updates of its steps once more, behind
    updates that the table had absorbed, changes nothing. *)
Lemma run_absorbed steps ops t :
  Forall (step_ok matches act) steps ->
  upds ops t = t ->
  Forall (fun o => has (fst o) t = true) ops ->
  upds (ops ++ List.map fst steps) (run steps t) = run steps t.
Proof.
  intros H. revert ops t.
  induction H as [|[[k g] new] steps Hs _ IH]; intros ops t Hfix Hops.
  - simpl. rewrite app_nil_r. exact Hfix.
  - simpl List.map. simpl fst.
    replace (ops ++ (k, g) :: List.map fst steps)
      with ((ops ++ [(k, g)]) ++ List.map fst steps)
      by (rewrite <- app_assoc; reflexivity).
    change (run ((k, g, new) :: steps) t)
      with (run steps (step (k, g, new) t)).
    apply IH.
    + unfold UpsertModel.upds. rewrite fold_left_app. simpl.
      fold (upds ops (step (k, g, new) t)).
      unfold UpsertModel.step. simpl.
      destruct (has k t) eqn:Hk.
      * rewrite upd_absorbs, Hfix. reflexivity.
      * rewrite upds_app_present by exact Hops.
        rewrite Hfix, upd_app_absent by exact Hk.
        simpl. destruct Hs as [Hm Ha]. simpl in Hm, Ha.
        rewrite Hm, Ha. reflexivity.
    + apply Forall_app. split.
      * apply Forall_forall. intros o Ho.
        apply has_step. rewrite Forall_forall in Hops. apply Hops, Ho.
      * constructor; [|constructor].
        apply (@has_step_key (k, g, new) t Hs).
Qed.

(** Running the same items a second time gives the table of the first
    run. *)
Theorem run_twice steps steps' t :
  Forall (step_ok matches act) steps ->
  List.map fst steps' = List.map fst steps ->
  run steps' (run steps t) = run steps t.
Proof.
  intros Hok Hsame.
  rewrite run_present.
  - rewrite Hsame.
    apply (@run_absorbed steps [] t Hok); [reflexivity | constructor].
  - pose proof (@has_run_keys steps t Hok) as Hkeys.
    apply Forall_forall. intros s' Hs'.
    assert (Hin : In (fst s') (List.map fst steps)).
    { rewrite <- Hsame. apply in_map, Hs'. }
    apply in_map_iff in Hin. destruct Hin as (s & Hs & Hin).
    rewrite Forall_forall in Hkeys. specialize (Hkeys s Hin).
    rewrite <- Hs. exact Hkeys.
Qed.

End Facts.

End UpsertFacts.

(** ** Pagination of interviews *)

Module PageFacts.

Section Page.
Variable Row : Type.
Variable order_key : Row -> Z.

Abbreviation insert_asc := (PrismaPage.insert_asc order_key).
Abbreviation orderBy_asc := (PrismaPage.orderBy_asc order_key).
Abbreviation ascending :=
  (StronglySorted (fun a b : Row => (order_key a <= order_key b)%Z)).

Lemma insert_asc_perm r l : Permutation (r :: l) (insert_asc r l).
Proof.
  induction l as [|x l IH]; simpl; [apply Permutation_refl|].
  destruct (order_key x <=? order_key r)%Z.
  - eapply Permutation_trans; [apply perm_swap|].
    apply perm_skip, IH.
  - apply Permutation_refl.
Qed.

Lemma insert_asc_sorted r l : ascending l -> ascending (insert_asc r l).
Proof.
  induction l as [|x l IH]; simpl; intros H.
  - repeat constructor.
  - inversion H as [|? ? Hl Hx]; subst.
    destruct (order_key x <=? order_key r)%Z eqn:E.
    + constructor; [apply IH; assumption|].
      apply Z.leb_le in E.
      rewrite Forall_forall in *. intros y Hy.
      apply (Permutation_in _ (Permutation_sym (insert_asc_perm r l))) in Hy.
      destruct Hy as [<-|Hy]; [assumption | apply Hx; assumption].
    + apply Z.leb_gt in E.
      constructor; [assumption|].
      constructor; [lia|].
      rewrite Forall_forall in *. intros y Hy.
      specialize (Hx y Hy). lia.
Qed.

Lemma fold_insert_perm l acc :
  Permutation (l ++ acc)
              (List.fold_left (fun acc r => insert_asc r acc) l acc).
Proof.
  revert acc. induction l as [|x l IH]; simpl; intros acc.
  - apply Permutation_refl.
  - eapply Permutation_trans; [|apply IH].
    eapply Permutation_trans; [apply Permutation_middle|].
    apply Permutation_app_head, insert_asc_perm.
Qed.

Lemma fold_insert_sorted l acc :
  ascending acc ->
  ascending (List.fold_left (fun acc r => insert_asc r acc) l acc).
Proof.
  revert acc. induction l as [|x l IH]; simpl; intros acc H.
  - assumption.
  - apply IH, insert_asc_sorted, H.
Qed.

Lemma orderBy_asc_perm l : Permutation l (orderBy_asc l).
Proof.
  unfold PrismaPage.orderBy_asc.
  rewrite <- (app_nil_r l) at 1. apply fold_insert_perm.
Qed.

Lemma orderBy_asc_sorted l : ascending (orderBy_asc l).
Proof. apply fold_insert_sorted. constructor. Qed.

Lemma from_cursor_suffix (c : Row -> bool) (l : list Row) :
  exists pre, l = pre ++ PrismaPage.from_cursor c l.
Proof.
  induction l as [|x l [pre IH]]; simpl.
  - exists []. reflexivity.
  - destruct (c x).
    + exists []. reflexivity.
    + exists (x :: pre). simpl. f_equal. exact IH.
Qed.

Lemma from_cursor_none (c : Row -> bool) (l : list Row) :
  Forall (fun x => c x = false) l -> PrismaPage.from_cursor c l = [].
Proof.
  induction 1 as [|x l Hx _ IH]; simpl; [reflexivity|].
  rewrite Hx. exact IH.
Qed.

Lemma from_cursor_at (c : Row -> bool) (pre : list Row) x post :
  Forall (fun y => c y = false) pre -> c x = true ->
  PrismaPage.from_cursor c (pre ++ x :: post) = x :: post.
Proof.
  induction 1 as [|y pre Hy _ IH]; simpl; intros Hx.
  - rewrite Hx. reflexivity.
  - rewrite Hy. apply IH, Hx.
Qed.

Lemma ascending_app_r l1 l2 : ascending (l1 ++ l2) -> ascending l2.
Proof.
  induction l1 as [|x l1 IH]; simpl; intros H; [assumption|].
  inversion H; subst. apply IH; assumption.
Qed.

Lemma ascending_firstn n l : ascending l -> ascending (List.firstn n l).
Proof.
  revert l. induction n as [|n IH]; intros [|x l] H; simpl;
    try constructor.
  - inversion H; subst. apply IH; assumption.
  - inversion H as [|? ? _ Hx]; subst.
    rewrite Forall_forall in *. intros y Hy.
    apply Hx. rewrite <- (firstn_skipn n l). apply in_or_app. left. exact Hy.
Qed.

End Page.

End PageFacts.

Module InterviewFacts.

Import AtsInterviews InterviewService InterviewSpec.

Section Facts.
Variable Json : Type.
Variable JSON_parse : option string -> outcome Json.
Variable String_of_Date : option Date -> string.

Abbreviation getInterviews :=
  (InterviewService.getInterviews JSON_parse String_of_Date).
Abbreviation to_unified := (InterviewService.to_unified Json String_of_Date).
Abbreviation with_remote := (InterviewService.with_remote JSON_parse).

(** *** [Promise.all] over reads *)

Lemma all_Forall2 (A B : Type) (f : A -> outcome B) l bs :
  all f l = Ok bs -> Forall2 (fun a b => f a = Ok b) l bs.
Proof.
  revert bs. induction l as [|a l IH]; simpl; intros bs H.
  - inversion H. constructor.
  - destruct (f a) as [b|e] eqn:Ha; simpl in H; [|discriminate].
    destruct (all f l) as [bs'|e] eqn:Hl; simpl in H; [|discriminate].
    inversion H; subst. constructor; [assumption | apply IH; reflexivity].
Qed.

Lemma all_total (A B : Type) (f : A -> outcome B) l :
  Forall (fun a => exists b, f a = Ok b) l -> exists bs, all f l = Ok bs.
Proof.
  induction 1 as [|a l [b Hb] _ [bs IH]]; simpl.
  - eauto.
  - rewrite Hb, IH. simpl. eauto.
Qed.

Lemma Forall2_map_eq (A B C : Type) (g : A -> C) (h : B -> C)
      (R : A -> B -> Prop) l bs :
  (forall a b, R a b -> h b = g a) ->
  Forall2 R l bs -> List.map h bs = List.map g l.
Proof.
  intros HR. induction 1; simpl; [reflexivity|].
  f_equal; auto.
Qed.

Lemma to_unified_columns w r u :
  to_unified w r = Ok u ->
  u_id u = id_ats_interview r /\ u_created_at u = created_at r.
Proof.
  unfold InterviewService.to_unified.
  destruct (fieldMappingsMap _ _); simpl; intros H; inversion H; subst.
  split; reflexivity.
Qed.

Lemma with_remote_columns w u u' :
  with_remote w u = Ok u' ->
  u_id u' = u_id u /\ u_created_at u' = u_created_at u.
Proof.
  unfold InterviewService.with_remote.
  destruct (Prisma.findFirst _ _); [|discriminate].
  destruct (JSON_parse _); simpl; intros H; inversion H; subst.
  split; reflexivity.
Qed.

Lemma fieldMappingsMap_total vs acc :
  Forall (fun p : Value.row * option Attribute.row => snd p <> None) vs ->
  exists o, fieldMappingsMap vs acc = Ok o.
Proof.
  intros H. revert acc.
  induction H as [|[v [a|]] vs Hv _ IH]; simpl; intros acc.
  - eauto.
  - apply IH.
  - exfalso. apply Hv. reflexivity.
Qed.

Lemma to_unified_total w r :
  values_have_attributes w -> exists u, to_unified w r = Ok u.
Proof.
  intros Hw. unfold InterviewService.to_unified.
  destruct (@fieldMappingsMap_total
              (values_of w (id_ats_interview r)) []) as [o Ho].
  - unfold values_of. apply Forall_forall. intros [v oa] Hin.
    apply in_map_iff in Hin. destruct Hin as (v' & E & Hin).
    injection E as Ev Eoa. subst v oa. simpl.
    apply filter_In in Hin. destruct Hin as [Hin _].
    destruct (Hw _ Hin) as (a & Ha & Hid).
    destruct (PrismaFacts.findFirst_exists
                (fun a0 => String.eqb (Attribute.id_attribute a0)
                                      (Value.id_attribute v'))
                _ _ Ha) as [a' Ha'].
    + rewrite Hid. apply String.eqb_refl.
    + rewrite Ha'. discriminate.
  - rewrite Ho. simpl. eauto.
Qed.

(** *** The rows read and the page cut from them *)

Lemma interviews_page_from_position conn limit cursor w :
  interviews_page conn limit cursor w
  = List.firstn (limit + 1) (from_position conn cursor w).
Proof.
  unfold interviews_page, PrismaPage.findMany, from_position, of_connection.
  destruct (truthy_ostring cursor); reflexivity.
Qed.

Lemma popped_firstn limit (S : list row) :
  (List.length S <= limit /\ popped limit (List.firstn (limit + 1) S)
                             = Ok (List.firstn limit S, None))
  \/ (exists x, List.nth_error S limit = Some x
                /\ popped limit (List.firstn (limit + 1) S)
                   = Ok (List.firstn limit S,
                         Some (Base64.encode (id_ats_interview x)))).
Proof.
  unfold popped.
  destruct (Nat.le_gt_cases (List.length S) limit) as [Hle|Hgt].
  - left. split; [assumption|].
    rewrite firstn_all2 by lia.
    rewrite (firstn_all2 (n := limit)) by lia.
    replace (Nat.eqb (List.length S) (limit + 1)) with false
      by (symmetry; apply Nat.eqb_neq; lia).
    reflexivity.
  - right.
    destruct (List.nth_error S limit) as [x|] eqn:Hx.
    2:{ apply nth_error_None in Hx. lia. }
    exists x. split; [reflexivity|].
    rewrite length_firstn, Nat.min_l by lia.
    rewrite Nat.eqb_refl.
    replace (limit + 1 - 1) with limit by lia.
    rewrite nth_error_firstn.
    replace (Nat.ltb limit (limit + 1)) with true
      by (symmetry; apply Nat.ltb_lt; lia).
    rewrite Hx.
    replace (limit + 1) with (Datatypes.S limit) by lia.
    rewrite removelast_firstn by lia.
    reflexivity.
Qed.

(** *** [getInterviews] step by step *)

Lemma getInterviews_run conn integ lu limit rd cursor w :
  getInterviews conn integ lu limit rd cursor w =
  if truthy_ostring cursor
     && match Prisma.findFirst
                (fun r => String.eqb (id_connection r) conn
                          && String.eqb (id_ats_interview r)
                                        (nullish cursor ""))
                (Db.ats_interviews w) with
        | Some _ => false
        | None => true
        end
  then (Throw (ReferenceError "The provided cursor does not exist!"), w)
  else
    match popped limit (interviews_page conn limit cursor w) with
    | Throw e => (Throw e, w)
    | Ok (interviews, next) =>
        match all (to_unified w) interviews with
        | Throw e => (Throw e, w)
        | Ok unified =>
            match (if truthy_obool rd then all (with_remote w) unified
                   else Ok unified) with
            | Throw e => (Throw e, w)
            | Ok res =>
                (Ok {| data := res;
                       prev_cursor :=
                         if truthy_ostring cursor
                         then Some (Base64.encode (nullish cursor ""))
                         else None;
                       next_cursor := next |},
                 after_pull integ lu w)
            end
        end
    end.
Proof.
  unfold InterviewService.getInterviews, popped. eff.
  destruct (truthy_ostring cursor) eqn:Hc; simpl.
  - destruct (Prisma.findFirst _ (Db.ats_interviews w)); simpl;
      [|reflexivity].
    destruct (Nat.eqb (List.length (interviews_page conn limit cursor w))
                      (limit + 1)); simpl.
    + destruct (List.nth_error _ _); simpl; [|reflexivity].
      destruct (all (to_unified w) _); simpl; [|reflexivity].
      destruct (truthy_obool rd); simpl; [|reflexivity].
      destruct (all (with_remote w) _); reflexivity.
    + destruct (all (to_unified w) _); simpl; [|reflexivity].
      destruct (truthy_obool rd); simpl; [|reflexivity].
      destruct (all (with_remote w) _); reflexivity.
  - destruct (Nat.eqb (List.length (interviews_page conn limit cursor w))
                      (limit + 1)); simpl.
    + destruct (List.nth_error _ _); simpl; [|reflexivity].
      destruct (all (to_unified w) _); simpl; [|reflexivity].
      destruct (truthy_obool rd); simpl; [|reflexivity].
      destruct (all (with_remote w) _); reflexivity.
    + destruct (all (to_unified w) _); simpl; [|reflexivity].
      destruct (truthy_obool rd); simpl; [|reflexivity].
      destruct (all (with_remote w) _); reflexivity.
Qed.

(** *** The rows of a connection *)

Lemma of_connection_in conn w r :
  In r (of_connection conn w) ->
  In r (Db.ats_interviews w) /\ id_connection r = conn.
Proof.
  unfold of_connection. intros H.
  apply (Permutation_in _
           (Permutation_sym (PageFacts.orderBy_asc_perm created_at _))) in H.
  apply filter_In in H. destruct H as [Hin Hc].
  split; [assumption | apply String.eqb_eq; assumption].
Qed.

Lemma from_position_suffix conn cursor w :
  exists pre, of_connection conn w = pre ++ from_position conn cursor w.
Proof.
  unfold from_position. destruct (truthy_ostring cursor).
  - apply PageFacts.from_cursor_suffix.
  - exists []. reflexivity.
Qed.

Lemma from_position_in conn cursor w r :
  In r (from_position conn cursor w) ->
  In r (Db.ats_interviews w) /\ id_connection r = conn.
Proof.
  intros H. apply of_connection_in.
  destruct (from_position_suffix conn cursor w) as [pre ->].
  apply in_or_app. right. assumption.
Qed.

Lemma from_position_ascending conn cursor w :
  StronglySorted (fun a b => (created_at a <= created_at b)%Z)
                 (from_position conn cursor w).
Proof.
  destruct (from_position_suffix conn cursor w) as [pre E].
  apply (PageFacts.ascending_app_r created_at pre).
  rewrite <- E. apply PageFacts.orderBy_asc_sorted.
Qed.

Lemma ascending_map (l : list row) :
  StronglySorted (fun a b => (created_at a <= created_at b)%Z) l ->
  StronglySorted Z.le (List.map created_at l).
Proof.
  induction 1 as [|x l _ IH Hx]; simpl; constructor; [assumption|].
  apply Forall_forall. intros z Hz. apply in_map_iff in Hz.
  destruct Hz as (y & <- & Hy).
  rewrite Forall_forall in Hx. apply Hx, Hy.
Qed.

Lemma cursor_check conn c w :
  match Prisma.findFirst
          (fun r => String.eqb (id_connection r) conn
                    && String.eqb (id_ats_interview r) c)
          (Db.ats_interviews w) with
  | Some _ => cursor_exists conn c w
  | None => ~ cursor_exists conn c w
  end.
Proof.
  destruct (Prisma.findFirst _ _) as [r|] eqn:E.
  - destruct (PrismaFacts.findFirst_split _ _ E) as (l1 & l2 & Ht & Hr & _).
    apply andb_true_iff in Hr. destruct Hr as [Hc Hi].
    exists r. rewrite Ht. split; [|split].
    + apply in_or_app. right. left. reflexivity.
    + apply String.eqb_eq, Hc.
    + apply String.eqb_eq, Hi.
  - apply PrismaFacts.findFirst_none in E. rewrite Forall_forall in E.
    intros (r & Hin & Hc & Hi). specialize (E r Hin). simpl in E.
    rewrite Hc, Hi, !String.eqb_refl in E. discriminate.
Qed.

(** What a resolved call has read and returned. *)
Lemma getInterviews_resolved conn integ lu limit rd cursor w p w' :
  getInterviews conn integ lu limit rd cursor w = (Ok p, w') ->
  w' = after_pull integ lu w
  /\ List.map (@u_id Json) (data p)
     = List.map id_ats_interview
                (List.firstn limit (from_position conn cursor w))
  /\ List.map (@u_created_at Json) (data p)
     = List.map created_at
                (List.firstn limit (from_position conn cursor w))
  /\ next_cursor p
     = match List.nth_error (from_position conn cursor w) limit with
       | Some x => Some (Base64.encode (id_ats_interview x))
       | None => None
       end.
Proof.
  rewrite getInterviews_run, interviews_page_from_position.
  destruct (truthy_ostring cursor && _); [discriminate|].
  assert (Hpop :
    popped limit (List.firstn (limit + 1) (from_position conn cursor w))
    = Ok (List.firstn limit (from_position conn cursor w),
          match List.nth_error (from_position conn cursor w) limit with
          | Some x => Some (Base64.encode (id_ats_interview x))
          | None => None
          end)).
  { destruct (popped_firstn limit (from_position conn cursor w))
      as [[Hle ->]|(x & Hx & ->)].
    - apply nth_error_None in Hle. rewrite Hle. reflexivity.
    - rewrite Hx. reflexivity. }
  rewrite Hpop.
  destruct (all (to_unified w) _) as [unified|] eqn:Hu; [|discriminate].
  apply all_Forall2 in Hu.
  assert (Hid : List.map (@u_id Json) unified
                = List.map id_ats_interview
                    (List.firstn limit (from_position conn cursor w))).
  { apply (@Forall2_map_eq _ _ _ _ _
             (fun a b => to_unified w a = Ok b) _ _); [|assumption].
    intros a b H. apply (to_unified_columns _ _ H). }
  assert (Hcr : List.map (@u_created_at Json) unified
                = List.map created_at
                    (List.firstn limit (from_position conn cursor w))).
  { apply (@Forall2_map_eq _ _ _ _ _
             (fun a b => to_unified w a = Ok b) _ _); [|assumption].
    intros a b H. apply (to_unified_columns _ _ H). }
  destruct (truthy_obool rd).
  - destruct (all (with_remote w) unified) as [res|] eqn:Hr; [|discriminate].
    apply all_Forall2 in Hr.
    intros H. inversion H; subst; simpl.
    repeat split.
    + rewrite <- Hid.
      apply (@Forall2_map_eq _ _ _ _ _
               (fun a b => with_remote w a = Ok b) _ _); [|assumption].
      intros a b Hab. apply (with_remote_columns _ _ Hab).
    + rewrite <- Hcr.
      apply (@Forall2_map_eq _ _ _ _ _
               (fun a b => with_remote w a = Ok b) _ _); [|assumption].
      intros a b Hab. apply (with_remote_columns _ _ Hab).
  - intros H. inversion H; subst; simpl.
    repeat split; assumption.
Qed.

(** A call resolves when its cursor, if any, exists, remote data is not
    asked for and the values of the store have their attributes. *)
Lemma getInterviews_resolves conn integ lu limit rd cursor w :
  (truthy_ostring cursor = true ->
   cursor_exists conn (nullish cursor "") w) ->
  truthy_obool rd = false ->
  values_have_attributes w ->
  exists p, getInterviews conn integ lu limit rd cursor w
            = (Ok p, after_pull integ lu w).
Proof.
  intros Hc Hrd Hw.
  rewrite getInterviews_run, interviews_page_from_position, Hrd.
  replace (truthy_ostring cursor && _) with false.
  2:{ destruct (truthy_ostring cursor); [|reflexivity]. simpl.
      pose proof (cursor_check conn (nullish cursor "") w) as H.
      destruct (Prisma.findFirst _ _); [reflexivity|].
      exfalso. apply H, Hc. reflexivity. }
  destruct (popped_firstn limit (from_position conn cursor w))
    as [[_ ->]|(x & _ & ->)];
    (destruct (@all_total _ _ (to_unified w)
                 (List.firstn limit (from_position conn cursor w)))
       as [unified ->];
     [apply Forall_forall; intros r _; apply to_unified_total, Hw
     | eexists; reflexivity]).
Qed.

(** C4.  For every connection, limit and cursor:
    - a call with a cursor (a non-empty string, which is what
      [if (cursor)] tests) that is the identifier of no interview of the
      connection rejects with [ReferenceError];
    - a call that resolves returns at most [limit] interviews, which are
      the first [limit] interviews of the connection from the cursor
      position onward in ascending order of [created_at], and its
      [next_cursor] is not null exactly when more than [limit] interviews
      of the connection exist from that position onward;
    - a call whose cursor, if any, exists resolves (when remote data is
      not asked for and every value of the store has its attribute). *)
Theorem getInterviews_page_of_at_most_limit
        (w : World) (conn integ lu : string) (limit : nat)
        (rd : option bool) (cursor : option string) :
  (supplied cursor -> ~ cursor_exists conn (nullish cursor "") w ->
     getInterviews conn integ lu limit rd cursor w
     = (Throw (ReferenceError "The provided cursor does not exist!"), w))
  /\ (forall p w',
        getInterviews conn integ lu limit rd cursor w = (Ok p, w') ->
        let rows := List.firstn limit (from_position conn cursor w) in
        List.length (data p) <= limit
        /\ List.map (@u_id Json) (data p) = List.map id_ats_interview rows
        /\ List.map (@u_created_at Json) (data p)
           = List.map created_at rows
        /\ Forall (fun r => In r (Db.ats_interviews w)
                            /\ id_connection r = conn) rows
        /\ StronglySorted Z.le (List.map (@u_created_at Json) (data p))
        /\ (next_cursor p <> None
            <-> limit < List.length (from_position conn cursor w)))
  /\ ((supplied cursor -> cursor_exists conn (nullish cursor "") w) ->
      truthy_obool rd = false ->
      values_have_attributes w ->
      exists p w',
        getInterviews conn integ lu limit rd cursor w = (Ok p, w')).
Proof.
  split; [|split].
  - intros Hc Hno. unfold supplied in Hc.
    rewrite getInterviews_run, Hc.
    pose proof (cursor_check conn (nullish cursor "") w) as H. simpl.
    destruct (Prisma.findFirst _ _); [contradiction | reflexivity].
  - intros p w' H rows.
    destruct (getInterviews_resolved _ _ _ _ _ _ _ H)
      as (_ & Hid & Hcr & Hnext).
    fold rows in Hid, Hcr.
    split; [|split; [|split; [|split; [|split]]]].
    + rewrite <- (length_map (@u_id Json)), Hid, length_map.
      unfold rows. rewrite length_firstn. lia.
    + exact Hid.
    + exact Hcr.
    + apply Forall_forall. intros r Hr.
      apply (from_position_in conn cursor w).
      unfold rows in Hr.
      rewrite <- (firstn_skipn limit (from_position conn cursor w)).
      apply in_or_app. left. exact Hr.
    + rewrite Hcr. apply ascending_map.
      apply PageFacts.ascending_firstn, from_position_ascending.
    + rewrite Hnext.
      destruct (List.nth_error (from_position conn cursor w) limit)
        eqn:E; split; intros H'.
      * apply nth_error_Some. congruence.
      * discriminate.
      * contradiction.
      * apply nth_error_None in E. lia.
  - intros Hc Hrd Hw.
    edestruct getInterviews_resolves as [p Hp];
      [exact Hc | exact Hrd | exact Hw |].
    exists p. eexists. exact Hp.
Qed.

(** *** From one page to the next *)

Lemma NoDup_map_filter (f : row -> bool) (l : list row) :
  NoDup (List.map id_ats_interview l) ->
  NoDup (List.map id_ats_interview (List.filter f l)).
Proof.
  induction l as [|x l IH]; simpl; intros H; [constructor|].
  inversion H as [|? ? Hni Hnd]; subst.
  destruct (f x); simpl; [|apply IH; assumption].
  constructor; [|apply IH; assumption].
  intros Hin. apply Hni.
  apply in_map_iff in Hin. destruct Hin as (y & Hy & Hin).
  apply filter_In in Hin. destruct Hin as [Hin _].
  apply in_map_iff. exists y. split; assumption.
Qed.

Lemma of_connection_NoDup conn w :
  NoDup (List.map id_ats_interview (Db.ats_interviews w)) ->
  NoDup (List.map id_ats_interview (of_connection conn w)).
Proof.
  intros H. unfold of_connection.
  eapply Permutation_NoDup.
  - apply Permutation_map, PageFacts.orderBy_asc_perm.
  - apply NoDup_map_filter, H.
Qed.

(** With the identifier of the row at index [limit] as cursor, the
    position is [limit] rows further. *)
Lemma from_position_next conn cursor w limit x :
  interview_ids_wf w ->
  List.nth_error (from_position conn cursor w) limit = Some x ->
  from_position conn (Some (id_ats_interview x)) w
  = List.skipn limit (from_position conn cursor w).
Proof.
  intros [Hnd Hne] Hx.
  destruct (from_position_suffix conn cursor w) as [pre Hpre].
  destruct (nth_error_split _ _ Hx) as (l1 & l2 & HS & Hlen).
  assert (Hin : In x (Db.ats_interviews w)).
  { apply (from_position_in conn cursor w). rewrite HS.
    apply in_or_app. right. left. reflexivity. }
  unfold from_position at 1.
  replace (truthy_ostring (Some (id_ats_interview x))) with true.
  2:{ symmetry. simpl. unfold truthy_string.
      apply negb_true_iff, String.eqb_neq.
      rewrite Forall_forall in Hne. apply Hne, Hin. }
  simpl.
  rewrite HS, skipn_app, <- Hlen, skipn_all, Nat.sub_diag. simpl.
  pose proof (@of_connection_NoDup conn w Hnd) as HL.
  rewrite Hpre, HS, app_assoc in HL |- *.
  apply PageFacts.from_cursor_at.
  - apply (PrismaFacts.pk_prefix_differs id_ats_interview _ _ _ HL).
  - apply String.eqb_refl.
Qed.

(** C3, as the code has it.  When a call returns a [next_cursor], that
    cursor is the base64 text of the identifier of the interview that
    follows the returned page.  A later call with the same connection and
    limit that is given that identifier, the decoded cursor, finds the
    cursor, returns the interviews that follow the previous page when it
    resolves, and does resolve when remote data is not asked for and the
    values of the store have their attributes.  Interview identifiers are
    taken distinct and not empty. *)
Theorem decoded_next_cursor_gives_next_page
        (w : World) (conn integ lu : string) (limit : nat)
        (rd : option bool) (cursor : option string)
        (p : page Json) (w1 : World) (nc : string)
        (Hwf : interview_ids_wf w)
        (Hcall : getInterviews conn integ lu limit rd cursor w = (Ok p, w1))
        (Hnext : next_cursor p = Some nc) :
  exists id_next,
    nc = Base64.encode id_next
    /\ cursor_exists conn id_next w1
    /\ List.map (@u_id Json) (data p)
       = List.map id_ats_interview
                  (List.firstn limit (from_position conn cursor w))
    /\ (forall rd2 p2 w2,
          getInterviews conn integ lu limit rd2 (Some id_next) w1
          = (Ok p2, w2) ->
          List.map (@u_id Json) (data p2)
          = List.map id_ats_interview
              (List.firstn limit
                 (List.skipn limit (from_position conn cursor w))))
    /\ (values_have_attributes w ->
        exists p2 w2,
          getInterviews conn integ lu limit None (Some id_next) w1
          = (Ok p2, w2)).
Proof.
  destruct (getInterviews_resolved _ _ _ _ _ _ _ Hcall)
    as (Hw1 & Hid & _ & Hnc).
  rewrite Hnext in Hnc.
  destruct (List.nth_error (from_position conn cursor w) limit)
    as [x|] eqn:Hx; [|discriminate].
  inversion Hnc; subst nc. clear Hnc.
  assert (Hexists : cursor_exists conn (id_ats_interview x) w1).
  { destruct (from_position_in conn cursor w x) as [Hin Hc].
    - apply (nth_error_In _ _ Hx).
    - exists x. subst w1. repeat split; assumption. }
  assert (Hne : truthy_ostring (Some (id_ats_interview x)) = true).
  { destruct Hwf as [_ Hne]. rewrite Forall_forall in Hne.
    simpl. unfold truthy_string. apply negb_true_iff, String.eqb_neq.
    apply Hne. apply (from_position_in conn cursor w).
    apply (nth_error_In _ _ Hx). }
  exists (id_ats_interview x).
  split; [reflexivity|]. split; [exact Hexists|]. split; [exact Hid|].
  split.
  - intros rd2 p2 w2 H2.
    destruct (getInterviews_resolved _ _ _ _ _ _ _ H2) as (_ & Hid2 & _).
    rewrite Hid2. subst w1.
    change (from_position conn (Some (id_ats_interview x))
                          (after_pull integ lu w))
      with (from_position conn (Some (id_ats_interview x)) w).
    rewrite (@from_position_next conn cursor w limit x Hwf Hx).
    reflexivity.
  - intros Hattr.
    edestruct (@getInterviews_resolves conn integ lu limit None
                 (Some (id_ats_interview x)) w1) as [p2 Hp2].
    + intros _. exact Hexists.
    + reflexivity.
    + subst w1. exact Hattr.
    + exists p2. eexists. exact Hp2.
Qed.

End Facts.

(** C3, as stated, fails.  With a page size of one, the first call on the
    three interviews of connection [c1] returns the cursor ["N2QzYw=="],
    the base64 text of the identifier ["7d3c"]; the call that is given
    this cursor as it is rejects with [ReferenceError], as no interview
    has the identifier ["N2QzYw=="]. *)
Lemma verbatim_next_cursor_is_rejected :
  exists p w1,
    InterviewService.getInterviews sample_JSON_parse sample_String_of_Date
      "c1" "greenhouse" "lu" 1 None None three_interviews = (Ok p, w1)
    /\ next_cursor p = Some "N2QzYw=="
    /\ InterviewService.getInterviews sample_JSON_parse sample_String_of_Date
         "c1" "greenhouse" "lu" 1 None (next_cursor p) w1
       = (Throw (ReferenceError "The provided cursor does not exist!"), w1).
Proof.
  eexists. eexists. split; [vm_compute; reflexivity|].
  split; vm_compute; reflexivity.
Qed.

(** The decoded cursor of the same call gives the second interview. *)
Lemma decoded_next_cursor_witness :
  interview_ids_wf three_interviews
  /\ exists p w1 id_next,
       InterviewService.getInterviews sample_JSON_parse sample_String_of_Date
         "c1" "greenhouse" "lu" 1 None None three_interviews = (Ok p, w1)
       /\ next_cursor p = Some (Base64.encode id_next)
       /\ cursor_exists "c1" id_next w1.
Proof.
  assert (Hwf : interview_ids_wf three_interviews).
  { split.
    - simpl. repeat constructor; simpl; intuition discriminate.
    - simpl. repeat constructor; discriminate. }
  split; [exact Hwf|].
  pose (run := InterviewService.getInterviews sample_JSON_parse
                 sample_String_of_Date "c1" "greenhouse" "lu" 1 None None
                 three_interviews).
  assert (Hrun : run = (fst run, snd run)) by (destruct run; reflexivity).
  assert (Hok : exists p, fst run = Ok p /\ next_cursor p = Some "N2QzYw==").
  { eexists. split; vm_compute; reflexivity. }
  destruct Hok as (p & Hp & Hnext).
  rewrite Hp in Hrun.
  destruct (@decoded_next_cursor_gives_next_page string sample_JSON_parse
              sample_String_of_Date three_interviews "c1" "greenhouse" "lu"
              1 None None p (snd run) "N2QzYw==" Hwf Hrun Hnext)
    as (id_next & Henc & Hex & _).
  exists p, (snd run), id_next.
  split; [exact Hrun|]. split; [rewrite Hnext, Henc; reflexivity | exact Hex].
Defined.

End InterviewFacts.

(** ** Saving unified groups *)

Module KeptFacts.

Import SyncSpec.

Lemma kept_refl w : kept w w.
Proof. constructor; reflexivity || apply Nat.le_refl. Qed.

Lemma kept_trans w1 w2 w3 : kept w1 w2 -> kept w2 w3 -> kept w1 w3.
Proof.
  intros [] []. constructor; try congruence.
  eapply Nat.le_trans; eassumption.
Qed.

Lemma kept_uuidv4 w : kept w (Db.with_uuid_draws (S (Db.uuid_draws w)) w).
Proof. constructor; simpl; auto. Qed.

Lemma kept_new_Date w : kept w (Db.with_clock_reads (S (Db.clock_reads w)) w).
Proof. constructor; simpl; auto. Qed.

Lemma kept_with_fs_groups v w : kept w (Db.with_fs_groups v w).
Proof. constructor; simpl; auto. Qed.

Lemma kept_with_attachments v w :
  kept w (Db.with_ats_candidate_attachments v w).
Proof. constructor; simpl; auto. Qed.

Lemma kept_with_entity v w : kept w (Db.with_entity v w).
Proof. constructor; simpl; auto. Qed.

Lemma kept_with_value v w : kept w (Db.with_value v w).
Proof. constructor; simpl; auto. Qed.

Lemma kept_with_remote_data v w : kept w (Db.with_remote_data v w).
Proof. constructor; simpl; auto. Qed.

End KeptFacts.

Create HintDb kept.

#[export] Hint Resolve KeptFacts.kept_refl KeptFacts.kept_uuidv4
  KeptFacts.kept_new_Date KeptFacts.kept_with_fs_groups
  KeptFacts.kept_with_attachments KeptFacts.kept_with_entity
  KeptFacts.kept_with_value KeptFacts.kept_with_remote_data : kept.

Module GroupFacts.

Import Unified GroupSync SyncSpec KeptFacts.

Section Facts.
Variable Original : Type.
Variable JSON_stringify : Original -> string.

Abbreviation saveGroup := (GroupSync.saveGroup JSON_stringify).
Abbreviation saveGroups_from := (GroupSync.saveGroups_from JSON_stringify).
Abbreviation saveGroupsInDb := (GroupSync.saveGroupsInDb JSON_stringify).
Abbreviation finishGroup := (SyncSpec.finishGroup JSON_stringify).

Lemma save_field_values_run es src lu ide w :
  exists w',
    save_field_values es src lu ide w = (Ok tt, w')
    /\ kept w w'
    /\ Db.fs_groups w' = Db.fs_groups w.
Proof.
  revert w. induction es as [|[slug value] es IH]; intros w; simpl.
  - exists w. auto with kept.
  - eff. simpl.
    destruct (Prisma.findFirst _ (Db.attribute w)) as [a|]; simpl.
    + match goal with
      | |- context [save_field_values es src lu ide ?w1] =>
          destruct (IH w1) as (w' & Hrun & Hk & Hg)
      end.
      exists w'. rewrite Hrun. split; [reflexivity|]. split.
      * eapply kept_trans; [|exact Hk].
        eapply kept_trans; [apply kept_uuidv4 | apply kept_with_value].
      * rewrite Hg. reflexivity.
    + destruct (IH w) as (w' & Hrun & Hk & Hg).
      exists w'. rewrite Hrun. auto.
Qed.

Lemma finishGroup_run lu src rd i group res w :
  exists w',
    finishGroup lu src rd i group res w = (Ok res, w')
    /\ kept w w'
    /\ Db.fs_groups w' = Db.fs_groups w.
Proof.
  unfold SyncSpec.finishGroup. eff.
  destruct (has_items (g_field_mappings group)); simpl.
  - match goal with
    | |- context [save_field_values ?es ?a ?b ?c ?w1] =>
        destruct (save_field_values_run es a b c w1)
          as (w' & Hrun & Hk & Hg)
    end.
    rewrite Hrun. simpl.
    eexists. split; [reflexivity|]. split.
    + eapply kept_trans; [apply kept_uuidv4|].
      eapply kept_trans; [apply kept_with_entity|].
      eapply kept_trans; [exact Hk|].
      eapply kept_trans; [apply kept_uuidv4|].
      eapply kept_trans; [apply kept_new_Date|].
      eapply kept_trans; [apply kept_new_Date|].
      apply kept_with_remote_data.
    + simpl. rewrite Hg. reflexivity.
  - eexists. split; [reflexivity|]. split.
    + eapply kept_trans; [apply kept_uuidv4|].
      eapply kept_trans; [apply kept_new_Date|].
      eapply kept_trans; [apply kept_new_Date|].
      apply kept_with_remote_data.
    + reflexivity.
Qed.

Lemma saveGroup_stages conn lu src rd i group :
  saveGroup conn lu src rd i group =
  if origin_missing (g_remote_id group)
  then Eff.throw (ReferenceError
                    ("Origin id not there, found "
                     ++ template (g_remote_id group)))
  else Eff.bind (upsertGroup conn group (origin_string (g_remote_id group)))
                (finishGroup lu src rd i group).
Proof. reflexivity. Qed.

Lemma update_some (Row : Type) (q : Row -> bool) (f : Row -> Row) t r :
  In r t -> q r = true -> exists res t', Prisma.update q f t = Some (res, t').
Proof.
  induction t as [|x t IH]; simpl; intros Hin Hq; [contradiction|].
  destruct (q x) eqn:Hx; [eauto|].
  destruct Hin as [->|Hin]; [congruence|].
  destruct (IH Hin Hq) as (res & t' & ->). eauto.
Qed.

Lemma update_length (Row : Type) (q : Row -> bool) (f : Row -> Row) t res t' :
  Prisma.update q f t = Some (res, t') -> List.length t' = List.length t.
Proof.
  revert res t'. induction t as [|x t IH]; simpl; intros res t' H;
    [discriminate|].
  destruct (q x).
  - inversion H; subst. reflexivity.
  - destruct (Prisma.update q f t) as [[res0 t0]|] eqn:E; [|discriminate].
    inversion H; subst. simpl. f_equal. eapply IH. reflexivity.
Qed.

Lemma update_keeps_pk (Row : Type) (pk : Row -> string)
      (q : Row -> bool) (f : Row -> Row) t res t' :
  (forall r, pk (f r) = pk r) ->
  Prisma.update q f t = Some (res, t') ->
  In (pk res) (List.map pk t') /\ List.map pk t' = List.map pk t.
Proof.
  intros Hf. revert res t'.
  induction t as [|x t IH]; simpl; intros res t' H; [discriminate|].
  destruct (q x).
  - inversion H; subst. simpl. rewrite Hf.
    split; [left; reflexivity | reflexivity].
  - destruct (Prisma.update q f t) as [[res0 t0]|] eqn:E; [|discriminate].
    inversion H; subst. destruct (IH _ _ eq_refl) as [Hin Hmap].
    simpl. split; [right; exact Hin | rewrite Hmap; reflexivity].
Qed.

(** The upsert resolves whatever the store; the row it returns is in the
    table, and no identifier leaves the table. *)
Lemma upsertGroup_resolves conn group origin w :
  exists res w',
    upsertGroup conn group origin w = (Ok res, w') /\ kept w w'
    /\ In (FsGroups.id_fs_group res) (group_ids w')
    /\ incl (group_ids w) (group_ids w').
Proof.
  unfold upsertGroup. eff. simpl.
  destruct (Prisma.findFirst _ (Db.fs_groups w)) as [r|] eqn:Hfind; simpl.
  - destruct (PrismaFacts.findFirst_split _ _ Hfind)
      as (l1 & l2 & Ht & _ & _).
    destruct (@update_some _
                (fun x => String.eqb (FsGroups.id_fs_group x)
                                     (FsGroups.id_fs_group r))
                (update_data group (Db.sys_clock w (Db.clock_reads w)))
                (Db.fs_groups w) r) as (res & t' & Hu).
    + rewrite Ht. apply in_or_app. right. left. reflexivity.
    + apply String.eqb_refl.
    + rewrite Hu. simpl.
      destruct (@update_keeps_pk _ FsGroups.id_fs_group _
                  (update_data group (Db.sys_clock w (Db.clock_reads w)))
                  _ _ _ (fun r => eq_refl) Hu) as [Hin Hmap].
      eexists. eexists. split; [reflexivity|]. split; [|split].
      * eapply kept_trans;
          [apply kept_new_Date | apply kept_with_fs_groups].
      * exact Hin.
      * unfold group_ids. simpl. rewrite Hmap. apply incl_refl.
  - eexists. eexists. split; [reflexivity|]. split; [|split].
    + eapply kept_trans; [apply kept_uuidv4|].
      eapply kept_trans; [apply kept_new_Date|].
      eapply kept_trans; [apply kept_new_Date|].
      apply kept_with_fs_groups.
    + unfold group_ids, Prisma.create. simpl. rewrite map_app.
      apply in_or_app. right. left. reflexivity.
    + unfold group_ids, Prisma.create. simpl. rewrite map_app.
      apply incl_appl, incl_refl.
Qed.

Lemma saveGroup_resolves conn lu src rd i group w :
  origin_missing (g_remote_id group) = false ->
  exists res w', saveGroup conn lu src rd i group w = (Ok res, w')
                 /\ kept w w'
                 /\ In (FsGroups.id_fs_group res) (group_ids w')
                 /\ incl (group_ids w) (group_ids w').
Proof.
  intros Hm. rewrite saveGroup_stages, Hm. unfold Eff.bind.
  destruct (upsertGroup_resolves conn group
              (origin_string (g_remote_id group)) w)
    as (res & w1 & -> & Hk1 & Hin & Hincl).
  destruct (finishGroup_run lu src rd i group res w1)
    as (w' & -> & Hk2 & Hg).
  exists res, w'. unfold group_ids in *. rewrite Hg.
  split; [reflexivity|]. split; [eapply kept_trans; eassumption|].
  split; assumption.
Qed.

Lemma saveGroup_missing conn lu src rd i group w :
  origin_missing (g_remote_id group) = true ->
  saveGroup conn lu src rd i group w
  = (Throw (ReferenceError ("Origin id not there, found "
                            ++ template (g_remote_id group))), w).
Proof. intros Hm. rewrite saveGroup_stages, Hm. reflexivity. Qed.

(** The loop over a list that is split in two. *)
Lemma saveGroups_from_app conn lu src rd pre rest i acc w :
  saveGroups_from conn lu src rd i (pre ++ rest) acc w =
  match saveGroups_from conn lu src rd i pre acc w with
  | (Ok acc', w') =>
      saveGroups_from conn lu src rd (i + List.length pre) rest acc' w'
  | (Throw e, w') => (Throw e, w')
  end.
Proof.
  revert i acc w. induction pre as [|g pre IH]; intros i acc w; simpl.
  - rewrite Nat.add_0_r. reflexivity.
  - unfold Eff.bind.
    destruct (saveGroup conn lu src rd i g w) as [[res|e] w1];
      [|reflexivity].
    rewrite IH. replace (S i + List.length pre)
      with (i + S (List.length pre)) by lia.
    reflexivity.
Qed.

Lemma saveGroups_from_resolves conn lu src rd gs i acc w :
  Forall (fun g => origin_missing (g_remote_id g) = false) gs ->
  exists rows w',
    saveGroups_from conn lu src rd i gs acc w = (Ok (acc ++ rows), w')
    /\ List.length rows = List.length gs
    /\ kept w w'
    /\ Forall (fun r => In (FsGroups.id_fs_group r) (group_ids w')) rows
    /\ incl (group_ids w) (group_ids w').
Proof.
  intros H. revert i acc w.
  induction H as [|g gs Hg _ IH]; intros i acc w; simpl.
  - exists [], w. rewrite app_nil_r.
    split; [reflexivity|]. split; [reflexivity|].
    split; [apply kept_refl|]. split; [constructor | apply incl_refl].
  - unfold Eff.bind.
    destruct (@saveGroup_resolves conn lu src rd i g w Hg)
      as (res & w1 & -> & Hk1 & Hin1 & Hincl1).
    destruct (IH (S i) (acc ++ [res]) w1)
      as (rows & w' & -> & Hlen & Hk2 & Hin2 & Hincl2).
    exists (res :: rows), w'. rewrite <- app_assoc. simpl.
    split; [reflexivity|]. split; [congruence|].
    split; [eapply kept_trans; eassumption|].
    split.
    + constructor; [apply Hincl2, Hin1 | exact Hin2].
    + eapply incl_tran; eassumption.
Qed.


(** *** The upsert on a well-formed store *)


Lemma origin_present_has x :
  origin_missing x = false <-> has_remote_id x.
Proof.
  unfold origin_missing, has_remote_id.
  destruct x as [| |s]; simpl.
  - split; [discriminate | intros (s & H & _); discriminate].
  - split; [discriminate | intros (s & H & _); discriminate].
  - unfold truthy_string. destruct (String.eqb_spec s ""); simpl.
    + subst. split; [discriminate|].
      intros (s & H & Hs). inversion H. congruence.
    + split; [eauto|reflexivity].
Qed.

Lemma fresh_after_create w uuid_draws' (ids : list string) :
  uuid_fresh w ids ->
  Db.uuid_draws w < uuid_draws' ->
  forall w', Db.sys_uuid w' = Db.sys_uuid w ->
             Db.uuid_draws w' = uuid_draws' ->
             uuid_fresh w' (ids ++ [Db.sys_uuid w (Db.uuid_draws w)]).
Proof.
  intros [Hinj Hfresh] Hlt w' Hu Hd. split.
  - rewrite Hu. exact Hinj.
  - rewrite Hu, Hd. intros n Hn Hin.
    apply in_app_or in Hin. destruct Hin as [Hin|[Heq|[]]].
    + apply (Hfresh n); [lia | exact Hin].
    + apply Hinj in Heq. lia.
Qed.

Lemma fresh_kept w w' ids :
  uuid_fresh w ids -> kept w w' -> uuid_fresh w' ids.
Proof.
  intros [Hinj Hfresh] Hk. destruct Hk. split.
  - rewrite kept_sys_uuid0. exact Hinj.
  - rewrite kept_sys_uuid0. intros n Hn. apply Hfresh. lia.
Qed.

Lemma groups_wf_kept w w' :
  groups_wf w -> kept w w' -> Db.fs_groups w' = Db.fs_groups w ->
  groups_wf w'.
Proof.
  unfold groups_wf, group_ids. intros [Hnd Hf] Hk Hg. rewrite Hg.
  split; [exact Hnd | eapply fresh_kept; eassumption].
Qed.

Lemma upsertGroup_upserts conn group origin w :
  groups_wf w ->
  exists res w',
    upsertGroup conn group origin w = (Ok res, w')
    /\ kept w w'
    /\ group_upserted (origin, conn) group res
                      (Db.fs_groups w) (Db.fs_groups w')
    /\ groups_wf w'.
Proof.
  intros [Hnd Hfresh]. unfold group_ids in *.
  unfold upsertGroup, group_upserted, group_matches. eff. simpl.
  destruct (Prisma.findFirst _ (Db.fs_groups w)) as [r|] eqn:Hfind; simpl.
  - destruct (PrismaFacts.findFirst_split _ _ Hfind)
      as (l1 & l2 & Ht & _ & Hl1).
    rewrite Ht in Hnd |- *.
    rewrite (PrismaFacts.update_by_pk FsGroups.id_fs_group _ _ _ _ Hnd).
    simpl. eexists. eexists. split; [reflexivity|]. split; [|split].
    + eapply kept_trans; [apply kept_new_Date | apply kept_with_fs_groups].
    + exists l1, l2. eexists.
      split; [reflexivity|]. split; [exact Hl1|]. split; reflexivity.
    + unfold groups_wf, group_ids. simpl.
      assert (Hids : List.map FsGroups.id_fs_group
                       (l1 ++ update_data group
                                (Db.sys_clock w (Db.clock_reads w)) r :: l2)
                     = List.map FsGroups.id_fs_group (l1 ++ r :: l2)).
      { rewrite !map_app. reflexivity. }
      rewrite Hids. split; [exact Hnd|].
      rewrite Ht in Hfresh. destruct Hfresh as [Hinj Hf].
      split; assumption.
  - eexists. eexists. split; [reflexivity|]. split; [|split].
    + eapply kept_trans; [apply kept_uuidv4|].
      eapply kept_trans; [apply kept_new_Date|].
      eapply kept_trans; [apply kept_new_Date|].
      apply kept_with_fs_groups.
    + simpl. do 3 eexists. repeat split.
      destruct Hfresh as [_ Hf]. apply Hf. apply Nat.le_refl.
    + unfold groups_wf, group_ids. simpl.
      unfold Prisma.create. rewrite map_app. simpl. split.
      * apply NoDup_app.
        -- exact Hnd.
        -- repeat constructor. intros [].
        -- intros x Hx [Hx'|[]]. subst x.
           destruct Hfresh as [_ Hf].
           apply (Hf (Db.uuid_draws w)); [apply Nat.le_refl | exact Hx].
      * apply (@fresh_after_create w (S (Db.uuid_draws w)) _ Hfresh);
          [lia | reflexivity | reflexivity].
Qed.

(** C1 for groups, one group at a time: on a store whose group rows
    have distinct identifiers, the turn of the loop for a group that has
    a remote identifier resolves, rewrites in place the row of the key
    when there is one and adds no row, and otherwise adds one row. *)
Lemma saveGroup_upserts conn lu src rd i group w :
  groups_wf w ->
  origin_missing (g_remote_id group) = false ->
  exists res w',
    saveGroup conn lu src rd i group w = (Ok res, w')
    /\ kept w w'
    /\ group_upserted (group_key conn group) group res
                      (Db.fs_groups w) (Db.fs_groups w')
    /\ groups_wf w'.
Proof.
  intros Hwf Hm. rewrite saveGroup_stages, Hm. unfold Eff.bind.
  destruct (upsertGroup_upserts conn group
              (origin_string (g_remote_id group)) Hwf)
    as (res & w1 & -> & Hk1 & Hup & Hwf1).
  destruct (finishGroup_run lu src rd i group res w1)
    as (w' & -> & Hk2 & Hg).
  exists res, w'. split; [reflexivity|]. split; [|split].
  - eapply kept_trans; eassumption.
  - rewrite Hg. exact Hup.
  - eapply groups_wf_kept; eassumption.
Qed.

(** *** The save loop and the upserts without the clock *)

Abbreviation all_acts := (UpsertModel.apply_all group_act).

Lemma group_act_matches k g r :
  group_matches k (group_act g r) = group_matches k r.
Proof. reflexivity. Qed.

Lemma group_all_fixed xs r :
  FsGroups.id_fs_group (all_acts xs r) = FsGroups.id_fs_group r
  /\ FsGroups.created_at (all_acts xs r) = FsGroups.created_at r
  /\ FsGroups.remote_id (all_acts xs r) = FsGroups.remote_id r
  /\ FsGroups.id_connection (all_acts xs r) = FsGroups.id_connection r.
Proof.
  unfold UpsertModel.apply_all. revert r.
  induction xs as [|x xs IH]; intros r; simpl; [auto|].
  destruct (IH (group_act x r)) as (H1 & H2 & H3 & H4).
  rewrite H1, H2, H3, H4. auto.
Qed.

(** Each of the three data columns evolves on its own. *)
Lemma group_all_name xs r r' :
  FsGroups.name r = FsGroups.name r' ->
  FsGroups.name (all_acts xs r) = FsGroups.name (all_acts xs r').
Proof.
  unfold UpsertModel.apply_all. revert r r'.
  induction xs as [|x xs IH]; intros r r' H; simpl; [exact H|].
  apply IH. unfold group_act, update_data; simpl. rewrite H. reflexivity.
Qed.

Lemma group_all_users xs r r' :
  FsGroups.users r = FsGroups.users r' ->
  FsGroups.users (all_acts xs r) = FsGroups.users (all_acts xs r').
Proof.
  unfold UpsertModel.apply_all. revert r r'.
  induction xs as [|x xs IH]; intros r r' H; simpl; [exact H|].
  apply IH. unfold group_act, update_data; simpl. rewrite H. reflexivity.
Qed.

Lemma group_all_deleted xs r r' :
  FsGroups.remote_was_deleted r = FsGroups.remote_was_deleted r' ->
  FsGroups.remote_was_deleted (all_acts xs r)
  = FsGroups.remote_was_deleted (all_acts xs r').
Proof.
  unfold UpsertModel.apply_all. revert r r'.
  induction xs as [|x xs IH]; intros r r' H; simpl; [exact H|].
  apply IH. unfold group_act, update_data; simpl. rewrite H. reflexivity.
Qed.

Lemma group_row_ext (r r' : FsGroups.row) :
  FsGroups.id_fs_group r = FsGroups.id_fs_group r' ->
  FsGroups.created_at r = FsGroups.created_at r' ->
  FsGroups.modified_at r = FsGroups.modified_at r' ->
  FsGroups.remote_id r = FsGroups.remote_id r' ->
  FsGroups.id_connection r = FsGroups.id_connection r' ->
  FsGroups.name r = FsGroups.name r' ->
  FsGroups.users r = FsGroups.users r' ->
  FsGroups.remote_was_deleted r = FsGroups.remote_was_deleted r' ->
  r = r'.
Proof. destruct r, r'; simpl; intros; subst; reflexivity. Qed.

Lemma group_act_name g r :
  FsGroups.name (group_act g r)
  = if truthy_ostring (g_name g) then g_name g else FsGroups.name r.
Proof. reflexivity. Qed.

Lemma group_act_users g r :
  FsGroups.users (group_act g r)
  = if truthy_oobject (g_users g) then g_users g else FsGroups.users r.
Proof. reflexivity. Qed.

Lemma group_act_deleted g r :
  FsGroups.remote_was_deleted (group_act g r)
  = if truthy_obool (g_remote_was_deleted g) then g_remote_was_deleted g
    else FsGroups.remote_was_deleted r.
Proof. reflexivity. Qed.

Lemma group_act_absorbs g xs r :
  group_act g (all_acts xs (group_act g r))
  = group_act g (all_acts xs r).
Proof.
  destruct (group_all_fixed xs (group_act g r)) as (H1 & H2 & H3 & H4).
  destruct (group_all_fixed xs r) as (K1 & K2 & K3 & K4).
  apply group_row_ext.
  - change (FsGroups.id_fs_group (all_acts xs (group_act g r))
            = FsGroups.id_fs_group (all_acts xs r)).
    rewrite H1, K1. reflexivity.
  - change (FsGroups.created_at (all_acts xs (group_act g r))
            = FsGroups.created_at (all_acts xs r)).
    rewrite H2, K2. reflexivity.
  - reflexivity.
  - change (FsGroups.remote_id (all_acts xs (group_act g r))
            = FsGroups.remote_id (all_acts xs r)).
    rewrite H3, K3. reflexivity.
  - change (FsGroups.id_connection (all_acts xs (group_act g r))
            = FsGroups.id_connection (all_acts xs r)).
    rewrite H4, K4. reflexivity.
  - rewrite !group_act_name.
    destruct (truthy_ostring (g_name g)) eqn:E; [reflexivity|].
    apply group_all_name. rewrite group_act_name, E. reflexivity.
  - rewrite !group_act_users.
    destruct (truthy_oobject (g_users g)) eqn:E; [reflexivity|].
    apply group_all_users. rewrite group_act_users, E. reflexivity.
  - rewrite !group_act_deleted.
    destruct (truthy_obool (g_remote_was_deleted g)) eqn:E; [reflexivity|].
    apply group_all_deleted. rewrite group_act_deleted, E. reflexivity.
Qed.

Abbreviation model_step := (UpsertModel.step group_matches group_act).
Abbreviation model_run := (UpsertModel.run group_matches group_act).

Lemma group_has_unstamped k t :
  UpsertModel.has group_matches k (List.map group_unstamped t)
  = match Prisma.findFirst (group_matches k) t with
    | Some _ => true
    | None => false
    end.
Proof.
  unfold UpsertModel.has, Prisma.findFirst.
  induction t as [|r t IH]; simpl; [reflexivity|].
  change (group_matches k (group_unstamped r)) with (group_matches k r).
  destruct (group_matches k r); simpl; [reflexivity | exact IH].
Qed.

Lemma group_upd_unstamped k f l1 r l2 :
  Forall (fun x => group_matches k x = false) l1 ->
  group_matches k r = true ->
  UpsertModel.upd group_matches k f
    (List.map group_unstamped (l1 ++ r :: l2))
  = List.map group_unstamped l1 ++ f (group_unstamped r)
      :: List.map group_unstamped l2.
Proof.
  intros Hl1 Hr. induction Hl1 as [|x l1 Hx _ IH]; simpl.
  - change (group_matches k (group_unstamped r)) with (group_matches k r).
    rewrite Hr. reflexivity.
  - change (group_matches k (group_unstamped x)) with (group_matches k x).
    rewrite Hx. f_equal. exact IH.
Qed.

(** A turn of the loop is a step of the model on the rows without
    stamps. *)
Lemma group_upserted_is_step conn group res t t' :
  origin_missing (g_remote_id group) = false ->
  group_upserted (group_key conn group) group res t t' ->
  exists new,
    UpsertModel.step_ok group_matches group_act
                        (group_key conn group, group, new)
    /\ List.map group_unstamped t'
       = model_step (group_key conn group, group, new)
                    (List.map group_unstamped t).
Proof.
  intros Hm. unfold group_upserted, UpsertModel.step. simpl.
  rewrite group_has_unstamped.
  destruct (Prisma.findFirst _ t) as [r|] eqn:Hfind.
  - intros (l1 & l2 & ts & -> & Hl1 & -> & ->).
    destruct (PrismaFacts.findFirst_split _ _ Hfind)
      as (_ & _ & _ & Hr & _).
    exists (group_unstamped
              (create_data group "" 0%Z 0%Z
                 (fst (group_key conn group)) (snd (group_key conn group)))).
    split.
    + split; simpl.
      * unfold group_matches; simpl. rewrite !String.eqb_refl. reflexivity.
      * unfold group_act, update_data, group_unstamped, create_data; simpl.
        destruct (truthy_ostring (g_name group)),
          (truthy_oobject (g_users group)),
          (truthy_obool (g_remote_was_deleted group)); reflexivity.
    + rewrite (group_upd_unstamped _ _ _ _ Hl1 Hr).
      rewrite map_app. reflexivity.
  - intros (uuid & c & m & -> & -> & _).
    exists (group_unstamped
              (create_data group uuid c m
                 (fst (group_key conn group)) (snd (group_key conn group)))).
    split.
    + split; simpl.
      * unfold group_matches; simpl. rewrite !String.eqb_refl. reflexivity.
      * unfold group_act, update_data, group_unstamped, create_data; simpl.
        destruct (truthy_ostring (g_name group)),
          (truthy_oobject (g_users group)),
          (truthy_obool (g_remote_was_deleted group)); reflexivity.
    + rewrite map_app. reflexivity.
Qed.

(** The loop is a run of the model. *)
Lemma saveGroups_from_is_run conn lu src rd gs i acc w :
  groups_wf w ->
  Forall (fun g => origin_missing (g_remote_id g) = false) gs ->
  exists rows w' steps,
    saveGroups_from conn lu src rd i gs acc w = (Ok (acc ++ rows), w')
    /\ groups_wf w'
    /\ Forall (UpsertModel.step_ok group_matches group_act) steps
    /\ List.map fst steps = List.map (fun g => (group_key conn g, g)) gs
    /\ List.map group_unstamped (Db.fs_groups w')
       = model_run steps (List.map group_unstamped (Db.fs_groups w)).
Proof.
  intros Hwf H. revert i acc w Hwf.
  induction H as [|g gs Hg _ IH]; intros i acc w Hwf; simpl.
  - exists [], w, []. rewrite app_nil_r.
    split; [reflexivity|]. split; [exact Hwf|]. split; [constructor|].
    split; reflexivity.
  - unfold Eff.bind.
    destruct (@saveGroup_upserts conn lu src rd i g w Hwf Hg)
      as (res & w1 & -> & _ & Hup & Hwf1).
    destruct (@group_upserted_is_step conn g res _ _ Hg Hup) as (new & Hok & Hstep).
    destruct (IH (S i) (acc ++ [res]) w1 Hwf1)
      as (rows & w' & steps & -> & Hwf' & Hoks & Hkeys & Hrun).
    exists (res :: rows), w', ((group_key conn g, g, new) :: steps).
    rewrite <- app_assoc. simpl.
    split; [reflexivity|]. split; [exact Hwf'|].
    split; [constructor; assumption|].
    split; [rewrite Hkeys; reflexivity|].
    rewrite Hrun, Hstep. reflexivity.
Qed.

(** C1 for groups, the whole list: on a store whose group rows have
    distinct identifiers, saving a list of groups that all have a remote
    identifier resolves, and saving the same list again leaves the table
    of the first save, row for row, but for the [modified_at] stamps. *)
Lemma saveGroupsInDb_twice conn lu src rd gs w :
  groups_wf w ->
  Forall (fun g => origin_missing (g_remote_id g) = false) gs ->
  exists rows1 w1 rows2 w2,
    saveGroupsInDb conn lu gs src rd w = (Ok rows1, w1)
    /\ saveGroupsInDb conn lu gs src rd w1 = (Ok rows2, w2)
    /\ List.map group_unstamped (Db.fs_groups w2)
       = List.map group_unstamped (Db.fs_groups w1).
Proof.
  intros Hwf Hgs. unfold GroupSync.saveGroupsInDb.
  destruct (@saveGroups_from_is_run conn lu src rd gs 0 [] w Hwf Hgs)
    as (rows1 & w1 & steps1 & Hrun1 & Hwf1 & Hok1 & Hkeys1 & Ht1).
  destruct (@saveGroups_from_is_run conn lu src rd gs 0 [] w1 Hwf1 Hgs)
    as (rows2 & w2 & steps2 & Hrun2 & _ & _ & Hkeys2 & Ht2).
  exists rows1, w1, rows2, w2.
  split; [exact Hrun1|]. split; [exact Hrun2|].
  rewrite Ht2, Ht1.
  apply UpsertFacts.run_twice.
  - exact group_act_matches.
  - exact group_act_absorbs.
  - exact Hok1.
  - congruence.
Qed.

End Facts.

End GroupFacts.

(** ** Saving unified attachments *)

Module AttachmentFacts.

Import Unified AttachmentSync SyncSpec KeptFacts.

Section Facts.
Variable Original : Type.
Variable columns : AtsAttachments.columns.
Variable processFieldMappings :
  option field_mappings -> option string -> string -> string -> M unit.
Variable processRemoteData : option string -> option Original -> M unit.

Abbreviation saveAttachment :=
  (AttachmentSync.saveAttachment columns processFieldMappings
     processRemoteData).
Abbreviation saveToDb_from :=
  (AttachmentSync.saveToDb_from columns processFieldMappings
     processRemoteData).
Abbreviation saveToDb :=
  (AttachmentSync.saveToDb columns processFieldMappings
     processRemoteData).




(** *** The two paths on a table with one identifier column *)

(** The create of a row for a new key, on a table without the column
    [id_ats_attachment]. *)
Lemma updateOrCreateAttachment_new_key conn cand a origin w :
  AtsAttachments.has_id_ats_attachment columns = false ->
  Prisma.findFirst (attachment_matches (origin, conn))
                   (Db.ats_candidate_attachments w) = None ->
  exists w',
    updateOrCreateAttachment columns conn cand a origin w
    = (Throw (Prisma.UnknownArgument "id_ats_attachment"), w')
    /\ Db.ats_candidate_attachments w' = Db.ats_candidate_attachments w.
Proof.
  intros Hc Hf. unfold updateOrCreateAttachment, create_attachment.
  rewrite Hc. eff. simpl.
  unfold attachment_matches in Hf. simpl in Hf. rewrite Hf.
  eexists. split; reflexivity.
Qed.

(** The update of the row of a known key, on a table without the column
    [id_ats_candidate_attachment]. *)
Lemma updateOrCreateAttachment_known_key conn cand a origin w r :
  AtsAttachments.has_id_ats_candidate_attachment columns = false ->
  Prisma.findFirst (attachment_matches (origin, conn))
                   (Db.ats_candidate_attachments w) = Some r ->
  exists w',
    updateOrCreateAttachment columns conn cand a origin w
    = (Throw (Prisma.UnknownArgument "id_ats_candidate_attachment"), w')
    /\ Db.ats_candidate_attachments w' = Db.ats_candidate_attachments w.
Proof.
  intros Hc Hf. unfold updateOrCreateAttachment, update_attachment.
  rewrite Hc. eff. simpl.
  unfold attachment_matches in Hf. simpl in Hf. rewrite Hf.
  eexists. split; reflexivity.
Qed.

Lemma saveToDb_one conn lu src rd cand a w e w' :
  origin_missing (a_remote_id a) = false ->
  updateOrCreateAttachment columns conn cand a
    (origin_string (a_remote_id a)) w = (Throw e, w') ->
  saveToDb conn lu [a] src rd cand w = (Throw e, w').
Proof.
  intros Ha Hu. unfold AttachmentSync.saveToDb. simpl.
  unfold Eff.bind, AttachmentSync.saveAttachment. rewrite Ha.
  unfold Eff.bind. rewrite Hu. reflexivity.
Qed.

End Facts.

End AttachmentFacts.

(** ** The two save operations together *)

Module FixtureFacts.

Import Fixtures SyncFixtures SyncSpec.

Lemma sample_uuid_inj n m : sample_uuid n = sample_uuid m -> n = m.
Proof.
  unfold sample_uuid. simpl. intros H. injection H as H.
  apply DecimalNat.Unsigned.to_uint_inj.
  assert (Hn : forall k, Nat.to_uint k <> Decimal.Nil).
  { intros k. rewrite <- (DecimalNat.Unsigned.of_to k) at 1.
    rewrite DecimalNat.Unsigned.to_of. apply DecimalFacts.unorm_nonnil. }
  pose proof (NilZero.usu _ (Hn n)) as Un.
  pose proof (NilZero.usu _ (Hn m)) as Um.
  rewrite H in Un. congruence.
Qed.

Lemma store_groups_wf : groups_wf store.
Proof.
  split.
  - simpl. repeat constructor. intros [].
  - split.
    + exact sample_uuid_inj.
    + intros n _ [H|[]]. unfold sample_uuid in H. simpl in H. discriminate.
Qed.

End FixtureFacts.

Module SaveFacts.

Import Unified GroupSync AttachmentSync SyncSpec.

Section Facts.
Variable OriginalGroup : Type.
Variable JSON_stringify : OriginalGroup -> string.
Variable OriginalAttachment : Type.
Variable columns : AtsAttachments.columns.
Variable processFieldMappings :
  option field_mappings -> option string -> string -> string -> M unit.
Variable processRemoteData :
  option string -> option OriginalAttachment -> M unit.

Abbreviation saveGroupsInDb := (GroupSync.saveGroupsInDb JSON_stringify).
Abbreviation saveToDb :=
  (AttachmentSync.saveToDb columns processFieldMappings
     processRemoteData).

Lemma present_all (A : Type) (f : A -> nullable string) l :
  Forall (fun x => has_remote_id (f x)) l ->
  Forall (fun x => origin_missing (f x) = false) l.
Proof.
  intros H. eapply Forall_impl; [|exact H].
  intros x Hx. apply GroupFacts.origin_present_has, Hx.
Qed.

(** The turn of the loop for the group that follows [pre]. *)
Lemma saveGroupsInDb_each conn lu src rd pre g w :
  groups_wf w ->
  Forall (fun g => origin_missing (g_remote_id g) = false) pre ->
  origin_missing (g_remote_id g) = false ->
  exists rows w0 res w1,
    saveGroupsInDb conn lu pre src rd w = (Ok rows, w0)
    /\ saveGroupsInDb conn lu (pre ++ [g]) src rd w
       = (Ok (rows ++ [res]), w1)
    /\ group_upserted (group_key conn g) g res
                      (Db.fs_groups w0) (Db.fs_groups w1).
Proof.
  intros Hwf Hpre Hg. unfold GroupSync.saveGroupsInDb.
  destruct (@GroupFacts.saveGroups_from_is_run _ JSON_stringify
              conn lu src rd pre 0 [] w Hwf Hpre)
    as (rows & w0 & _ & Hrun & Hwf0 & _).
  destruct (@GroupFacts.saveGroup_upserts _ JSON_stringify
              conn lu src rd (List.length pre) g w0 Hwf0 Hg)
    as (res & w1 & Hstep & _ & Hup & _).
  exists rows, w0, res, w1. simpl in Hrun.
  split; [exact Hrun|]. split; [|exact Hup].
  rewrite GroupFacts.saveGroups_from_app, Hrun. simpl.
  unfold Eff.bind. rewrite Hstep. reflexivity.
Qed.

(** X30.  Take a store in which the rows of [fs_groups] have distinct
    identifiers that the identifier generator will not give again, and
    a list of groups whose remote identifiers are all non-empty
    strings.  Then

    - for each group of the list, the turn of the loop of
      [saveGroupsInDb] for it rewrites in place the first row with its
      key [(remote_id, id_connection)] when the table has one, adding no
      row, and adds exactly one row of that key otherwise;
    - saving the list and saving it again both resolve, and the second
      save leaves the table of the first: the same rows in the same
      order, equal in every column but the [modified_at] stamp that each
      write sets from the clock. *)
Theorem saveGroupsInDb_upserts_by_key_and_twice_is_once
        (conn lu src : string) (w : World)
        (rd : list OriginalGroup) (gs : list UnifiedGroupOutput)
        (Hgroups : groups_wf w)
        (Hgs : Forall (fun g => has_remote_id (g_remote_id g)) gs) :
  (forall pre g post,
      gs = pre ++ g :: post ->
      exists rows w0 res w1,
        saveGroupsInDb conn lu pre src rd w = (Ok rows, w0)
        /\ saveGroupsInDb conn lu (pre ++ [g]) src rd w
           = (Ok (rows ++ [res]), w1)
        /\ group_upserted (group_key conn g) g res
                          (Db.fs_groups w0) (Db.fs_groups w1))
  /\ (exists rows1 w1 rows2 w2,
         saveGroupsInDb conn lu gs src rd w = (Ok rows1, w1)
         /\ saveGroupsInDb conn lu gs src rd w1 = (Ok rows2, w2)
         /\ List.map group_unstamped (Db.fs_groups w2)
            = List.map group_unstamped (Db.fs_groups w1)).
Proof.
  apply present_all in Hgs.
  split.
  - intros pre g post ->.
    apply Forall_app in Hgs. destruct Hgs as [Hpre Hg].
    inversion Hg; subst.
    apply saveGroupsInDb_each; assumption.
  - apply GroupFacts.saveGroupsInDb_twice; assumption.
Qed.


End Facts.

Import Fixtures SyncFixtures.

(** C1, for attachments.  [saveToDb] names two identifier columns, one
    where it updates and another where it creates, so that on a table
    with one of them it cannot do both.  On a table that has
    [id_ats_candidate_attachment] and not [id_ats_attachment], saving an
    attachment whose key [(remote_id, id_connection)] has no row rejects
    at the create, and no row is added.  On a table that has
    [id_ats_attachment] and not [id_ats_candidate_attachment], saving an
    attachment whose key has a row rejects at the update, and the row is
    as it was.  In the sample store, whose table has the column
    [id_ats_candidate_attachment] and holds a row for [att-1], saving
    [att-2] rejects and the table still holds that one row. *)
Theorem saveToDb_rejects_on_one_path_of_a_single_key_table :
  (forall (Original : Type)
          (processFieldMappings :
             option field_mappings -> option string -> string -> string ->
             M unit)
          (processRemoteData : option string -> option Original -> M unit)
          (conn lu src : string) (rd : list Original)
          (cand : option string) (a : UnifiedAttachmentOutput) (w : World),
      has_remote_id (a_remote_id a) ->
      Prisma.findFirst (attachment_matches (attachment_key conn a))
                       (Db.ats_candidate_attachments w) = None ->
      exists w',
        AttachmentSync.saveToDb candidate_key_only processFieldMappings
          processRemoteData conn lu [a] src rd cand w
        = (Throw (Prisma.UnknownArgument "id_ats_attachment"), w')
        /\ Db.ats_candidate_attachments w' = Db.ats_candidate_attachments w)
  /\ (forall (Original : Type)
             (processFieldMappings :
                option field_mappings -> option string -> string ->
                string -> M unit)
             (processRemoteData :
                option string -> option Original -> M unit)
             (conn lu src : string) (rd : list Original)
             (cand : option string) (a : UnifiedAttachmentOutput)
             (w : World) (r : AtsAttachments.row),
         has_remote_id (a_remote_id a) ->
         Prisma.findFirst (attachment_matches (attachment_key conn a))
                          (Db.ats_candidate_attachments w) = Some r ->
         exists w',
           AttachmentSync.saveToDb attachment_key_only processFieldMappings
             processRemoteData conn lu [a] src rd cand w
           = (Throw (Prisma.UnknownArgument "id_ats_candidate_attachment"),
              w')
           /\ Db.ats_candidate_attachments w'
              = Db.ats_candidate_attachments w)
  /\ (let run :=
        AttachmentSync.saveToDb candidate_key_only no_field_mappings
          no_remote_data "conn-1" "lu-1"
          [attachment (Val "att-2") "https://files/2"] "greenhouse"
          ([] : list string) None attachment_store in
      fst run = Throw (Prisma.UnknownArgument "id_ats_attachment")
      /\ Db.ats_candidate_attachments (snd run) = [existing_attachment]).
Proof.
  split; [|split].
  - intros Original pfm prd conn lu src rd cand a w Ha Hf.
    apply GroupFacts.origin_present_has in Ha.
    destruct (@AttachmentFacts.updateOrCreateAttachment_new_key
                candidate_key_only conn cand a
                (origin_string (a_remote_id a)) w eq_refl Hf)
      as (w' & Hu & Ht).
    exists w'. split; [|exact Ht].
    now apply AttachmentFacts.saveToDb_one.
  - intros Original pfm prd conn lu src rd cand a w r Ha Hf.
    apply GroupFacts.origin_present_has in Ha.
    destruct (@AttachmentFacts.updateOrCreateAttachment_known_key
                attachment_key_only conn cand a
                (origin_string (a_remote_id a)) w r eq_refl Hf)
      as (w' & Hu & Ht).
    exists w'. split; [|exact Ht].
    now apply AttachmentFacts.saveToDb_one.
  - vm_compute. split; reflexivity.
Qed.

End SaveFacts.

Module SaveWitnesses.

Import Unified GroupSync AttachmentSync SyncSpec Fixtures SyncFixtures.

Lemma groups_have_remote_ids :
  Forall (fun g => has_remote_id (g_remote_id g)) groups.
Proof.
  repeat constructor; eexists; (split; [reflexivity | discriminate]).
Qed.

(** Saving the three sample groups twice on the sample store. *)
Lemma save_groups_twice_witness :
  groups_wf store
  /\ Forall (fun g => has_remote_id (g_remote_id g)) groups
  /\ (exists rows1 w1 rows2 w2,
         GroupSync.saveGroupsInDb stringify "conn-1" "lu-1" groups "box" []
                                  store = (Ok rows1, w1)
         /\ GroupSync.saveGroupsInDb stringify "conn-1" "lu-1" groups "box"
                                     [] w1 = (Ok rows2, w2)
         /\ List.map group_unstamped (Db.fs_groups w2)
            = List.map group_unstamped (Db.fs_groups w1)).
Proof.
  split; [exact FixtureFacts.store_groups_wf|].
  split; [exact groups_have_remote_ids|].
  exact (proj2
    (@SaveFacts.saveGroupsInDb_upserts_by_key_and_twice_is_once
       string stringify "conn-1" "lu-1" "box" store [] groups
       FixtureFacts.store_groups_wf groups_have_remote_ids)).
Defined.

(** The table after one save of the sample groups and after two: the row
    of [g-1] is rewritten where it stood, one row is added for [g-2], and
    only the stamps differ between the two tables. *)
Example groups_saved_once_and_twice :
  match GroupSync.saveGroupsInDb stringify "conn-1" "lu-1" groups "box" []
                                 store with
  | (Ok _, w1) =>
      List.map (fun r => (FsGroups.id_fs_group r, FsGroups.remote_id r,
                          FsGroups.name r, FsGroups.modified_at r))
               (Db.fs_groups w1)
      = [("row-1", Some "g-1", Some "Engineering", 1007%Z);
         ("uuid-1", Some "g-2", Some "Sales", 1004%Z)]
      /\ match GroupSync.saveGroupsInDb stringify "conn-1" "lu-1" groups
                                        "box" [] w1 with
         | (Ok _, w2) =>
             List.map (fun r => (FsGroups.id_fs_group r,
                                 FsGroups.remote_id r,
                                 FsGroups.name r, FsGroups.modified_at r))
                      (Db.fs_groups w2)
             = [("row-1", Some "g-1", Some "Engineering", 1016%Z);
                ("uuid-1", Some "g-2", Some "Sales", 1013%Z)]
         | _ => False
         end
  | _ => False
  end.
Proof. vm_compute. split; reflexivity. Qed.


End SaveWitnesses.

(** ** Syncing the groups of a linked user *)

Module LinkedUserFacts.

Import Unified GroupSync SyncSpec FanOutSpec KeptFacts.

Section Facts.
Variable Original : Type.
Variable JSON_stringify : Original -> string.
Variable getCustomFieldMappings :
  string -> string -> string -> World -> outcome (list mapping).
Variable getService : string -> option (IGroupService Original).
Variable unify :
  unify_args Original -> World -> outcome (list UnifiedGroupOutput).
Variable FileStorageObject_group : string.

Abbreviation saveGroupsInDb := (GroupSync.saveGroupsInDb JSON_stringify).
Abbreviation syncGroupsForLinkedUser :=
  (GroupSync.syncGroupsForLinkedUser JSON_stringify getCustomFieldMappings
     getService unify FileStorageObject_group).

(** Whatever the groups and however the save ends, it keeps what [kept]
    lists. *)
Lemma saveGroups_from_kept conn lu src rd gs i acc w r w' :
  GroupSync.saveGroups_from JSON_stringify conn lu src rd i gs acc w
  = (r, w') ->
  kept w w'.
Proof.
  revert i acc w. induction gs as [|g gs IH]; intros i acc w; simpl.
  - intros H. inversion H; subst. apply kept_refl.
  - unfold Eff.bind.
    destruct (origin_missing (g_remote_id g)) eqn:Hm.
    + rewrite (GroupFacts.saveGroup_missing _ _ _ _ _ _ _ _ Hm).
      intros H. inversion H; subst. apply kept_refl.
    + destruct (@GroupFacts.saveGroup_resolves _ JSON_stringify
                  conn lu src rd i g w Hm)
        as (res & w1 & -> & Hk & _).
      intros H. eapply kept_trans; [exact Hk | eapply IH; exact H].
Qed.

Lemma saveGroupsInDb_kept conn lu gs src rd w r w' :
  saveGroupsInDb conn lu gs src rd w = (r, w') -> kept w w'.
Proof. apply saveGroups_from_kept. Qed.

(** The arguments that [syncGroupsForLinkedUser] gives to [unify]. *)
Abbreviation unify_call :=
  (fun integ (mappings : list mapping) (source : list Original) =>
     {| sourceObject := source;
        targetType := FileStorageObject_group;
        providerName := integ;
        ua_vertical := "filestorage";
        customFieldMappings := mappings |}).

(** [syncGroupsForLinkedUser] step by step, when the connection
    exists. *)
Lemma syncGroupsForLinkedUser_run integ lu proj w c :
  filestorage_connection integ lu w = Some c ->
  syncGroupsForLinkedUser integ lu proj w =
  match getCustomFieldMappings integ lu "filestorage.group" w with
  | Throw e => (Throw e, w)
  | Ok mappings =>
      match getService integ with
      | None =>
          (Throw (TypeError
             "Cannot read properties of undefined (reading 'syncGroups')"),
           w)
      | Some service =>
          match service_syncGroups service lu
                  (List.map remote_id mappings) w with
          | Throw e => (Throw e, w)
          | Ok resp =>
              match unify (unify_call integ mappings (resp_data resp)) w
              with
              | Throw e => (Throw e, w)
              | Ok unified =>
                  match saveGroupsInDb (Connections.id_connection c) lu
                          unified integ (resp_data resp) w with
                  | (Throw e, w1) => (Throw e, w1)
                  | (Ok rows, w1) =>
                      let event :=
                        pulled_event (Db.sys_uuid w1 (Db.uuid_draws w1))
                          integ (Db.sys_clock w1 (Db.clock_reads w1)) lu in
                      let w2 :=
                        Db.with_clock_reads (S (Db.clock_reads w1))
                          (Db.with_uuid_draws (S (Db.uuid_draws w1)) w1) in
                      (Ok tt,
                       Db.with_webhooks
                         (Db.webhooks w1 ++
                            [{| Webhook.payload := rows;
                                Webhook.event_type :=
                                  "filestorage.group.pulled";
                                Webhook.id_project := proj;
                                Webhook.id_event := Events.id_event event
                             |}])
                         (Db.with_events
                            (Prisma.create event (Db.events w1)) w2))
                  end
              end
          end
      end
  end.
Proof.
  unfold filestorage_connection. intros Hc.
  unfold GroupSync.syncGroupsForLinkedUser, handleWebhook. eff. simpl.
  rewrite Hc.
  destruct (getCustomFieldMappings _ _ _ w) as [mappings|]; [|reflexivity].
  destruct (getService integ) as [service|]; [|reflexivity].
  destruct (service_syncGroups service _ _ w) as [resp|]; [|reflexivity].
  destruct (unify _ w) as [unified|]; [|reflexivity].
  destruct (GroupSync.saveGroupsInDb _ _ _ _ _ _ w) as [[rows|e] w1];
    reflexivity.
Qed.

(** C5.  When the linked user has a connection for the provider in the
    [filestorage] vertical, a run that resolves has obtained the field
    mappings, the provider's groups and their unified form, has saved
    the unified groups, and has then added to the events one event of
    type [filestorage.group.pulled] and status [success] and made one
    webhook call whose payload is the list of rows that the save
    returned and whose event is the new one; the group table is the one
    that the save left.  The run resolves when the three collaborators
    do and every unified group has a remote identifier.  When there is
    no such connection the run resolves and the store is untouched. *)
Theorem syncGroupsForLinkedUser_saves_then_emits
        (integ lu proj : string) (w : World) :
  (forall c w',
      filestorage_connection integ lu w = Some c ->
      syncGroupsForLinkedUser integ lu proj w = (Ok tt, w') ->
      exists mappings service resp unified rows w1 event,
        getCustomFieldMappings integ lu "filestorage.group" w = Ok mappings
        /\ getService integ = Some service
        /\ service_syncGroups service lu (List.map remote_id mappings) w
           = Ok resp
        /\ unify (unify_call integ mappings (resp_data resp)) w
           = Ok unified
        /\ saveGroupsInDb (Connections.id_connection c) lu unified integ
                          (resp_data resp) w = (Ok rows, w1)
        /\ Db.fs_groups w' = Db.fs_groups w1
        /\ Db.events w' = Db.events w ++ [event]
        /\ Events.type event = "filestorage.group.pulled"
        /\ Events.status event = "success"
        /\ Db.webhooks w'
           = Db.webhooks w ++
               [{| Webhook.payload := rows;
                   Webhook.event_type := "filestorage.group.pulled";
                   Webhook.id_project := proj;
                   Webhook.id_event := Events.id_event event |}])
  /\ (forall c mappings service resp unified,
         filestorage_connection integ lu w = Some c ->
         getCustomFieldMappings integ lu "filestorage.group" w
         = Ok mappings ->
         getService integ = Some service ->
         service_syncGroups service lu (List.map remote_id mappings) w
         = Ok resp ->
         unify (unify_call integ mappings (resp_data resp)) w
         = Ok unified ->
         Forall (fun g => has_remote_id (g_remote_id g)) unified ->
         exists w', syncGroupsForLinkedUser integ lu proj w = (Ok tt, w'))
  /\ (filestorage_connection integ lu w = None ->
      syncGroupsForLinkedUser integ lu proj w = (Ok tt, w)).
Proof.
  split; [|split].
  - intros c w' Hc. rewrite (syncGroupsForLinkedUser_run _ _ proj _ Hc).
    destruct (getCustomFieldMappings _ _ _ w) as [mappings|] eqn:Em;
      [|discriminate].
    destruct (getService integ) as [service|] eqn:Es; [|discriminate].
    destruct (service_syncGroups service _ _ w) as [resp|] eqn:Er;
      [|discriminate].
    destruct (unify _ w) as [unified|] eqn:Eu; [|discriminate].
    destruct (GroupSync.saveGroupsInDb _ _ _ _ _ _ w) as [[rows|e] w1]
      eqn:Hsave; [|discriminate].
    intros H. inversion H; subst w'. clear H.
    destruct (saveGroupsInDb_kept _ _ _ _ _ _ Hsave).
    exists mappings, service, resp, unified, rows, w1.
    exists (pulled_event (Db.sys_uuid w1 (Db.uuid_draws w1)) integ
                         (Db.sys_clock w1 (Db.clock_reads w1)) lu).
    split; [reflexivity|]. split; [reflexivity|].
    split; [exact Er|]. split; [exact Eu|]. split; [exact Hsave|].
    split; [reflexivity|].
    split.
    { simpl. unfold Prisma.create. rewrite kept_events0. reflexivity. }
    split; [reflexivity|]. split; [reflexivity|].
    simpl. rewrite kept_webhooks0. reflexivity.
  - intros c mappings service resp unified Hc Hm Hs Hr Hu Hall.
    rewrite (syncGroupsForLinkedUser_run _ _ proj _ Hc), Hm, Hs, Hr, Hu.
    unfold GroupSync.saveGroupsInDb.
    destruct (@GroupFacts.saveGroups_from_resolves _ JSON_stringify
                (Connections.id_connection c) lu integ (resp_data resp)
                unified 0 [] w) as (rows & w1 & Hrun & _).
    + eapply Forall_impl; [|exact Hall].
      intros g Hg. apply GroupFacts.origin_present_has, Hg.
    + rewrite Hrun. eexists. reflexivity.
  - unfold filestorage_connection. intros Hc.
    unfold GroupSync.syncGroupsForLinkedUser. eff. simpl.
    rewrite Hc. reflexivity.
Qed.

End Facts.

End LinkedUserFacts.

(** ** The fan-out over users, projects, linked users and providers *)

Module FanOutFacts.

Import FanOut FanOutSpec.

Lemma tenancy_kept_refl w : tenancy_kept w w.
Proof. repeat split. Qed.

Lemma tenancy_kept_trans w1 w2 w3 :
  tenancy_kept w1 w2 -> tenancy_kept w2 w3 -> tenancy_kept w1 w3.
Proof. intros (A & B & C) (D & E & F). repeat split; congruence. Qed.

Unset Implicit Arguments.

Lemma replace_nth_split (A : Type) (l : list A) n x y :
  List.nth_error l n = Some x ->
  exists l1 l2, l = l1 ++ x :: l2 /\ replace_nth n y l = l1 ++ y :: l2.
Proof.
  revert n. induction l as [|a l IH]; intros [|n]; simpl; try discriminate.
  - intros [= ->]. exists [], l. split; reflexivity.
  - intros H. destruct (IH n H) as (l1 & l2 & -> & E).
    exists (a :: l1), l2. rewrite E. split; reflexivity.
Qed.

Lemma pending_of_users_some providers w us :
  pending_of_users providers w (List.map Some us)
  = List.flat_map (triples_of_user providers w) us.
Proof.
  induction us as [|u us IH]; simpl; [reflexivity|]. now rewrite IH.
Qed.

(** What the method has to do at its start is the whole traversal. *)
Lemma accounted_start providers user_id w :
  accounted providers w (start user_id w) = triples providers user_id w.
Proof.
  unfold accounted, start, triples, traversed_users. simpl.
  destruct (truthy_ostring user_id).
  - simpl. destruct (Prisma.findFirst _ (Db.users w)) as [u|]; simpl;
      [now rewrite !app_nil_r | reflexivity].
  - rewrite length_map. destruct (Db.users w) as [|u us]; [reflexivity|].
    cbn [List.length Nat.ltb Nat.leb pending_of_position].
    apply pending_of_users_some.
Qed.

Section Traverse.
Variable providers : list string.
Variable callee : string -> string -> string -> M unit.

Local Abbreviation resolved := (fun c => inv_resolved c = true).
Local Abbreviation take_turn_ := (take_turn providers callee).
Local Abbreviation run_ := (run providers callee).

(** The world changes at the turns of the callbacks only. *)
Lemma method_turn_world st :
  st_world (method_turn providers st) = st_world st
  /\ st_calls (method_turn providers st) = st_calls st.
Proof.
  unfold method_turn, at_users.
  destruct (st_position st) as [[|[u|] us]|[|p ps] [|[u|] us]|r];
    split; reflexivity.
Qed.

Lemma run_app user_id s1 s2 w :
  run_ user_id (s1 ++ s2) w
  = List.fold_left take_turn_ s2 (run_ user_id s1 w).
Proof. unfold run. apply fold_left_app. Qed.

(** *** The calls, whatever the schedule *)

Section Keeps.
Hypothesis callee_keeps : keeps_tenancy callee.
Variable w0 : World.

Lemma at_users_accounted us st :
  tenancy_kept w0 (st_world st) ->
  pending_of_position providers w0
    (st_position (at_users us st))
  = pending_of_users providers w0 us.
Proof.
  intros (_ & Hp & _). unfold at_users.
  destruct us as [|[u|] us]; simpl; try reflexivity.
  unfold triples_of_user. now rewrite Hp.
Qed.

Lemma take_turn_accounted st t :
  tenancy_kept w0 (st_world st) ->
  tenancy_kept w0 (st_world (take_turn_ st t))
  /\ (Forall resolved (st_calls (take_turn_ st t)) ->
      Forall resolved (st_calls st)
      /\ Permutation (accounted providers w0 (take_turn_ st t))
                     (accounted providers w0 st)).
Proof.
  intros Hk. destruct t as [|n]; simpl.
  - destruct (method_turn_world st) as [Hw Hc].
    split; [now rewrite Hw|]. rewrite Hc. intros Hall.
    split; [assumption|].
    unfold accounted. rewrite Hc.
    unfold method_turn.
    destruct (st_position st) as [us|[|p ps] us|r] eqn:Hpos.
    + rewrite (at_users_accounted us st Hk).
      assert (E : st_callbacks (at_users us st) = st_callbacks st)
        by (unfold at_users; destruct us as [|[u|] us']; reflexivity).
      now rewrite E.
    + rewrite (at_users_accounted us st Hk).
      assert (E : st_callbacks (at_users us st) = st_callbacks st)
        by (unfold at_users; destruct us as [|[u|] us']; reflexivity).
      now rewrite E.
    + simpl. destruct Hk as (_ & _ & Hl).
      rewrite flat_map_app, <- !app_assoc.
      apply Permutation_app_head. apply Permutation_app_head.
      assert (E :
        flat_map pending_of_callback
          (List.map
             (fun linkedUser =>
                {| cb_linked_user :=
                     LinkedUsers.id_linked_user linkedUser;
                   cb_project := Projects.id_project p;
                   cb_providers := providers |})
             (Prisma.findMany
                (fun l => String.eqb (LinkedUsers.id_project l)
                                     (Projects.id_project p))
                (Db.linked_users (st_world st))))
        = triples_of_project providers w0 p).
      { unfold triples_of_project. rewrite Hl.
        induction (Prisma.findMany _ (Db.linked_users w0))
          as [|l ls IH]; simpl; [reflexivity|].
        now rewrite IH. }
      rewrite E. apply Permutation_refl.
    + rewrite Hpos. apply Permutation_refl.
  - unfold callback_turn.
    destruct (List.nth_error (st_callbacks st) n) as [cb|] eqn:Hn;
      [|split; [assumption | intros H; split;
                             [assumption | apply Permutation_refl]]].
    destruct (cb_providers cb) as [|provider rest] eqn:Hps;
      [split; [assumption | intros H; split;
                            [assumption | apply Permutation_refl]]|].
    pose proof (callee_keeps provider (cb_linked_user cb)
                             (cb_project cb) (st_world st)) as Hkc.
    destruct (callee provider (cb_linked_user cb) (cb_project cb)
                     (st_world st)) as [[[]|e] w'];
      simpl in Hkc |- *.
    + split; [eapply tenancy_kept_trans; eassumption|].
      intros Hall. apply Forall_app in Hall. destruct Hall as [Hall _].
      split; [assumption|].
      unfold accounted. simpl.
      destruct (replace_nth_split _ (st_callbacks st) n cb
                  {| cb_linked_user := cb_linked_user cb;
                     cb_project := cb_project cb;
                     cb_providers := rest |} Hn)
        as (l1 & l2 & Hl & ->).
      rewrite Hl, map_app, !flat_map_app. simpl.
      assert (E : pending_of_callback cb
                  = (provider, cb_linked_user cb, cb_project cb)
                      :: pending_of_callback
                           {| cb_linked_user := cb_linked_user cb;
                              cb_project := cb_project cb;
                              cb_providers := rest |}).
      { unfold pending_of_callback. rewrite Hps. reflexivity. }
      rewrite E. unfold triple at 2. simpl.
      rewrite <- !app_assoc. apply Permutation_app_head. simpl.
      rewrite <- ?app_assoc. apply Permutation_middle.
    + split; [eapply tenancy_kept_trans; eassumption|].
      intros Hall. apply Forall_app in Hall. destruct Hall as [_ Hall].
      inversion Hall as [|? ? Hr _]; subst. discriminate Hr.
Qed.

Lemma turns_accounted schedule st :
  tenancy_kept w0 (st_world st) ->
  tenancy_kept w0 (st_world (List.fold_left take_turn_ schedule st))
  /\ (Forall resolved
             (st_calls (List.fold_left take_turn_ schedule st)) ->
      Permutation
        (accounted providers w0 (List.fold_left take_turn_ schedule st))
        (accounted providers w0 st)).
Proof.
  revert st. induction schedule as [|t schedule IH]; intros st Hk; simpl.
  - split; [assumption | intros _; apply Permutation_refl].
  - destruct (take_turn_accounted st t Hk) as [Hk1 H1].
    destruct (IH _ Hk1) as [Hk2 H2].
    split; [assumption|]. intros Hall.
    pose proof (H2 Hall) as P2.
    assert (Hall1 : Forall resolved (st_calls (take_turn_ st t))).
    { clear - Hall. revert Hall.
      generalize (take_turn_ st t). clear st t.
      induction schedule as [|t schedule IH]; intros st; simpl;
        [auto|].
      intros H. apply IH in H.
      destruct t as [|n]; simpl in H.
      - now rewrite (proj2 (method_turn_world st)) in H.
      - unfold callback_turn in H.
        destruct (List.nth_error (st_callbacks st) n) as [cb|];
          [|assumption].
        destruct (cb_providers cb) as [|provider rest]; [assumption|].
        destruct (callee provider (cb_linked_user cb) (cb_project cb)
                         (st_world st)) as [[[]|e] w'];
          simpl in H; apply Forall_app in H; tauto. }
    destruct (H1 Hall1) as [_ P1].
    eapply Permutation_trans; eassumption.
Qed.

End Keeps.

Lemma quiescent_accounted w0 st :
  quiescent st = true ->
  accounted providers w0 st = List.map triple (st_calls st).
Proof.
  unfold quiescent, accounted.
  destruct (st_position st) as [us|ps us|r]; try discriminate.
  intros Hall. simpl. rewrite app_nil_r.
  assert (E : flat_map pending_of_callback (st_callbacks st) = []).
  { induction (st_callbacks st) as [|cb cbs IH]; simpl; [reflexivity|].
    simpl in Hall. apply andb_prop in Hall. destruct Hall as [Hcb Hall].
    unfold pending_of_callback at 1.
    destruct (cb_providers cb); [|discriminate]. simpl. now apply IH. }
  rewrite E. apply app_nil_r.
Qed.

(** When nothing is left to run and every call made has resolved, the
    calls are the triples of the traversal, in some order. *)
Lemma run_calls user_id schedule w :
  keeps_tenancy callee ->
  quiescent (run_ user_id schedule w) = true ->
  Forall resolved (st_calls (run_ user_id schedule w)) ->
  Permutation (List.map triple (st_calls (run_ user_id schedule w)))
              (triples providers user_id w).
Proof.
  intros Hkeeps Hq Hall.
  rewrite <- (quiescent_accounted w _ Hq).
  rewrite <- (accounted_start providers user_id w).
  unfold run in *.
  apply (turns_accounted Hkeeps w schedule (start user_id w));
    [apply tenancy_kept_refl | exact Hall].
Qed.

(** *** What the method settles with *)

Lemma take_turn_no_null st t :
  no_null_user (st_position st) ->
  no_null_user (st_position (take_turn_ st t)).
Proof.
  intros H. destruct t as [|n]; simpl.
  - unfold method_turn, at_users.
    destruct (st_position st) as [[|[u|] us]|[|p ps] [|[u|] us]|r]
      eqn:Hpos;
      simpl in *; rewrite ?Hpos; try reflexivity; try assumption.
    all: inversion H as [|? ? Hx Hrest]; subst.
    all: first [exfalso; apply Hx; reflexivity | exact Hrest].
  - unfold callback_turn.
    destruct (List.nth_error (st_callbacks st) n) as [cb|]; [|assumption].
    destruct (cb_providers cb) as [|provider rest]; [assumption|].
    destruct (callee provider (cb_linked_user cb) (cb_project cb)
                     (st_world st)) as [[[]|e] w']; assumption.
Qed.

Lemma turns_no_null schedule st :
  no_null_user (st_position st) ->
  no_null_user (st_position (List.fold_left take_turn_ schedule st)).
Proof.
  revert st. induction schedule as [|t schedule IH]; intros st H; simpl;
    [assumption|].
  apply IH, take_turn_no_null, H.
Qed.

Lemma all_some (A : Type) (l : list A) :
  Forall (fun u : option A => u <> None) (List.map Some l).
Proof.
  induction l as [|a l IH]; simpl; constructor;
    [discriminate | assumption].
Qed.

Lemma start_no_null user_id w :
  (truthy_ostring user_id = false
   \/ exists u,
       Prisma.findFirst
         (fun u => String.eqb (Users.id_user u) (nullish user_id ""))
         (Db.users w) = Some u) ->
  no_null_user (st_position (start user_id w)).
Proof.
  unfold start. intros H.
  destruct (truthy_ostring user_id) eqn:Ht.
  - destruct H as [H | [u Hu]]; [discriminate|].
    rewrite Hu. simpl. repeat constructor. discriminate.
  - destruct (0 <? List.length (List.map Some (Db.users w)))%nat;
      simpl; [apply all_some | reflexivity].
Qed.

(** Whatever the calls do, the method settles with nothing but
    [undefined] when no user is [null]. *)
Lemma run_settles_ok user_id schedule w r :
  (truthy_ostring user_id = false
   \/ exists u,
       Prisma.findFirst
         (fun u => String.eqb (Users.id_user u) (nullish user_id ""))
         (Db.users w) = Some u) ->
  outcome_of (run_ user_id schedule w) = Some r -> r = Ok tt.
Proof.
  intros H. pose proof (turns_no_null schedule _ (start_no_null _ _ H))
    as Hn.
  unfold outcome_of, run.
  destruct (st_position (fold_left _ schedule _)) as [us|ps us|r'];
    try discriminate.
  simpl in Hn. intros [= <-]. exact Hn.
Qed.

(** Given enough turns in a row, the method settles. *)
Lemma method_turns_settle st :
  exists n,
    outcome_of (List.fold_left take_turn_ (List.repeat Method n) st)
    <> None.
Proof.
  assert (Husers : forall us st,
             st_position st = AtUsers us
             \/ (exists us0, st_position st = AtProjects [] us0
                             /\ us = us0) ->
             exists n,
               outcome_of
                 (List.fold_left take_turn_ (List.repeat Method n) st)
               <> None).
  { induction us as [|[u|] us IH]; intros st0 Hpos.
    - exists 1.
      destruct Hpos as [Hp | (us0 & Hp & <-)];
        cbn [List.repeat List.fold_left take_turn];
        unfold outcome_of, method_turn; rewrite Hp; simpl; discriminate.
    - assert (Hstep : exists ps,
                 st_position (method_turn providers st0)
                 = AtProjects ps us).
      { unfold method_turn.
        destruct Hpos as [Hp | (us0 & Hp & <-)]; rewrite Hp; simpl;
          eauto. }
      destruct Hstep as [ps Hps].
      assert (Hprojects : forall ps st1,
                 st_position st1 = AtProjects ps us ->
                 exists n,
                   outcome_of
                     (List.fold_left take_turn_ (List.repeat Method n)
                                     st1) <> None).
      { clear - IH. induction ps as [|p ps IHp]; intros st1 Hp.
        - apply IH. right. exists us. split; [assumption | reflexivity].
        - destruct (IHp (method_turn providers st1)) as [n Hn].
          + unfold method_turn. rewrite Hp. reflexivity.
          + exists (S n). exact Hn. }
      destruct (Hprojects ps _ Hps) as [n Hn].
      exists (S n). exact Hn.
    - exists 1.
      destruct Hpos as [Hp | (us0 & Hp & <-)];
        cbn [List.repeat List.fold_left take_turn];
        unfold outcome_of, method_turn; rewrite Hp; simpl; discriminate. }
  destruct (st_position st) as [us|[|p ps] us|r] eqn:Hpos.
  - apply (Husers us). now left.
  - apply (Husers us). right. now exists us.
  - assert (Hprojects : forall ps st1,
               st_position st1 = AtProjects ps us ->
               exists n,
                 outcome_of
                   (List.fold_left take_turn_ (List.repeat Method n)
                                   st1) <> None).
    { clear - Husers. induction ps as [|p ps IHp]; intros st1 Hp.
      - apply (Husers us). right. exists us.
        split; [assumption | reflexivity].
      - destruct (IHp (method_turn providers st1)) as [n Hn].
        + unfold method_turn. rewrite Hp. reflexivity.
        + exists (S n). exact Hn. }
    apply (Hprojects (p :: ps)). assumption.
  - exists 0. simpl. unfold outcome_of. rewrite Hpos. discriminate.
Qed.

(** *** Calls that change nothing *)

Section Idle.
Variable w : World.
Hypothesis callee_idle :
  forall provider id_linked_user id_project,
    In provider providers ->
    callee provider id_linked_user id_project w = (Ok tt, w).

Local Abbreviation of_providers :=
  (fun st => Forall (fun cb => incl (cb_providers cb) providers)
                    (st_callbacks st)).

Lemma take_turn_idle st t :
  st_world st = w -> of_providers st ->
  st_world (take_turn_ st t) = w /\ of_providers (take_turn_ st t).
Proof.
  intros Hw Hcbs. cbv beta in *. destruct t as [|n]; simpl.
  - rewrite (proj1 (method_turn_world st)). split; [assumption|].
    unfold method_turn, at_users.
    destruct (st_position st) as [[|[u|] us]|[|p ps] [|[u|] us]|r];
      simpl; try assumption.
    all: apply Forall_app; split; [assumption|].
    all: apply Forall_forall; intros cb Hcb.
    all: apply in_map_iff in Hcb; destruct Hcb as (l & <- & _).
    all: apply incl_refl.
  - unfold callback_turn.
    destruct (List.nth_error (st_callbacks st) n) as [cb|] eqn:Hn;
      [|split; assumption].
    destruct (cb_providers cb) as [|provider rest] eqn:Hps;
      [split; assumption|].
    assert (Hcb : incl (cb_providers cb) providers).
    { apply nth_error_In in Hn.
      rewrite Forall_forall in Hcbs. now apply Hcbs. }
    rewrite Hps in Hcb.
    rewrite Hw, (callee_idle provider _ _ (Hcb provider
                                               (or_introl eq_refl))).
    simpl. split; [reflexivity|].
    destruct (replace_nth_split _ (st_callbacks st) n cb
                {| cb_linked_user := cb_linked_user cb;
                   cb_project := cb_project cb;
                   cb_providers := rest |} Hn)
      as (l1 & l2 & Hl & ->).
    rewrite Hl in Hcbs. apply Forall_app in Hcbs.
    destruct Hcbs as [H1 H2]. inversion H2; subst.
    apply Forall_app. split; [assumption|].
    constructor; [|assumption].
    simpl. intros x Hx. apply Hcb. now right.
Qed.

Lemma run_idle user_id schedule :
  st_world (run_ user_id schedule w) = w.
Proof.
  unfold run.
  assert (H : forall st,
             st_world st = w -> of_providers st ->
             st_world (List.fold_left take_turn_ schedule st) = w).
  { induction schedule as [|t schedule IH]; intros st Hw Hc; simpl;
      [assumption|].
    destruct (take_turn_idle st t Hw Hc) as [Hw1 Hc1].
    now apply IH. }
  apply H; [reflexivity | cbv beta; constructor].
Qed.
End Idle.

(** *** An unknown user *)

Lemma run_unknown_user user_id schedule w :
  truthy_ostring user_id = true ->
  Prisma.findFirst
    (fun u => String.eqb (Users.id_user u) (nullish user_id ""))
    (Db.users w) = None ->
  st_world (run_ user_id schedule w) = w
  /\ st_calls (run_ user_id schedule w) = []
  /\ (forall r, outcome_of (run_ user_id schedule w) = Some r ->
                r = Throw null_user)
  /\ (In Method schedule ->
      outcome_of (run_ user_id schedule w) = Some (Throw null_user)).
Proof.
  intros Ht Hf. unfold run, start. rewrite Ht, Hf. simpl.
  set (st0 := {| st_world := w; st_position := AtUsers [None];
                 st_callbacks := []; st_calls := [] |}).
  set (st1 := {| st_world := w;
                 st_position := Settled (Throw null_user);
                 st_callbacks := []; st_calls := [] |}).
  assert (H1 : forall schedule,
             List.fold_left take_turn_ schedule st1 = st1).
  { induction schedule0 as [|t s IH]; simpl; [reflexivity|].
    destruct t as [|[|n]]; simpl; exact IH. }
  assert (H0 : forall schedule,
             (~ In Method schedule
              /\ List.fold_left take_turn_ schedule st0 = st0)
             \/ (In Method schedule
                 /\ List.fold_left take_turn_ schedule st0 = st1)).
  { induction schedule0 as [|t s IH]; cbn [List.fold_left List.In].
    - left. split; [tauto | reflexivity].
    - destruct t as [|n].
      + right. split; [now left|]. apply H1.
      + assert (E : take_turn_ st0 (Callback n) = st0)
          by (destruct n; reflexivity).
        rewrite E.
        destruct IH as [[Hn E0] | [Hi E1]].
        * left. split; [|assumption]. intros [H|H]; [discriminate|tauto].
        * right. split; [now right | assumption]. }
  destruct (H0 schedule) as [[Hn ->] | [Hi ->]]; simpl.
  - repeat split; try discriminate. intros H. contradiction.
  - repeat split. intros r [= <-]. reflexivity.
Qed.

End Traverse.

Set Implicit Arguments.

(** *** Each triple once *)

Lemma NoDup_flat_map (A B : Type) (f : A -> list B) (l : list A) :
  NoDup l ->
  (forall x, In x l -> NoDup (f x)) ->
  (forall x y b, In x l -> In y l -> In b (f x) -> In b (f y) -> x = y) ->
  NoDup (List.flat_map f l).
Proof.
  induction 1 as [|x l Hx Hl IH]; simpl; intros Hf Hdis; [constructor|].
  apply NoDup_app.
  - apply Hf. left. reflexivity.
  - apply IH.
    + intros y Hy. apply Hf. right. exact Hy.
    + intros y z b Hy Hz. apply Hdis; right; assumption.
  - intros b Hb Hb'. apply in_flat_map in Hb'. destruct Hb' as (y & Hy & Hby).
    apply Hx. rewrite (Hdis x y b); auto.
Qed.

Lemma NoDup_map_inj (A B : Type) (f : A -> B) (l : list A) :
  (forall a b, f a = f b -> a = b) -> NoDup l -> NoDup (List.map f l).
Proof.
  intros Hf. induction 1 as [|x l Hx _ IH]; simpl; constructor; [|exact IH].
  intros H. apply in_map_iff in H. destruct H as (y & E & Hy).
  apply Hf in E. subst y. contradiction.
Qed.

Lemma NoDup_map_row (A : Type) (f : A -> string) (l : list A) :
  NoDup (List.map f l) ->
  NoDup l /\ (forall x y, In x l -> In y l -> f x = f y -> x = y).
Proof.
  induction l as [|a l IH]; simpl; intros H.
  - split; [constructor | intros x y []].
  - inversion H as [|? ? Hni Hnd]; subst.
    destruct (IH Hnd) as [Hl Hinj]. split.
    + constructor; [|exact Hl].
      intros Ha. apply Hni. apply in_map, Ha.
    + intros x y [<-|Hx] [<-|Hy] E; auto.
      * exfalso. apply Hni. rewrite E. apply in_map, Hy.
      * exfalso. apply Hni. rewrite <- E. apply in_map, Hx.
Qed.

Lemma triples_of_project_in providers w p t :
  In t (triples_of_project providers w p) ->
  exists l, In l (Db.linked_users w)
            /\ LinkedUsers.id_project l = Projects.id_project p
            /\ In (fst (fst t)) providers
            /\ snd (fst t) = LinkedUsers.id_linked_user l
            /\ snd t = Projects.id_project p.
Proof.
  unfold triples_of_project. intros H.
  apply in_flat_map in H. destruct H as (l & Hl & Ht).
  apply filter_In in Hl. destruct Hl as [Hl Hp].
  apply in_map_iff in Ht. destruct Ht as (prov & <- & Hprov).
  exists l. simpl. repeat split; auto. apply String.eqb_eq, Hp.
Qed.

Lemma triples_of_project_NoDup providers w p :
  NoDup providers ->
  NoDup (List.map LinkedUsers.id_linked_user (Db.linked_users w)) ->
  NoDup (triples_of_project providers w p).
Proof.
  intros Hprov Hl. destruct (NoDup_map_row _ _ Hl) as [Hrows Hinj].
  unfold triples_of_project. apply NoDup_flat_map.
  - apply NoDup_filter, Hrows.
  - intros l _. apply NoDup_map_inj; [|exact Hprov].
    intros a b E. inversion E. reflexivity.
  - intros l l' t Hin Hin' Ht Ht'.
    apply filter_In in Hin. apply filter_In in Hin'.
    apply in_map_iff in Ht. destruct Ht as (a & <- & _).
    apply in_map_iff in Ht'. destruct Ht' as (b & E & _).
    inversion E. apply Hinj; [tauto | tauto | congruence].
Qed.

Lemma triples_of_user_in providers w u t :
  In t (triples_of_user providers w u) ->
  exists p, In p (Db.projects w)
            /\ Projects.id_user p = Users.id_user u
            /\ snd t = Projects.id_project p.
Proof.
  unfold triples_of_user. intros H.
  apply in_flat_map in H. destruct H as (p & Hp & Ht).
  apply filter_In in Hp. destruct Hp as [Hp Hu].
  destruct (triples_of_project_in _ _ _ _ Ht) as (_ & _ & _ & _ & _ & E).
  exists p. repeat split; auto. apply String.eqb_eq, Hu.
Qed.

Lemma triples_of_user_NoDup providers w u :
  NoDup providers -> tenancy_wf w ->
  NoDup (triples_of_user providers w u).
Proof.
  intros Hprov (_ & Hp & Hl).
  destruct (NoDup_map_row _ _ Hp) as [Hrows Hinj].
  unfold triples_of_user. apply NoDup_flat_map.
  - apply NoDup_filter, Hrows.
  - intros p _. apply triples_of_project_NoDup; assumption.
  - intros p p' t Hin Hin' Ht Ht'.
    apply filter_In in Hin. apply filter_In in Hin'.
    destruct (triples_of_project_in _ _ _ _ Ht) as (_ & _ & _ & _ & _ & E).
    destruct (triples_of_project_in _ _ _ _ Ht') as (_ & _ & _ & _ & _ & E').
    apply Hinj; [tauto | tauto | congruence].
Qed.

Lemma traversed_users_sub user_id w :
  NoDup (List.map Users.id_user (Db.users w)) ->
  NoDup (traversed_users user_id w)
  /\ incl (traversed_users user_id w) (Db.users w).
Proof.
  intros Hu. destruct (NoDup_map_row _ _ Hu) as [Hrows _].
  unfold traversed_users. destruct (truthy_ostring user_id).
  - destruct (Prisma.findFirst _ (Db.users w)) as [u|] eqn:E.
    + destruct (PrismaFacts.findFirst_split _ _ E) as (l1 & l2 & Ht & _).
      split; [repeat constructor; intros []|].
      intros x [<-|[]]. rewrite Ht. apply in_or_app. right. left. reflexivity.
    + split; [constructor | intros x []].
  - split; [exact Hrows | apply incl_refl].
Qed.

(** With primary keys in the three tables and no provider listed twice,
    no triple of the traversal comes twice. *)
Lemma triples_NoDup providers user_id w :
  NoDup providers -> tenancy_wf w ->
  NoDup (triples providers user_id w).
Proof.
  intros Hprov Hwf. pose proof Hwf as (Hu & Hp & Hl).
  destruct (traversed_users_sub user_id w Hu) as [Hnd Hincl].
  destruct (NoDup_map_row _ _ Hu) as [_ Huinj].
  destruct (NoDup_map_row _ _ Hp) as [_ Hpinj].
  unfold triples. apply NoDup_flat_map.
  - exact Hnd.
  - intros u _. apply triples_of_user_NoDup; assumption.
  - intros u u' t Hin Hin' Ht Ht'.
    destruct (triples_of_user_in _ _ _ _ Ht) as (p & Hpin & Hpu & E).
    destruct (triples_of_user_in _ _ _ _ Ht') as (p' & Hpin' & Hpu' & E').
    assert (p = p') by (apply Hpinj; congruence).
    subst p'. apply Huinj; auto. congruence.
Qed.

End FanOutFacts.

(** ** [syncGroups] and [syncAttachments] *)

Module SyncAllFacts.

Import Unified GroupSync AttachmentSync SyncSpec FanOut FanOutSpec.

Section Facts.
Variable Original : Type.
Variable JSON_stringify : Original -> string.
Variable getCustomFieldMappings :
  string -> string -> string -> World -> outcome (list mapping).
Variable getGroupService : string -> option (IGroupService Original).
Variable unify :
  unify_args Original -> World -> outcome (list UnifiedGroupOutput).
Variable FILESTORAGE_PROVIDERS : list string.
Variable FileStorageObject_group : string.

Variable IAttachmentService : Type.
Variable getAttachmentService : string -> option IAttachmentService.
Variable syncForLinkedUser :
  string -> string -> string -> string -> IAttachmentService ->
  list string -> M unit.
Variable ATS_PROVIDERS : list string.

Abbreviation syncGroupsForLinkedUser :=
  (GroupSync.syncGroupsForLinkedUser JSON_stringify getCustomFieldMappings
     getGroupService unify FileStorageObject_group).
Abbreviation syncGroups :=
  (GroupSync.syncGroups JSON_stringify getCustomFieldMappings
     getGroupService unify FILESTORAGE_PROVIDERS FileStorageObject_group).
Abbreviation syncAttachments :=
  (AttachmentSync.syncAttachments getAttachmentService
     syncForLinkedUser ATS_PROVIDERS).

Lemma kept_tenancy w w' : kept w w' -> tenancy_kept w w'.
Proof. intros []. repeat split; assumption. Qed.

Lemma syncGroupsForLinkedUser_keeps_tenancy :
  keeps_tenancy syncGroupsForLinkedUser.
Proof.
  intros integ lu proj w.
  destruct (filestorage_connection integ lu w) as [c|] eqn:Hc.
  - rewrite (LinkedUserFacts.syncGroupsForLinkedUser_run
               JSON_stringify getCustomFieldMappings getGroupService unify
               FileStorageObject_group _ _ proj _ Hc).
    destruct (getCustomFieldMappings _ _ _ w);
      [|apply FanOutFacts.tenancy_kept_refl].
    destruct (getGroupService integ);
      [|apply FanOutFacts.tenancy_kept_refl].
    destruct (service_syncGroups _ _ _ w);
      [|apply FanOutFacts.tenancy_kept_refl].
    destruct (unify _ w); [|apply FanOutFacts.tenancy_kept_refl].
    destruct (GroupSync.saveGroupsInDb _ _ _ _ _ _ w) as [[rows|e] w1]
      eqn:Hsave;
      apply LinkedUserFacts.saveGroupsInDb_kept in Hsave;
      apply kept_tenancy in Hsave; exact Hsave.
  - unfold filestorage_connection in Hc.
    unfold GroupSync.syncGroupsForLinkedUser, Eff.bind, Eff.query, Eff.ret.
    rewrite Hc. apply FanOutFacts.tenancy_kept_refl.
Qed.

Lemma syncAttachmentsForLinkedUser_keeps_tenancy :
  (forall provider id_linked_user service w0,
      tenancy_kept w0
        (snd (syncForLinkedUser provider id_linked_user "ats"
                "attachment" service [] w0))) ->
  keeps_tenancy
    (fun provider id_linked_user (_ : string) =>
       AttachmentSync.syncAttachmentsForLinkedUser getAttachmentService
         syncForLinkedUser provider id_linked_user).
Proof.
  intros Hingest provider lu proj w0.
  unfold AttachmentSync.syncAttachmentsForLinkedUser.
  destruct (getAttachmentService provider) as [service|].
  - apply Hingest.
  - apply FanOutFacts.tenancy_kept_refl.
Qed.

(** C7, as the code has it.  [syncGroups] traverses every user, or the
    one user whose identifier it is given, then every project of the
    user and every linked user of the project, and starts for each
    linked user a callback that it does not await; the callback calls
    [syncGroupsForLinkedUser] for the providers of
    [FILESTORAGE_PROVIDERS], one after the other.  [syncAttachments]
    does the same over [ATS_PROVIDERS], the ingest service leaving the
    users, projects and linked users alone.  In whatever order the
    method and the callbacks take their turns, once nothing is left to
    run and every call made has resolved, the calls made are the
    triples of provider, linked user and project of the traversal, in
    some order, and no triple comes twice when identifiers are primary
    keys and the provider list has no repetition.  (A call that rejects
    ends the callback of its linked user, so the hypothesis is
    needed.) *)
Theorem sync_calls_each_triple_once_when_all_resolve
        (user_id : option string) (w : World)
        (schedule scheduleA : list turn)
        (Hingest :
           forall provider id_linked_user service w0,
             tenancy_kept w0
               (snd (syncForLinkedUser provider id_linked_user "ats"
                       "attachment" service [] w0)))
        (Hquiet : quiescent (syncGroups user_id schedule w) = true)
        (HquietA :
           quiescent (syncAttachments user_id scheduleA w) = true)
        (Hresolved :
           Forall (fun c => inv_resolved c = true)
                  (st_calls (syncGroups user_id schedule w)))
        (HresolvedA :
           Forall (fun c => inv_resolved c = true)
                  (st_calls (syncAttachments user_id scheduleA w))) :
  Permutation
    (List.map triple (st_calls (syncGroups user_id schedule w)))
    (triples FILESTORAGE_PROVIDERS user_id w)
  /\ (tenancy_wf w -> NoDup FILESTORAGE_PROVIDERS ->
      NoDup (List.map triple (st_calls (syncGroups user_id schedule w))))
  /\ Permutation
       (List.map triple (st_calls (syncAttachments user_id scheduleA w)))
       (triples ATS_PROVIDERS user_id w)
  /\ (tenancy_wf w -> NoDup ATS_PROVIDERS ->
      NoDup (List.map triple
                      (st_calls (syncAttachments user_id scheduleA w)))).
Proof.
  assert (Hg : Permutation
                 (List.map triple
                           (st_calls (syncGroups user_id schedule w)))
                 (triples FILESTORAGE_PROVIDERS user_id w)).
  { apply FanOutFacts.run_calls;
      [exact syncGroupsForLinkedUser_keeps_tenancy
      | exact Hquiet | exact Hresolved]. }
  assert (Ha : Permutation
                 (List.map triple
                           (st_calls (syncAttachments user_id scheduleA w)))
                 (triples ATS_PROVIDERS user_id w)).
  { apply FanOutFacts.run_calls;
      [exact (syncAttachmentsForLinkedUser_keeps_tenancy Hingest)
      | exact HquietA | exact HresolvedA]. }
  split; [exact Hg|]. split.
  { intros Hwf Hnd. apply (Permutation_NoDup (Permutation_sym Hg)).
    apply FanOutFacts.triples_NoDup; assumption. }
  split; [exact Ha|].
  intros Hwf Hnd. apply (Permutation_NoDup (Permutation_sym Ha)).
  apply FanOutFacts.triples_NoDup; assumption.
Qed.

End Facts.

Import Fixtures SyncFixtures TenantFixtures.

(** C7, as stated, fails.  The tenant's linked user has a connection for
    OneDrive and one for Box, and the OneDrive adapter fails.  With the
    providers in the order OneDrive, Box, the triple of Box, the linked
    user and the project belongs to the traversal, and under no schedule
    does [syncGroups] call [syncGroupsForLinkedUser] for it: the call for
    OneDrive rejects and ends the callback of the linked user.  Under the
    schedule that gives the method its three turns and then the callback
    one, nothing is left to run and the one call made is the one for
    OneDrive. *)
Lemma sync_skips_providers_after_a_rejection :
  In ("box", "lu-1", "proj-1") (triples ["onedrive"; "box"] None tenant)
  /\ (forall schedule,
         ~ In ("box", "lu-1", "proj-1")
              (List.map triple
                 (st_calls
                    (GroupSync.syncGroups stringify no_mappings registry
                       unify_groups ["onedrive"; "box"] "group" None
                       schedule tenant))))
  /\ (let st :=
        GroupSync.syncGroups stringify no_mappings registry unify_groups
          ["onedrive"; "box"] "group" None
          [Method; Method; Method; Callback 0] tenant in
      quiescent st = true
      /\ outcome_of st = Some (Ok tt)
      /\ List.map triple (st_calls st) = [("onedrive", "lu-1", "proj-1")]).
Proof.
  split; [vm_compute; right; left; reflexivity|].
  split; [|vm_compute; repeat split; reflexivity].
  pose (callee := GroupSync.syncGroupsForLinkedUser stringify no_mappings
                    registry unify_groups "group").
  pose (s0 := start None tenant).
  pose (s1 := take_turn ["onedrive"; "box"] callee s0 Method).
  pose (s2 := take_turn ["onedrive"; "box"] callee s1 Method).
  pose (s3 := take_turn ["onedrive"; "box"] callee s2 Method).
  pose (s4 := take_turn ["onedrive"; "box"] callee s2 (Callback 0)).
  pose (s5 := take_turn ["onedrive"; "box"] callee s3 (Callback 0)).
  assert (Hstep : forall st t,
             In st [s0; s1; s2; s3; s4; s5] ->
             In (take_turn ["onedrive"; "box"] callee st t)
                [s0; s1; s2; s3; s4; s5]).
  { intros st t Hin.
    repeat (destruct Hin as [<- | Hin]); [ | | | | | | destruct Hin].
    all: destruct t as [|[|[|n]]].
    all: vm_compute.
    all: solve [repeat (first [left; reflexivity | right])]. }
  assert (Hrun : forall schedule st,
             In st [s0; s1; s2; s3; s4; s5] ->
             In (List.fold_left (take_turn ["onedrive"; "box"] callee)
                                schedule st)
                [s0; s1; s2; s3; s4; s5]).
  { induction schedule as [|t schedule IH]; intros st Hin; simpl;
      [assumption|].
    apply IH, Hstep, Hin. }
  intros schedule.
  unfold GroupSync.syncGroups, run. fold callee. fold s0.
  specialize (Hrun schedule s0 (or_introl eq_refl)).
  repeat (destruct Hrun as [<- | Hrun]); [ | | | | | | destruct Hrun].
  all: vm_compute.
  all: intuition discriminate.
Qed.

(** Two linked users and two providers whose calls all resolve, under a
    schedule that interleaves the two callbacks: the four triples are
    called once each, in the order of the schedule. *)
Lemma sync_calls_witness :
  (let st :=
     GroupSync.syncGroups stringify no_mappings answering unify_groups
       ["box"; "dropbox"] "group" None interleaved two_linked_users in
   let stA :=
     AttachmentSync.syncAttachments
       (fun _ : string => Some tt) (fun _ _ _ _ _ _ => Eff.ret tt)
       ["greenhouse"; "lever"] None interleaved two_linked_users in
   quiescent st = true
   /\ quiescent stA = true
   /\ Forall (fun c => inv_resolved c = true) (st_calls st)
   /\ Forall (fun c => inv_resolved c = true) (st_calls stA)
   /\ List.map triple (st_calls st)
      = [("box", "lu-1", "proj-1"); ("box", "lu-2", "proj-1");
         ("dropbox", "lu-1", "proj-1"); ("dropbox", "lu-2", "proj-1")]
   /\ Permutation (List.map triple (st_calls st))
                  (triples ["box"; "dropbox"] None two_linked_users)
   /\ Permutation (List.map triple (st_calls stA))
                  (triples ["greenhouse"; "lever"] None two_linked_users)).
Proof.
  cbv zeta.
  pose (st := GroupSync.syncGroups stringify no_mappings answering
                unify_groups ["box"; "dropbox"] "group" None interleaved
                two_linked_users).
  pose (stA := AttachmentSync.syncAttachments
                 (fun _ : string => Some tt)
                 (fun _ _ _ _ _ _ => Eff.ret tt)
                 ["greenhouse"; "lever"] None interleaved
                 two_linked_users).
  assert (Hq : quiescent st = true) by (vm_compute; reflexivity).
  assert (HqA : quiescent stA = true) by (vm_compute; reflexivity).
  assert (Hres : Forall (fun c => inv_resolved c = true) (st_calls st)).
  { vm_compute. repeat constructor. }
  assert (HresA : Forall (fun c => inv_resolved c = true) (st_calls stA)).
  { vm_compute. repeat constructor. }
  split; [exact Hq|]. split; [exact HqA|].
  split; [exact Hres|]. split; [exact HresA|].
  split; [vm_compute; reflexivity|].
  destruct (@sync_calls_each_triple_once_when_all_resolve
              string stringify no_mappings answering unify_groups
              ["box"; "dropbox"] "group" unit (fun _ => Some tt)
              (fun _ _ _ _ _ _ => Eff.ret tt) ["greenhouse"; "lever"]
              None two_linked_users interleaved interleaved
              (fun _ _ _ w0 => FanOutFacts.tenancy_kept_refl w0)
              Hq HqA Hres HresA)
    as (Hg & _ & Ha & _).
  split; [exact Hg | exact Ha].
Defined.

(** The method settles before the callbacks have finished: after the
    first four turns of that schedule it has resolved, and one call of
    four has been made. *)
Example syncGroups_resolves_before_the_calls_end :
  let st :=
    GroupSync.syncGroups stringify no_mappings answering unify_groups
      ["box"; "dropbox"] "group" None (List.firstn 4 interleaved)
      two_linked_users in
  outcome_of st = Some (Ok tt)
  /\ quiescent st = false
  /\ List.map triple (st_calls st) = [("box", "lu-1", "proj-1")].
Proof. vm_compute. repeat split; reflexivity. Qed.

(** The linked user of the tenant has a Box connection: the run saves the
    two Box groups, records the event and calls the webhook. *)
Lemma syncGroupsForLinkedUser_witness :
  exists c w',
    filestorage_connection "box" "lu-1" tenant = Some c
    /\ GroupSync.syncGroupsForLinkedUser stringify no_mappings registry
         unify_groups "group" "box" "lu-1" "proj-1" tenant = (Ok tt, w')
    /\ exists rows event,
         Db.events w' = Db.events tenant ++ [event]
         /\ Events.type event = "filestorage.group.pulled"
         /\ Db.webhooks w'
            = Db.webhooks tenant ++
                [{| Webhook.payload := rows;
                    Webhook.event_type := "filestorage.group.pulled";
                    Webhook.id_project := "proj-1";
                    Webhook.id_event := Events.id_event event |}].
Proof.
  pose (run := GroupSync.syncGroupsForLinkedUser stringify no_mappings
                 registry unify_groups "group" "box" "lu-1" "proj-1" tenant).
  assert (Hrun : run = (Ok tt, snd run)) by (vm_compute; reflexivity).
  assert (Hc : filestorage_connection "box" "lu-1" tenant
               = Some (connection "conn-1" "box")) by reflexivity.
  exists (connection "conn-1" "box"), (snd run).
  split; [exact Hc|]. split; [exact Hrun|].
  destruct (proj1 (@LinkedUserFacts.syncGroupsForLinkedUser_saves_then_emits
                     string stringify no_mappings registry unify_groups
                     "group" "box" "lu-1" "proj-1" tenant)
                  (connection "conn-1" "box") (snd run) Hc Hrun)
    as (mappings & service & resp & unified & rows & w1 & event
        & _ & _ & _ & _ & Hsave & _ & Hev & Hty & _ & Hwh).
  exists rows, event.
  split; [exact Hev|]. split; [exact Hty | exact Hwh].
Defined.

End SyncAllFacts.
(** ** Objects used as dictionaries *)

Module JsFacts.

Import JsSpec.

Section Objects.
Variable V : Type.
Implicit Types (o : Js.object V) (k : string) (v : V).

Lemma hasOwn_get o k : hasOwn o k = true <-> obj_get o k <> None.
Proof.
  induction o as [|[k' v'] o IH]; simpl.
  - split; [discriminate | congruence].
  - destruct (String.eqb k' k); simpl; [|exact IH].
    split; [discriminate | reflexivity].
Qed.

Lemma hasOwn_keys o k : hasOwn o k = true <-> In k (keys o).
Proof.
  unfold keys. induction o as [|[k' v'] o IH]; simpl.
  - split; [discriminate | tauto].
  - destruct (String.eqb k' k) eqn:E; simpl.
    + apply String.eqb_eq in E. tauto.
    + apply String.eqb_neq in E. rewrite IH. tauto.
Qed.

Lemma keys_obj_replace o k v : keys (obj_replace o k v) = keys o.
Proof.
  unfold keys, obj_replace. rewrite map_map. apply map_ext_in.
  intros [k' v'] _. simpl. destruct (String.eqb k' k) eqn:E; [|reflexivity].
  apply String.eqb_eq in E. now subst.
Qed.

Lemma obj_get_replace_same o k v :
  hasOwn o k = true -> obj_get (obj_replace o k v) k = Some v.
Proof.
  induction o as [|[k' v'] o IH]; simpl; [discriminate|].
  destruct (String.eqb k' k) eqn:E; simpl.
  - now rewrite String.eqb_refl.
  - rewrite E. exact IH.
Qed.

Lemma obj_get_replace_other o k k' v :
  k <> k' -> obj_get (obj_replace o k v) k' = obj_get o k'.
Proof.
  intros Hk. induction o as [|[k0 v0] o IH]; simpl; [reflexivity|].
  destruct (String.eqb k0 k) eqn:E; simpl.
  - apply String.eqb_eq in E. subst k0.
    apply String.eqb_neq in Hk. now rewrite Hk.
  - now rewrite IH.
Qed.

Lemma keys_obj_define o k v :
  exists l1 l2, keys o = l1 ++ l2 /\ keys (obj_define o k v) = l1 ++ k :: l2.
Proof.
  unfold keys. induction o as [|[k' v'] o IH]; simpl.
  - now exists [], [].
  - destruct (listed_before k k').
    + now exists [], (k' :: List.map fst o).
    + destruct IH as (l1 & l2 & E1 & E2).
      exists (k' :: l1), l2. simpl. now rewrite E1, E2.
Qed.

Lemma obj_get_define_same o k v :
  hasOwn o k = false -> obj_get (obj_define o k v) k = Some v.
Proof.
  induction o as [|[k' v'] o IH]; simpl.
  - now rewrite String.eqb_refl.
  - destruct (String.eqb k' k) eqn:E; simpl; [discriminate|].
    intros H. destruct (listed_before k k'); simpl.
    + now rewrite String.eqb_refl.
    + rewrite E. now apply IH.
Qed.

Lemma obj_get_define_other o k k' v :
  k <> k' -> obj_get (obj_define o k v) k' = obj_get o k'.
Proof.
  intros Hk. apply String.eqb_neq in Hk.
  induction o as [|[k0 v0] o IH]; simpl.
  - now rewrite Hk.
  - destruct (listed_before k k0); simpl.
    + now rewrite Hk.
    + now rewrite IH.
Qed.

(** An assignment gives the key its value, but for a [__proto__] that
    the object does not have. *)
Lemma obj_get_set_same o k v :
  k <> "__proto__" -> obj_get (obj_set o k v) k = Some v.
Proof.
  intros Hk. unfold obj_set. destruct (hasOwn o k) eqn:H.
  - now apply obj_get_replace_same.
  - apply String.eqb_neq in Hk. rewrite Hk.
    now apply obj_get_define_same.
Qed.

Lemma obj_get_set_other o k k' v :
  k <> k' -> obj_get (obj_set o k v) k' = obj_get o k'.
Proof.
  intros Hk. unfold obj_set. destruct (hasOwn o k).
  - now apply obj_get_replace_other.
  - destruct (String.eqb k "__proto__"); [reflexivity|].
    now apply obj_get_define_other.
Qed.

Lemma obj_get_set_proto o k v :
  obj_get o "__proto__" = None ->
  obj_get (obj_set o k v) "__proto__" = None.
Proof.
  intros H. destruct (string_dec k "__proto__") as [-> | Hk].
  - unfold obj_set.
    destruct (hasOwn o "__proto__") eqn:Ho.
    + apply hasOwn_get in Ho. contradiction.
    + simpl. assumption.
  - now rewrite obj_get_set_other.
Qed.

(** What an assignment makes of the value of its key. *)
Lemma obj_get_set o k v :
  obj_get (obj_set o k v) k = Some v
  \/ (k = "__proto__" /\ obj_set o k v = o).
Proof.
  unfold obj_set. destruct (hasOwn o k) eqn:H.
  - left. now apply obj_get_replace_same.
  - destruct (String.eqb k "__proto__") eqn:E.
    + right. apply String.eqb_eq in E. now split.
    + left. now apply obj_get_define_same.
Qed.

Lemma obj_set_NoDup o k v : NoDup (keys o) -> NoDup (keys (obj_set o k v)).
Proof.
  intros H. unfold obj_set. destruct (hasOwn o k) eqn:Ho.
  - now rewrite keys_obj_replace.
  - destruct (String.eqb k "__proto__"); [assumption|].
    destruct (keys_obj_define o k v) as (l1 & l2 & E1 & E2).
    rewrite E2. rewrite E1 in H.
    apply (NoDup_Add (Add_app k l1 l2)). split; [assumption|].
    rewrite <- E1. intros Hin. apply hasOwn_keys in Hin. congruence.
Qed.

Lemma obj_get_In o k v : obj_get o k = Some v -> In (k, v) o.
Proof.
  induction o as [|[k' v'] o IH]; simpl; [discriminate|].
  destruct (String.eqb k' k) eqn:E.
  - apply String.eqb_eq in E. intros [= <-]. subst. now left.
  - intros H. right. now apply IH.
Qed.

Lemma In_obj_get o k v : NoDup (keys o) -> In (k, v) o -> obj_get o k = Some v.
Proof.
  unfold keys. induction o as [|[k' v'] o IH]; simpl; [tauto|].
  intros Hnd [H | H].
  - injection H as -> ->. now rewrite String.eqb_refl.
  - inversion Hnd as [|? ? Hni Hnd']; subst.
    destruct (String.eqb k' k) eqn:E.
    + apply String.eqb_eq in E. subst k'.
      exfalso. apply Hni. change k with (fst (k, v)). now apply in_map.
    + now apply IH.
Qed.

Lemma obj_get_none o k : obj_get o k = None -> ~ In k (keys o).
Proof.
  unfold keys. induction o as [|[k' v'] o IH]; simpl; [tauto|].
  destruct (String.eqb k' k) eqn:E; [discriminate|].
  apply String.eqb_neq in E. intros H [H'|H']; [congruence|].
  now apply IH.
Qed.

End Objects.

End JsFacts.

Lemma Ok_inj (A : Type) (x y : A) : Ok x = Ok y -> x = y.
Proof. now intros [=]. Qed.

(** ** Zendesk ticket mapper: what comes back from what was sent *)

Module ZendeskExtra.

Import ZendeskTicketMapper ZendeskStages ZendeskUnifySpec JsSpec.

Lemma upper_lower_char c : upper_char (lower_char c) = upper_char c.
Proof.
  destruct c as [[] [] [] [] [] [] [] []]; reflexivity.
Qed.

Lemma lower_char_ascii c :
  (nat_of_ascii (lower_char c) <? 128)%nat = (nat_of_ascii c <? 128)%nat.
Proof.
  destruct c as [[] [] [] [] [] [] [] []]; reflexivity.
Qed.

Lemma is_ascii_lower s : is_ascii (map_string lower_char s) = is_ascii s.
Proof.
  induction s as [|c s IH]; simpl; [reflexivity|].
  now rewrite lower_char_ascii, IH.
Qed.

(** On ASCII text the upper case of the lower case is the upper case;
    beyond ASCII it need not be. *)
Lemma toUpperCase_toLowerCase {engine : Js.Engine} s :
  is_ascii s = true -> toUpperCase (toLowerCase s) = toUpperCase s.
Proof.
  intros Hs. unfold toUpperCase, toLowerCase.
  rewrite Hs, is_ascii_lower, Hs. clear Hs.
  induction s as [|c s IH]; simpl; [reflexivity|].
  now rewrite upper_lower_char, IH.
Qed.

Lemma truthy_toLowerCase {engine : Js.Engine} s :
  is_ascii s = true -> truthy_string (toLowerCase s) = truthy_string s.
Proof.
  intros Hs. unfold toLowerCase. rewrite Hs. destruct s; reflexivity.
Qed.

Lemma find_mapping_some ms k m :
  find_mapping ms k = Some m -> In m ms /\ slug m = k.
Proof.
  unfold find_mapping. intros H. apply find_some in H.
  destruct H as [Hin He]. apply String.eqb_eq in He. now split.
Qed.

Lemma find_mapping_in ms m :
  In m ms -> exists m', find_mapping ms (slug m) = Some m'.
Proof.
  unfold find_mapping. intros Hin.
  destruct (find (fun m0 => String.eqb (slug m0) (slug m)) ms) as [m'|] eqn:E.
  - now exists m'.
  - exfalso. apply (find_none _ _ E) in Hin.
    now rewrite String.eqb_refl in Hin.
Qed.

Lemma find_custom_field_some fs rid f :
  find_custom_field fs rid = Some f -> In f fs /\ id f = rid.
Proof.
  unfold find_custom_field. intros H. apply find_some in H.
  destruct H as [Hin He]. apply String.eqb_eq in He. now split.
Qed.

Lemma find_custom_field_in fs f :
  In f fs -> exists f', find_custom_field fs (id f) = Some f'.
Proof.
  unfold find_custom_field. intros Hin.
  destruct (find (fun f0 => String.eqb (id f0) (id f)) fs) as [f'|] eqn:E.
  - now exists f'.
  - exfalso. apply (find_none _ _ E) in Hin.
    now rewrite String.eqb_refl in Hin.
Qed.

Lemma desunify_fields_flat ms fm acc :
  desunify_fields ms fm acc = acc ++ flat_map (custom_field_of ms) fm.
Proof.
  revert acc. induction fm as [|[k v] fm IH]; intros acc; simpl.
  - now rewrite app_nil_r.
  - unfold custom_field_of at 1. simpl.
    destruct (find_mapping ms k) as [m|]; rewrite IH; simpl.
    + now rewrite <- app_assoc.
    + reflexivity.
Qed.

Lemma in_sent_fields ms fm f :
  In f (desunify_fields ms fm []) <->
  exists k v m, In (k, v) fm /\ find_mapping ms k = Some m
                /\ f = {| id := remote_id m; value := v |}.
Proof.
  rewrite desunify_fields_flat. simpl. rewrite in_flat_map. split.
  - intros [[k v] [Hin Hf]]. unfold custom_field_of in Hf. simpl in Hf.
    destruct (find_mapping ms k) as [m|] eqn:E; [|contradiction].
    destruct Hf as [<- | []]. now exists k, v, m.
  - intros (k & v & m & Hin & Hm & ->). exists (k, v). split; [assumption|].
    unfold custom_field_of. simpl. rewrite Hm. now left.
Qed.

Lemma remote_id_inj ms m m' :
  NoDup (map remote_id ms) -> In m ms -> In m' ms ->
  remote_id m = remote_id m' -> m = m'.
Proof.
  induction ms as [|m0 ms IH]; simpl; [tauto|].
  intros Hnd [H1|H1] [H2|H2] He; inversion Hnd as [|? ? Hni Hnd']; subst.
  - reflexivity.
  - exfalso. apply Hni. rewrite He. now apply in_map.
  - exfalso. apply Hni. rewrite <- He. now apply in_map.
  - now apply IH.
Qed.

Lemma keys_inj (fm : Js.object string) k v v' :
  NoDup (keys fm) -> In (k, v) fm -> In (k, v') fm -> v = v'.
Proof.
  intros Hnd H1 H2.
  apply (@JsFacts.In_obj_get _ _ _ _ Hnd) in H1.
  apply (@JsFacts.In_obj_get _ _ _ _ Hnd) in H2.
  congruence.
Qed.

Section RoundTrip.
Variables (ms : list mapping) (fm : Js.object string).
Hypothesis Hkeys : NoDup (keys fm).
Hypothesis Hids : NoDup (List.map remote_id ms).

Local Abbreviation cfs := (desunify_fields ms fm []).
Local Abbreviation sound := (accounted_for ms fm).

Lemma found_field_is_sent m f :
  In m ms -> find_custom_field cfs (remote_id m) = Some f ->
  In (slug m, value f) fm.
Proof.
  intros Hm Hf. apply find_custom_field_some in Hf. destruct Hf as [Hin Hid].
  apply in_sent_fields in Hin. destruct Hin as (k & v & m' & Hin & Hfm & ->).
  simpl in *. apply find_mapping_some in Hfm. destruct Hfm as [Hm' Hs].
  assert (m' = m) by (eapply remote_id_inj; eassumption). subst m'.
  now rewrite Hs.
Qed.

Lemma sent_field_is_found k v m :
  In (k, v) fm -> find_mapping ms k = Some m ->
  exists f, find_custom_field cfs (remote_id m) = Some f /\ value f = v.
Proof.
  intros Hin Hfm.
  assert (Hf : In {| id := remote_id m; value := v |} cfs).
  { apply in_sent_fields. now exists k, v, m. }
  apply find_custom_field_in in Hf. simpl in Hf. destruct Hf as [f Hf].
  exists f. split; [assumption|].
  apply find_mapping_some in Hfm. destruct Hfm as [Hm Hs].
  pose proof (@found_field_is_sent _ _ Hm Hf) as Hsent. rewrite Hs in Hsent.
  eapply keys_inj; eassumption.
Qed.

Lemma sound_set acc m f :
  sound acc -> In m ms -> find_custom_field cfs (remote_id m) = Some f ->
  sound (obj_set acc (slug m) (value f)).
Proof.
  intros Hacc Hm Hf k v Hget.
  destruct (string_dec (slug m) k) as [<- | Hne].
  - destruct (JsFacts.obj_get_set acc (slug m) (value f)) as [E | [_ E]];
      rewrite E in Hget.
    + injection Hget as <-.
      split; [now apply found_field_is_sent | now apply find_mapping_in].
    + now apply Hacc.
  - rewrite JsFacts.obj_get_set_other in Hget by assumption.
    now apply Hacc.
Qed.

Lemma unify_fields_sound ms' acc :
  incl ms' ms -> sound acc -> sound (unify_fields ms' cfs acc).
Proof.
  revert acc. induction ms' as [|m0 ms' IH]; intros acc Hincl Hacc; simpl.
  - assumption.
  - assert (Hm0 : In m0 ms) by (apply Hincl; now left).
    assert (Hincl' : incl ms' ms) by (intros x Hx; apply Hincl; now right).
    destruct (find_custom_field cfs (remote_id m0)) as [f|] eqn:Hf.
    + apply IH; [assumption|]. now apply sound_set.
    + now apply IH.
Qed.

Lemma unify_fields_complete ms' acc k v m :
  k <> "__proto__" ->
  incl ms' ms -> sound acc ->
  In (k, v) fm -> find_mapping ms k = Some m ->
  In m ms' \/ obj_get acc k = Some v ->
  obj_get (unify_fields ms' cfs acc) k = Some v.
Proof.
  intros Hproto Hincl Hacc Hin Hfm.
  revert acc Hincl Hacc.
  induction ms' as [|m0 ms' IH]; intros acc Hincl Hacc Hor; simpl.
  - destruct Hor as [[]|H]. assumption.
  - assert (Hm0 : In m0 ms) by (apply Hincl; now left).
    assert (Hincl' : incl ms' ms) by (intros x Hx; apply Hincl; now right).
    pose proof (@find_mapping_some _ _ _ Hfm) as [Hm Hs].
    destruct (find_custom_field cfs (remote_id m0)) as [f|] eqn:Hf.
    + apply IH; [assumption | now apply sound_set |].
      destruct (string_dec (slug m0) k) as [Hk | Hne].
      * right. rewrite <- Hk in Hproto |- *.
        rewrite JsFacts.obj_get_set_same by assumption. f_equal.
        pose proof (@found_field_is_sent _ _ Hm0 Hf) as Hsent.
        rewrite Hk in Hsent. eapply keys_inj; eassumption.
      * destruct Hor as [[-> | Hrest] | Hget].
        -- contradiction.
        -- now left.
        -- right. now rewrite JsFacts.obj_get_set_other.
    + apply IH; [assumption | assumption |].
      destruct Hor as [[-> | Hrest] | Hget].
      * destruct (@sent_field_is_found _ _ _ Hin Hfm) as (f & Hf' & _).
        congruence.
      * now left.
      * now right.
Qed.

Lemma unify_fields_no_proto ms' fs acc :
  obj_get acc "__proto__" = None ->
  obj_get (unify_fields ms' fs acc) "__proto__" = None.
Proof.
  revert acc. induction ms' as [|m0 ms' IH]; intros acc Hacc; simpl.
  - assumption.
  - destruct (find_custom_field fs (remote_id m0)) as [f|]; apply IH;
      [now apply JsFacts.obj_get_set_proto | assumption].
Qed.

Lemma sent_fields_round_trip k v :
  k <> "__proto__" ->
  obj_get (unify_fields ms cfs []) k = Some v <->
  In (k, v) fm /\ exists m, find_mapping ms k = Some m.
Proof.
  intros Hproto. split.
  - apply unify_fields_sound; [apply incl_refl|].
    intros k' v' H. discriminate.
  - intros [Hin [m Hfm]].
    apply unify_fields_complete with (m := m); try assumption.
    + apply incl_refl.
    + intros k' v' H. discriminate.
    + left. now apply find_mapping_some in Hfm.
Qed.

End RoundTrip.

Section Facts.
Context {engine : Js.Engine}.
Variable Tag : Type.
Variable getAssigneeMetadataFromUuid : string -> outcome string.
Variable getUserUuidFromRemoteId : string -> string -> outcome (option string).
Variable unify_tags : list string -> string -> outcome (list Tag).
Variable toISOString : Date -> string.
Variable new_Date : string -> Date.

Local Abbreviation desunify_ :=
  (desunify getAssigneeMetadataFromUuid toISOString).
Local Abbreviation mapSingle_ :=
  (mapSingleTicketToUnified getUserUuidFromRemoteId unify_tags new_Date).

Lemma after_await_sent source cfm r :
  let r' := after_await toISOString source cfm r in
  zi_status r' =
    match status source with
    | Some s => if truthy_string s then Some (toLowerCase s) else zi_status r
    | None => zi_status r
    end
  /\ zi_priority r' =
       match priority source with
       | Some p =>
           if truthy_string p
           then Some (if String.eqb p "MEDIUM" then "normal"
                      else toLowerCase p)
           else zi_priority r
       | None => zi_priority r
       end
  /\ zi_type r' =
       match type source with
       | Some t => if truthy_string t then Some (toLowerCase t) else zi_type r
       | None => zi_type r
       end
  /\ zi_tags r' =
       match tags source with
       | Some t => Some t
       | None => zi_tags r
       end
  /\ zi_custom_fields r' =
       match cfm, field_mappings source with
       | Some ms, Some fm => Some (desunify_fields ms fm [])
       | _, _ => zi_custom_fields r
       end.
Proof.
  unfold after_await.
  destruct (due_date source), (priority source) as [p|],
    (status source) as [s|], (tags source), (type source) as [t|],
    cfm, (field_mappings source);
    try destruct (truthy_string p); try destruct (truthy_string s);
    try destruct (truthy_string t); simpl; repeat split; reflexivity.
Qed.

Lemma before_await_unset source :
  zi_status (before_await source) = None
  /\ zi_priority (before_await source) = None
  /\ zi_type (before_await source) = None
  /\ zi_tags (before_await source) = None
  /\ zi_custom_fields (before_await source) = None.
Proof.
  unfold before_await.
  destruct (html_body (comment source)) as [h|];
    [destruct (truthy_string h)|]; repeat split; reflexivity.
Qed.

(** What [desunify] sends for the status, the priority, the type, the
    tags and the custom fields. *)
Lemma desunify_sent source cfm sent :
  desunify_ source cfm = Ok sent ->
  zi_status sent =
    match status source with
    | Some s => if truthy_string s then Some (toLowerCase s) else None
    | None => None
    end
  /\ zi_priority sent =
       match priority source with
       | Some p =>
           if truthy_string p
           then Some (if String.eqb p "MEDIUM" then "normal"
                      else toLowerCase p)
           else None
       | None => None
       end
  /\ zi_type sent =
       match type source with
       | Some t => if truthy_string t then Some (toLowerCase t) else None
       | None => None
       end
  /\ zi_tags sent = tags source
  /\ zi_custom_fields sent =
       match cfm, field_mappings source with
       | Some ms, Some fm => Some (desunify_fields ms fm [])
       | _, _ => None
       end.
Proof.
  rewrite ZendeskFacts.desunify_stages.
  destruct (before_await_unset source) as (U1 & U2 & U3 & U4 & U5).
  assert (Hgen : forall r,
             zi_status r = None -> zi_priority r = None ->
             zi_type r = None -> zi_tags r = None ->
             zi_custom_fields r = None ->
             Ok (after_await toISOString source cfm r) = Ok sent ->
             zi_status sent =
               match status source with
               | Some s =>
                   if truthy_string s then Some (toLowerCase s) else None
               | None => None
               end
             /\ zi_priority sent =
                  match priority source with
                  | Some p =>
                      if truthy_string p
                      then Some (if String.eqb p "MEDIUM" then "normal"
                                 else toLowerCase p)
                      else None
                  | None => None
                  end
             /\ zi_type sent =
                  match type source with
                  | Some t =>
                      if truthy_string t then Some (toLowerCase t) else None
                  | None => None
                  end
             /\ zi_tags sent = tags source
             /\ zi_custom_fields sent =
                  match cfm, field_mappings source with
                  | Some ms, Some fm => Some (desunify_fields ms fm [])
                  | _, _ => None
                  end).
  { intros r R1 R2 R3 R4 R5 [= <-].
    destruct (after_await_sent source cfm r) as (A1 & A2 & A3 & A4 & A5).
    rewrite A1, A2, A3, A4, A5, R1, R2, R3, R4, R5.
    repeat split; try reflexivity.
    - destruct (tags source); reflexivity. }
  destruct (assigned_to source) as [[|a rest]|]; simpl.
  - now apply Hgen.
  - destruct (getAssigneeMetadataFromUuid a) as [email|e]; simpl;
      [|discriminate].
    now apply Hgen.
  - now apply Hgen.
Qed.

(** The unified ticket is the object literal with the options spread
    over it. *)
Lemma mapSingle_spread ticket conn cfm u :
  mapSingle_ ticket conn cfm = Ok u ->
  exists opts, u = spread_opts opts (unified_base Tag new_Date ticket cfm).
Proof.
  unfold mapSingleTicketToUnified.
  destruct (truthy_onumber (zo_assignee_id ticket));
    [destruct (getUserUuidFromRemoteId _ conn) as [user_id|];
     cbn [obind]; [|discriminate]|cbn [obind]];
    (destruct (zo_tags ticket) as [ts|];
     [destruct (unify_tags ts conn) as [tags|]; cbn [obind];
      [|discriminate]|cbn [obind]]);
    intros H; apply Ok_inj in H; rewrite <- H; eexists; reflexivity.
Qed.

Lemma spread_opts_base opts (b : UnifiedTicketOutput Tag) :
  u_status (spread_opts opts b) = u_status b
  /\ u_priority (spread_opts opts b) = u_priority b
  /\ u_field_mappings (spread_opts opts b) = u_field_mappings b
  /\ u_remote_id (spread_opts opts b) = u_remote_id b
  /\ u_name (spread_opts opts b) = u_name b.
Proof. destruct opts; repeat split; reflexivity. Qed.

(** X1.  A unified status sent to Zendesk with [desunify] and read back
    with [unify] comes back as [OPEN] when its lower-case form is
    [new] or [open] and as [CLOSED] otherwise: [OPEN] and [CLOSED]
    come back as they were sent. *)
Theorem unified_status_round_trip
        (source : UnifiedTicketInput) (cfm : option (list mapping))
        (sent : ZendeskTicketInput) (ticket : ZendeskTicketOutput)
        (conn : string) (cfm' : option (list mapping))
        (u : UnifiedTicketOutput Tag) (s : string)
        (Hsent : desunify_ source cfm = Ok sent)
        (Hstored : zi_status sent = Some (zo_status ticket))
        (Hback : mapSingle_ ticket conn cfm' = Ok u)
        (Hs : status source = Some s) :
  u_status u =
    (if String.eqb (toLowerCase s) "new" || String.eqb (toLowerCase s) "open"
     then "OPEN" else "CLOSED")
  /\ (s = "OPEN" \/ s = "CLOSED" -> u_status u = s).
Proof.
  destruct (desunify_sent _ _ Hsent) as (S1 & _).
  rewrite Hs, Hstored in S1.
  destruct (truthy_string s); [|discriminate].
  injection S1 as S1.
  destruct (mapSingle_spread _ _ _ Hback) as [opts ->].
  destruct (spread_opts_base opts (unified_base Tag new_Date ticket cfm'))
    as (B1 & _).
  rewrite B1. simpl. rewrite S1.
  split; [reflexivity|].
  intros [-> | ->]; reflexivity.
Qed.

(** X2.  A unified priority comes back in Zendesk's vocabulary, lower
    case and with [normal] for [MEDIUM], since [unify] copies the
    priority of the Zendesk ticket.  A unified type, provided the
    Zendesk ticket has no tags, comes back as the upper case of its
    lower-case form, with [PROBLEM] when that form is [incident], and
    not at all when that form is empty; for a type in ASCII this is the
    upper case of the type itself, with [PROBLEM] for a type whose
    lower-case form is [incident]. *)
Theorem unified_priority_and_type_come_back
        (source : UnifiedTicketInput) (cfm : option (list mapping))
        (sent : ZendeskTicketInput) (ticket : ZendeskTicketOutput)
        (conn : string) (cfm' : option (list mapping))
        (u : UnifiedTicketOutput Tag)
        (Hsent : desunify_ source cfm = Ok sent)
        (Hback : mapSingle_ ticket conn cfm' = Ok u) :
  (forall p,
      priority source = Some p -> p <> "" ->
      zi_priority sent = Some (zo_priority ticket) ->
      u_priority u =
        (if String.eqb p "MEDIUM" then "normal" else toLowerCase p))
  /\ (forall t,
         type source = Some t -> t <> "" ->
         zi_type sent = zo_type ticket -> zo_tags ticket = None ->
         u_type u =
           if truthy_string (toLowerCase t)
           then Some (if String.eqb (toLowerCase t) "incident"
                      then "PROBLEM"
                      else toUpperCase (toLowerCase t))
           else None)
  /\ (forall t,
         type source = Some t -> t <> "" -> is_ascii t = true ->
         zi_type sent = zo_type ticket -> zo_tags ticket = None ->
         u_type u =
           Some (if String.eqb (toLowerCase t) "incident" then "PROBLEM"
                 else toUpperCase t)).
Proof.
  destruct (desunify_sent _ _ Hsent) as (_ & S2 & S3 & _).
  assert (Htype : forall t,
             type source = Some t -> t <> "" ->
             zi_type sent = zo_type ticket -> zo_tags ticket = None ->
             u_type u =
               if truthy_string (toLowerCase t)
               then Some (if String.eqb (toLowerCase t) "incident"
                          then "PROBLEM"
                          else toUpperCase (toLowerCase t))
               else None).
  { intros t Ht Hne Hstored Htags.
    rewrite Ht, Hstored in S3.
    assert (Htr : truthy_string t = true).
    { destruct t; [contradiction | reflexivity]. }
    rewrite Htr in S3.
    revert Hback. unfold mapSingleTicketToUnified.
    rewrite Htags, S3.
    destruct (truthy_string (toLowerCase t));
      (destruct (truthy_onumber (zo_assignee_id ticket));
       [destruct (getUserUuidFromRemoteId _ conn) as [user_id|]; simpl;
        [|discriminate]|simpl]);
      intros [= <-]; try reflexivity.
    destruct (truthy_ostring user_id); reflexivity. }
  split; [|split].
  - intros p Hp Hne Hstored.
    rewrite Hp, Hstored in S2.
    destruct (truthy_string p); [|discriminate].
    injection S2 as S2.
    destruct (mapSingle_spread _ _ _ Hback) as [opts ->].
    destruct (spread_opts_base opts (unified_base Tag new_Date ticket cfm'))
      as (_ & B2 & _).
    rewrite B2. simpl. assumption.
  - exact Htype.
  - intros t Ht Hne Hascii Hstored Htags.
    rewrite (Htype t Ht Hne Hstored Htags).
    rewrite truthy_toLowerCase, toUpperCase_toLowerCase by assumption.
    destruct t; [contradiction | reflexivity].
Qed.

(** X3.  For a Zendesk ticket without tags, a non-empty type hides the
    assignee: the unified ticket has the type and no [assigned_to],
    whatever the ticket's [assignee_id].  The assignee is reported only
    for a ticket that has neither tags nor a type, and then exactly
    when the lookup of its identifier gives a non-empty uuid. *)
Theorem unified_assignee_only_without_type_and_tags
        (ticket : ZendeskTicketOutput) (conn : string)
        (cfm : option (list mapping)) (u : UnifiedTicketOutput Tag)
        (Hback : mapSingle_ ticket conn cfm = Ok u) :
  (forall t,
      zo_tags ticket = None -> zo_type ticket = Some t -> t <> "" ->
      u_type u = Some (if String.eqb t "incident" then "PROBLEM"
                       else toUpperCase t)
      /\ u_assigned_to u = None /\ u_tags u = None)
  /\ (forall l,
         u_assigned_to u = Some l ->
         zo_tags ticket = None
         /\ (zo_type ticket = None \/ zo_type ticket = Some "")
         /\ exists n uuid,
             zo_assignee_id ticket = Some n /\ n <> 0%Z
             /\ getUserUuidFromRemoteId (String_of_number n) conn
                = Ok (Some uuid)
             /\ uuid <> "" /\ l = [uuid])
  /\ (forall n uuid,
         zo_tags ticket = None ->
         zo_type ticket = None \/ zo_type ticket = Some "" ->
         zo_assignee_id ticket = Some n -> n <> 0%Z ->
         getUserUuidFromRemoteId (String_of_number n) conn
         = Ok (Some uuid) ->
         uuid <> "" ->
         u_assigned_to u = Some [uuid] /\ u_type u = None
         /\ u_tags u = None).
Proof.
  revert Hback. unfold mapSingleTicketToUnified.
  destruct (zo_tags ticket) as [ts|] eqn:Hts.
  - (* tags *)
    destruct (truthy_onumber (zo_assignee_id ticket));
      [destruct (getUserUuidFromRemoteId _ conn); cbn [obind];
       [|discriminate]|cbn [obind]];
      (destruct (unify_tags ts conn) as [tags|]; cbn [obind];
       [|discriminate]);
      intros H; apply Ok_inj in H; subst u; simpl;
      (split; [intros; discriminate|split; intros; discriminate]).
  - destruct (zo_type ticket) as [t|] eqn:Ht.
    + destruct t as [|c t].
      * (* empty type *)
        simpl truthy_string. cbv iota.
        destruct (zo_assignee_id ticket) as [n|] eqn:Hn; simpl.
        -- destruct (Z.eqb n 0) eqn:Hz; simpl.
           ++ apply Z.eqb_eq in Hz. intros H; apply Ok_inj in H; subst u; simpl.
              split; [intros t' _ [= <-] Hne; contradiction|].
              split; [intros; discriminate|].
              intros n' uuid _ _ [= <-] Hne. contradiction.
           ++ apply Z.eqb_neq in Hz.
              destruct (getUserUuidFromRemoteId (String_of_number n) conn)
                as [user_id|] eqn:Hl; simpl; [|discriminate].
              intros H; apply Ok_inj in H; subst u.
              split; [intros t' _ [= <-] Hne; contradiction|].
              destruct user_id as [[|c0 uuid]|]; simpl.
              ** split; [intros; discriminate|].
                 intros n' uuid' _ _ [= <-] _ Hq Hne. rewrite Hl in Hq.
                 injection Hq as <-. contradiction.
              ** split.
                 --- intros l [= <-]. split; [reflexivity|].
                     split; [now right|].
                     exists n, (String c0 uuid). repeat split; try assumption.
                     discriminate.
                 --- intros n' uuid' _ _ [= <-] _ Hq _. rewrite Hl in Hq.
                     injection Hq as <-.
                     repeat split; reflexivity.
              ** split; [intros; discriminate|].
                 intros n' uuid' _ _ [= <-] _ Hq. rewrite Hl in Hq. discriminate.
        -- intros H; apply Ok_inj in H; subst u; simpl.
           split; [intros t' _ [= <-] Hne; contradiction|].
           split; [intros; discriminate|].
           intros n' uuid _ _ [=].
      * (* a type *)
        simpl truthy_string. cbv iota.
        destruct (truthy_onumber (zo_assignee_id ticket));
          [destruct (getUserUuidFromRemoteId _ conn); cbn [obind];
           [|discriminate]|cbn [obind]];
          intros H; apply Ok_inj in H; subst u; simpl;
          (split; [intros t' _ [= <-] _; repeat split; reflexivity|];
           split; [intros; discriminate|];
           intros n' uuid' _ [H|H]; discriminate).
    + (* no type *)
      destruct (zo_assignee_id ticket) as [n|] eqn:Hn; simpl.
      * destruct (Z.eqb n 0) eqn:Hz; simpl.
        -- apply Z.eqb_eq in Hz. intros H; apply Ok_inj in H; subst u; simpl.
           split; [intros; discriminate|].
           split; [intros; discriminate|].
           intros n' uuid _ _ [= <-] Hne. contradiction.
        -- apply Z.eqb_neq in Hz.
           destruct (getUserUuidFromRemoteId (String_of_number n) conn)
             as [user_id|] eqn:Hl; simpl; [|discriminate].
           intros H; apply Ok_inj in H; subst u.
           split; [intros; discriminate|].
           destruct user_id as [[|c0 uuid]|]; simpl.
           ++ split; [intros; discriminate|].
              intros n' uuid' _ _ [= <-] _ Hq Hne. rewrite Hl in Hq.
                 injection Hq as <-. contradiction.
           ++ split.
              ** intros l [= <-]. split; [reflexivity|].
                 split; [now left|].
                 exists n, (String c0 uuid). repeat split; try assumption.
                 discriminate.
              ** intros n' uuid' _ _ [= <-] _ Hq _. rewrite Hl in Hq.
                     injection Hq as <-.
                 repeat split; reflexivity.
           ++ split; [intros; discriminate|].
              intros n' uuid' _ _ [= <-] _ Hq. rewrite Hl in Hq. discriminate.
      * intros H; apply Ok_inj in H; subst u; simpl.
        split; [intros; discriminate|].
        split; [intros; discriminate|].
        intros n' uuid _ _ [=].
Qed.

Lemma unify_fields_keys ms fs acc :
  NoDup (keys acc) -> NoDup (keys (unify_fields ms fs acc)).
Proof.
  revert acc. induction ms as [|m ms IH]; intros acc Hnd; simpl.
  - assumption.
  - destruct (find_custom_field fs (remote_id m)); apply IH;
      [now apply JsFacts.obj_set_NoDup | assumption].
Qed.

Lemma unify_fields_origin ms fs acc k v :
  obj_get (unify_fields ms fs acc) k = Some v ->
  obj_get acc k = Some v
  \/ exists m f, In m ms /\ slug m = k
                 /\ find_custom_field fs (remote_id m) = Some f
                 /\ value f = v.
Proof.
  revert acc. induction ms as [|m ms IH]; intros acc; simpl.
  - now left.
  - destruct (find_custom_field fs (remote_id m)) as [f|] eqn:Hf; intros H;
      apply IH in H.
    + destruct H as [H | (m' & f' & Hin & Hs & Hf' & Hv)].
      * destruct (string_dec (slug m) k) as [Hk | Hne].
        -- subst k.
           destruct (JsFacts.obj_get_set acc (slug m) (value f))
             as [E | [_ E]]; rewrite E in H.
           ++ right. exists m, f. injection H as <-.
              repeat split; try assumption. now left.
           ++ now left.
        -- left. now rewrite JsFacts.obj_get_set_other in H.
      * right. exists m', f'. repeat split; try assumption. now right.
    + destruct H as [H | (m' & f' & Hin & Hs & Hf' & Hv)].
      * now left.
      * right. exists m', f'. repeat split; try assumption. now right.
Qed.

(** X4.  Field mappings sent with [desunify] and read back with [unify]
    under the same custom field mappings come back as they were sent,
    for the keys that are the slug of a mapping, but for the key
    [__proto__]; the other keys are lost, and so is [__proto__], which
    the assignment to the object that [unify] fills does not create.
    The keys of the field mappings and the remote identifiers of the
    mappings are taken to be distinct. *)
Theorem custom_fields_round_trip
        (source : UnifiedTicketInput) (ms : list mapping)
        (fm : Js.object string) (sent : ZendeskTicketInput)
        (ticket : ZendeskTicketOutput) (conn : string)
        (u : UnifiedTicketOutput Tag)
        (Hsent : desunify_ source (Some ms) = Ok sent)
        (Hfm : field_mappings source = Some fm)
        (Hstored : zi_custom_fields sent = Some (zo_custom_fields ticket))
        (Hback : mapSingle_ ticket conn (Some ms) = Ok u)
        (Hkeys : NoDup (keys fm))
        (Hids : NoDup (List.map remote_id ms)) :
  (forall k v,
      k <> "__proto__" ->
      obj_get (u_field_mappings u) k = Some v <->
      In (k, v) fm /\ exists m, find_mapping ms k = Some m)
  /\ obj_get (u_field_mappings u) "__proto__" = None.
Proof.
  destruct (desunify_sent _ _ Hsent) as (_ & _ & _ & _ & S5).
  rewrite Hfm, Hstored in S5. injection S5 as S5.
  destruct (mapSingle_spread _ _ _ Hback) as [opts ->].
  destruct (spread_opts_base opts
              (unified_base Tag new_Date ticket (Some ms)))
    as (_ & _ & B3 & _).
  rewrite B3. simpl. rewrite S5. split.
  - intros k v Hk. now apply sent_fields_round_trip.
  - now apply unify_fields_no_proto.
Qed.

(** X5.  The field mappings of a unified ticket have no duplicate key;
    each entry has for key the slug of a custom field mapping and for
    value the value of the first custom field of the Zendesk ticket
    whose id is the remote identifier of that mapping.  Without custom
    field mappings the field mappings are empty. *)
Theorem unified_field_mappings_come_from_custom_fields
        (ticket : ZendeskTicketOutput) (conn : string)
        (cfm : option (list mapping)) (u : UnifiedTicketOutput Tag)
        (Hback : mapSingle_ ticket conn cfm = Ok u) :
  NoDup (keys (u_field_mappings u))
  /\ (forall k v,
         obj_get (u_field_mappings u) k = Some v ->
         exists ms m f,
           cfm = Some ms /\ In m ms /\ slug m = k
           /\ find_custom_field (zo_custom_fields ticket) (remote_id m)
              = Some f
           /\ value f = v)
  /\ (cfm = None -> u_field_mappings u = []).
Proof.
  destruct (mapSingle_spread _ _ _ Hback) as [opts ->].
  destruct (spread_opts_base opts (unified_base Tag new_Date ticket cfm))
    as (_ & _ & B3 & _).
  rewrite B3. simpl. unfold unified_fields.
  destruct cfm as [ms|]; simpl.
  - split; [apply unify_fields_keys; constructor|].
    split; [|discriminate].
    intros k v H. apply unify_fields_origin in H.
    destruct H as [H | (m & f & Hin & Hs & Hf & Hv)]; [discriminate|].
    now exists ms, m, f.
  - split; [constructor|]. split; [discriminate | reflexivity].
Qed.

End Facts.

Import EngineFixtures.

Lemma unified_status_round_trip_witness :
  exists sent u,
    desunify (engine := sample_engine) sample_email sample_toISOString source (Some mappings) = Ok sent
    /\ zi_status sent = Some (zo_status stored)
    /\ mapSingleTicketToUnified (engine := sample_engine)
         sample_user_uuid sample_tags sample_new_Date
         stored "conn" (Some mappings) = Ok u
    /\ status source = Some "OPEN"
    /\ u_status u = "OPEN".
Proof.
  eexists. eexists.
  split; [reflexivity|]. split; [reflexivity|]. split; [reflexivity|].
  split; [reflexivity|].
  exact (proj2 (@unified_status_round_trip sample_engine string sample_email
                  sample_user_uuid sample_tags sample_toISOString
                  sample_new_Date source (Some mappings) _ stored "conn"
                  (Some mappings) _ "OPEN" eq_refl eq_refl eq_refl eq_refl)
               (or_introl eq_refl)).
Defined.

Lemma unified_priority_and_type_come_back_witness :
  exists sent u,
    desunify (engine := sample_engine) sample_email sample_toISOString source (Some mappings) = Ok sent
    /\ mapSingleTicketToUnified (engine := sample_engine)
         sample_user_uuid sample_tags sample_new_Date
         stored "conn" (Some mappings) = Ok u
    /\ priority source = Some "HIGH" /\ u_priority u = "high"
    /\ type source = Some "QUESTION" /\ u_type u = Some "QUESTION".
Proof.
  eexists. eexists.
  split; [reflexivity|]. split; [reflexivity|].
  pose proof (@unified_priority_and_type_come_back sample_engine string sample_email
                sample_user_uuid sample_tags sample_toISOString
                sample_new_Date source (Some mappings) _ stored "conn"
                (Some mappings) _ eq_refl eq_refl) as [Hp [_ Ht]].
  split; [reflexivity|].
  split; [apply (Hp "HIGH"); [reflexivity | discriminate | reflexivity]|].
  split; [reflexivity|].
  apply (Ht "QUESTION"); [reflexivity | discriminate | reflexivity
                          | reflexivity | reflexivity].
Defined.

Lemma unified_assignee_only_without_type_and_tags_witness :
  exists u,
    mapSingleTicketToUnified (engine := sample_engine)
         sample_user_uuid sample_tags sample_new_Date
      stored "conn" None = Ok u
    /\ zo_assignee_id stored = Some 235323%Z
    /\ u_type u = Some "QUESTION" /\ u_assigned_to u = None
    /\ u_tags u = None.
Proof.
  eexists. split; [reflexivity|]. split; [reflexivity|].
  apply (proj1 (@unified_assignee_only_without_type_and_tags sample_engine string
                  sample_user_uuid sample_tags sample_new_Date stored "conn"
                  None _ eq_refl) "question");
    [reflexivity | reflexivity | discriminate].
Defined.

Lemma custom_fields_round_trip_witness :
  exists sent u,
    desunify (engine := sample_engine) sample_email sample_toISOString source (Some mappings) = Ok sent
    /\ zi_custom_fields sent = Some (zo_custom_fields stored)
    /\ mapSingleTicketToUnified (engine := sample_engine)
         sample_user_uuid sample_tags sample_new_Date
         stored "conn" (Some mappings) = Ok u
    /\ obj_get (u_field_mappings u) "tier" = Some "gold"
    /\ obj_get (u_field_mappings u) "colour" = None.
Proof.
  eexists. eexists.
  split; [reflexivity|]. split; [reflexivity|]. split; [reflexivity|].
  split; [|reflexivity].
  assert (Hkeys : NoDup (keys [("tier", "gold"); ("colour", "red")])).
  { repeat constructor; simpl; intuition discriminate. }
  assert (Hids : NoDup (List.map remote_id mappings)).
  { repeat constructor; simpl; intuition discriminate. }
  apply (proj1 (@custom_fields_round_trip sample_engine string sample_email
                  sample_user_uuid sample_tags sample_toISOString
                  sample_new_Date source mappings
                  [("tier", "gold"); ("colour", "red")] _ stored "conn" _
                  eq_refl eq_refl eq_refl eq_refl Hkeys Hids)
               "tier" "gold"); [discriminate|].
  split; [now left | now exists {| slug := "tier"; remote_id := "360002" |}].
Defined.

Lemma unified_field_mappings_witness :
  exists u,
    mapSingleTicketToUnified (engine := sample_engine)
         sample_user_uuid sample_tags sample_new_Date
      stored "conn" (Some mappings) = Ok u
    /\ NoDup (keys (u_field_mappings u)).
Proof.
  eexists. split; [reflexivity|].
  apply (@unified_field_mappings_come_from_custom_fields sample_engine string
           sample_user_uuid sample_tags sample_new_Date stored "conn"
           (Some mappings) _ eq_refl).
Defined.

End ZendeskExtra.
(** The lemmas below take all their arguments explicitly. *)
Unset Implicit Arguments.

(** ** Promise.all *)

Module PromiseFacts.

Section All.
Variables A B : Type.
Variable f : A -> outcome B.

Lemma all_resolved l bs :
  Promise.all f l = Ok bs -> Forall2 (fun a b => f a = Ok b) l bs.
Proof.
  revert bs. induction l as [|a l IH]; simpl; intros bs H.
  - injection H as <-. constructor.
  - destruct (f a) as [b|] eqn:Ha; simpl in H; [|discriminate].
    destruct (Promise.all f l) as [bs'|]; simpl in H; [|discriminate].
    injection H as <-. constructor; [assumption | now apply IH].
Qed.

Lemma all_rejected l e :
  Promise.all f l = Throw e -> exists a, In a l /\ f a = Throw e.
Proof.
  induction l as [|a l IH]; simpl; intros H; [discriminate|].
  destruct (f a) as [b|e'] eqn:Ha; simpl in H.
  - destruct (Promise.all f l) as [bs'|e'']; simpl in H; [discriminate|].
    injection H as ->. destruct (IH eq_refl) as (a' & Hin & Ha').
    exists a'. split; [now right | assumption].
  - injection H as ->. exists a. split; [now left | assumption].
Qed.

Lemma all_resolves l :
  (forall a, In a l -> exists b, f a = Ok b) ->
  exists bs, Promise.all f l = Ok bs.
Proof.
  induction l as [|a l IH]; simpl; intros H.
  - now exists [].
  - destruct (H a (or_introl eq_refl)) as [b Hb]. rewrite Hb. simpl.
    destruct IH as [bs Hbs]; [intros a' Ha'; apply H; now right|].
    rewrite Hbs. simpl. now exists (b :: bs).
Qed.

End All.

End PromiseFacts.

(** ** GitLab ticket mapper *)

Module GitlabExtra.
Import GitlabTicketMapper JsSpec.

Section Facts.
Context {engine : Js.Engine}.
Variable Num : Type.
Variable Number_ : option string -> Num.
Variable Any : Type.
Variable Assignee : Type.
Variable truthy_assignee : Assignee -> bool.
Variable String_of_assignee : Assignee -> string.
Variable property : GitlabTicketOutput Assignee -> string -> Any.
Variable new_Date : string -> Date.
Variable Tag : Type.
Variable getCollectionRemoteIdFromUuid :
  option string -> outcome (option string).
Variable getAsigneeRemoteIdFromUserUuid :
  string -> outcome (option string).
Variable getUserUuidFromRemoteId :
  string -> string -> outcome (option string).
Variable getCollectionUuidFromRemoteId :
  string -> string -> outcome (option string).
Variable unify_tags : list string -> string -> outcome (list Tag).

Local Abbreviation desunify_ :=
  (desunify Number_ getCollectionRemoteIdFromUuid
            getAsigneeRemoteIdFromUserUuid).
Local Abbreviation mapSingle_ :=
  (mapSingleTicketToUnified truthy_assignee String_of_assignee property
     new_Date getUserUuidFromRemoteId getCollectionUuidFromRemoteId
     unify_tags).

Lemma gitlab_mapSingle_options
      (ticket : GitlabTicketOutput Assignee) (conn : string)
      (cfm : option (list mapping))
      (u : UnifiedTicketOutput Tag Any Assignee) :
  mapSingle_ ticket conn cfm = Ok u ->
  u_tags u =
    match go_labels ticket with
    | Some ls =>
        match unify_tags ls conn with
        | Ok tags => Some tags
        | Throw _ => None
        end
    | None => None
    end
  /\ (forall ls, go_labels ticket = Some ls ->
                 exists tags, unify_tags ls conn = Ok tags)
  /\ u_type u =
       match go_labels ticket, go_type ticket with
       | None, Some t =>
           if truthy_string t
           then Some (if String.eqb t "opened" then "OPEN" else "CLOSED")
           else None
       | _, _ => None
       end
  /\ u_assigned_to u =
       match go_labels ticket, go_assignee ticket with
       | None, Some a =>
           if truthy_assignee a
           then match getUserUuidFromRemoteId (String_of_assignee a)
                                              conn with
                | Ok (Some uuid) =>
                    if truthy_string uuid then Some [uuid] else None
                | _ => None
                end
           else None
       | _, _ => None
       end
  /\ u_collections u =
       match go_project_id ticket with
       | Some n =>
           if Z.eqb n 0 then None
           else match getCollectionUuidFromRemoteId (String_of_number n)
                                                    conn with
                | Ok (Some uuid) =>
                    if truthy_string uuid then Some [uuid] else None
                | _ => None
                end
       | None => None
       end
  /\ u_field_mappings u =
       match cfm with
       | Some ms => unify_fields property ms ticket []
       | None => []
       end.
Proof.
  unfold mapSingleTicketToUnified.
  destruct (go_type ticket) as [[|c t]|];
    destruct (go_assignee ticket) as [a|];
    try destruct (truthy_assignee a);
    try (destruct (getUserUuidFromRemoteId (String_of_assignee a) conn)
           as [[[|c1 uuid]|]|] eqn:Hlook);
    cbn [obind]; try discriminate;
    destruct (go_labels ticket) as [ls|];
    try (destruct (unify_tags ls conn) as [tags|] eqn:Htags);
    cbn [obind]; try discriminate;
    destruct (go_project_id ticket) as [n|];
    simpl truthy_onumber; try destruct (Z.eqb n 0); simpl negb; cbv iota;
    simpl nullish;
    try (destruct (getCollectionUuidFromRemoteId (String_of_number n) conn)
           as [[[|c2 cid]|]|] eqn:Hcoll);
    cbn [obind]; try discriminate;
    intros H; apply Ok_inj in H; subst u; simpl; rewrite ?Hlook.
  all: split; [reflexivity|].
  all: split; [|repeat split; reflexivity].
  all: try (intros ls' Hls; discriminate).
  all: intros ls' Hls; injection Hls as <-; exists tags; assumption.
Qed.

(** X6.  For a GitLab issue with labels, the unified ticket carries
    the unified tags and neither [type] nor [assigned_to]: the object
    assigned to [opts] for the labels replaces what the branches
    before it built.  Without labels the type and the assignee are
    both reported.  The collection of the issue's project is added
    after the labels and is reported in either case. *)
Theorem gitlab_labels_hide_type_and_assignee
        (ticket : GitlabTicketOutput Assignee) (conn : string)
        (cfm : option (list mapping))
        (u : UnifiedTicketOutput Tag Any Assignee)
        (Hback : mapSingle_ ticket conn cfm = Ok u) :
  (forall ls,
      go_labels ticket = Some ls ->
      u_type u = None /\ u_assigned_to u = None
      /\ exists tags, unify_tags ls conn = Ok tags /\ u_tags u = Some tags)
  /\ (go_labels ticket = None ->
      u_tags u = None
      /\ u_type u =
           match go_type ticket with
           | Some t =>
               if truthy_string t
               then Some (if String.eqb t "opened" then "OPEN" else "CLOSED")
               else None
           | None => None
           end
      /\ u_assigned_to u =
           match go_assignee ticket with
           | Some a =>
               if truthy_assignee a
               then match getUserUuidFromRemoteId (String_of_assignee a)
                                                  conn with
                    | Ok (Some uuid) =>
                        if truthy_string uuid then Some [uuid] else None
                    | _ => None
                    end
               else None
           | None => None
           end)
  /\ u_collections u =
       match go_project_id ticket with
       | Some n =>
           if Z.eqb n 0 then None
           else match getCollectionUuidFromRemoteId (String_of_number n)
                                                    conn with
                | Ok (Some uuid) =>
                    if truthy_string uuid then Some [uuid] else None
                | _ => None
                end
       | None => None
       end.
Proof.
  pose proof Hback as Ho. apply gitlab_mapSingle_options in Ho.
  destruct Ho as (Htags & Hls & Htype & Hassignee & Hcoll & _).
  split; [|split; [|assumption]].
  - intros ls E. rewrite E in Htags, Htype, Hassignee.
    split; [assumption|]. split; [assumption|].
    destruct (Hls _ E) as [tags Ht]. exists tags.
    rewrite Ht in Htags. now split.
  - intros E. rewrite E in Htags, Htype, Hassignee.
    repeat split; assumption.
Qed.

Lemma gitlab_desunify_sent (source : UnifiedTicketInput)
      (cfm : option (list mapping)) :
      (forall sent,
         desunify_ source cfm = Ok sent ->
         exists cs remote_project_id,
           collections source = Some cs
           /\ getCollectionRemoteIdFromUuid (List.nth_error cs 0)
              = Ok remote_project_id
           /\ gi_project_id sent = Number_ remote_project_id
           /\ gi_title sent = name source
           /\ gi_labels sent = tags source
           /\ gi_type sent =
                match status source with
                | Some st =>
                    if truthy_string st
                    then Some (if String.eqb st "OPEN" then "opened"
                               else "closed")
                    else None
                | None => None
                end).
Proof.
  unfold desunify.
  - intros sent.
    destruct (collections source) as [cs|]; [|discriminate].
    destruct (getCollectionRemoteIdFromUuid (nth_error cs 0))
      as [rp|] eqn:Hrp; cbn [obind]; [|discriminate].
    destruct (status source) as [[|c st]|];
      (destruct (assigned_to source) as [[|a rest]|];
       try (destruct (getAsigneeRemoteIdFromUserUuid a) as [data|]);
       cbn [obind]; try discriminate);
      destruct (tags source) as [ts|];
      intros H; apply Ok_inj in H; subst sent;
      exists cs, rp; repeat split; try assumption; reflexivity.
Qed.

(** X7.  A unified status sent to GitLab with [desunify] and read back
    with [unify] comes back in the field [type] of the unified ticket:
    [OPEN] as [OPEN] and every other non-empty status as [CLOSED],
    provided the issue has no labels. *)
Theorem gitlab_status_comes_back_as_type
        (source : UnifiedTicketInput) (cfm : option (list mapping))
        (sent : GitlabTicketInput Num)
        (ticket : GitlabTicketOutput Assignee) (conn : string)
        (cfm' : option (list mapping))
        (u : UnifiedTicketOutput Tag Any Assignee) (s : string)
        (Hsent : desunify_ source cfm = Ok sent)
        (Hstored : gi_type sent = go_type ticket)
        (Hlabels : go_labels ticket = None)
        (Hback : mapSingle_ ticket conn cfm' = Ok u)
        (Hs : status source = Some s) (Hne : s <> "") :
  u_type u = Some (if String.eqb s "OPEN" then "OPEN" else "CLOSED").
Proof.
  pose proof Hsent as Hd. apply gitlab_desunify_sent in Hd.
  destruct Hd as (cs & rp & _ & _ & _ & _ & _ & Hty).
  rewrite Hs in Hty.
  assert (Htr : truthy_string s = true).
  { destruct s; [contradiction | reflexivity]. }
  rewrite Htr, Hstored in Hty.
  pose proof Hback as Ho. apply gitlab_mapSingle_options in Ho.
  destruct Ho as (_ & _ & Hu & _).
  rewrite Hlabels, Hty in Hu. rewrite Hu. simpl.
  destruct (String.eqb s "OPEN"); reflexivity.
Qed.

Lemma gitlab_fields_keys ms ticket acc :
  NoDup (keys acc) -> NoDup (keys (unify_fields property ms ticket acc)).
Proof.
  revert acc. induction ms as [|m ms IH]; intros acc Hnd; simpl.
  - assumption.
  - apply IH. now apply JsFacts.obj_set_NoDup.
Qed.

Lemma gitlab_fields_origin ms ticket acc k v :
  obj_get (unify_fields property ms ticket acc) k = Some v ->
  obj_get acc k = Some v
  \/ exists m, In m ms /\ slug m = k
               /\ v = property ticket (remote_id m).
Proof.
  revert acc. induction ms as [|m ms IH]; intros acc; simpl.
  - now left.
  - intros H. apply IH in H.
    destruct H as [H | (m' & Hin & Hs & Hv)].
    + destruct (string_dec (slug m) k) as [Hk | Hne].
      * subst k.
        destruct (@JsFacts.obj_get_set Any acc (slug m)
                    (property ticket (remote_id m))) as [E | [_ E]];
          rewrite E in H.
        -- right. exists m. injection H as <-.
           repeat split. now left.
        -- now left.
      * left. now rewrite (@JsFacts.obj_get_set_other Any) in H.
    + right. exists m'. repeat split; try assumption. now right.
Qed.

Lemma gitlab_fields_kept ms ticket acc k :
  obj_get acc k <> None ->
  obj_get (unify_fields property ms ticket acc) k <> None.
Proof.
  revert acc. induction ms as [|m ms IH]; intros acc H; simpl.
  - assumption.
  - apply IH.
    destruct (string_dec (slug m) k) as [<- | Hne].
    + destruct (@JsFacts.obj_get_set Any acc (slug m)
                  (property ticket (remote_id m))) as [E | [_ E]];
        rewrite E; [discriminate | assumption].
    + now rewrite (@JsFacts.obj_get_set_other Any).
Qed.

Lemma gitlab_fields_all ms ticket acc m :
  In m ms -> slug m <> "__proto__" ->
  obj_get (unify_fields property ms ticket acc) (slug m) <> None.
Proof.
  revert acc. induction ms as [|m0 ms IH]; intros acc; simpl; [tauto|].
  intros [-> | Hin] Hproto.
  - apply gitlab_fields_kept.
    now rewrite (@JsFacts.obj_get_set_same Any) by assumption.
  - now apply IH.
Qed.

Lemma gitlab_fields_no_proto ms ticket acc :
  obj_get acc "__proto__" = None ->
  obj_get (unify_fields property ms ticket acc) "__proto__" = None.
Proof.
  revert acc. induction ms as [|m ms IH]; intros acc Hacc; simpl.
  - assumption.
  - apply IH. now apply JsFacts.obj_get_set_proto.
Qed.

(** X8.  The field mappings of a unified GitLab ticket have one entry
    for the slug of every custom field mapping, whether or not the
    issue has the property the mapping names, but for the slug
    [__proto__], for which the assignment creates no entry, and they
    have no duplicate key: the value of an entry is the property that
    a mapping of that slug names. *)
Theorem gitlab_field_mappings_have_every_slug
        (ticket : GitlabTicketOutput Assignee) (conn : string)
        (cfm : option (list mapping))
        (u : UnifiedTicketOutput Tag Any Assignee)
        (Hback : mapSingle_ ticket conn cfm = Ok u) :
  NoDup (keys (u_field_mappings u))
  /\ (forall ms m,
         cfm = Some ms -> In m ms -> slug m <> "__proto__" ->
         obj_get (u_field_mappings u) (slug m) <> None)
  /\ obj_get (u_field_mappings u) "__proto__" = None
  /\ (forall k v,
         obj_get (u_field_mappings u) k = Some v ->
         exists ms m,
           cfm = Some ms /\ In m ms /\ slug m = k
           /\ v = property ticket (remote_id m)).
Proof.
  pose proof Hback as Ho. apply gitlab_mapSingle_options in Ho.
  destruct Ho as (_ & _ & _ & _ & _ & Hfm).
  rewrite Hfm. destruct cfm as [ms|].
  - split; [apply gitlab_fields_keys; constructor|]. split; [|split].
    + intros ms' m [= <-] Hin Hproto. now apply gitlab_fields_all.
    + now apply gitlab_fields_no_proto.
    + intros k v H. apply gitlab_fields_origin in H.
      destruct H as [H | (m & Hin & Hs & Hv)]; [discriminate|].
      now exists ms, m.
  - split; [constructor|]. split; [discriminate|]. split; [reflexivity|].
    intros k v H. discriminate.
Qed.

(** X9.  [desunify] reads the first collection of the unified ticket
    before anything else: without [collections] it rejects with a
    [TypeError] and no lookup is made; when the lookup of the
    collection rejects, so does [desunify]; and a ticket that it
    produces has for project the number of what the lookup gave for
    the first collection, [undefined] when the array is empty. *)
Theorem gitlab_desunify_needs_collections
        (source : UnifiedTicketInput) (cfm : option (list mapping)) :
  (collections source = None ->
   desunify_ source cfm =
   Throw (TypeError "Cannot read properties of undefined (reading '0')"))
  /\ (forall cs e,
         collections source = Some cs ->
         getCollectionRemoteIdFromUuid (List.nth_error cs 0) = Throw e ->
         desunify_ source cfm = Throw e)
  /\ (forall sent,
         desunify_ source cfm = Ok sent ->
         exists cs remote_project_id,
           collections source = Some cs
           /\ getCollectionRemoteIdFromUuid (List.nth_error cs 0)
              = Ok remote_project_id
           /\ gi_project_id sent = Number_ remote_project_id).
Proof.
  split; [|split].
  - unfold desunify. intros ->. reflexivity.
  - unfold desunify. intros cs e -> ->. reflexivity.
  - intros sent Hsent. apply gitlab_desunify_sent in Hsent.
    destruct Hsent as (cs & rp & H1 & H2 & H3 & _).
    now exists cs, rp.
Qed.

End Facts.

Import GitlabSpec EngineFixtures.

Lemma gitlab_labels_hide_type_and_assignee_witness :
  exists u,
    mapSingleTicketToUnified (engine := sample_engine) sample_truthy sample_String sample_property
      ZendeskUnifySpec.sample_new_Date ZendeskUnifySpec.sample_user_uuid
      sample_collection_uuid ZendeskUnifySpec.sample_tags
      labelled_issue "conn" None = Ok u
    /\ go_type labelled_issue = Some "opened"
    /\ u_type u = None /\ u_assigned_to u = None
    /\ u_tags u = Some ["bug"]
    /\ u_collections u = Some ["collection-uuid"].
Proof.
  eexists. split; [reflexivity|]. split; [reflexivity|].
  destruct (@gitlab_labels_hide_type_and_assignee sample_engine (option string) string
              sample_truthy sample_String sample_property
              ZendeskUnifySpec.sample_new_Date string
              ZendeskUnifySpec.sample_user_uuid sample_collection_uuid
              ZendeskUnifySpec.sample_tags labelled_issue "conn" None _
              eq_refl) as (Hl & _ & Hc).
  destruct (Hl ["bug"] eq_refl) as (H1 & H2 & tags & H3 & H4).
  split; [exact H1|]. split; [exact H2|]. split; [reflexivity | exact Hc].
Defined.

Lemma gitlab_status_comes_back_as_type_witness :
  exists sent u,
    desunify sample_Number sample_remote_id sample_assignee_id source None
    = Ok sent
    /\ gi_type sent = go_type issue
    /\ mapSingleTicketToUnified (engine := sample_engine) sample_truthy sample_String sample_property
         ZendeskUnifySpec.sample_new_Date ZendeskUnifySpec.sample_user_uuid
         sample_collection_uuid ZendeskUnifySpec.sample_tags
         issue "conn" None = Ok u
    /\ status source = Some "OPEN"
    /\ u_type u = Some "OPEN".
Proof.
  eexists. eexists.
  split; [reflexivity|]. split; [reflexivity|]. split; [reflexivity|].
  split; [reflexivity|].
  apply (@gitlab_status_comes_back_as_type sample_engine (option string) sample_Number
           (option string) string sample_truthy sample_String
           sample_property ZendeskUnifySpec.sample_new_Date string
           sample_remote_id sample_assignee_id
           ZendeskUnifySpec.sample_user_uuid sample_collection_uuid
           ZendeskUnifySpec.sample_tags source None _ issue "conn" None _
           "OPEN" eq_refl eq_refl eq_refl eq_refl eq_refl).
  discriminate.
Defined.

Lemma gitlab_field_mappings_have_every_slug_witness :
  exists u,
    mapSingleTicketToUnified (engine := sample_engine) sample_truthy sample_String sample_property
      ZendeskUnifySpec.sample_new_Date ZendeskUnifySpec.sample_user_uuid
      sample_collection_uuid ZendeskUnifySpec.sample_tags
      issue "conn" (Some mappings) = Ok u
    /\ NoDup (keys (u_field_mappings u))
    /\ obj_get (u_field_mappings u) "epic" = Some None.
Proof.
  eexists. split; [reflexivity|].
  split; [|reflexivity].
  apply (@gitlab_field_mappings_have_every_slug sample_engine (option string) string
           sample_truthy sample_String sample_property
           ZendeskUnifySpec.sample_new_Date string
           ZendeskUnifySpec.sample_user_uuid sample_collection_uuid
           ZendeskUnifySpec.sample_tags issue "conn" (Some mappings) _
           eq_refl).
Defined.

End GitlabExtra.


(** ** [unify] on one ticket and on an array *)

Module UnifyExtra.

Section Facts.
Context {engine : Js.Engine}.
(** The Zendesk mapper. *)
Variable Tag : Type.
Variable getUserUuidFromRemoteId : string -> string -> outcome (option string).
Variable unify_tags : list string -> string -> outcome (list Tag).
Variable new_Date : string -> Z.
(** The Gitlab mapper. *)
Variable Any : Type.
Variable Assignee : Type.
Variable truthy_assignee : Assignee -> bool.
Variable String_of_assignee : Assignee -> string.
Variable property :
  GitlabTicketMapper.GitlabTicketOutput Assignee -> string -> Any.
Variable getCollectionUuidFromRemoteId :
  string -> string -> outcome (option string).

Local Abbreviation zendesk_one :=
  (ZendeskTicketMapper.mapSingleTicketToUnified
     getUserUuidFromRemoteId unify_tags new_Date).
Local Abbreviation zendesk_unify :=
  (ZendeskTicketMapper.unify getUserUuidFromRemoteId unify_tags new_Date).
Local Abbreviation gitlab_one :=
  (GitlabTicketMapper.mapSingleTicketToUnified
     truthy_assignee String_of_assignee property new_Date
     getUserUuidFromRemoteId getCollectionUuidFromRemoteId unify_tags).
Local Abbreviation gitlab_unify :=
  (GitlabTicketMapper.unify
     truthy_assignee String_of_assignee property new_Date
     getUserUuidFromRemoteId getCollectionUuidFromRemoteId unify_tags).

(** X10.  [unify] maps every ticket it is given with
    [mapSingleTicketToUnified], in order.  The Zendesk mapper gives
    one unified ticket for one ticket and an array of the same length
    for an array, and rejects for an array with the rejection of one
    of its tickets; the GitLab mapper gives an array in either case,
    of one element for one ticket. *)
Theorem unify_maps_every_ticket_in_order
        (conn : string)
        (cfmZ : option (list ZendeskTicketMapper.mapping))
        (cfmG : option (list GitlabTicketMapper.mapping)) :
  (forall t r,
      zendesk_unify (One t) conn cfmZ = Ok r ->
      exists u, r = One u /\ zendesk_one t conn cfmZ = Ok u)
  /\ (forall l r,
         zendesk_unify (Array l) conn cfmZ = Ok r ->
         exists us,
           r = Array us
           /\ Forall2 (fun t u => zendesk_one t conn cfmZ = Ok u) l us)
  /\ (forall l e,
         zendesk_unify (Array l) conn cfmZ = Throw e ->
         exists t, In t l /\ zendesk_one t conn cfmZ = Throw e)
  /\ (forall t us,
         gitlab_unify (One t) conn cfmG = Ok us ->
         exists u, us = [u] /\ gitlab_one t conn cfmG = Ok u)
  /\ (forall l us,
         gitlab_unify (Array l) conn cfmG = Ok us ->
         Forall2 (fun t u => gitlab_one t conn cfmG = Ok u) l us).
Proof.
  repeat split.
  - intros t r. unfold ZendeskTicketMapper.unify.
    destruct (zendesk_one t conn cfmZ) as [u|]; simpl; [|discriminate].
    intros [= <-]. now exists u.
  - intros l r. unfold ZendeskTicketMapper.unify.
    destruct (Promise.all _ l) as [us|] eqn:Hall; simpl; [|discriminate].
    intros [= <-]. exists us. split; [reflexivity|].
    now apply PromiseFacts.all_resolved.
  - intros l e. unfold ZendeskTicketMapper.unify.
    destruct (Promise.all _ l) as [us|e'] eqn:Hall; simpl; [discriminate|].
    intros [= <-]. now apply PromiseFacts.all_rejected in Hall.
  - intros t us. unfold GitlabTicketMapper.unify. intros H.
    apply PromiseFacts.all_resolved in H.
    inversion H as [|? u ? us' Hu Hrest]; subst.
    inversion Hrest; subst. now exists u.
  - intros l us. unfold GitlabTicketMapper.unify.
    apply PromiseFacts.all_resolved.
Qed.

End Facts.

End UnifyExtra.
(** ** Reading interviews *)

Module InterviewExtra.

Import AtsInterviews InterviewService InterviewSpec InterviewReadSpec.

Section Facts.
Variable Json : Type.
Variable JSON_parse : option string -> outcome Json.
Variable String_of_Date : option Date -> string.

Local Abbreviation getInterviews_ :=
  (InterviewService.getInterviews JSON_parse String_of_Date).
Local Abbreviation getInterview_ :=
  (InterviewService.getInterview JSON_parse String_of_Date).
Local Abbreviation to_unified_ :=
  (InterviewService.to_unified Json String_of_Date).
Local Abbreviation with_remote_ := (InterviewService.with_remote JSON_parse).

Lemma all_ext (A B : Type) (f g : A -> outcome B) l :
  (forall a, f a = g a) -> all f l = all g l.
Proof.
  intros H. induction l as [|a l IH]; simpl; [reflexivity|].
  now rewrite H, IH.
Qed.

Lemma to_unified_same w w' r :
  same_interviews w w' -> to_unified_ w' r = to_unified_ w r.
Proof.
  intros [_ Hv He Ha _].
  unfold InterviewService.to_unified, values_of. now rewrite Hv, He, Ha.
Qed.

Lemma with_remote_same w w' u :
  same_interviews w w' -> with_remote_ w' u = with_remote_ w u.
Proof.
  intros [_ _ _ _ Hr]. unfold InterviewService.with_remote. now rewrite Hr.
Qed.

Lemma interviews_page_same w w' conn limit cursor :
  same_interviews w w' ->
  interviews_page conn limit cursor w' = interviews_page conn limit cursor w.
Proof.
  intros [Hi _ _ _ _]. unfold interviews_page. now rewrite Hi.
Qed.

Lemma same_after_pull integ lu w : same_interviews w (after_pull integ lu w).
Proof. split; reflexivity. Qed.

(** The outcome of [getInterviews] depends on the store only through
    the five tables. *)
Lemma getInterviews_same w w' conn integ lu limit rd cursor :
  same_interviews w w' ->
  fst (getInterviews_ conn integ lu limit rd cursor w')
  = fst (getInterviews_ conn integ lu limit rd cursor w).
Proof.
  intros Hs. rewrite !InterviewFacts.getInterviews_run.
  rewrite (interviews_page_same w w' conn limit cursor Hs).
  pose proof Hs as [Hi Hv He Ha Hr]. rewrite Hi.
  destruct (truthy_ostring cursor && _); [reflexivity|].
  destruct (popped limit _) as [[interviews next]|]; [|reflexivity].
  rewrite (all_ext _ _ (to_unified_ w') (to_unified_ w))
    by (intros a; now apply to_unified_same).
  destruct (all (to_unified_ w) interviews) as [unified|]; [|reflexivity].
  destruct (truthy_obool rd).
  - rewrite (all_ext _ _ (with_remote_ w') (with_remote_ w))
      by (intros a; now apply with_remote_same).
    destruct (all (with_remote_ w) unified); reflexivity.
  - reflexivity.
Qed.

(** X11.  A call of [getInterviews] that resolves has added one row to
    the events, a successful [ats.interview.pull] for the integration
    and the linked user it was given, and has changed no other table;
    a call that rejects leaves the store as it was.  The [prev_cursor]
    of the page is the base64 form of the cursor that was passed in,
    and [null] without one. *)
Theorem getInterviews_logs_one_pull_event
        (conn integ lu : string) (limit : nat) (rd : option bool)
        (cursor : option string) (w : World) :
  match getInterviews_ conn integ lu limit rd cursor w with
  | (Ok p, w') =>
      w' = after_pull integ lu w
      /\ Db.events w' =
         Db.events w
         ++ [pull_event (Db.sys_uuid w (Db.uuid_draws w)) integ
                        (Db.sys_clock w (Db.clock_reads w)) lu]
      /\ same_interviews w w'
      /\ prev_cursor p =
         (if truthy_ostring cursor
          then Some (Base64.encode (nullish cursor "")) else None)
  | (Throw _, w') => w' = w
  end.
Proof.
  rewrite InterviewFacts.getInterviews_run.
  destruct (truthy_ostring cursor && _); [reflexivity|].
  destruct (popped limit _) as [[interviews next]|]; [|reflexivity].
  destruct (all (to_unified_ w) _) as [unified|]; [|reflexivity].
  destruct (truthy_obool rd).
  - destruct (all (with_remote_ w) unified); [|reflexivity].
    repeat split; reflexivity.
  - repeat split; reflexivity.
Qed.

(** X12.  Reading is repeatable: after a call of [getInterviews] that
    resolved with a page, the same call resolves with the same page,
    cursors included, and again adds one event. *)
Theorem getInterviews_twice_gives_the_same_page
        (conn integ lu : string) (limit : nat) (rd : option bool)
        (cursor : option string) (w w1 : World) (p : page Json)
        (Hpage : getInterviews_ conn integ lu limit rd cursor w = (Ok p, w1)) :
  getInterviews_ conn integ lu limit rd cursor w1
  = (Ok p, after_pull integ lu w1).
Proof.
  pose proof Hpage as Hres.
  apply InterviewFacts.getInterviews_resolved in Hres.
  destruct Hres as [-> _].
  pose proof (getInterviews_same w (after_pull integ lu w) conn integ lu
                limit rd cursor (same_after_pull integ lu w)) as Hfst.
  rewrite Hpage in Hfst. simpl in Hfst.
  pose proof (InterviewFacts.getInterviews_run JSON_parse String_of_Date
                conn integ lu limit rd cursor (after_pull integ lu w))
    as Hrun.
  destruct (getInterviews_ conn integ lu limit rd cursor
                           (after_pull integ lu w)) as [r w2].
  simpl in Hfst. subst r.
  destruct (truthy_ostring cursor && _); [discriminate|].
  destruct (popped limit _) as [[interviews next]|]; [|discriminate].
  destruct (all _ interviews) as [unified|]; [|discriminate].
  destruct (if truthy_obool rd then _ else _); [|discriminate].
  injection Hrun as _ ->. reflexivity.
Qed.

Lemma getInterview_run id lu integ rd w :
  getInterview_ id lu integ rd w =
  match Prisma.findFirst
          (fun r => String.eqb (id_ats_interview r) id)
          (Db.ats_interviews w) with
  | None =>
      (Throw (TypeError
         "Cannot read properties of null (reading 'id_ats_interview')"), w)
  | Some interview =>
      match to_unified_ w interview with
      | Throw e => (Throw e, w)
      | Ok unified =>
          match (if truthy_obool rd then with_remote_ w unified
                 else Ok unified) with
          | Throw e => (Throw e, w)
          | Ok res =>
              (Ok res,
               if truthy_ostring lu && truthy_ostring integ
               then after_pull_one (nullish integ "") (nullish lu "") w
               else w)
          end
      end
  end.
Proof.
  unfold InterviewService.getInterview. eff.
  destruct (Prisma.findFirst _ _) as [interview|]; [|reflexivity].
  destruct (to_unified_ w interview) as [unified|]; [|reflexivity].
  destruct (truthy_obool rd).
  - destruct (with_remote_ w unified); [|reflexivity].
    destruct (truthy_ostring lu && truthy_ostring integ); reflexivity.
  - destruct (truthy_ostring lu && truthy_ostring integ); reflexivity.
Qed.

(** X13.  [getInterview] of an identifier that no interview has rejects
    with the [TypeError] of reading a property of [null], and leaves
    the store as it was.  A call that resolves returns the interview of
    that identifier; it records one [ats.interview.pull] event when it
    is given both a linked user and an integration, and changes
    nothing otherwise.  A call that rejects changes nothing. *)
Theorem getInterview_of_unknown_id_is_a_TypeError
        (id : string) (lu integ : option string) (rd : option bool)
        (w : World) :
  (Forall (fun r => id_ats_interview r <> id) (Db.ats_interviews w) ->
   getInterview_ id lu integ rd w
   = (Throw (TypeError
        "Cannot read properties of null (reading 'id_ats_interview')"), w))
  /\ match getInterview_ id lu integ rd w with
     | (Ok u, w') =>
         u_id u = id
         /\ (exists r, In r (Db.ats_interviews w)
                       /\ id_ats_interview r = id)
         /\ w' = (if truthy_ostring lu && truthy_ostring integ
                  then after_pull_one (nullish integ "") (nullish lu "") w
                  else w)
     | (Throw _, w') => w' = w
     end.
Proof.
  rewrite getInterview_run. split.
  - intros Hall.
    destruct (Prisma.findFirst _ _) as [r|] eqn:Hf; [|reflexivity].
    apply PrismaFacts.findFirst_split in Hf.
    destruct Hf as (l1 & l2 & Ht & Hr & _).
    apply String.eqb_eq in Hr. rewrite Forall_forall in Hall.
    exfalso. apply (Hall r); [|assumption].
    rewrite Ht. apply in_or_app. right. now left.
  - destruct (Prisma.findFirst _ _) as [r|] eqn:Hf; [|reflexivity].
    apply PrismaFacts.findFirst_split in Hf.
    destruct Hf as (l1 & l2 & Ht & Hr & _).
    apply String.eqb_eq in Hr.
    destruct (to_unified_ w r) as [unified|] eqn:Hu; [|reflexivity].
    apply InterviewFacts.to_unified_columns in Hu. destruct Hu as [Hid _].
    assert (Hin : exists r0, In r0 (Db.ats_interviews w)
                             /\ id_ats_interview r0 = id).
    { exists r. split; [|assumption].
      rewrite Ht. apply in_or_app. right. now left. }
    destruct (truthy_obool rd).
    + destruct (with_remote_ w unified) as [res|] eqn:Hres; [|reflexivity].
      apply InterviewFacts.with_remote_columns in Hres.
      destruct Hres as [Hid' _].
      repeat split; [congruence | assumption].
    + repeat split; [congruence | assumption].
Qed.

Lemma findFirst_by_id r t :
  NoDup (List.map id_ats_interview t) -> In r t ->
  Prisma.findFirst
    (fun x => String.eqb (id_ats_interview x) (id_ats_interview r)) t
  = Some r.
Proof.
  induction t as [|x t IH]; simpl; [tauto|].
  intros Hnd [-> | Hin].
  - now rewrite String.eqb_refl.
  - inversion Hnd as [|? ? Hni Hnd']; subst.
    destruct (String.eqb (id_ats_interview x) (id_ats_interview r)) eqn:E.
    + apply String.eqb_eq in E. exfalso. apply Hni. rewrite E.
      now apply in_map.
    + now apply IH.
Qed.

(** X14.  The list and the single read agree: every unified interview
    of a page that [getInterviews] returns is what [getInterview]
    returns for its identifier with the same [remote_data] flag, the
    identifiers of the interviews being distinct. *)
Theorem getInterviews_items_are_what_getInterview_returns
        (conn integ lu : string) (limit : nat) (rd : option bool)
        (cursor : option string) (w w1 : World) (p : page Json)
        (Hids : NoDup (List.map id_ats_interview (Db.ats_interviews w)))
        (Hpage : getInterviews_ conn integ lu limit rd cursor w = (Ok p, w1)) :
  Forall (fun u => getInterview_ (u_id u) None None rd w = (Ok u, w))
         (data p).
Proof.
  revert Hpage.
  rewrite InterviewFacts.getInterviews_run,
    InterviewFacts.interviews_page_from_position.
  destruct (truthy_ostring cursor && _); [discriminate|].
  destruct (InterviewFacts.popped_firstn limit (from_position conn cursor w))
    as [[_ ->]|(x & _ & ->)];
    (destruct (all (to_unified_ w) _) as [unified|] eqn:Hu; [|discriminate];
     apply InterviewFacts.all_Forall2 in Hu;
     assert (Hone :
       Forall2 (fun r u0 =>
                  In r (Db.ats_interviews w) /\ to_unified_ w r = Ok u0)
               (firstn limit (from_position conn cursor w)) unified);
     [ assert (Hsub : forall r,
                 In r (firstn limit (from_position conn cursor w)) ->
                 In r (Db.ats_interviews w));
       [ intros r Hr;
         assert (Hr' : In r (from_position conn cursor w))
           by (rewrite <- (firstn_skipn limit (from_position conn cursor w));
               apply in_or_app; now left);
         now apply InterviewFacts.from_position_in in Hr'
       | revert Hsub; induction Hu as [|r u0 l us Hr _ IH]; intros Hsub;
         constructor;
         [ split; [apply Hsub; now left | assumption]
         | apply IH; intros r' Hr'; apply Hsub; now right ] ]
     | ]).
  all: destruct (truthy_obool rd) eqn:Hrd.
  all: try (destruct (all (with_remote_ w) unified) as [res|] eqn:Hr;
            [|discriminate]; apply InterviewFacts.all_Forall2 in Hr).
  all: intros [= <- _]; simpl.
  all: clear Hu.
  - revert res Hr. induction Hone as [|r u0 l us [Hin Hr0] _ IH];
      intros res Hr; inversion Hr as [|? u ? res' Hu Hrest]; subst;
      constructor.
    + pose proof Hr0 as Hid.
      apply InterviewFacts.to_unified_columns in Hid. destruct Hid as [Hid _].
      pose proof Hu as Hid'.
      apply InterviewFacts.with_remote_columns in Hid'.
      destruct Hid' as [Hid' _].
      rewrite getInterview_run, Hid', Hid, (findFirst_by_id _ _ Hids Hin),
        Hr0, Hrd, Hu.
      reflexivity.
    + now apply IH.
  - induction Hone as [|r u0 l us [Hin Hr0] _ IH]; constructor.
    + pose proof Hr0 as Hid.
      apply InterviewFacts.to_unified_columns in Hid. destruct Hid as [Hid _].
      rewrite getInterview_run, Hid, (findFirst_by_id _ _ Hids Hin), Hr0, Hrd.
      reflexivity.
    + assumption.
  - revert res Hr. induction Hone as [|r u0 l us [Hin Hr0] _ IH];
      intros res Hr; inversion Hr as [|? u ? res' Hu Hrest]; subst;
      constructor.
    + pose proof Hr0 as Hid.
      apply InterviewFacts.to_unified_columns in Hid. destruct Hid as [Hid _].
      pose proof Hu as Hid'.
      apply InterviewFacts.with_remote_columns in Hid'.
      destruct Hid' as [Hid' _].
      rewrite getInterview_run, Hid', Hid, (findFirst_by_id _ _ Hids Hin),
        Hr0, Hrd, Hu.
      reflexivity.
    + now apply IH.
  - induction Hone as [|r u0 l us [Hin Hr0] _ IH]; constructor.
    + pose proof Hr0 as Hid.
      apply InterviewFacts.to_unified_columns in Hid. destruct Hid as [Hid _].
      rewrite getInterview_run, Hid, (findFirst_by_id _ _ Hids Hin), Hr0, Hrd.
      reflexivity.
    + assumption.
Qed.

End Facts.

Lemma getInterviews_twice_witness :
  exists p w1,
    InterviewService.getInterviews sample_JSON_parse sample_String_of_Date
      "c1" "greenhouse" "lu-1" 2 None None three_interviews = (Ok p, w1)
    /\ List.length (data p) = 2
    /\ InterviewService.getInterviews sample_JSON_parse
         sample_String_of_Date "c1" "greenhouse" "lu-1" 2 None None w1
       = (Ok p, after_pull "greenhouse" "lu-1" w1).
Proof.
  pose (run := InterviewService.getInterviews sample_JSON_parse
                 sample_String_of_Date "c1" "greenhouse" "lu-1" 2 None None
                 three_interviews).
  assert (Hrun : run = (fst run, snd run)) by (destruct run; reflexivity).
  assert (Hok : exists p, fst run = Ok p /\ List.length (data p) = 2).
  { eexists. split; vm_compute; reflexivity. }
  destruct Hok as (p & Hp & Hlen).
  rewrite Hp in Hrun.
  exists p, (snd run). split; [exact Hrun|]. split; [exact Hlen|].
  exact (getInterviews_twice_gives_the_same_page string sample_JSON_parse
           sample_String_of_Date "c1" "greenhouse" "lu-1" 2 None None
           three_interviews (snd run) p Hrun).
Defined.

Lemma getInterviews_items_witness :
  exists p w1,
    NoDup (List.map id_ats_interview (Db.ats_interviews three_interviews))
    /\ InterviewService.getInterviews sample_JSON_parse
         sample_String_of_Date "c1" "greenhouse" "lu-1" 2 None None
         three_interviews = (Ok p, w1)
    /\ List.length (data p) = 2
    /\ Forall
         (fun u =>
            InterviewService.getInterview sample_JSON_parse
              sample_String_of_Date (u_id u) None None None three_interviews
            = (Ok u, three_interviews))
         (data p).
Proof.
  assert (Hids : NoDup (List.map id_ats_interview
                                 (Db.ats_interviews three_interviews))).
  { simpl. repeat constructor; simpl; intuition discriminate. }
  pose (run := InterviewService.getInterviews sample_JSON_parse
                 sample_String_of_Date "c1" "greenhouse" "lu-1" 2 None None
                 three_interviews).
  assert (Hrun : run = (fst run, snd run)) by (destruct run; reflexivity).
  assert (Hok : exists p, fst run = Ok p /\ List.length (data p) = 2).
  { eexists. split; vm_compute; reflexivity. }
  destruct Hok as (p & Hp & Hlen).
  rewrite Hp in Hrun.
  exists p, (snd run). split; [exact Hids|]. split; [exact Hrun|].
  split; [exact Hlen|].
  exact (getInterviews_items_are_what_getInterview_returns string
           sample_JSON_parse sample_String_of_Date "c1" "greenhouse" "lu-1"
           2 None None three_interviews (snd run) p Hids Hrun).
Defined.

End InterviewExtra.
(** ** What a save of groups keeps *)

Module GroupExtra.

Import Unified GroupSync SyncSpec KeptFacts GroupSaveSpec.

Lemma row_evolves_refl r : row_evolves r r.
Proof. constructor; auto. Qed.

Lemma row_evolves_trans r1 r2 r3 :
  row_evolves r1 r2 -> row_evolves r2 r3 -> row_evolves r1 r3.
Proof.
  intros [] []. constructor; try congruence; auto.
Qed.

Lemma Forall2_refl (A : Type) (R : A -> A -> Prop) l :
  (forall a, R a a) -> Forall2 R l l.
Proof. intros H. induction l; constructor; auto. Qed.

Lemma Forall2_trans (A : Type) (R : A -> A -> Prop) l1 l2 l3 :
  (forall a b c, R a b -> R b c -> R a c) ->
  Forall2 R l1 l2 -> Forall2 R l2 l3 -> Forall2 R l1 l3.
Proof.
  intros HR H12. revert l3. induction H12; intros l3 H23; inversion H23; subst.
  - constructor.
  - constructor; eauto.
Qed.

Lemma table_evolves_refl t : table_evolves t t.
Proof.
  exists t, []. split; [now rewrite app_nil_r|].
  apply Forall2_refl, row_evolves_refl.
Qed.

Lemma table_evolves_trans t1 t2 t3 :
  table_evolves t1 t2 -> table_evolves t2 t3 -> table_evolves t1 t3.
Proof.
  intros (rows & added & -> & H12) (rows' & added' & -> & H23).
  apply Forall2_app_inv_l in H23.
  destruct H23 as (ra & rb & Ha & Hb & ->).
  exists ra, (rb ++ added'). split; [now rewrite app_assoc|].
  eapply Forall2_trans; [apply row_evolves_trans | eassumption | eassumption].
Qed.

Lemma update_data_evolves group m r : row_evolves r (update_data group m r).
Proof.
  constructor; simpl; try reflexivity.
  - intros H. destruct (truthy_obool (g_remote_was_deleted group)) eqn:E;
      [|assumption].
    destruct (g_remote_was_deleted group) as [[]|]; simpl in E;
      try discriminate. reflexivity.
  - intros H. destruct (truthy_ostring (g_name group)) eqn:E; assumption.
  - intros H. destruct (g_users group) as [us|]; simpl; [discriminate|].
    assumption.
Qed.

Lemma update_evolves (q : FsGroups.row -> bool) group m t res t' :
  Prisma.update q (update_data group m) t = Some (res, t') ->
  Forall2 row_evolves t t'.
Proof.
  revert res t'. induction t as [|x t IH]; simpl; intros res t' H;
    [discriminate|].
  destruct (q x).
  - injection H as <- <-. constructor.
    + apply update_data_evolves.
    + apply Forall2_refl, row_evolves_refl.
  - destruct (Prisma.update q (update_data group m) t) as [[res0 t0]|] eqn:E;
      [|discriminate].
    injection H as <- <-. constructor; [apply row_evolves_refl|].
    eapply IH. reflexivity.
Qed.

(** The tables that the first half of the loop body leaves alone. *)
Lemma upsertGroup_step conn group origin w :
  exists res w',
    upsertGroup conn group origin w = (Ok res, w')
    /\ table_evolves (Db.fs_groups w) (Db.fs_groups w')
    /\ In res (Db.fs_groups w')
    /\ Db.entity w' = Db.entity w
    /\ Db.value w' = Db.value w
    /\ Db.remote_data w' = Db.remote_data w
    /\ Db.attribute w' = Db.attribute w.
Proof.
  unfold upsertGroup. eff. simpl.
  destruct (Prisma.findFirst _ (Db.fs_groups w)) as [r|] eqn:Hfind; simpl.
  - destruct (PrismaFacts.findFirst_split _ _ Hfind)
      as (l1 & l2 & Ht & _ & _).
    destruct (GroupFacts.update_some
                (fun x => String.eqb (FsGroups.id_fs_group x)
                                     (FsGroups.id_fs_group r))
                (update_data group (Db.sys_clock w (Db.clock_reads w)))
                (Db.fs_groups w) r) as (res & t' & Hu).
    + rewrite Ht. apply in_or_app. right. now left.
    + apply String.eqb_refl.
    + rewrite Hu. simpl. exists res. eexists.
      split; [reflexivity|]. simpl. repeat split; try reflexivity.
      * exists t', []. split; [now rewrite app_nil_r|].
        eapply update_evolves. exact Hu.
      * clear - Hu. revert res t' Hu.
        induction (Db.fs_groups w) as [|x t IH]; simpl; intros res t' Hu;
          [discriminate|].
        destruct (String.eqb _ _).
        -- injection Hu as <- <-. now left.
        -- destruct (Prisma.update _ _ t) as [[res0 t0]|] eqn:E;
             [|discriminate].
           injection Hu as <- <-. right. eapply IH. reflexivity.
  - eexists. eexists. split; [reflexivity|]. simpl.
    repeat split; try reflexivity.
    + eexists. eexists. split; [reflexivity|].
      apply Forall2_refl, row_evolves_refl.
    + unfold Prisma.create. apply in_or_app. right. now left.
Qed.

Section Facts.
Variable Original : Type.
Variable JSON_stringify : Original -> string.

Local Abbreviation saveGroup_ := (GroupSync.saveGroup JSON_stringify).
Local Abbreviation saveGroups_from_ :=
  (GroupSync.saveGroups_from JSON_stringify).
Local Abbreviation saveGroupsInDb_ :=
  (GroupSync.saveGroupsInDb JSON_stringify).
Local Abbreviation finishGroup_ := (SyncSpec.finishGroup JSON_stringify).

Lemma save_field_values_step es src lu ide w :
  exists w' added,
    save_field_values es src lu ide w = (Ok tt, w')
    /\ Db.fs_groups w' = Db.fs_groups w
    /\ Db.entity w' = Db.entity w
    /\ Db.remote_data w' = Db.remote_data w
    /\ Db.attribute w' = Db.attribute w
    /\ Db.value w' = Db.value w ++ added
    /\ List.length added <= List.length es
    /\ Forall (fun v => Value.id_entity v = ide) added.
Proof.
  revert w. induction es as [|[slug value] es IH]; intros w; simpl.
  - exists w, []. rewrite app_nil_r. repeat split; auto.
  - eff. simpl.
    destruct (Prisma.findFirst _ (Db.attribute w)) as [a|]; simpl.
    + match goal with
      | |- context [save_field_values es src lu ide ?w1] =>
          destruct (IH w1)
            as (w' & added & Hrun & Hg & He & Hr & Ha & Hv & Hlen & Hall)
      end.
      simpl in Hg, He, Hr, Ha, Hv. unfold Prisma.create in Hv.
      rewrite <- app_assoc in Hv. simpl in Hv.
      match type of Hv with
      | _ = _ ++ ?l => exists w', l
      end.
      rewrite Hrun. repeat split; try assumption.
      * simpl. lia.
      * constructor; [reflexivity | assumption].
    + destruct (IH w)
        as (w' & added & Hrun & Hg & He & Hr & Ha & Hv & Hlen & Hall).
      exists w', added. rewrite Hrun. repeat split; try assumption. lia.
Qed.

Lemma update_owner_keeps owner (f : RemoteData.row -> RemoteData.row) t res t' :
  (forall r, RemoteData.ressource_owner_id (f r)
             = RemoteData.ressource_owner_id r) ->
  Prisma.update
    (fun r => String.eqb (RemoteData.ressource_owner_id r) owner) f t
  = Some (res, t') ->
  owners t' = owners t /\ In owner (owners t).
Proof.
  intros Hf. revert res t'.
  induction t as [|x t IH]; simpl; intros res t' H; [discriminate|].
  destruct (String.eqb (RemoteData.ressource_owner_id x) owner) eqn:E.
  - injection H as <- <-. apply String.eqb_eq in E.
    unfold owners. simpl. rewrite Hf. split; [reflexivity | now left].
  - destruct (Prisma.update _ f t) as [[res0 t0]|] eqn:Eu; [|discriminate].
    injection H as <- <-. destruct (IH _ _ eq_refl) as [Ho Hin].
    unfold owners in *. simpl. rewrite Ho. split; [reflexivity | now right].
Qed.

Lemma update_owner_none owner (f : RemoteData.row -> RemoteData.row) t :
  Prisma.update
    (fun r => String.eqb (RemoteData.ressource_owner_id r) owner) f t
  = None ->
  ~ In owner (owners t).
Proof.
  induction t as [|x t IH]; simpl; intros H; [tauto|].
  destruct (String.eqb (RemoteData.ressource_owner_id x) owner) eqn:E;
    [discriminate|].
  destruct (Prisma.update _ f t) as [[res0 t0]|] eqn:Eu; [discriminate|].
  apply String.eqb_neq in E. intros [Hx | Hin]; [contradiction|].
  now apply IH.
Qed.

(** The upsert of the remote data keeps one row per owner. *)
Lemma upsert_remote_data_owners owner create_row f t :
  RemoteData.ressource_owner_id create_row = owner ->
  (forall r, RemoteData.ressource_owner_id (f r)
             = RemoteData.ressource_owner_id r) ->
  let t' := upsert_remote_data owner create_row f t in
  In owner (owners t')
  /\ incl (owners t) (owners t')
  /\ (NoDup (owners t) -> NoDup (owners t'))
  /\ List.length t <= List.length t'.
Proof.
  intros Hc Hf. unfold upsert_remote_data.
  destruct (Prisma.update _ f t) as [[res t']|] eqn:E; simpl.
  - destruct (update_owner_keeps _ _ _ _ _ Hf E) as [Ho Hin].
    rewrite Ho. repeat split; auto using incl_refl.
    apply GroupFacts.update_length in E. lia.
  - apply update_owner_none in E.
    unfold Prisma.create, owners. rewrite map_app, length_app. simpl.
    rewrite Hc. repeat split.
    + apply in_or_app. right. now left.
    + apply incl_appl, incl_refl.
    + intros Hnd. apply NoDup_app; [assumption | repeat constructor; simpl; tauto|].
      intros x Hx [<- | []]. contradiction.
    + lia.
Qed.

Lemma finishGroup_step lu src rd i group res w :
  exists w' added,
    finishGroup_ lu src rd i group res w = (Ok res, w')
    /\ Db.fs_groups w' = Db.fs_groups w
    /\ Db.attribute w' = Db.attribute w
    /\ Db.entity w' =
       Db.entity w
       ++ (if has_items (g_field_mappings group)
           then [{| Entity.id_entity := Db.sys_uuid w (Db.uuid_draws w);
                    Entity.ressource_owner_id := FsGroups.id_fs_group res |}]
           else [])
    /\ Db.value w' = Db.value w ++ added
    /\ In (FsGroups.id_fs_group res) (owners (Db.remote_data w'))
    /\ incl (owners (Db.remote_data w)) (owners (Db.remote_data w'))
    /\ (NoDup (owners (Db.remote_data w)) ->
        NoDup (owners (Db.remote_data w'))).
Proof.
  unfold SyncSpec.finishGroup. eff.
  destruct (has_items (g_field_mappings group)); simpl.
  - match goal with
    | |- context [save_field_values ?es ?a ?b ?c ?w1] =>
        destruct (save_field_values_step es a b c w1)
          as (w' & added & Hrun & Hg & He & Hr & Ha & Hv & _)
    end.
    rewrite Hrun. simpl.
    eexists. exists added. split; [reflexivity|]. simpl in *.
    rewrite Hg, He, Hr, Ha, Hv.
    match goal with
    | |- context [upsert_remote_data ?o ?c ?f ?t] =>
        destruct (upsert_remote_data_owners o c f t eq_refl
                    (fun r => eq_refl)) as (H1 & H2 & H3 & _)
    end.
    repeat split; assumption.
  - eexists. exists []. split; [reflexivity|]. simpl.
    rewrite !app_nil_r.
    match goal with
    | |- context [upsert_remote_data ?o ?c ?f ?t] =>
        destruct (upsert_remote_data_owners o c f t eq_refl
                    (fun r => eq_refl)) as (H1 & H2 & H3 & _)
    end.
    repeat split; assumption.
Qed.

(** One turn of the loop. *)
Lemma saveGroup_step conn lu src rd i group w :
  (origin_missing (g_remote_id group) = true
   /\ exists e, saveGroup_ conn lu src rd i group w = (Throw e, w))
  \/ (origin_missing (g_remote_id group) = false
      /\ exists res w1 w',
          upsertGroup conn group (origin_string (g_remote_id group)) w
          = (Ok res, w1)
          /\ finishGroup_ lu src rd i group res w1 = (Ok res, w')
          /\ saveGroup_ conn lu src rd i group w = (Ok res, w')).
Proof.
  rewrite GroupFacts.saveGroup_stages.
  destruct (origin_missing (g_remote_id group)) eqn:Hm.
  - left. split; [reflexivity|]. eexists. reflexivity.
  - right. split; [reflexivity|]. unfold Eff.bind.
    destruct (upsertGroup_step conn group
                (origin_string (g_remote_id group)) w)
      as (res & w1 & Hu & _).
    destruct (finishGroup_step lu src rd i group res w1)
      as (w' & added & Hf & _).
    exists res, w1, w'. rewrite Hu, Hf. auto.
Qed.

(** A relation between stores that every turn of the loop establishes
    holds of the whole save, however it ends. *)
Lemma saveGroups_from_invariant (P : World -> World -> Prop)
      conn lu src rd :
  (forall w, P w w) ->
  (forall w1 w2 w3, P w1 w2 -> P w2 w3 -> P w1 w3) ->
  (forall i g w r w', saveGroup_ conn lu src rd i g w = (r, w') -> P w w') ->
  forall gs i acc w r w',
    saveGroups_from_ conn lu src rd i gs acc w = (r, w') -> P w w'.
Proof.
  intros Hrefl Htrans Hstep.
  induction gs as [|g gs IH]; intros i acc w r w'; simpl.
  - intros [= <- <-]. apply Hrefl.
  - unfold Eff.bind.
    destruct (saveGroup_ conn lu src rd i g w) as [[res|e] w1] eqn:Hs.
    + intros H. eapply Htrans; [eapply Hstep; exact Hs | eapply IH; exact H].
    + intros [= <- <-]. eapply Hstep. exact Hs.
Qed.

Lemma saveGroup_evolves conn lu src rd i g w r w' :
  saveGroup_ conn lu src rd i g w = (r, w') ->
  table_evolves (Db.fs_groups w) (Db.fs_groups w').
Proof.
  destruct (saveGroup_step conn lu src rd i g w)
    as [[_ [e He]] | [_ (res & w1 & w2 & Hu & Hf & Hs)]].
  - rewrite He. intros [= <- <-]. apply table_evolves_refl.
  - rewrite Hs. intros [= <- <-].
    destruct (upsertGroup_step conn g (origin_string (g_remote_id g)) w)
      as (res' & w1' & Hu' & Hev & _).
    rewrite Hu in Hu'. injection Hu' as <- <-.
    destruct (finishGroup_step lu src rd i g res w1)
      as (w2' & added & Hf' & Hg & _).
    rewrite Hf in Hf'. injection Hf' as <-. now rewrite Hg.
Qed.

Lemma table_evolves_nth t t' n r :
  table_evolves t t' -> List.nth_error t n = Some r ->
  exists r', List.nth_error t' n = Some r' /\ row_evolves r r'.
Proof.
  intros (rows & added & -> & H). revert n.
  induction H as [|x y l l' Hxy _ IH]; intros n Hn.
  - destruct n; discriminate.
  - destruct n as [|n]; simpl in *.
    + injection Hn as <-. now exists y.
    + now apply IH.
Qed.

(** X15.  Whatever the groups and however the save ends, [saveGroupsInDb]
    deletes no row of the group table and moves none: the table only
    grows at its end, and every row that was there keeps its place, its
    identifier, creation date, remote identifier and connection; a set
    deletion flag stays set, a non-empty name stays non-empty and users
    that were present stay present. *)
Theorem saveGroupsInDb_never_erases
        (conn lu : string) (gs : list UnifiedGroupOutput) (src : string)
        (rd : list Original) (w w' : World)
        (r : outcome (list FsGroups.row))
        (Hsave : saveGroupsInDb_ conn lu gs src rd w = (r, w')) :
  List.length (Db.fs_groups w) <= List.length (Db.fs_groups w')
  /\ forall n row,
      List.nth_error (Db.fs_groups w) n = Some row ->
      exists row',
        List.nth_error (Db.fs_groups w') n = Some row'
        /\ row_evolves row row'.
Proof.
  assert (Hev : table_evolves (Db.fs_groups w) (Db.fs_groups w')).
  { revert Hsave. unfold GroupSync.saveGroupsInDb.
    apply (saveGroups_from_invariant
             (fun w w' => table_evolves (Db.fs_groups w) (Db.fs_groups w'))
             conn lu src rd).
    - intros w0. apply table_evolves_refl.
    - intros w1 w2 w3. apply table_evolves_trans.
    - apply saveGroup_evolves. }
  split.
  - destruct Hev as (rows & added & -> & H).
    apply Forall2_length in H. rewrite length_app. lia.
  - intros n row. now apply table_evolves_nth.
Qed.

(** The entities and the rows of a save that resolved. *)
Lemma saveGroups_from_entities conn lu src rd gs i acc w rows w' :
  saveGroups_from_ conn lu src rd i gs acc w = (Ok rows, w') ->
  exists saved added,
    rows = acc ++ saved
    /\ List.length saved = List.length gs
    /\ Db.entity w' = Db.entity w ++ added
    /\ List.length added = List.length (with_field_mappings gs)
    /\ Forall (fun e => In (Entity.ressource_owner_id e)
                           (List.map FsGroups.id_fs_group saved)) added.
Proof.
  revert i acc w. induction gs as [|g gs IH]; intros i acc w; simpl.
  - intros [= <- <-]. exists [], []. rewrite !app_nil_r.
    repeat split; auto.
  - unfold Eff.bind.
    destruct (saveGroup_step conn lu src rd i g w)
      as [[_ [e He]] | [_ (res & w1 & w2 & Hu & Hf & Hs)]].
    + rewrite He. discriminate.
    + rewrite Hs. intros H. apply IH in H.
      destruct H as (saved & added & -> & Hlen & He & Hadded & Hown).
      destruct (upsertGroup_step conn g (origin_string (g_remote_id g)) w)
        as (res' & w1' & Hu' & _ & _ & He1 & _).
      rewrite Hu in Hu'. injection Hu' as <- <-.
      destruct (finishGroup_step lu src rd i g res w1)
        as (w2' & vs & Hf' & _ & _ & He2 & _).
      rewrite Hf in Hf'. injection Hf' as <-.
      rewrite He2, He1 in He.
      exists (res :: saved). eexists.
      split; [now rewrite <- app_assoc|].
      split; [simpl; now rewrite Hlen|].
      split; [rewrite He, <- app_assoc; reflexivity|].
      unfold with_field_mappings in *. simpl.
      destruct (has_items (g_field_mappings g)); simpl.
      * split; [now rewrite Hadded|].
        constructor; [now left|].
        eapply Forall_impl; [|exact Hown]. intros e0 H0. now right.
      * split; [assumption|].
        eapply Forall_impl; [|exact Hown]. intros e0 H0. now right.
Qed.

(** X16.  A save that resolves returns one row per unified group and
    adds to the entity table exactly one entity for each group that has
    field mappings, each owned by one of the returned rows; the
    entities that were there stay. *)
Theorem saveGroupsInDb_adds_an_entity_per_group_with_field_mappings
        (conn lu : string) (gs : list UnifiedGroupOutput) (src : string)
        (rd : list Original) (w w' : World) (rows : list FsGroups.row)
        (Hsave : saveGroupsInDb_ conn lu gs src rd w = (Ok rows, w')) :
  List.length rows = List.length gs
  /\ exists added,
      Db.entity w' = Db.entity w ++ added
      /\ List.length added = List.length (with_field_mappings gs)
      /\ Forall (fun e => In (Entity.ressource_owner_id e)
                             (List.map FsGroups.id_fs_group rows)) added.
Proof.
  apply saveGroups_from_entities in Hsave.
  destruct Hsave as (saved & added & -> & Hlen & He & Hadded & Hown).
  simpl. split; [assumption|]. now exists added.
Qed.

Lemma saveGroup_owners conn lu src rd i g w r w' :
  saveGroup_ conn lu src rd i g w = (r, w') ->
  incl (owners (Db.remote_data w)) (owners (Db.remote_data w'))
  /\ (NoDup (owners (Db.remote_data w)) ->
      NoDup (owners (Db.remote_data w')))
  /\ (forall res, r = Ok res ->
                  In (FsGroups.id_fs_group res)
                     (owners (Db.remote_data w'))).
Proof.
  destruct (saveGroup_step conn lu src rd i g w)
    as [[_ [e He]] | [_ (res & w1 & w2 & Hu & Hf & Hs)]].
  - rewrite He. intros [= <- <-].
    repeat split; auto using incl_refl. discriminate.
  - rewrite Hs. intros [= <- <-].
    destruct (upsertGroup_step conn g (origin_string (g_remote_id g)) w)
      as (res' & w1' & Hu' & _ & _ & _ & _ & Hr1 & _).
    rewrite Hu in Hu'. injection Hu' as <- <-.
    destruct (finishGroup_step lu src rd i g res w1)
      as (w2' & vs & Hf' & _ & _ & _ & _ & Hin & Hincl & Hnd).
    rewrite Hf in Hf'. injection Hf' as <-.
    rewrite Hr1 in Hincl, Hnd.
    repeat split; try assumption.
    intros res0 [= <-]. assumption.
Qed.

Lemma saveGroups_from_owners conn lu src rd gs i acc w r w' :
  saveGroups_from_ conn lu src rd i gs acc w = (r, w') ->
  incl (owners (Db.remote_data w)) (owners (Db.remote_data w'))
  /\ (NoDup (owners (Db.remote_data w)) ->
      NoDup (owners (Db.remote_data w')))
  /\ (forall rows, r = Ok rows ->
                   exists saved,
                     rows = acc ++ saved
                     /\ Forall (fun row =>
                                  In (FsGroups.id_fs_group row)
                                     (owners (Db.remote_data w'))) saved).
Proof.
  revert i acc w. induction gs as [|g gs IH]; intros i acc w; simpl.
  - intros [= <- <-]. repeat split; auto using incl_refl.
    intros rows [= <-]. exists []. now rewrite app_nil_r.
  - unfold Eff.bind.
    destruct (saveGroup_ conn lu src rd i g w) as [[res|e] w1] eqn:Hs.
    + destruct (saveGroup_owners _ _ _ _ _ _ _ _ _ Hs) as (I1 & N1 & O1).
      intros H. destruct (IH _ _ _ H) as (I2 & N2 & O2).
      split; [eapply incl_tran; eassumption|].
      split; [auto|].
      intros rows Hr. destruct (O2 rows Hr) as (saved & -> & Hall).
      exists (res :: saved). split; [now rewrite <- app_assoc|].
      constructor; [|assumption]. apply I2. now apply O1.
    + destruct (saveGroup_owners _ _ _ _ _ _ _ _ _ Hs) as (I1 & N1 & O1).
      intros [= <- <-]. repeat split; try assumption. discriminate.
Qed.

(** X17.  When no two rows of the remote-data table have the same owner,
    no two have after a save, however it ends; the owners that were
    there stay, and every row that a resolved save returns owns a
    remote-data row. *)
Theorem saveGroupsInDb_keeps_one_remote_data_row_per_group
        (conn lu : string) (gs : list UnifiedGroupOutput) (src : string)
        (rd : list Original) (w w' : World)
        (r : outcome (list FsGroups.row))
        (Hunique : NoDup (owners (Db.remote_data w)))
        (Hsave : saveGroupsInDb_ conn lu gs src rd w = (r, w')) :
  NoDup (owners (Db.remote_data w'))
  /\ incl (owners (Db.remote_data w)) (owners (Db.remote_data w'))
  /\ (forall rows,
         r = Ok rows ->
         Forall (fun row => In (FsGroups.id_fs_group row)
                               (owners (Db.remote_data w'))) rows).
Proof.
  apply saveGroups_from_owners in Hsave.
  destruct Hsave as (Hincl & Hnd & Hrows).
  split; [auto|]. split; [assumption|].
  intros rows Hr. destruct (Hrows rows Hr) as (saved & -> & Hall).
  exact Hall.
Qed.

End Facts.

(** The sample groups saved on the sample store. *)
Lemma saveGroupsInDb_never_erases_witness :
  exists r w',
    GroupSync.saveGroupsInDb SyncFixtures.stringify "conn-1" "lu-1"
      SyncFixtures.groups "box" [] SyncFixtures.store = (r, w')
    /\ List.length (Db.fs_groups SyncFixtures.store)
       <= List.length (Db.fs_groups w')
    /\ forall n row,
        List.nth_error (Db.fs_groups SyncFixtures.store) n = Some row ->
        exists row',
          List.nth_error (Db.fs_groups w') n = Some row'
          /\ row_evolves row row'.
Proof.
  pose (run := GroupSync.saveGroupsInDb SyncFixtures.stringify "conn-1"
                 "lu-1" SyncFixtures.groups "box" [] SyncFixtures.store).
  assert (Hrun : run = (fst run, snd run)) by (destruct run; reflexivity).
  exists (fst run), (snd run). split; [exact Hrun|].
  exact (@saveGroupsInDb_never_erases string SyncFixtures.stringify
           "conn-1" "lu-1" SyncFixtures.groups "box" []
           SyncFixtures.store (snd run) (fst run) Hrun).
Defined.

(** Two groups, one of them with a field mapping, saved on the sample
    store. *)
Lemma saveGroupsInDb_adds_an_entity_witness :
  exists rows w',
    GroupSync.saveGroupsInDb SyncFixtures.stringify "conn-1" "lu-1"
      GroupSaveFixtures.mapped_groups "box" [] SyncFixtures.store
    = (Ok rows, w')
    /\ List.length rows = List.length GroupSaveFixtures.mapped_groups
    /\ exists added,
        Db.entity w' = Db.entity SyncFixtures.store ++ added
        /\ List.length added
           = List.length
               (with_field_mappings GroupSaveFixtures.mapped_groups)
        /\ Forall (fun e => In (Entity.ressource_owner_id e)
                               (List.map FsGroups.id_fs_group rows)) added.
Proof.
  pose (run := GroupSync.saveGroupsInDb SyncFixtures.stringify "conn-1"
                 "lu-1" GroupSaveFixtures.mapped_groups "box" []
                 SyncFixtures.store).
  assert (Hok : exists rows, run = (Ok rows, snd run)).
  { eexists. vm_compute. reflexivity. }
  destruct Hok as [rows Hrun].
  exists rows, (snd run). split; [exact Hrun|].
  exact (@saveGroupsInDb_adds_an_entity_per_group_with_field_mappings
           string SyncFixtures.stringify "conn-1" "lu-1"
           GroupSaveFixtures.mapped_groups "box" [] SyncFixtures.store
           (snd run) rows Hrun).
Defined.

(** The sample groups saved on the sample store, which has no remote
    data. *)
Lemma saveGroupsInDb_keeps_one_remote_data_row_witness :
  exists r w',
    NoDup (owners (Db.remote_data SyncFixtures.store))
    /\ GroupSync.saveGroupsInDb SyncFixtures.stringify "conn-1" "lu-1"
         SyncFixtures.groups "box" [] SyncFixtures.store = (r, w')
    /\ NoDup (owners (Db.remote_data w'))
    /\ incl (owners (Db.remote_data SyncFixtures.store))
            (owners (Db.remote_data w'))
    /\ (forall rows,
           r = Ok rows ->
           Forall (fun row => In (FsGroups.id_fs_group row)
                                 (owners (Db.remote_data w'))) rows).
Proof.
  pose (run := GroupSync.saveGroupsInDb SyncFixtures.stringify "conn-1"
                 "lu-1" SyncFixtures.groups "box" [] SyncFixtures.store).
  assert (Hrun : run = (fst run, snd run)) by (destruct run; reflexivity).
  assert (Hnd : NoDup (owners (Db.remote_data SyncFixtures.store)))
    by constructor.
  exists (fst run), (snd run).
  split; [exact Hnd|]. split; [exact Hrun|].
  exact (@saveGroupsInDb_keeps_one_remote_data_row_per_group
           string SyncFixtures.stringify "conn-1" "lu-1"
           SyncFixtures.groups "box" [] SyncFixtures.store (snd run)
           (fst run) Hnd Hrun).
Defined.

End GroupExtra.

(** ** The repeatable job of the groups sync *)

Module QueueExtra.

Import Bull GroupSync QueueSpec.

Section Facts.
Variable repeat_key : string -> string -> string.

Local Abbreviation scheduleSyncJob_ := (GroupSync.scheduleSyncJob repeat_key).

Lemma remove_named_filter n jobs q :
  remove_named n jobs q =
  List.filter
    (fun j => negb (List.existsb
                      (fun job => named n job
                                  && String.eqb (key job) (key j)) jobs))
    q.
Proof.
  revert q. induction jobs as [|job jobs IH]; intros q; simpl.
  - induction q as [|j q IHq]; simpl; [reflexivity|]. now rewrite <- IHq.
  - rewrite IH. unfold named.
    destruct (String.eqb (name job) n) eqn:E; simpl.
    + unfold removeRepeatableByKey.
      induction q as [|j q IHq]; simpl; [reflexivity|].
      rewrite (String.eqb_sym (key job) (key j)).
      destruct (String.eqb (key j) (key job)); simpl.
      * assumption.
      * destruct (existsb _ jobs); simpl; [assumption | now rewrite IHq].
    + reflexivity.
Qed.

Lemma key_inj q j j' :
  NoDup (keys q) -> In j q -> In j' q -> key j = key j' -> j = j'.
Proof.
  unfold keys. induction q as [|x q IH]; simpl; [tauto|].
  intros Hnd [H1|H1] [H2|H2] He; inversion Hnd as [|? ? Hni Hnd']; subst.
  - reflexivity.
  - exfalso. apply Hni. rewrite He. now apply in_map.
  - exfalso. apply Hni. rewrite <- He. now apply in_map.
  - now apply IH.
Qed.

Lemma remove_named_all n q :
  NoDup (keys q) ->
  remove_named n q q = List.filter (fun j => negb (named n j)) q.
Proof.
  intros Hnd. rewrite remove_named_filter.
  apply filter_ext_in. intros j Hj. f_equal.
  destruct (named n j) eqn:E.
  - apply existsb_exists. exists j. split; [assumption|].
    now rewrite E, String.eqb_refl.
  - destruct (existsb _ q) eqn:Ex; [|reflexivity].
    apply existsb_exists in Ex. destruct Ex as (job & Hin & Hb).
    apply andb_prop in Hb. destruct Hb as [Hn Hk].
    apply String.eqb_eq in Hk.
    assert (job = j) by (eapply key_inj; eassumption). subst job.
    congruence.
Qed.

Lemma filter_none_of_others (A : Type) (p : A -> bool) l :
  List.filter p (List.filter (fun x => negb (p x)) l) = [].
Proof.
  induction l as [|x l IH]; simpl; [reflexivity|].
  destruct (p x) eqn:E; simpl; [assumption|]. now rewrite E.
Qed.

Lemma filter_others_twice (A : Type) (p : A -> bool) l :
  List.filter (fun x => negb (p x)) (List.filter (fun x => negb (p x)) l)
  = List.filter (fun x => negb (p x)) l.
Proof.
  induction l as [|x l IH]; simpl; [reflexivity|].
  destruct (p x) eqn:E; simpl; [assumption|]. rewrite E. simpl.
  now rewrite IH.
Qed.

Lemma scheduleSyncJob_run q :
  NoDup (keys q) ->
  (forall j, In j q -> named jobName j = false ->
             key j <> repeat_key jobName "0 0 * * *") ->
  scheduleSyncJob_ q =
  List.filter (fun j => negb (named jobName j)) q ++ [sync_job repeat_key].
Proof.
  intros Hnd Hfree. unfold GroupSync.scheduleSyncJob, getRepeatableJobs.
  fold jobName. rewrite (remove_named_all _ _ Hnd). unfold add.
  destruct (existsb _ (filter _ q)) eqn:Ex; [|reflexivity].
  apply existsb_exists in Ex. destruct Ex as (j & Hin & Hk).
  apply filter_In in Hin. destruct Hin as [Hin Hn].
  apply String.eqb_eq in Hk. apply negb_true_iff in Hn.
  exfalso. now apply (Hfree j).
Qed.

(** X18.  On a queue whose repeatable jobs have distinct keys, none of
    them a job of another name under the key of the daily job,
    [scheduleSyncJob] leaves exactly one job named
    [filestorage-sync-groups], the one that repeats on [0 0 * * *]; it
    keeps the jobs of other names, in order, and the keys distinct, and
    a second run changes nothing more. *)
Theorem scheduleSyncJob_leaves_one_sync_job
        (q : Queue)
        (Hkeys : NoDup (keys q))
        (Hfree : forall j, In j q -> named jobName j = false ->
                           key j <> repeat_key jobName "0 0 * * *") :
  List.filter (named jobName) (scheduleSyncJob_ q) = [sync_job repeat_key]
  /\ List.filter (fun j => negb (named jobName j)) (scheduleSyncJob_ q)
     = List.filter (fun j => negb (named jobName j)) q
  /\ NoDup (keys (scheduleSyncJob_ q))
  /\ scheduleSyncJob_ (scheduleSyncJob_ q) = scheduleSyncJob_ q.
Proof.
  rewrite (scheduleSyncJob_run _ Hkeys Hfree).
  set (others := filter (fun j => negb (named jobName j)) q).
  assert (Hothers : forall j, In j others ->
                              In j q /\ named jobName j = false).
  { intros j Hj. apply filter_In in Hj. destruct Hj as [Hin Hn].
    now apply negb_true_iff in Hn. }
  assert (Hnone : filter (named jobName) others = [])
    by apply filter_none_of_others.
  assert (Hall : filter (fun j => negb (named jobName j)) others = others)
    by apply filter_others_twice.
  assert (Hnd : NoDup (keys (others ++ [sync_job repeat_key]))).
  { unfold keys. rewrite map_app. apply NoDup_app.
    - unfold others. clear - Hkeys. unfold keys in Hkeys.
      induction q as [|j q' IH]; simpl; [constructor|].
      inversion Hkeys as [|? ? Hni Hnd]; subst.
      destruct (negb (named jobName j)); simpl; [|now apply IH].
      constructor; [|now apply IH].
      intros Hin. apply Hni. apply in_map_iff in Hin.
      destruct Hin as (x & Hx & Hin). apply filter_In in Hin.
      rewrite <- Hx. apply in_map. tauto.
    - repeat constructor. simpl. tauto.
    - intros k Hk [<- | []]. apply in_map_iff in Hk.
      destruct Hk as (j & Hkj & Hj). destruct (Hothers j Hj) as [Hin Hn].
      now apply (Hfree j). }
  split; [|split; [|split]].
  - rewrite filter_app, Hnone. reflexivity.
  - rewrite filter_app, Hall. simpl. now rewrite app_nil_r.
  - exact Hnd.
  - rewrite scheduleSyncJob_run.
    + rewrite filter_app, Hall. simpl. now rewrite app_nil_r.
    + exact Hnd.
    + intros j Hj Hn. apply in_app_or in Hj. destruct Hj as [Hj | [<- | []]].
      * destruct (Hothers j Hj) as [Hin _]. now apply Hfree.
      * discriminate.
Qed.

End Facts.

(** A restart on a queue that holds the job under an older schedule. *)
Lemma scheduleSyncJob_witness :
  NoDup (keys QueueFixtures.queue)
  /\ (forall j, In j QueueFixtures.queue -> named jobName j = false ->
                key j <> QueueFixtures.repeat_key jobName "0 0 * * *")
  /\ List.filter (named jobName)
       (GroupSync.scheduleSyncJob QueueFixtures.repeat_key
          QueueFixtures.queue)
     = [sync_job QueueFixtures.repeat_key]
  /\ List.filter (fun j => negb (named jobName j))
       (GroupSync.scheduleSyncJob QueueFixtures.repeat_key
          QueueFixtures.queue)
     = List.filter (fun j => negb (named jobName j)) QueueFixtures.queue
  /\ NoDup (keys (GroupSync.scheduleSyncJob QueueFixtures.repeat_key
                    QueueFixtures.queue))
  /\ GroupSync.scheduleSyncJob QueueFixtures.repeat_key
       (GroupSync.scheduleSyncJob QueueFixtures.repeat_key
          QueueFixtures.queue)
     = GroupSync.scheduleSyncJob QueueFixtures.repeat_key
         QueueFixtures.queue.
Proof.
  assert (Hkeys : NoDup (keys QueueFixtures.queue)).
  { repeat constructor; simpl; intuition discriminate. }
  assert (Hfree : forall j, In j QueueFixtures.queue ->
                            named jobName j = false ->
                            key j <> QueueFixtures.repeat_key jobName
                                       "0 0 * * *").
  { intros j [<- | [<- | []]] Hn; [discriminate Hn | discriminate]. }
  split; [exact Hkeys|]. split; [exact Hfree|].
  exact (@scheduleSyncJob_leaves_one_sync_job QueueFixtures.repeat_key
           QueueFixtures.queue Hkeys Hfree).
Defined.

End QueueExtra.

(** ** The traversal of the two sync services *)

Module FanOutExtra.

Import FanOut FanOutSpec Unified.

Section Services.
Variable Original : Type.
Variable JSON_stringify : Original -> string.
Variable getCustomFieldMappings :
  string -> string -> string -> World -> outcome (list mapping).
Variable getGroupService :
  string -> option (GroupSync.IGroupService Original).
Variable unify :
  GroupSync.unify_args Original -> World ->
  outcome (list GroupSync.UnifiedGroupOutput).
Variable FILESTORAGE_PROVIDERS : list string.
Variable FileStorageObject_group : string.
Variable IAttachmentService : Type.
Variable getAttachmentService : string -> option IAttachmentService.
Variable syncForLinkedUser :
  string -> string -> string -> string -> IAttachmentService ->
  list string -> M unit.
Variable ATS_PROVIDERS : list string.

Local Abbreviation syncGroups_ :=
  (GroupSync.syncGroups JSON_stringify getCustomFieldMappings
     getGroupService unify FILESTORAGE_PROVIDERS FileStorageObject_group).
Local Abbreviation syncAttachments_ :=
  (AttachmentSync.syncAttachments getAttachmentService syncForLinkedUser
     ATS_PROVIDERS).

(** A schedule that ends with enough turns of the method. *)
Lemma settles_with_enough_turns providers callee user_id schedule w :
  (truthy_ostring user_id = false
   \/ exists u,
       Prisma.findFirst
         (fun u => String.eqb (Users.id_user u) (nullish user_id ""))
         (Db.users w) = Some u) ->
  exists n,
    outcome_of (run providers callee user_id
                    (schedule ++ List.repeat Method n) w)
    = Some (Ok tt).
Proof.
  intros H.
  destruct (FanOutFacts.method_turns_settle providers callee
              (run providers callee user_id schedule w)) as [n Hn].
  exists n. rewrite FanOutFacts.run_app.
  destruct (outcome_of _) as [r|] eqn:E; [|contradiction].
  rewrite <- FanOutFacts.run_app in E.
  now rewrite (FanOutFacts.run_settles_ok providers callee user_id
                 _ w r H E).
Qed.

(** X19.  [syncGroups] and [syncAttachments] resolve whatever the calls
    for the linked users do, when no user is given (or the empty
    string) and when the given user exists: under every schedule of the
    method and of the callbacks it starts, the method settles with
    nothing but [undefined], and it does settle once it is given
    enough turns.  When the given user is not in the table both reject
    with a [TypeError] on reading [id_user] of [null], at the first
    turn of the method; no call is made and the store is untouched. *)
Theorem sync_resolves_whatever_the_calls_do
        (user_id : option string) (w : World) (schedule : list turn) :
  (truthy_ostring user_id = false ->
   (forall r, outcome_of (syncGroups_ user_id schedule w) = Some r ->
              r = Ok tt)
   /\ (forall r, outcome_of (syncAttachments_ user_id schedule w) = Some r ->
                 r = Ok tt)
   /\ (exists n,
          outcome_of (syncGroups_ user_id
                        (schedule ++ List.repeat Method n) w)
          = Some (Ok tt))
   /\ (exists n,
          outcome_of (syncAttachments_ user_id
                        (schedule ++ List.repeat Method n) w)
          = Some (Ok tt)))
  /\ (forall id u,
         user_id = Some id -> id <> "" ->
         In u (Db.users w) -> Users.id_user u = id ->
         (forall r, outcome_of (syncGroups_ user_id schedule w) = Some r ->
                    r = Ok tt)
         /\ (forall r,
                outcome_of (syncAttachments_ user_id schedule w) = Some r ->
                r = Ok tt)
         /\ (exists n,
                outcome_of (syncGroups_ user_id
                              (schedule ++ List.repeat Method n) w)
                = Some (Ok tt))
         /\ (exists n,
                outcome_of (syncAttachments_ user_id
                              (schedule ++ List.repeat Method n) w)
                = Some (Ok tt)))
  /\ (forall id,
         user_id = Some id -> id <> "" ->
         Forall (fun u => Users.id_user u <> id) (Db.users w) ->
         (st_world (syncGroups_ user_id schedule w) = w
          /\ st_calls (syncGroups_ user_id schedule w) = []
          /\ (forall r,
                 outcome_of (syncGroups_ user_id schedule w) = Some r ->
                 r = Throw null_user)
          /\ (In Method schedule ->
              outcome_of (syncGroups_ user_id schedule w)
              = Some (Throw null_user)))
         /\ (st_world (syncAttachments_ user_id schedule w) = w
             /\ st_calls (syncAttachments_ user_id schedule w) = []
             /\ (forall r,
                    outcome_of (syncAttachments_ user_id schedule w)
                    = Some r ->
                    r = Throw null_user)
             /\ (In Method schedule ->
                 outcome_of (syncAttachments_ user_id schedule w)
                 = Some (Throw null_user)))).
Proof.
  unfold GroupSync.syncGroups, AttachmentSync.syncAttachments.
  assert (Hok : (truthy_ostring user_id = false
                 \/ exists u,
                     Prisma.findFirst
                       (fun u => String.eqb (Users.id_user u)
                                            (nullish user_id ""))
                       (Db.users w) = Some u) ->
                forall providers callee,
                  (forall r,
                      outcome_of (run providers callee user_id schedule w)
                      = Some r -> r = Ok tt)
                  /\ (exists n,
                         outcome_of
                           (run providers callee user_id
                                (schedule ++ List.repeat Method n) w)
                         = Some (Ok tt))).
  { intros H providers callee. split.
    - intros r. now apply FanOutFacts.run_settles_ok.
    - now apply settles_with_enough_turns. }
  split; [|split].
  - intros H.
    destruct (Hok (or_introl H) FILESTORAGE_PROVIDERS
                  (GroupSync.syncGroupsForLinkedUser JSON_stringify
                     getCustomFieldMappings getGroupService unify
                     FileStorageObject_group)) as [G1 G2].
    destruct (Hok (or_introl H) ATS_PROVIDERS
                  (fun provider id_linked_user (_ : string) =>
                     AttachmentSync.syncAttachmentsForLinkedUser
                       getAttachmentService syncForLinkedUser provider
                       id_linked_user)) as [A1 A2].
    repeat split; assumption.
  - intros id u -> Hne Hin Hid.
    destruct (PrismaFacts.findFirst_exists
                (fun u0 => String.eqb (Users.id_user u0) id)
                (Db.users w) u Hin) as [u' Hu'].
    { now apply String.eqb_eq. }
    assert (H : truthy_ostring (Some id) = false
                \/ exists u,
                    Prisma.findFirst
                      (fun u => String.eqb (Users.id_user u)
                                           (nullish (Some id) ""))
                      (Db.users w) = Some u)
      by (right; exists u'; exact Hu').
    destruct (Hok H FILESTORAGE_PROVIDERS
                  (GroupSync.syncGroupsForLinkedUser JSON_stringify
                     getCustomFieldMappings getGroupService unify
                     FileStorageObject_group)) as [G1 G2].
    destruct (Hok H ATS_PROVIDERS
                  (fun provider id_linked_user (_ : string) =>
                     AttachmentSync.syncAttachmentsForLinkedUser
                       getAttachmentService syncForLinkedUser provider
                       id_linked_user)) as [A1 A2].
    repeat split; assumption.
  - intros id -> Hne Hall.
    assert (Htr : truthy_ostring (Some id) = true).
    { destruct id; [contradiction | reflexivity]. }
    assert (Hnone : Prisma.findFirst
                      (fun u0 => String.eqb (Users.id_user u0)
                                            (nullish (Some id) ""))
                      (Db.users w) = None).
    { apply PrismaFacts.findFirst_none.
      eapply Forall_impl; [|exact Hall].
      intros u Hu. now apply String.eqb_neq. }
    split; apply FanOutFacts.run_unknown_user; assumption.
Qed.

(** X20.  A sync that finds nothing to call changes nothing, under
    every schedule: the store after any turns of [syncGroups] and of
    its callbacks is the store before when no connection is in the
    [filestorage] vertical, and so is the store after any turns of
    [syncAttachments] when the registry has no service for any ATS
    provider. *)
Theorem sync_with_nothing_to_sync_changes_nothing
        (user_id : option string) (w : World) (schedule : list turn) :
  (Forall (fun c => Connections.vertical c <> "filestorage")
          (Db.connections w) ->
   st_world (syncGroups_ user_id schedule w) = w)
  /\ ((forall provider, In provider ATS_PROVIDERS ->
                        getAttachmentService provider = None) ->
      st_world (syncAttachments_ user_id schedule w) = w).
Proof.
  unfold GroupSync.syncGroups, AttachmentSync.syncAttachments. split.
  - intros Hall. apply FanOutFacts.run_idle.
    intros provider lu proj _.
    unfold GroupSync.syncGroupsForLinkedUser. eff.
    assert (Hnone : Prisma.findFirst
                      (fun c =>
                         String.eqb (Connections.id_linked_user c) lu
                         && String.eqb (Connections.provider_slug c) provider
                         && String.eqb (Connections.vertical c) "filestorage")
                      (Db.connections w) = None).
    { apply PrismaFacts.findFirst_none.
      eapply Forall_impl; [|exact Hall].
      intros c Hc. apply andb_false_iff. right. now apply String.eqb_neq. }
    simpl. now rewrite Hnone.
  - intros Hnone. apply FanOutFacts.run_idle.
    intros provider lu proj Hp.
    unfold AttachmentSync.syncAttachmentsForLinkedUser.
    now rewrite (Hnone provider Hp).
Qed.

End Services.

End FanOutExtra.

(** ** A sync of a linked user that fails *)

Module LinkedUserExtra.

Import Unified GroupSync SyncSpec FanOutSpec KeptFacts.

Section Facts.
Variable Original : Type.
Variable JSON_stringify : Original -> string.
Variable getCustomFieldMappings :
  string -> string -> string -> World -> outcome (list mapping).
Variable getService : string -> option (IGroupService Original).
Variable unify :
  unify_args Original -> World -> outcome (list UnifiedGroupOutput).
Variable FileStorageObject_group : string.

Local Abbreviation syncGroupsForLinkedUser_ :=
  (GroupSync.syncGroupsForLinkedUser JSON_stringify getCustomFieldMappings
     getService unify FileStorageObject_group).
Local Abbreviation unify_call_ :=
  (fun integ (mappings : list mapping) (source : list Original) =>
     {| sourceObject := source;
        targetType := FileStorageObject_group;
        providerName := integ;
        ua_vertical := "filestorage";
        customFieldMappings := mappings |}).

(** X21.  A run of [syncGroupsForLinkedUser] that rejects records no
    event and makes no webhook call.  When the field mappings, the
    provider's service, its call or the unification fail, the run
    rejects with that failure (a [TypeError] on reading [syncGroups] of
    [undefined] when the registry has no service) and the store is
    untouched: nothing was saved. *)
Theorem syncGroupsForLinkedUser_rejection_records_nothing
        (integ lu proj : string) (w : World) (c : Connections.row)
        (Hc : filestorage_connection integ lu w = Some c) :
  (forall e w',
      syncGroupsForLinkedUser_ integ lu proj w = (Throw e, w') ->
      Db.events w' = Db.events w /\ Db.webhooks w' = Db.webhooks w)
  /\ (forall e,
         getCustomFieldMappings integ lu "filestorage.group" w = Throw e ->
         syncGroupsForLinkedUser_ integ lu proj w = (Throw e, w))
  /\ (forall mappings,
         getCustomFieldMappings integ lu "filestorage.group" w
         = Ok mappings ->
         getService integ = None ->
         syncGroupsForLinkedUser_ integ lu proj w
         = (Throw (TypeError
              "Cannot read properties of undefined (reading 'syncGroups')"),
            w))
  /\ (forall mappings service e,
         getCustomFieldMappings integ lu "filestorage.group" w
         = Ok mappings ->
         getService integ = Some service ->
         service_syncGroups service lu (List.map remote_id mappings) w
         = Throw e ->
         syncGroupsForLinkedUser_ integ lu proj w = (Throw e, w))
  /\ (forall mappings service resp e,
         getCustomFieldMappings integ lu "filestorage.group" w
         = Ok mappings ->
         getService integ = Some service ->
         service_syncGroups service lu (List.map remote_id mappings) w
         = Ok resp ->
         unify (unify_call_ integ mappings (resp_data resp)) w = Throw e ->
         syncGroupsForLinkedUser_ integ lu proj w = (Throw e, w)).
Proof.
  rewrite (LinkedUserFacts.syncGroupsForLinkedUser_run
             JSON_stringify getCustomFieldMappings getService unify
             FileStorageObject_group integ lu proj w Hc).
  split; [|split; [|split; [|split]]].
  - intros e w'.
    destruct (getCustomFieldMappings _ _ _ w) as [mappings|];
      [|intros [= _ <-]; split; reflexivity].
    destruct (getService integ) as [service|];
      [|intros [= _ <-]; split; reflexivity].
    destruct (service_syncGroups service _ _ w) as [resp|];
      [|intros [= _ <-]; split; reflexivity].
    destruct (unify _ w) as [unified|];
      [|intros [= _ <-]; split; reflexivity].
    destruct (GroupSync.saveGroupsInDb _ _ _ _ _ _ w) as [[rows|e'] w1]
      eqn:Hsave; [discriminate|].
    intros [= _ <-].
    destruct (LinkedUserFacts.saveGroupsInDb_kept
                JSON_stringify _ _ _ _ _ _ Hsave).
    split; assumption.
  - intros e ->. reflexivity.
  - intros mappings -> ->. reflexivity.
  - intros mappings service e -> -> ->. reflexivity.
  - intros mappings service resp e -> -> -> ->. reflexivity.
Qed.

End Facts.

Import TenantFixtures SyncFixtures.

(** The OneDrive adapter of the tenant fails: the run rejects with the
    adapter's error and the store is untouched. *)
Lemma syncGroupsForLinkedUser_rejection_witness :
  exists c,
    filestorage_connection "onedrive" "lu-1" tenant = Some c
    /\ GroupSync.syncGroupsForLinkedUser stringify no_mappings registry
         unify_groups "group" "onedrive" "lu-1" "proj-1" tenant
       = (Throw (RemoteError "503 Service Unavailable"), tenant).
Proof.
  assert (Hc : filestorage_connection "onedrive" "lu-1" tenant
               = Some (connection "conn-2" "onedrive")) by reflexivity.
  exists (connection "conn-2" "onedrive"). split; [exact Hc|].
  exact (proj1 (proj2 (proj2 (proj2
    (@syncGroupsForLinkedUser_rejection_records_nothing
       string stringify no_mappings registry unify_groups "group"
       "onedrive" "lu-1" "proj-1" tenant (connection "conn-2" "onedrive")
       Hc))))
    [] onedrive (RemoteError "503 Service Unavailable")
    eq_refl eq_refl eq_refl).
Defined.

End LinkedUserExtra.

(** ** What the saved attachment rows hold *)

Module AttachmentExtra.

Import Unified AttachmentSync SyncSpec AttachmentSaveSpec.

Lemma update_result (Row : Type) (q : Row -> bool) (f : Row -> Row) t res t' :
  Prisma.update q f t = Some (res, t') -> exists r, In r t /\ res = f r.
Proof.
  revert res t'. induction t as [|x t IH]; simpl; intros res t'.
  - discriminate.
  - destruct (q x).
    + intros [= <- <-]. exists x. auto.
    + destruct (Prisma.update q f t) as [[res0 t0]|]; [|discriminate].
      intros [= <- <-]. destruct (IH _ _ eq_refl) as (r & Hin & ->).
      exists r. auto.
Qed.

Section Facts.
Variable Original : Type.
Variable columns : AtsAttachments.columns.
Variable processFieldMappings :
  option field_mappings -> option string -> string -> string -> M unit.
Variable processRemoteData : option string -> option Original -> M unit.

Local Abbreviation updateOrCreateAttachment_ :=
  (AttachmentSync.updateOrCreateAttachment columns).
Local Abbreviation saveAttachment_ :=
  (AttachmentSync.saveAttachment columns processFieldMappings
     processRemoteData).
Local Abbreviation saveToDb_from_ :=
  (AttachmentSync.saveToDb_from columns processFieldMappings
     processRemoteData).
Local Abbreviation saveToDb_ :=
  (AttachmentSync.saveToDb columns processFieldMappings
     processRemoteData).

Lemma update_attachment_carries cand a stamp existing w res w' :
  update_attachment columns existing (baseData a cand stamp) w
  = (Ok res, w') ->
  carries cand a res.
Proof.
  unfold update_attachment.
  destruct (AtsAttachments.has_id_ats_candidate_attachment columns);
    [|discriminate].
  destruct (AtsAttachments.id_ats_candidate_attachment existing)
    as [id|]; [|discriminate].
  eff. simpl.
  destruct (Prisma.update _ _ _) as [[res0 t0]|] eqn:Hu; simpl.
  - intros [= <- _]. apply update_result in Hu.
    destruct Hu as (r & _ & ->). constructor; reflexivity.
  - discriminate.
Qed.

Lemma create_attachment_carries cand a stamp uuid created origin conn
      w res w' :
  create_attachment columns
    (create_data a cand stamp uuid created origin conn) w = (Ok res, w') ->
  carries cand a res.
Proof.
  unfold create_attachment.
  destruct (AtsAttachments.has_id_ats_attachment columns);
    [|discriminate].
  destruct (AtsAttachments.has_id_ats_candidate_attachment columns).
  - destruct (AtsAttachments.generates_id_ats_candidate_attachment
                columns); [|discriminate].
    eff. simpl. intros [= <- _]. constructor; reflexivity.
  - eff. simpl. intros [= <- _]. constructor; reflexivity.
Qed.

Lemma updateOrCreateAttachment_carries conn cand a origin w res w' :
  updateOrCreateAttachment_ conn cand a origin w = (Ok res, w') ->
  carries cand a res.
Proof.
  unfold updateOrCreateAttachment.
  unfold Eff.bind at 1. unfold query at 1.
  destruct (Prisma.findFirst _ (Db.ats_candidate_attachments w))
    as [existing|].
  - unfold Eff.bind at 1.
    destruct (new_Date w) as [[stamp|e] w0] eqn:Hd; [|discriminate].
    apply update_attachment_carries.
  - unfold Eff.bind at 1.
    destruct (new_Date w) as [[stamp|e] w0] eqn:Hd; [|discriminate].
    unfold Eff.bind at 1.
    destruct (uuidv4 w0) as [[uuid|e] w1] eqn:Hu; [|discriminate].
    unfold Eff.bind at 1.
    destruct (new_Date w1) as [[created|e] w2] eqn:Hc; [|discriminate].
    apply create_attachment_carries.
Qed.

Lemma saveAttachment_carries conn lu src rd cand i a w res w' :
  saveAttachment_ conn lu src rd cand i a w = (Ok res, w') ->
  carries cand a res.
Proof.
  unfold AttachmentSync.saveAttachment.
  destruct (origin_missing (a_remote_id a)); [discriminate|].
  unfold Eff.bind.
  destruct (updateOrCreateAttachment_ conn cand a _ w) as [[res0|e] w0]
    eqn:Hu; [|discriminate].
  apply updateOrCreateAttachment_carries in Hu.
  destruct (processFieldMappings _ _ _ _ w0) as [[[]|e] w1];
    [|discriminate].
  destruct (processRemoteData _ _ w1) as [[[]|e] w2]; [|discriminate].
  intros [= <- _]. assumption.
Qed.

Lemma saveToDb_from_carries conn lu src rd cand atts i acc w rows w' :
  saveToDb_from_ conn lu src rd cand i atts acc w = (Ok rows, w') ->
  exists saved, rows = acc ++ saved /\ Forall2 (carries cand) atts saved.
Proof.
  revert i acc w. induction atts as [|a atts IH]; intros i acc w; simpl.
  - intros [= <- _]. exists []. rewrite app_nil_r. split; constructor.
  - unfold Eff.bind.
    destruct (saveAttachment_ conn lu src rd cand i a w) as [[res|e] w1]
      eqn:Hs; [|discriminate].
    intros H. apply IH in H. destruct H as (saved & -> & Hall).
    exists (res :: saved). split; [now rewrite <- app_assoc|].
    constructor; [|assumption].
    eapply saveAttachment_carries; eassumption.
Qed.

(** X22.  The rows that a resolved [saveToDb] returns are one per
    attachment, in order, and each holds exactly what its attachment
    holds: the file URL, name and type and the two remote dates are the
    attachment's, [null] where the attachment has none, and the
    candidate is the one given to the save, [null] when none is given.
    This holds for a row that the save rewrites as for one it
    creates, whatever the row held before. *)
Theorem saveToDb_rows_carry_their_attachment
        (conn lu : string) (atts : list UnifiedAttachmentOutput)
        (src : string) (rd : list Original) (cand : option string)
        (w w' : World) (rows : list AtsAttachments.row)
        (Hsave : saveToDb_ conn lu atts src rd cand w = (Ok rows, w')) :
  Forall2 (carries cand) atts rows.
Proof.
  apply saveToDb_from_carries in Hsave.
  destruct Hsave as (saved & -> & Hall). exact Hall.
Qed.

End Facts.

Import SyncFixtures.

(** The two sample attachments, both of the key of the row that the
    sample table holds, saved without a candidate. *)
Lemma saveToDb_rows_carry_witness :
  exists rows w',
    AttachmentSync.saveToDb candidate_key_only no_field_mappings
      no_remote_data "conn-1" "lu-1" attachments "box" [] None
      attachment_store = (Ok rows, w')
    /\ Forall2 (carries None) attachments rows.
Proof.
  pose (run := AttachmentSync.saveToDb candidate_key_only no_field_mappings
                 no_remote_data "conn-1" "lu-1" attachments "box"
                 ([] : list string) None attachment_store).
  assert (Hok : exists rows, run = (Ok rows, snd run)).
  { eexists. vm_compute. reflexivity. }
  destruct Hok as [rows Hrun].
  exists rows, (snd run). split; [exact Hrun|].
  exact (@saveToDb_rows_carry_their_attachment
           string candidate_key_only no_field_mappings no_remote_data
           "conn-1" "lu-1" attachments "box" [] None attachment_store
           (snd run) rows Hrun).
Defined.

End AttachmentExtra.

(** ** Password recovery *)

Module RecoveryExtra.

Import Users AuthService AuthSpec RecoverySpec.

Lemma findFirst_at (Row : Type) (p : Row -> bool) l1 r l2 :
  Forall (fun x => p x = false) l1 -> p r = true ->
  Prisma.findFirst p (l1 ++ r :: l2) = Some r.
Proof.
  unfold Prisma.findFirst.
  induction 1 as [|x l1 Hx _ IH]; simpl; intros Hr.
  - now rewrite Hr.
  - rewrite Hx. now apply IH.
Qed.

Lemma other_token_skipped tok t (v : Users.row) :
  reset_token v <> Some tok ->
  col_eqb (reset_token v) tok && expiry_gt (reset_token_expiry v) t = false.
Proof.
  intros Hv. apply andb_false_iff. left. unfold col_eqb.
  destruct (reset_token v) as [x|]; [|reflexivity].
  apply String.eqb_neq. congruence.
Qed.

Section Facts.
Variable bcrypt_hash : string -> nat -> string -> string.
Variable randomBytes_hex : nat -> string -> string.
Variable WEBAPP_URL : option string.
Variable transport : Mail.message -> option Svc.error.

Local Abbreviation initiate_ :=
  (AuthService.initiatePasswordRecovery randomBytes_hex WEBAPP_URL
     transport).
Local Abbreviation reset_ := (AuthService.resetPassword bcrypt_hash).
Local Abbreviation token_ := (token randomBytes_hex).

(** The world after the token of [u] is stored. *)
Local Abbreviation stored_ :=
  (fun (w : World) l1 (u : Users.row) l2 =>
     Db.with_users
       (l1 ++ token_data (token_ w) (requested_at w + 3600000)%Z u :: l2)
       (Db.with_clock_reads (S (Db.clock_reads w))
          (Db.with_uuid_draws (S (Db.uuid_draws w)) w))).

Lemma initiatePasswordRecovery_run email_ s u l1 l2 :
  NoDup (List.map id_user (Db.users (Store.world s))) ->
  Db.users (Store.world s) = l1 ++ u :: l2 ->
  Prisma.findFirst (fun u => String.eqb (email u) email_)
                   (Db.users (Store.world s)) = Some u ->
  initiate_ email_ s =
  match transport (reset_mail WEBAPP_URL u (token_ (Store.world s))) with
  | Some e =>
      (Svc.Rejected e,
       Store.with_world (stored_ (Store.world s) l1 u l2) s)
  | None =>
      (Svc.Resolved "Password reset email sent",
       Store.with_outbox
         (Store.outbox s
            ++ [reset_mail WEBAPP_URL u (token_ (Store.world s))])
         (Store.with_world (stored_ (Store.world s) l1 u l2) s))
  end.
Proof.
  intros Hnd Hsplit Hfind.
  unfold AuthService.initiatePasswordRecovery, Svc.bind, Svc.query.
  rewrite Hfind. unfold Svc.lift, randomBytes_hex_async, new_Date. simpl.
  rewrite Hsplit in Hnd |- *.
  rewrite (PrismaFacts.update_by_pk id_user _ _ _ _ Hnd).
  unfold sendMail, reset_mail, token, requested_at. simpl.
  destruct (transport _) as [e|]; reflexivity.
Qed.

Lemma resetPassword_rejects token newPassword w :
  Forall (fun v => reset_token v <> Some token
                   \/ exists e, reset_token_expiry v = Some e
                                /\ (e <= now w)%Z)
         (Db.users w) ->
  resetPassword bcrypt_hash token newPassword w
  = (Throw invalid_token, Db.with_clock_reads (S (Db.clock_reads w)) w).
Proof.
  intros Hall.
  assert (Hnone : Prisma.findFirst
                    (fun u => col_eqb (reset_token u) token
                              && expiry_gt (reset_token_expiry u) (now w))
                    (Db.users w) = None).
  { apply PrismaFacts.findFirst_none.
    eapply Forall_impl; [|exact Hall].
    intros v [Hv | (e & He & Hle)].
    - now apply other_token_skipped.
    - apply andb_false_iff. right. unfold expiry_gt. rewrite He.
      apply Z.ltb_ge. assumption. }
  unfold resetPassword. eff. simpl. fold (now w). rewrite Hnone.
  reflexivity.
Qed.

(** X23.  The token of a password recovery resets the password once, and
    only within the hour.  When the email is that of a user, the mail
    is accepted and no user holds the token that is drawn,
    [initiatePasswordRecovery] resolves and hands the mailer one
    message, for that user, whose link ends with the token.  On the
    users it leaves, [resetPassword] with that token resolves when
    the clock reads less than one hour after the request, and gives
    that user, and no other, the hash of the new password and null
    [reset_token] and [reset_token_expiry]; a later reset with the
    same token rejects with [BadRequestException].  When the clock
    reads one hour after the request or more the reset rejects with
    [BadRequestException]. *)
Theorem recovery_token_resets_the_password_once_within_the_hour
        (email_ : string) (s : Store.t) (u : Users.row)
        (Hpk : NoDup (List.map id_user (Db.users (Store.world s))))
        (Hfind : Prisma.findFirst (fun u => String.eqb (email u) email_)
                                  (Db.users (Store.world s)) = Some u)
        (Hsend : transport
                   (reset_mail WEBAPP_URL u (token_ (Store.world s)))
                 = None)
        (Hfresh : Forall (fun v => reset_token v
                                   <> Some (token_ (Store.world s)))
                         (Db.users (Store.world s))) :
  exists s1 l1 l2,
    initiate_ email_ s = (Svc.Resolved "Password reset email sent", s1)
    /\ Store.outbox s1
       = Store.outbox s
           ++ [reset_mail WEBAPP_URL u (token_ (Store.world s))]
    /\ Db.users (Store.world s) = l1 ++ u :: l2
    /\ forall w2 newPassword,
        Db.users w2 = Db.users (Store.world s1) ->
        ((now w2 < requested_at (Store.world s) + 3600000)%Z ->
         exists w3,
           reset_ (token_ (Store.world s)) newPassword w2
           = (Ok "Password reset successful", w3)
           /\ Db.users w3
              = l1 ++ {| id_user := id_user u;
                         email := email u;
                         first_name := first_name u;
                         password_hash :=
                           bcrypt_hash newPassword 10 (salt w2);
                         reset_token := None;
                         reset_token_expiry := None |} :: l2
           /\ forall w4 again,
               Db.users w4 = Db.users w3 ->
               fst (reset_ (token_ (Store.world s)) again w4)
               = Throw invalid_token)
        /\ ((requested_at (Store.world s) + 3600000 <= now w2)%Z ->
            fst (reset_ (token_ (Store.world s)) newPassword w2)
            = Throw invalid_token).
Proof.
  destruct (PrismaFacts.findFirst_split _ _ Hfind)
    as (l1 & l2 & Hsplit & _ & _).
  eexists. exists l1, l2.
  rewrite (initiatePasswordRecovery_run email_ s u l1 l2 Hpk Hsplit Hfind),
    Hsend.
  split; [reflexivity|]. split; [reflexivity|]. split; [exact Hsplit|].
  simpl. intros w2 newPassword Husers.
  rewrite Hsplit in Hfresh, Hpk.
  apply Forall_app in Hfresh. destruct Hfresh as [H1 H2].
  inversion H2 as [|? ? _ H2']; subst. clear H2.
  set (tok := token_ (Store.world s)) in *.
  set (exp := (requested_at (Store.world s) + 3600000)%Z) in *.
  split.
  - intros Hlt.
    assert (Hfound :
      Prisma.findFirst
        (fun u => col_eqb (reset_token u) tok
                  && expiry_gt (reset_token_expiry u) (now w2))
        (Db.users w2) = Some (token_data tok exp u)).
    { rewrite Husers. apply findFirst_at.
      - eapply Forall_impl; [|exact H1]. intros v Hv.
        now apply other_token_skipped.
      - simpl. rewrite String.eqb_refl. simpl. now apply Z.ltb_lt. }
    assert (Hpk2 : NoDup (List.map id_user (Db.users w2))).
    { rewrite Husers. rewrite map_app in *. exact Hpk. }
    destruct (@AuthFacts.resetPassword_found bcrypt_hash w2 tok newPassword
                (token_data tok exp u) l1 l2 Hpk2 Husers Hfound)
      as (w3 & Hrun & Hu3).
    exists w3. split; [exact Hrun|]. split; [exact Hu3|].
    intros w4 again H4.
    rewrite resetPassword_rejects; [reflexivity|].
    rewrite H4, Hu3. apply Forall_app. split.
    + eapply Forall_impl; [|exact H1]. intros v Hv. now left.
    + constructor; [left; discriminate|].
      eapply Forall_impl; [|exact H2']. intros v Hv. now left.
  - intros Hge.
    rewrite resetPassword_rejects; [reflexivity|].
    rewrite Husers. apply Forall_app. split.
    + eapply Forall_impl; [|exact H1]. intros v Hv. now left.
    + constructor.
      * right. exists exp. split; [reflexivity | assumption].
      * eapply Forall_impl; [|exact H2']. intros v Hv. now left.
Qed.

(** X24.  [initiatePasswordRecovery] stores the token before it sends the
    mail.  For an email that no user has it rejects with
    [NotFoundException] and the store is untouched.  When the mailer
    rejects the message, the method rejects with the mailer's error
    and no message is recorded, yet the user's row holds the new token
    and its expiry, one hour after the request. *)
Theorem initiatePasswordRecovery_stores_the_token_before_it_sends
        (email_ : string) (s : Store.t) :
  (Prisma.findFirst (fun u => String.eqb (email u) email_)
                    (Db.users (Store.world s)) = None ->
   initiate_ email_ s
   = (Svc.Rejected (Svc.NotFoundException "User not found"), s))
  /\ (forall u err,
         NoDup (List.map id_user (Db.users (Store.world s))) ->
         Prisma.findFirst (fun u => String.eqb (email u) email_)
                          (Db.users (Store.world s)) = Some u ->
         transport (reset_mail WEBAPP_URL u (token_ (Store.world s)))
         = Some err ->
         exists s1 l1 l2,
           initiate_ email_ s = (Svc.Rejected err, s1)
           /\ Store.outbox s1 = Store.outbox s
           /\ Db.users (Store.world s) = l1 ++ u :: l2
           /\ Db.users (Store.world s1)
              = l1 ++ {| id_user := id_user u;
                         email := email u;
                         first_name := first_name u;
                         password_hash := password_hash u;
                         reset_token := Some (token_ (Store.world s));
                         reset_token_expiry :=
                           Some (requested_at (Store.world s)
                                 + 3600000)%Z |} :: l2).
Proof.
  split.
  - intros Hnone.
    unfold AuthService.initiatePasswordRecovery, Svc.bind, Svc.query.
    rewrite Hnone. reflexivity.
  - intros u err Hpk Hfind Hsend.
    destruct (PrismaFacts.findFirst_split _ _ Hfind)
      as (l1 & l2 & Hsplit & _ & _).
    eexists. exists l1, l2.
    rewrite (initiatePasswordRecovery_run email_ s u l1 l2 Hpk Hsplit
               Hfind), Hsend.
    split; [reflexivity|]. split; [reflexivity|].
    split; [exact Hsplit | reflexivity].
Qed.

End Facts.

Import RecoveryFixtures.

(** Alice asks for a recovery on the store of the two users. *)
Lemma recovery_token_witness :
  NoDup (List.map id_user (Db.users (Store.world store)))
  /\ Prisma.findFirst (fun u => String.eqb (email u) "alice@example.com")
                      (Db.users (Store.world store)) = Some Fixtures.alice
  /\ delivers (reset_mail (Some "https://app") Fixtures.alice
                          (token sample_random (Store.world store))) = None
  /\ Forall (fun v => reset_token v
                      <> Some (token sample_random (Store.world store)))
            (Db.users (Store.world store))
  /\ exists s1,
      AuthService.initiatePasswordRecovery sample_random
        (Some "https://app") delivers "alice@example.com" store
      = (Svc.Resolved "Password reset email sent", s1)
      /\ Store.outbox s1
         = [reset_mail (Some "https://app") Fixtures.alice
                       (token sample_random (Store.world store))].
Proof.
  assert (Hpk : NoDup (List.map id_user (Db.users (Store.world store)))).
  { simpl. repeat constructor; simpl; intuition discriminate. }
  assert (Hfresh : Forall (fun v => reset_token v
                                    <> Some (token sample_random
                                                   (Store.world store)))
                          (Db.users (Store.world store))).
  { repeat constructor; discriminate. }
  split; [exact Hpk|]. split; [reflexivity|]. split; [reflexivity|].
  split; [exact Hfresh|].
  destruct (@recovery_token_resets_the_password_once_within_the_hour
              Fixtures.sample_bcrypt sample_random (Some "https://app")
              delivers "alice@example.com" store Fixtures.alice
              Hpk eq_refl eq_refl Hfresh)
    as (s1 & l1 & l2 & Hrun & Hout & _).
  exists s1. split; [exact Hrun | exact Hout].
Defined.

End RecoveryExtra.

(** ** API keys *)

Module ApiKeyExtra.

Import AuthService ApiKeySpec.

Lemma delete_by_id_last id t r :
  Forall (fun x => ApiKeys.id_api_key x <> id) t ->
  ApiKeys.id_api_key r = id ->
  delete_by_id id (t ++ [r]) = Some (r, t).
Proof.
  intros Hall Hr. induction Hall as [|x t Hx _ IH]; simpl.
  - rewrite Hr, String.eqb_refl. reflexivity.
  - apply String.eqb_neq in Hx. rewrite Hx, IH. reflexivity.
Qed.

Section Facts.
Variable JWT_SECRET : option string.
Variable jwt_sign : Js.object string -> sign_options -> Svc.result string.
Variable jwt_verify :
  string -> option string -> Svc.result (Js.object string).

Local Abbreviation generateApiKeyForUser_ :=
  (AuthService.generateApiKeyForUser JWT_SECRET jwt_sign).
Local Abbreviation validateApiKey_ :=
  (AuthService.validateApiKey JWT_SECRET jwt_verify).
Local Abbreviation getProjectIdForApiKey_ :=
  (AuthService.getProjectIdForApiKey JWT_SECRET jwt_verify).

Lemma validateApiKey_run apiKey s :
  validateApiKey_ apiKey s =
  match jwt_verify apiKey JWT_SECRET with
  | Svc.Rejected e => (Svc.Rejected e, s)
  | Svc.Resolved decoded =>
      match Prisma.findFirst
              (fun k => String.eqb (ApiKeys.api_key_hash k) apiKey)
              (Store.api_keys s) with
      | None => (Svc.Rejected key_undefined, s)
      | Some saved =>
          if negb (String.eqb (String_of_claim decoded "project_id")
                              (ApiKeys.id_project saved))
          then (Svc.Rejected (Svc.of_exn (ReferenceError
                  "Failed to validate API key: projectId mismatch.")), s)
          else if negb (String.eqb (String_of_claim decoded "sub")
                                   (ApiKeys.id_user saved))
          then (Svc.Rejected (Svc.of_exn (ReferenceError
                  "Failed to validate API key: userId mismatch.")), s)
          else (Svc.Resolved true, s)
      end
  end.
Proof.
  unfold AuthService.validateApiKey, Svc.bind, Svc.call, Svc.query.
  destruct (jwt_verify apiKey JWT_SECRET) as [decoded|e]; [|reflexivity].
  destruct (Prisma.findFirst _ (Store.api_keys s)) as [saved|];
    [|reflexivity].
  destruct (negb _); [reflexivity|].
  destruct (negb _); reflexivity.
Qed.

Lemma getProjectIdForApiKey_run apiKey s :
  getProjectIdForApiKey_ apiKey s =
  match jwt_verify apiKey JWT_SECRET with
  | Svc.Rejected e => (Svc.Rejected e, s)
  | Svc.Resolved decoded =>
      match Prisma.findFirst
              (fun k => String.eqb (ApiKeys.api_key_hash k) apiKey)
              (Store.api_keys s) with
      | None =>
          (Svc.Rejected (Svc.of_exn (TypeError
             "Cannot read properties of null (reading 'id_project')")), s)
      | Some saved => (Svc.Resolved (ApiKeys.id_project saved), s)
      end
  end.
Proof.
  unfold AuthService.getProjectIdForApiKey, Svc.bind, Svc.call, Svc.query.
  destruct (jwt_verify apiKey JWT_SECRET) as [decoded|e]; [|reflexivity].
  destruct (Prisma.findFirst _ (Store.api_keys s)) as [saved|];
    reflexivity.
Qed.

(** X25.  A key that [generateApiKeyForUser] returns validates until it is
    deleted.  When the project and the user exist, the token is signed,
    and neither the token nor the identifier drawn for it is in the
    table, the method resolves with the token and adds one row for it,
    whose [api_key_hash] is the token itself.  If the token verifies
    to claims that name the user and the project, then on the store
    that is left [validateApiKey] resolves with [true] and
    [getProjectIdForApiKey] with the project; [deleteApiKey] of the
    row's identifier restores the table, and [validateApiKey] then
    rejects with [ReferenceError] [Api Key undefined]. *)
Theorem generated_key_validates_until_deleted
        (userId projectId keyName token : string) (s : Store.t)
        (p : Projects.row) (u : Users.row) (decoded : Js.object string)
        (Hproject : Prisma.findFirst
                      (fun p => String.eqb (Projects.id_project p) projectId)
                      (Db.projects (Store.world s)) = Some p)
        (Huser : Prisma.findFirst
                   (fun u => String.eqb (Users.id_user u) userId)
                   (Db.users (Store.world s)) = Some u)
        (Hsign : jwt_sign [("sub", userId); ("project_id", projectId)]
                          {| secret := JWT_SECRET; expiresIn := Some "1y" |}
                 = Svc.Resolved token)
        (Hnew : Forall (fun r => ApiKeys.id_api_key r <> drawn_id s
                                 /\ ApiKeys.api_key_hash r <> token)
                       (Store.api_keys s))
        (Hverify : jwt_verify token JWT_SECRET = Svc.Resolved decoded)
        (Hsub : String_of_claim decoded "sub" = userId)
        (Hclaim : String_of_claim decoded "project_id" = projectId) :
  let row := key_row s token keyName projectId userId in
  exists s1 s2,
    generateApiKeyForUser_ userId projectId keyName s
    = (Svc.Resolved {| api_key := token; saved := row |}, s1)
    /\ Store.api_keys s1 = Store.api_keys s ++ [row]
    /\ validateApiKey_ token s1 = (Svc.Resolved true, s1)
    /\ getProjectIdForApiKey_ token s1 = (Svc.Resolved projectId, s1)
    /\ deleteApiKey (drawn_id s) s1 = (Svc.Resolved row, s2)
    /\ Store.api_keys s2 = Store.api_keys s
    /\ validateApiKey_ token s2 = (Svc.Rejected key_undefined, s2).
Proof.
  intros row.
  assert (Hcreate :
    existsb (fun r => String.eqb (ApiKeys.id_api_key r) (drawn_id s)
                      || String.eqb (ApiKeys.api_key_hash r) token)
            (Store.api_keys s) = false).
  { clear - Hnew. induction Hnew as [|r t [Hi Hh] _ IH]; simpl;
      [reflexivity|].
    apply String.eqb_neq in Hi, Hh. now rewrite Hi, Hh, IH. }
  assert (Hfind : forall t,
    Prisma.findFirst (fun k => String.eqb (ApiKeys.api_key_hash k) token)
                     (Store.api_keys s ++ t)
    = Prisma.findFirst
        (fun k => String.eqb (ApiKeys.api_key_hash k) token) t).
  { intros t. clear - Hnew. unfold Prisma.findFirst.
    induction Hnew as [|r t0 [_ Hh] _ IH]; simpl; [reflexivity|].
    apply String.eqb_neq in Hh. now rewrite Hh. }
  pose (s1 := Store.with_api_keys (Store.api_keys s ++ [row])
                (Store.with_world
                   (Db.with_uuid_draws
                      (S (Db.uuid_draws (Store.world s))) (Store.world s))
                   s)).
  exists s1, (Store.with_api_keys (Store.api_keys s) s1).
  split.
  { unfold AuthService.generateApiKeyForUser, Svc.bind, Svc.query.
    rewrite Hproject, Huser.
    unfold generateApiKey, Svc.call. rewrite Hsign.
    unfold Svc.lift, uuidv4, create_api_key. simpl.
    fold (drawn_id s). rewrite Hcreate. reflexivity. }
  split; [reflexivity|].
  split.
  { rewrite validateApiKey_run, Hverify.
    change (Store.api_keys s1) with (Store.api_keys s ++ [row]).
    rewrite Hfind. simpl.
    rewrite String.eqb_refl, Hclaim, Hsub, !String.eqb_refl. reflexivity. }
  split.
  { rewrite getProjectIdForApiKey_run, Hverify.
    change (Store.api_keys s1) with (Store.api_keys s ++ [row]).
    rewrite Hfind. simpl.
    rewrite String.eqb_refl. reflexivity. }
  split.
  { unfold deleteApiKey.
    change (Store.api_keys s1) with (Store.api_keys s ++ [row]).
    rewrite (delete_by_id_last (drawn_id s) (Store.api_keys s) row);
      [reflexivity | | reflexivity].
    eapply Forall_impl; [|exact Hnew]. intros r [Hi _]. exact Hi. }
  split; [reflexivity|].
  rewrite validateApiKey_run, Hverify.
  change (Store.api_keys (Store.with_api_keys (Store.api_keys s) s1))
    with (Store.api_keys s).
  rewrite <- (app_nil_r (Store.api_keys s)), Hfind. reflexivity.
Qed.

(** X26.  [validateApiKey] never resolves with [false] and never writes:
    a call that resolves has resolved with [true] on an unchanged
    store, the token verifies, one stored row has the token as
    [api_key_hash] and carries the project and the user that the
    token claims, and [getProjectIdForApiKey] resolves with the
    project that the token claims. *)
Theorem validated_key_has_the_project_of_its_claims
        (apiKey : string) (s s' : Store.t) (b : bool)
        (Hvalid : validateApiKey_ apiKey s = (Svc.Resolved b, s')) :
  b = true /\ s' = s
  /\ exists decoded row,
      jwt_verify apiKey JWT_SECRET = Svc.Resolved decoded
      /\ In row (Store.api_keys s)
      /\ ApiKeys.api_key_hash row = apiKey
      /\ ApiKeys.id_project row = String_of_claim decoded "project_id"
      /\ ApiKeys.id_user row = String_of_claim decoded "sub"
      /\ getProjectIdForApiKey_ apiKey s
         = (Svc.Resolved (String_of_claim decoded "project_id"), s).
Proof.
  revert Hvalid.
  rewrite validateApiKey_run, getProjectIdForApiKey_run.
  destruct (jwt_verify apiKey JWT_SECRET) as [decoded|e]; [|discriminate].
  destruct (Prisma.findFirst _ (Store.api_keys s)) as [saved|] eqn:Hf;
    [|discriminate].
  destruct (String.eqb (String_of_claim decoded "project_id")
                       (ApiKeys.id_project saved)) eqn:Hp;
    [|discriminate].
  destruct (String.eqb (String_of_claim decoded "sub")
                       (ApiKeys.id_user saved)) eqn:Hu;
    [|discriminate].
  simpl. intros [= <- <-].
  apply String.eqb_eq in Hp, Hu.
  destruct (PrismaFacts.findFirst_split _ _ Hf) as (l1 & l2 & Hs & Hk & _).
  apply String.eqb_eq in Hk.
  split; [reflexivity|]. split; [reflexivity|].
  exists decoded, saved. split; [reflexivity|].
  split; [rewrite Hs; apply in_or_app; right; now left|].
  split; [assumption|]. split; [now symmetry|]. split; [now symmetry|].
  now rewrite Hp.
Qed.

End Facts.

Import ApiKeyFixtures.

(** Alice generates a key for her project on the tenant's store. *)
Lemma generated_key_witness :
  exists p u decoded s1,
    Prisma.findFirst (fun p => String.eqb (Projects.id_project p) "proj-1")
                     (Db.projects (Store.world store)) = Some p
    /\ Prisma.findFirst (fun u => String.eqb (Users.id_user u) "alice")
                        (Db.users (Store.world store)) = Some u
    /\ sample_sign [("sub", "alice"); ("project_id", "proj-1")]
                   {| secret := Some "secret"; expiresIn := Some "1y" |}
       = Svc.Resolved "jwt.alice.proj-1"
    /\ Forall (fun r => ApiKeys.id_api_key r <> drawn_id store
                        /\ ApiKeys.api_key_hash r <> "jwt.alice.proj-1")
              (Store.api_keys store)
    /\ sample_verify "jwt.alice.proj-1" (Some "secret")
       = Svc.Resolved decoded
    /\ String_of_claim decoded "sub" = "alice"
    /\ String_of_claim decoded "project_id" = "proj-1"
    /\ AuthService.generateApiKeyForUser (Some "secret") sample_sign
         "alice" "proj-1" "ci" store
       = (Svc.Resolved
            {| api_key := "jwt.alice.proj-1";
               saved := key_row store "jwt.alice.proj-1" "ci" "proj-1"
                                "alice" |}, s1)
    /\ AuthService.validateApiKey (Some "secret") sample_verify
         "jwt.alice.proj-1" s1 = (Svc.Resolved true, s1).
Proof.
  destruct (@generated_key_validates_until_deleted
              (Some "secret") sample_sign sample_verify
              "alice" "proj-1" "ci" "jwt.alice.proj-1" store
              {| Projects.id_project := "proj-1";
                 Projects.id_user := "alice" |}
              Fixtures.alice
              [("sub", "alice"); ("project_id", "proj-1");
               ("iat", "1700000000")]
              eq_refl eq_refl eq_refl (Forall_nil _) eq_refl eq_refl
              eq_refl)
    as (s1 & s2 & Hgen & _ & Hval & _).
  eexists. eexists. eexists. exists s1.
  split; [reflexivity|]. split; [reflexivity|]. split; [reflexivity|].
  split; [apply Forall_nil|]. split; [reflexivity|].
  split; [reflexivity|]. split; [reflexivity|].
  split; [exact Hgen | exact Hval].
Defined.

(** The key of Alice, once stored, validates. *)
Lemma validated_key_witness :
  exists s b s',
    AuthService.validateApiKey (Some "secret") sample_verify
      "jwt.alice.proj-1" s = (Svc.Resolved b, s')
    /\ b = true /\ s' = s
    /\ AuthService.getProjectIdForApiKey (Some "secret") sample_verify
         "jwt.alice.proj-1" s = (Svc.Resolved "proj-1", s).
Proof.
  pose (s := Store.with_api_keys
               [key_row store "jwt.alice.proj-1" "ci" "proj-1" "alice"]
               store).
  assert (Hrun : AuthService.validateApiKey (Some "secret") sample_verify
                   "jwt.alice.proj-1" s = (Svc.Resolved true, s))
    by reflexivity.
  destruct (@validated_key_has_the_project_of_its_claims
              (Some "secret") sample_verify "jwt.alice.proj-1" s s true
              Hrun)
    as (Hb & Hs & _).
  exists s, true, s. split; [exact Hrun|]. split; [exact Hb|].
  split; [exact Hs | reflexivity].
Defined.

End ApiKeyExtra.

(** ** Reading scorecards *)

Module ScoreCardExtra.

Import AtsScorecards ScoreCardService ScoreCardSpec.

Lemma with_world_same s : Store.with_world (Store.world s) s = s.
Proof. destruct s; reflexivity. Qed.

Lemma findFirst_by_key (Row : Type) (pk : Row -> string) r t :
  NoDup (List.map pk t) -> In r t ->
  Prisma.findFirst (fun x => String.eqb (pk x) (pk r)) t = Some r.
Proof.
  induction t as [|x t IH]; simpl; [tauto|].
  intros Hnd [-> | Hin].
  - now rewrite String.eqb_refl.
  - inversion Hnd as [|? ? Hni Hnd']; subst.
    destruct (String.eqb (pk x) (pk r)) eqn:E.
    + apply String.eqb_eq in E. exfalso. apply Hni. rewrite E.
      now apply in_map.
    + now apply IH.
Qed.

Section Facts.
Variable Json : Type.
Variable JSON_parse : option string -> outcome Json.
Variable String_of_Date : option Date -> string.

Local Abbreviation getScoreCard_ :=
  (ScoreCardService.getScoreCard JSON_parse String_of_Date).
Local Abbreviation getScoreCards_ :=
  (ScoreCardService.getScoreCards JSON_parse String_of_Date).
Local Abbreviation to_unified_ :=
  (@ScoreCardService.to_unified Json String_of_Date).
Local Abbreviation with_remote_ :=
  (ScoreCardService.with_remote JSON_parse).

Lemma to_unified_id w sc u : to_unified_ w sc = Ok u -> u_id u = id_ats_scorecard sc.
Proof.
  unfold ScoreCardService.to_unified.
  destruct (InterviewService.fieldMappingsMap _ _); simpl;
    [|discriminate].
  intros H. apply Ok_inj in H. now subst u.
Qed.

Lemma getScoreCard_run id rd s :
  getScoreCard_ id rd s =
  match Prisma.findFirst (fun r => String.eqb (id_ats_scorecard r) id)
                         (Store.ats_scorecards s) with
  | None =>
      (Svc.Rejected
         (Svc.Error_ ("ScoreCard with ID " ++ id ++ " not found.")%string),
       s)
  | Some sc =>
      match to_unified_ (Store.world s) sc with
      | Throw e => (Svc.Rejected (Svc.of_exn e), s)
      | Ok u =>
          if truthy_obool rd
          then match with_remote_ (Store.world s) u with
               | Throw e => (Svc.Rejected (Svc.of_exn e), s)
               | Ok res => (Svc.Resolved res, s)
               end
          else (Svc.Resolved u, s)
      end
  end.
Proof.
  unfold ScoreCardService.getScoreCard, Svc.bind, Svc.query, Svc.lift.
  destruct (Prisma.findFirst _ (Store.ats_scorecards s)) as [sc|];
    [|reflexivity].
  destruct (to_unified_ (Store.world s) sc) as [u|e];
    rewrite ?with_world_same; [|reflexivity].
  destruct (truthy_obool rd); [|reflexivity].
  simpl.
  destruct (with_remote_ (Store.world s) u) as [res|e];
    rewrite ?with_world_same; reflexivity.
Qed.

Lemma getScoreCards_run conn integ lu limit rd cursor s :
  getScoreCards_ conn integ lu limit rd cursor s =
  match Promise.all (to_unified_ (Store.world s)) (of_connection conn s)
  with
  | Throw e => (Svc.Rejected (Svc.of_exn e), s)
  | Ok unified =>
      if truthy_obool rd
      then match Promise.all (with_remote_ (Store.world s)) unified with
           | Throw e => (Svc.Rejected (Svc.of_exn e), s)
           | Ok res => (Svc.Resolved res, s)
           end
      else (Svc.Resolved unified, s)
  end.
Proof.
  unfold ScoreCardService.getScoreCards, Svc.bind, Svc.query, Svc.lift,
    of_connection.
  destruct (Promise.all _ _) as [unified|e];
    rewrite ?with_world_same; [|reflexivity].
  destruct (truthy_obool rd); [|reflexivity].
  simpl.
  destruct (Promise.all _ unified) as [res|e];
    rewrite ?with_world_same; reflexivity.
Qed.

(** X27.  [getScoreCards] reads neither [limit] nor [cursor]: a call that
    resolves returns one unified scorecard for every scorecard of the
    connection, in table order, whatever the limit, and leaves the
    store as it was.  Each of them is what [getScoreCard] returns for
    the scorecard's identifier with the same [remote_data] flag, the
    identifiers of the scorecards being distinct. *)
Theorem getScoreCards_returns_every_scorecard_of_the_connection
        (conn integ lu : string) (limit : nat) (rd : option bool)
        (cursor : option string) (s s' : Store.t)
        (l : list (UnifiedScoreCardOutput Json))
        (Hids : NoDup (List.map id_ats_scorecard (Store.ats_scorecards s)))
        (Hrun : getScoreCards_ conn integ lu limit rd cursor s
                = (Svc.Resolved l, s')) :
  s' = s
  /\ List.length l = List.length (of_connection conn s)
  /\ Forall2 (fun sc u =>
                getScoreCard_ (id_ats_scorecard sc) rd s
                = (Svc.Resolved u, s))
             (of_connection conn s) l.
Proof.
  revert Hrun. rewrite getScoreCards_run.
  assert (Hin : forall sc, In sc (of_connection conn s) ->
                           In sc (Store.ats_scorecards s)).
  { intros sc Hsc. apply filter_In in Hsc. tauto. }
  destruct (Promise.all (to_unified_ (Store.world s)) _) as [unified|e]
    eqn:Hu; [|discriminate].
  apply PromiseFacts.all_resolved in Hu.
  assert (Hall :
    Forall2 (fun sc u =>
               getScoreCard_ (id_ats_scorecard sc) rd s
               = (Svc.Resolved u, s))
            (of_connection conn s) l
    -> s = s
       /\ List.length l = List.length (of_connection conn s)
       /\ Forall2 (fun sc u =>
                     getScoreCard_ (id_ats_scorecard sc) rd s
                     = (Svc.Resolved u, s))
                  (of_connection conn s) l).
  { intros H. split; [reflexivity|]. split; [|exact H].
    symmetry. eapply Forall2_length. exact H. }
  destruct (truthy_obool rd) eqn:Hrd.
  - destruct (Promise.all (with_remote_ (Store.world s)) unified)
      as [res|e] eqn:Hr; [|discriminate].
    apply PromiseFacts.all_resolved in Hr.
    intros [= <- <-]. apply Hall. clear Hall.
    revert res Hr Hin.
    induction Hu as [|sc u0 scs us Hsc _ IH]; intros res Hr Hin;
      inversion Hr as [|? u ? res' Hu0 Hrest]; subst; constructor.
    + rewrite getScoreCard_run,
        (findFirst_by_key _ id_ats_scorecard sc _ Hids
           (Hin sc (or_introl eq_refl))),
        Hsc, Hrd, Hu0.
      reflexivity.
    + apply IH; [assumption|]. intros sc' Hsc'. apply Hin. now right.
  - intros [= <- <-]. apply Hall. clear Hall.
    revert Hin. induction Hu as [|sc u0 scs us Hsc _ IH]; intros Hin;
      constructor.
    + rewrite getScoreCard_run,
        (findFirst_by_key _ id_ats_scorecard sc _ Hids
           (Hin sc (or_introl eq_refl))),
        Hsc, Hrd.
      reflexivity.
    + apply IH. intros sc' Hsc'. apply Hin. now right.
Qed.

(** X28.  A scorecard without a remote-data row fails the reads that ask
    for remote data.  For a scorecard whose field mappings are
    readable and that owns no row of the remote-data table,
    [getScoreCard] resolves without the flag and rejects with a
    [TypeError] on reading [data] of [null] with it, and
    [getScoreCards] of its connection with the flag rejects: one such
    scorecard fails the whole list.  [getScoreCard] of an identifier
    that no scorecard has rejects with an [Error] that names the
    identifier.  None of them changes the store. *)
Theorem scorecard_without_remote_data_fails_the_reads
        (s : Store.t) (sc : AtsScorecards.row)
        (u : UnifiedScoreCardOutput Json)
        (Hids : NoDup (List.map id_ats_scorecard (Store.ats_scorecards s)))
        (Hin : In sc (Store.ats_scorecards s))
        (Hreadable : to_unified_ (Store.world s) sc = Ok u)
        (Hnone : no_remote_data_of (id_ats_scorecard sc) (Store.world s)) :
  getScoreCard_ (id_ats_scorecard sc) None s = (Svc.Resolved u, s)
  /\ getScoreCard_ (id_ats_scorecard sc) (Some true) s
     = (Svc.Rejected null_data, s)
  /\ (forall integ lu limit cursor,
         exists e,
           getScoreCards_ (id_connection sc) integ lu limit (Some true)
                          cursor s
           = (Svc.Rejected e, s))
  /\ (forall id rd,
         Forall (fun r => id_ats_scorecard r <> id)
                (Store.ats_scorecards s) ->
         getScoreCard_ id rd s
         = (Svc.Rejected
              (Svc.Error_ ("ScoreCard with ID " ++ id
                             ++ " not found.")%string), s)).
Proof.
  assert (Hfind : Prisma.findFirst
                    (fun r => String.eqb (RemoteData.ressource_owner_id r)
                                         (u_id u))
                    (Db.remote_data (Store.world s)) = None).
  { apply PrismaFacts.findFirst_none.
    rewrite (to_unified_id _ _ _ Hreadable).
    eapply Forall_impl; [|exact Hnone].
    intros r Hr. now apply String.eqb_neq. }
  assert (Hremote : with_remote_ (Store.world s) u
                    = Throw (TypeError
                        "Cannot read properties of null (reading 'data')")).
  { unfold ScoreCardService.with_remote. now rewrite Hfind. }
  split; [|split; [|split]].
  - rewrite getScoreCard_run,
      (findFirst_by_key _ id_ats_scorecard sc _ Hids Hin), Hreadable.
    reflexivity.
  - rewrite getScoreCard_run,
      (findFirst_by_key _ id_ats_scorecard sc _ Hids Hin), Hreadable.
    simpl. rewrite Hremote. reflexivity.
  - intros integ lu limit cursor. rewrite getScoreCards_run.
    destruct (Promise.all (to_unified_ (Store.world s)) _) as [unified|e]
      eqn:Hu; [|eexists; reflexivity].
    simpl.
    destruct (Promise.all (with_remote_ (Store.world s)) unified)
      as [res|e] eqn:Hr; [|eexists; reflexivity].
    exfalso.
    apply PromiseFacts.all_resolved in Hu, Hr.
    assert (Hsc : In sc (of_connection (id_connection sc) s)).
    { apply filter_In. split; [assumption | apply String.eqb_refl]. }
    clear - Hu Hr Hsc Hreadable Hremote.
    revert res Hr.
    induction Hu as [|sc0 u0 scs us Hsc0 _ IH]; intros res Hr;
      [contradiction|].
    inversion Hr as [|? r0 ? res' Hu0 Hrest]; subst.
    destruct Hsc as [-> | Hsc].
    + rewrite Hreadable in Hsc0. apply Ok_inj in Hsc0. subst u0.
      rewrite Hremote in Hu0. discriminate.
    + eapply IH; eassumption.
  - intros id rd Hall. rewrite getScoreCard_run.
    assert (Hn : Prisma.findFirst
                   (fun r => String.eqb (id_ats_scorecard r) id)
                   (Store.ats_scorecards s) = None).
    { apply PrismaFacts.findFirst_none.
      eapply Forall_impl; [|exact Hall].
      intros r Hr. now apply String.eqb_neq. }
    now rewrite Hn.
Qed.

End Facts.

Import ScoreCardFixtures.

(** The three scorecards of the connection are read with a limit of
    one. *)
Lemma getScoreCards_witness :
  exists l,
    NoDup (List.map id_ats_scorecard (Store.ats_scorecards store))
    /\ ScoreCardService.getScoreCards parse show "conn-1" "greenhouse"
         "lu-1" 1 None None store = (Svc.Resolved l, store)
    /\ List.length l = 3.
Proof.
  assert (Hids : NoDup (List.map id_ats_scorecard
                                 (Store.ats_scorecards store))).
  { simpl. repeat constructor; simpl; intuition discriminate. }
  pose (run := ScoreCardService.getScoreCards parse show "conn-1"
                 "greenhouse" "lu-1" 1 None None store).
  assert (Hok : exists l, run = (Svc.Resolved l, store)).
  { eexists. vm_compute. reflexivity. }
  destruct Hok as [l Hrun].
  exists l. split; [exact Hids|]. split; [exact Hrun|].
  exact (proj1 (proj2
    (@getScoreCards_returns_every_scorecard_of_the_connection
       string parse show "conn-1" "greenhouse" "lu-1" 1 None None
       store store l Hids Hrun))).
Defined.

(** The second scorecard has no remote data. *)
Lemma scorecard_without_remote_data_witness :
  exists u,
    NoDup (List.map id_ats_scorecard (Store.ats_scorecards store))
    /\ In (scorecard "sc-2") (Store.ats_scorecards store)
    /\ @ScoreCardService.to_unified string show (Store.world store)
         (scorecard "sc-2") = Ok u
    /\ no_remote_data_of "sc-2" (Store.world store)
    /\ ScoreCardService.getScoreCard parse show "sc-2" (Some true) store
       = (Svc.Rejected null_data, store).
Proof.
  assert (Hids : NoDup (List.map id_ats_scorecard
                                 (Store.ats_scorecards store))).
  { simpl. repeat constructor; simpl; intuition discriminate. }
  assert (Hin : In (scorecard "sc-2") (Store.ats_scorecards store)).
  { simpl. right. left. reflexivity. }
  assert (Hnone : no_remote_data_of
                    (id_ats_scorecard (scorecard "sc-2"))
                    (Store.world store)).
  { repeat constructor. discriminate. }
  eexists.
  split; [exact Hids|]. split; [exact Hin|].
  split; [reflexivity|]. split; [exact Hnone|].
  exact (proj1 (proj2
    (@scorecard_without_remote_data_fails_the_reads
       string parse show store (scorecard "sc-2") _ Hids Hin eq_refl
       Hnone))).
Defined.

End ScoreCardExtra.

(** ** The folder controller *)

Module FolderExtra.

Import FolderController.

Section Facts.
Variable UnifiedFolderInput : Type.
Variable UnifiedFolderOutput : Type.
Variable Folders : Type.
Variable getConnectionMetadataFromConnectionToken :
  string -> Svc.M ConnectionMetadata.
Variable getFolders :
  string -> string -> string -> nat -> option bool -> option string ->
  Svc.M Folders.
Variable addFolder :
  UnifiedFolderInput -> string -> string -> string -> option bool ->
  Svc.M UnifiedFolderOutput.

Local Abbreviation list_ :=
  (FolderController.list getConnectionMetadataFromConnectionToken
     getFolders).
Local Abbreviation create_ :=
  (FolderController.create getConnectionMetadataFromConnectionToken
     addFolder).

(** X29.  [list] and [create] rewrap the failure of the token lookup and
    nothing else.  When the lookup rejects, both reject with a plain
    [Error] whose message is the text of the lookup's error, its class
    name, a colon and its message when both are non-empty, so the
    class of the error is lost and the folder service is not called.
    When the lookup resolves, both settle as the folder service does
    on the metadata found: a rejection of the service comes out
    unchanged, with its class. *)
Theorem folder_controller_rewraps_only_the_token_failure
        (connection_token : string) (query : FetchObjectsQueryDto)
        (unifiedFolderData : UnifiedFolderInput)
        (remote_data_ : option bool) (s : Store.t) :
  (forall e s1,
      getConnectionMetadataFromConnectionToken connection_token s
      = (Svc.Rejected e, s1) ->
      list_ connection_token query s
      = (Svc.Rejected (Svc.Error_ (Svc.toString e)), s1)
      /\ create_ unifiedFolderData connection_token remote_data_ s
         = (Svc.Rejected (Svc.Error_ (Svc.toString e)), s1)
      /\ (Svc.name e <> "" -> Svc.message e <> "" ->
          Svc.toString e = (Svc.name e ++ ": " ++ Svc.message e)%string))
  /\ (forall metadata s1,
         getConnectionMetadataFromConnectionToken connection_token s
         = (Svc.Resolved metadata, s1) ->
         list_ connection_token query s
         = getFolders (connectionId metadata) (remoteSource metadata)
                      (linkedUserId metadata) (limit query)
                      (remote_data query) (cursor query) s1
         /\ create_ unifiedFolderData connection_token remote_data_ s
            = addFolder unifiedFolderData (connectionId metadata)
                        (remoteSource metadata) (linkedUserId metadata)
                        remote_data_ s1).
Proof.
  unfold FolderController.list, FolderController.create, Svc.bind,
    Svc.catch, Svc.throw.
  split.
  - intros e s1 ->. split; [reflexivity|]. split; [reflexivity|].
    intros Hn Hm. unfold Svc.toString.
    apply String.eqb_neq in Hn, Hm. now rewrite Hn, Hm.
  - intros metadata s1 ->. split; reflexivity.
Qed.

End Facts.

End FolderExtra.

